(* ===== verification/_CoqProject ===== *)
-Q . S2P
Prelude.v
Protocol.v
GoStrings.v
GoNet.v
Float64.v
Relay.v
RelaySpecs.v
IPStrategy.v
HotPairTable.v
Config.v
Channels.v
ChannelQueue.v
ChannelRegistry.v
ServerState.v
ReverseListener.v
ReverseServer.v
ServerPool.v
Handlers.v
ServerSystem.v
HandlerSpecs.v
Outcome.v
ClientNet.v
ClientNetInv.v
ClientNetSpecs.v
ClientNetWaits.v
PairWarmer.v
PairWarmerInv.v
PairWarmerSpecs.v
PairWarmerQueue.v
ClientState.v
ClientPool.v
ClientReverse.v
ClientHandler.v
ClientDialer.v
ClientInv.v
ClientSystem.v
ClientSpecs.v
ClientDials.v
ClientSession.v
WSDialer.v
Facade.v
FacadeSpecs.v
ServerLife.v
