(* ===== verification/Prelude.v ===== *)
(** * xtunnel: a verified model of the multi-channel WebSocket tunnel

    xtunnel carries TCP and UDP connections over several WebSocket channels per
    client. A client opens numbered channels to the server; frames name the
    connection they belong to, and every direction of a connection settles on one
    channel: the first channel that delivers the connect request becomes the
    uplink, the client chooses the downlink. Warm "hot pairs" of channels skip that
    negotiation, and "reverse" connections run it the other way round.

    ** Files, in dependency order
    - [Prelude]: bytes, lengths, machine-width integers, Go slices, record update,
      generic lemmas and tactics ([len_lia], [quot_lia], the hint databases [xt]
      and [len]).
    - [Protocol] ([src/protocol/protocol.go], [errors.go]): the frame codec, the
      hot-pair notification, dial identifiers, error classification.
    - [GoStrings], [GoNet]: the functions of Go's [strings], [fmt], [strconv] and
      [net] that are used.
    - [Float64]: binary64 arithmetic and bounds of its results. [Relay]
      ([src/relay.go]): relay nodes, their scores, the choice of nodes, the load per
      node; [RelaySpecs]: every run of its operations ([relayStep]).
    - [IPStrategy] ([src/protocol/ip_strategy.go]): the address family of a target,
      resolution, the resolver's cache.
    - [HotPairTable] ([src/hotpair_table.go]): the server's table of warm pairs.
    - [Config] ([src/config.go], [src/server_config.go]): defaults and validation.
    - [Channels] ([src/connection.go] and the channel part of
      [src/server_pool.go]): write queues, the global queue counter, back-pressure,
      broadcast, admission and registration, as functions on the record [Net] and
      as the step relation [netStep]. [ChannelQueue] and [ChannelRegistry] hold its
      theorems.
    - [ServerState]: the whole pool [serverPool] (the maps of the code, and a heap
      for each kind of object that pointers keep alive) and its shared operations.
    - [ReverseListener] ([src/reverse_listener.go]), [ReverseServer]
      ([src/reverse_server.go]), [ServerPool] (clean-up, closing, writer, upgrade),
      [Handlers] ([src/handler.go], [handleMessage], [readLoop]).
    - [ServerSystem]: the step relation [poolStep] of all goroutines, the relation
      [poolLe] of what no step ever does, and the invariants of every run.
      [HandlerSpecs]: what the handlers achieve, and the races that were found.
    - [PairWarmer] ([src/pair_warmer.go]): the client's hot pairs, against the
      interface [WarmerPool] of the client pool; every locked region is a function
      and [runTurn] a turn of [Run]. [PairWarmerInv]: the invariant under the
      relation [warmerStep] of all locked regions. [PairWarmerSpecs],
      [PairWarmerQueue]: what the operations achieve.
    - [Outcome]: the monad [M] of operations that end, block for ever or panic.
    - [ClientNet] ([src/pool.go]): the queues, write workers, counters, back-pressure,
      sessions and shutdown of the client; [ClientNetInv] the accounting through any
      schedule, [ClientNetSpecs] and [ClientNetWaits] its theorems.
    - [ClientState]: the whole [clientPool], an instance of [WarmerPool]; a client
      [Client] is the warmer over this pool, as in the code, where each points to the
      other. [ClientPool] ([src/pool.go]): requests, [Unregister], clean-up.
      [ClientReverse] ([src/reverse.go]), [ClientHandler] ([handleChannel]),
      [ClientDialer] ([src/proxy_dialer.go]).
    - [ClientInv], [ClientSystem]: the step relation [clientStep] of all operations of
      pool and warmer, and its invariant. [ClientSpecs], [ClientDials]: what the
      operations achieve, and where they do not.
    - [ClientSession]: the loop that redials a channel ([dialAndServe]). [WSDialer]
      ([src/dialer.go]): the attempts of one dial and the request it makes.
    - [Facade] ([src/client.go], [src/server.go], [clientPool.Start]): creating,
      starting and stopping client ([XClient]) and server. [FacadeSpecs]: what a start
      sets up, and the life of a client as the relation [xStep]. [ServerLife]: the
      same for the server, over the runs of [poolStep].

    ** How the code is rendered
    A pointer is a key of a heap; a map entry is a key of a [gmap]; a mutated
    structure is a record passed through the functions. A handler runs to its end as
    one step; a goroutine is split where it blocks or releases the lock
    ([connectStart], [connectDialed], [connectFlush]; [closeBegin], [closeEnd];
    [dialStart], [dialFinish]), so that the interleavings that matter are runs of
    [poolStep]. The network decides nothing in the model: whether a dial, a write or
    an upgrade succeeds, what is read, fresh identifiers and the iteration order of
    maps are arguments of the steps. [n_now] is the clock.

    The client's operations may block in the middle of a call, on a paused or a full
    queue. What the other goroutines do to the network state meanwhile is a list of
    [netEvent] per blocking call; the lists are the field [cn_schedule], so that
    theorems about a state hold for every schedule. Between operations, and between
    the regions of the warmer, [clientStep] interleaves freely; the
    connection table does not change during a blocked write, and
    [late_fallback_releases_twice] shows what the code does when it does.

    Integers of the code are [Z], with [uint16], [uint32], [int32], [uint64] where
    the code converts or counts modulo a width.

    ** What the theorems show
    - [Protocol]: encoding and decoding are inverse, decoding is total, never
      panics, and accepts exactly the encodings.
    - [HotPairTable]: the operations refine a table of live entries.
    - [ChannelQueue], [ChannelRegistry]: exact accounting of queued bytes, delivery
      in order, termination of the mutual recursion between writing and
      back-pressure, hysteresis, limits, no hijacking of live channels.
    - [ServerSystem], [HandlerSpecs]: invariants of every reachable state, what a
      connection keeps for its whole life, isolation of clients, delivery of early
      data, clean-up.
    - [ReverseListener]: limits, no leaked proxy server, the specification parser.
    - [PairWarmerSpecs], [PairWarmerQueue]: the invariant of every interleaving, the
      life of a pair, acquiring, releasing, invalidating, the rematch,
      deduplication, trimming, and that a flushed notification makes the server's
      table answer with the pair's channels.
    - [IPStrategy]: the dialled address is the preferred one, cached answers are fresh.
    - [ClientNetSpecs], [ClientNetWaits]: exact accounting, merging of data frames
      preserves every stream, errors of a write, the end of a pause; writes that wait
      too long, leak or panic.
    - [ClientSystem]: references of pairs are the connections that hold them, the
      identifier tells the kind of a connection. [ClientSpecs], [ClientDials]: the
      recursion of [Unregister], one downlink per connection, warm-ups get two
      channels; a channel that hangs on closing, a pair released twice, dials without
      a channel. [ClientSession]: the waits between dials.
    - [RelaySpecs], [ClientSession]: the node a channel redials through, the nodes of a
      start, the range of scores, loads count live sessions. [WSDialer]: the attempts
      end, and the server understands the request. [FacadeSpecs], [ServerLife]: the
      channels of a started client, what survives a shutdown, starting again.

    ** Bounds and fuel
    [asyncWrite_fuel] runs with fuel 3 because a nested write only follows a raise of
    the back-pressure state and there are three states; [asyncWrite_unfold] proves
    that more fuel changes nothing. [decodeHotPairLoop] has the payload length as
    fuel, [trimLoop] the number of pairs plus one, [writerDrain] the queue length, [allocLoop] the 65535 numbers, [skipSpace]
    the string length, [unregisterF] the number of connections plus one
    ([Unregister_unfold] proves it enough), [dialAttempts] the three attempts,
    [decDigits] the bits of the number; each loop consumes at least one unit per turn.

    ** Not modelled
    Logging and event callbacks ([log_hook.go]); certificates ([cert.go]), the HTTPS
    server, TLS, ECH, URL parsing and the WebSocket handshake, whose outcomes are
    arguments; deadlines and pong handling; the timer of the relay tests; the wait of
    [shutdown] for the dialling goroutines. [sort.Slice] is the class [SliceSort] with
    its documented laws; a compiler that fuses multiplication and addition may round
    scores differently. The servers' and clients' resolver is an argument of the
    handlers; [ResolveWithStrategy] is one such argument.

    In the warmer the locked regions are atomic, and so is [ReleasePair], which the
    code splits between marking the pair Closed and taking the lock; creation times
    and the test-only functions are left out. *)

From Stdlib Require Export ZArith Lia.
From Stdlib Require Import Strings.Byte.
From stdpp Require Export base tactics numbers gmap fin_maps strings relations.
From stdpp Require Export list.

#[global] Open Scope Z_scope.

(** ** Go byte strings

    Go's [string] and [[]byte] are both finite sequences of bytes; the
    conversions [string(b)] and [[]byte(s)] copy the bytes. *)

Abbreviation byte := Corelib.Init.Byte.byte.
Abbreviation bytes := (list byte).

#[export] Instance byte_eq_dec : EqDecision byte := Byte.byte_eq_dec.

#[export] Program Instance byte_countable : Countable byte :=
  inj_countable Byte.to_N Byte.of_N _.
Next Obligation. intros x. apply Byte.of_to_N. Qed.

(** A string literal of the source, as bytes. *)
Definition lit (s : string) : bytes := String.list_byte_of_string s.

(** [len(b)] as a Go [int]. *)
Definition len {A} (b : list A) : Z := Z.of_nat (length b).
Arguments len {A} b : simpl never.

(** Conversion of an integer to [byte]/[uint8] (wraps) and back. *)
Definition byte_of_Z (z : Z) : byte :=
  match Byte.of_N (Z.to_N (z `mod` 256)) with Some b => b | None => x00 end.
Definition Z_of_byte (b : byte) : Z := Z.of_N (Byte.to_N b).

(** ** Machine-width conversions: [uint16(z)], [uint32(z)], [int32(z)]. *)
Definition uint16 (z : Z) : Z := z `mod` 2 ^ 16.
Definition uint32 (z : Z) : Z := z `mod` 2 ^ 32.
Definition int32 (z : Z) : Z := (z + 2 ^ 31) `mod` 2 ^ 32 - 2 ^ 31.

(** ** [encoding/binary] big-endian accessors. *)
Definition PutUint16 (v : Z) : bytes :=
  [byte_of_Z (Z.shiftr v 8); byte_of_Z v].
Definition PutUint32 (v : Z) : bytes :=
  [byte_of_Z (Z.shiftr v 24); byte_of_Z (Z.shiftr v 16);
   byte_of_Z (Z.shiftr v 8); byte_of_Z v].
(** The callers pass slices of at least 2 (resp. 4) bytes; Go would panic on
    less, and the definitions that use these take such slices with [slice]. *)
Definition Uint16 (b : bytes) : Z :=
  match b with
  | b0 :: b1 :: _ => Z.lor (Z_of_byte b1) (Z.shiftl (Z_of_byte b0) 8)
  | _ => 0
  end.
Definition Uint32 (b : bytes) : Z :=
  match b with
  | b0 :: b1 :: b2 :: b3 :: _ =>
      Z.lor (Z_of_byte b3) (Z.lor (Z.shiftl (Z_of_byte b2) 8)
        (Z.lor (Z.shiftl (Z_of_byte b1) 16) (Z.shiftl (Z_of_byte b0) 24)))
  | _ => 0
  end.

(** ** Slices

    [slice lo hi b] is Go's [b[lo:hi]]; [None] is the run-time panic of an
    out-of-range slice expression. *)
Definition slice {A} (lo hi : Z) (b : list A) : option (list A) :=
  if bool_decide (0 <= lo /\ lo <= hi /\ hi <= len b)
  then Some (take (Z.to_nat (hi - lo)) (drop (Z.to_nat lo) b))
  else None.

(** [b[i]], with the index panic as [None]. *)
Definition at_index {A} (i : Z) (b : list A) : option A :=
  if bool_decide (0 <= i) then b !! Z.to_nat i else None.

(** ** Functional record update

    [r <| f := v |>] and [r <| f ::= g |>] for records with an [Eta]
    instance (their eta expansion, from which the setter of a projection is
    computed). *)
Class Eta (R : Type) := eta : R -> R.
Class Setter {R T : Type} (proj : R -> T) := setter : (T -> T) -> R -> R.

Ltac derive_setter proj :=
  match type of proj with
  | ?R -> ?T =>
      let e := eval hnf in (@eta R _) in
      let p := eval pattern proj in e in
      match p with
      | ?F proj =>
          exact (fun (g : T -> T) (r : R) =>
                   ltac:(let body := eval cbv beta in (F (fun x => g (proj x)) r) in
                         exact body))
      end
  end.
#[export] Hint Extern 1 (Setter ?proj) => derive_setter proj : typeclass_instances.

Definition upd {R T} (proj : R -> T) {S : Setter proj} (g : T -> T) (r : R) : R :=
  setter g r.
Arguments upd {R T} proj {S} g r /.
Arguments setter {R T} proj {Setter} _ _ /.

Declare Scope go_scope.
Delimit Scope go_scope with go.
Notation "r <| f := v |>" := (upd f (fun _ => v) r)
  (at level 1, left associativity, f at level 0, v at level 200,
   format "r  <| f  :=  v |>") : go_scope.
Notation "r <| f ::= g |>" := (upd f g r)
  (at level 1, left associativity, f at level 0, g at level 200,
   format "r  <| f  ::=  g |>") : go_scope.
#[global] Open Scope go_scope.

(** ** Generic lemmas: lengths *)
Create HintDb xt.
Create Rewrite HintDb len.

Lemma len_nil {A} : len (@nil A) = 0.
Proof. done. Qed.
Lemma len_cons {A} (x : A) l : len (x :: l) = 1 + len l.
Proof. unfold len. simpl length. lia. Qed.
Lemma len_app {A} (l k : list A) : len (l ++ k) = len l + len k.
Proof. unfold len. rewrite length_app. lia. Qed.
Lemma len_nonneg {A} (l : list A) : 0 <= len l.
Proof. unfold len. lia. Qed.
Lemma len_take {A} n (l : list A) : len (take n l) = Z.of_nat n `min` len l.
Proof. unfold len. rewrite length_take. lia. Qed.
Lemma len_drop {A} n (l : list A) : len (drop n l) = 0 `max` (len l - Z.of_nat n).
Proof. unfold len. rewrite length_drop. lia. Qed.
Lemma to_nat_len {A} (l : list A) : Z.to_nat (len l) = length l.
Proof. unfold len. lia. Qed.
#[export] Hint Resolve len_nonneg : xt.
#[export] Hint Rewrite @len_nil @len_cons @len_app @len_take @len_drop
  @to_nat_len : len.

(** Normalise lengths and close the arithmetic that remains. *)
Ltac len_lia :=
  autorewrite with len in *;
  repeat match goal with
    | |- context [@len ?A ?l] =>
        lazymatch goal with
        | _ : 0 <= @len A l |- _ => fail
        | _ => pose proof (@len_nonneg A l)
        end
    | _ : context [@len ?A ?l] |- _ =>
        lazymatch goal with
        | _ : 0 <= @len A l |- _ => fail
        | _ => pose proof (@len_nonneg A l)
        end
    end; lia.

(** Linear arithmetic with Go's truncating division. *)
Ltac quot_lia := intros; Z.to_euclidean_division_equations; lia.

(** ** Bytes and big-endian integers *)
Lemma Z_of_byte_range b : 0 <= Z_of_byte b < 256.
Proof. unfold Z_of_byte. pose proof (Byte.to_N_bounded b). lia. Qed.

Lemma Z_of_byte_of_Z z : Z_of_byte (byte_of_Z z) = z `mod` 256.
Proof.
  unfold Z_of_byte, byte_of_Z.
  pose proof (Z.mod_pos_bound z 256).
  destruct (Byte.of_N (Z.to_N (z `mod` 256))) eqn:E.
  - apply Byte.to_of_N in E. rewrite E. lia.
  - apply Byte.of_N_None_iff in E. lia.
Qed.

Lemma Z_of_byte_inj b b' : Z_of_byte b = Z_of_byte b' -> b = b'.
Proof.
  unfold Z_of_byte. intros H%N2Z.inj.
  pose proof (Byte.of_to_N b) as E. rewrite H, Byte.of_to_N in E. congruence.
Qed.

Lemma byte_of_Z_of_byte b : byte_of_Z (Z_of_byte b) = b.
Proof.
  apply Z_of_byte_inj. rewrite Z_of_byte_of_Z.
  apply Z.mod_small, Z_of_byte_range.
Qed.

Lemma lor_shiftl a b n :
  0 <= n -> 0 <= a < 2 ^ n -> Z.lor a (Z.shiftl b n) = a + b * 2 ^ n.
Proof.
  intros Hn Ha. rewrite <- Z.shiftl_mul_pow2 by done.
  assert (Z.land a (Z.shiftl b n) = 0) as Hdisj.
  { apply Z.bits_inj'; intros i Hi. rewrite Z.bits_0, Z.land_spec.
    destruct (decide (i < n)) as [Hlt|Hge].
    - rewrite Z.shiftl_spec_low by lia. apply andb_false_r.
    - rewrite <- (Z.mod_small a (2 ^ n)) by done.
      rewrite Z.mod_pow2_bits_high by lia. done. }
  rewrite <- Z.lxor_lor by done. symmetry. by apply Z.add_nocarry_lxor.
Qed.

Lemma Uint16_eq b0 b1 l :
  Uint16 (b0 :: b1 :: l) = Z_of_byte b1 + 256 * Z_of_byte b0.
Proof.
  unfold Uint16. pose proof (Z_of_byte_range b1).
  rewrite lor_shiftl by lia. lia.
Qed.

Lemma Uint32_eq b0 b1 b2 b3 l :
  Uint32 (b0 :: b1 :: b2 :: b3 :: l)
  = Z_of_byte b3 + 2 ^ 8 * Z_of_byte b2 + 2 ^ 16 * Z_of_byte b1 + 2 ^ 24 * Z_of_byte b0.
Proof.
  unfold Uint32.
  pose proof (Z_of_byte_range b1). pose proof (Z_of_byte_range b2).
  pose proof (Z_of_byte_range b3).
  change 24 with (8 + 16). change 16 with (8 + 8).
  rewrite <- !Z.shiftl_shiftl, <- !Z.shiftl_lor by lia.
  rewrite !lor_shiftl by lia. cbn. lia.
Qed.

Lemma shiftr_byte v k : 0 <= k -> Z_of_byte (byte_of_Z (Z.shiftr v k)) = (v / 2 ^ k) `mod` 256.
Proof. intros. rewrite Z_of_byte_of_Z, Z.shiftr_div_pow2; done. Qed.

Lemma mod_pow_split v k n :
  0 <= k -> 0 <= n -> v `mod` 2 ^ (k + n) = v `mod` 2 ^ k + 2 ^ k * ((v / 2 ^ k) `mod` 2 ^ n).
Proof. intros. rewrite Z.pow_add_r, Z.rem_mul_r by lia. done. Qed.

Lemma Uint16_PutUint16 v l : Uint16 (PutUint16 v ++ l) = uint16 v.
Proof.
  unfold PutUint16; cbn [app]. rewrite Uint16_eq, shiftr_byte, Z_of_byte_of_Z by lia.
  unfold uint16. change 16 with (8 + 8). rewrite mod_pow_split by lia.
  change (2 ^ 8) with 256. lia.
Qed.

Lemma Uint32_PutUint32 v l : Uint32 (PutUint32 v ++ l) = uint32 v.
Proof.
  unfold PutUint32; cbn [app].
  rewrite Uint32_eq, !shiftr_byte, Z_of_byte_of_Z by lia. unfold uint32.
  change 32 with (8 + (8 + (8 + 8))).
  rewrite !mod_pow_split, !Z.div_div, <- !Z.pow_add_r by lia.
  change (8 + 8 + 8) with 24. change (8 + 8) with 16. change (2 ^ 8) with 256. lia.
Qed.

Lemma length_PutUint16 v : length (PutUint16 v) = 2%nat.
Proof. done. Qed.
Lemma length_PutUint32 v : length (PutUint32 v) = 4%nat.
Proof. done. Qed.
Lemma len_PutUint16 v : len (PutUint16 v) = 2.
Proof. done. Qed.
Lemma len_PutUint32 v : len (PutUint32 v) = 4.
Proof. done. Qed.
#[export] Hint Rewrite len_PutUint16 len_PutUint32 : len.

Lemma Uint16_range b : 0 <= Uint16 b < 2 ^ 16.
Proof.
  destruct b as [|b0 [|b1 l]]; [done..|]. rewrite Uint16_eq.
  pose proof (Z_of_byte_range b0). pose proof (Z_of_byte_range b1). lia.
Qed.

Lemma Uint32_range b : 0 <= Uint32 b < 2 ^ 32.
Proof.
  destruct b as [|b0 [|b1 [|b2 [|b3 l]]]]; [done..|]. rewrite Uint32_eq.
  pose proof (Z_of_byte_range b0). pose proof (Z_of_byte_range b1).
  pose proof (Z_of_byte_range b2). pose proof (Z_of_byte_range b3). lia.
Qed.

Lemma int32_id z : - 2 ^ 31 <= z < 2 ^ 31 -> int32 z = z.
Proof. intros. unfold int32. rewrite Z.mod_small; lia. Qed.

Lemma int32_range z : - 2 ^ 31 <= int32 z < 2 ^ 31.
Proof. unfold int32. pose proof (Z.mod_pos_bound (z + 2 ^ 31) (2 ^ 32)). lia. Qed.

Lemma uint32_id z : 0 <= z < 2 ^ 32 -> uint32 z = z.
Proof. intros. by apply Z.mod_small. Qed.

Lemma uint16_id z : 0 <= z < 2 ^ 16 -> uint16 z = z.
Proof. intros. by apply Z.mod_small. Qed.

(** ** Slices *)
Lemma slice_Some {A} lo hi (b : list A) :
  0 <= lo -> lo <= hi -> hi <= len b ->
  slice lo hi b = Some (take (Z.to_nat (hi - lo)) (drop (Z.to_nat lo) b)).
Proof. intros. unfold slice. by rewrite bool_decide_true. Qed.

Lemma slice_len {A} lo hi (b s : list A) : slice lo hi b = Some s -> len s = hi - lo.
Proof.
  unfold slice. case_bool_decide as H; [|done]. intros [= <-]. len_lia.
Qed.

(** The slice that a concatenation puts at a known offset. *)
Lemma slice_app {A} lo hi (pre mid post : list A) :
  lo = len pre -> hi = len pre + len mid -> slice lo hi (pre ++ mid ++ post) = Some mid.
Proof.
  intros -> ->. rewrite slice_Some by len_lia. f_equal.
  rewrite to_nat_len, drop_app_length.
  replace (Z.to_nat _) with (length mid) by (unfold len; lia).
  apply take_app_length.
Qed.

Lemma slice_app_end {A} lo hi (pre mid : list A) :
  lo = len pre -> hi = len pre + len mid -> slice lo hi (pre ++ mid) = Some mid.
Proof. intros. rewrite <- (app_nil_r mid) at 1. by apply slice_app. Qed.

Lemma at_index_app {A} i (pre : list A) x post :
  i = len pre -> at_index i (pre ++ x :: post) = Some x.
Proof.
  intros ->. unfold at_index. rewrite bool_decide_true by len_lia.
  rewrite to_nat_len. by rewrite list_lookup_middle.
Qed.

Lemma at_index_is_Some {A} i (l : list A) : 0 <= i < len l -> is_Some (at_index i l).
Proof.
  intros. unfold at_index. rewrite bool_decide_true by lia.
  apply lookup_lt_is_Some. unfold len in *. lia.
Qed.

(** ** Buffers: [make([]byte, n)] and [copy(buf[off:], src)] *)
Definition make_bytes (n : Z) : bytes := replicate (Z.to_nat n) x00.
Definition copy_at (off : Z) (src buf : bytes) : bytes :=
  let o := Z.to_nat off in
  take o buf ++ take (length buf - o) src ++ drop (o + length src) buf.

Lemma length_copy_at off src buf :
  0 <= off <= len buf -> length (copy_at off src buf) = length buf.
Proof.
  intros. unfold copy_at. rewrite !length_app, !length_take, length_drop.
  unfold len in *. lia.
Qed.

(** Filling the next part of a buffer whose first [len pre] bytes are done. *)
Lemma copy_at_fill pre src n m :
  len src <= n -> m = n - len src ->
  copy_at (len pre) src (pre ++ make_bytes n) = (pre ++ src) ++ make_bytes m.
Proof.
  intros Hn ->. unfold copy_at, make_bytes. rewrite to_nat_len.
  rewrite take_app_length, length_app, length_replicate, <- app_assoc. f_equal.
  rewrite take_ge by (unfold len in *; lia).
  rewrite drop_app_ge, drop_replicate by lia. do 2 f_equal. unfold len. lia.
Qed.

(** ** Durations, in nanoseconds *)
Definition Nanosecond : Z := 1.
Definition Millisecond : Z := 1000000.
Definition Second : Z := 1000 * Millisecond.
Definition Minute : Z := 60 * Second.

(** ** Step relations: rule induction for invariants *)
Lemma rtc_invariant {A} (R : relation A) (I : A -> Prop) :
  (forall x y, R x y -> I x -> I y) -> forall x y, rtc R x y -> I x -> I y.
Proof. intros HI x y. induction 1; eauto. Qed.

(** ** Sums over finite maps *)
Definition mapSum {K A} `{Countable K} (f : A -> Z) (m : gmap K A) : Z :=
  map_fold (fun _ x n => f x + n) 0 m.

Section MapSum.
Context {K A : Type} `{Countable K} (f : A -> Z).
Implicit Types (m : gmap K A).

Lemma mapSum_empty : mapSum f (∅ : gmap K A) = 0.
Proof. unfold mapSum. by rewrite map_fold_empty. Qed.

Lemma mapSum_insert m k x : m !! k = None -> mapSum f (<[k:=x]> m) = f x + mapSum f m.
Proof. intros. unfold mapSum. rewrite map_fold_insert_L; [done| |done]. intros; lia. Qed.

Lemma mapSum_delete m k x : m !! k = Some x -> mapSum f m = f x + mapSum f (delete k m).
Proof.
  intros Hk. rewrite <- (mapSum_insert (delete k m) k x) by apply lookup_delete_eq.
  by rewrite insert_delete_id.
Qed.

Lemma mapSum_replace m k x y :
  m !! k = Some x -> mapSum f (<[k:=y]> m) = mapSum f m - f x + f y.
Proof.
  intros Hk. rewrite <- insert_delete_eq, mapSum_insert by apply lookup_delete_eq.
  rewrite (mapSum_delete m k x Hk). lia.
Qed.

Lemma mapSum_alter m k g x :
  m !! k = Some x -> mapSum f (alter g k m) = mapSum f m - f x + f (g x).
Proof.
  intros Hk. rewrite <- (mapSum_replace m k x (g x) Hk). f_equal. apply map_eq. intros j.
  destruct (decide (j = k)) as [->|]; [by rewrite lookup_alter_eq, lookup_insert_eq, Hk|].
  by rewrite lookup_alter_ne, lookup_insert_ne.
Qed.

Lemma mapSum_nonneg m : (forall k x, m !! k = Some x -> 0 <= f x) -> 0 <= mapSum f m.
Proof.
  induction m as [|k x m Hk IH] using map_ind; intros Hf; [by rewrite mapSum_empty|].
  rewrite mapSum_insert by done. specialize (Hf k x) as Hx. rewrite lookup_insert_eq in Hx.
  assert (0 <= mapSum f m); [|specialize (Hx eq_refl); lia].
  apply IH. intros j y Hj. apply (Hf j y). rewrite lookup_insert_ne; [done|congruence].
Qed.

(** One value is at most the sum of non-negative ones. *)
Lemma mapSum_le m k x :
  (forall k x, m !! k = Some x -> 0 <= f x) -> m !! k = Some x -> f x <= mapSum f m.
Proof.
  intros Hf Hk. rewrite (mapSum_delete m k x Hk).
  assert (0 <= mapSum f (delete k m)); [|lia].
  apply mapSum_nonneg. intros j y [_ Hj]%lookup_delete_Some. by apply (Hf j y).
Qed.
End MapSum.

Lemma alter_none {K A} `{Countable K} (g : A -> A) (k : K) (m : gmap K A) :
  m !! k = None -> alter g k m = m.
Proof.
  intros Hk. apply map_eq. intros j. destruct (decide (j = k)) as [->|].
  - by rewrite lookup_alter_eq, Hk.
  - by rewrite lookup_alter_ne.
Qed.

Definition isSome {A} (o : option A) : bool := match o with Some _ => true | None => false end.
