(* ===== verification/Protocol.v ===== *)
(** The shared binary protocol ([protocol/protocol.go] and
    [protocol/errors.go]): the frame codec, the hot-pair notification codec,
    the hot-pair connection identifiers and the small string helpers.

    A slice expression that would panic at run time is [None] of [slice];
    [DecodeMessage] and [DecodeHotPairNotify] return [None] exactly when the
    code would panic (or, for the loop, run out of fuel), and the theorems show
    that they never do. *)

From S2P Require Import Prelude.

(** ** Message types ([MessageType] is a [uint8]) *)
Definition MsgTCPConnect : Z := 1.
Definition MsgTCPData : Z := 2.
Definition MsgTCPClose : Z := 3.
Definition MsgUDPConnect : Z := 4.
Definition MsgUDPData : Z := 5.
Definition MsgUDPClose : Z := 6.
Definition MsgConnStatus : Z := 7.
Definition MsgSelectUplink : Z := 8.
Definition MsgSelectDownlink : Z := 9.
Definition MsgBackpressure : Z := 10.
Definition MsgPrebindRequest : Z := 16.
Definition MsgChannelReset : Z := 17.
Definition MsgReverseListen : Z := 32.
Definition MsgReverseListenResult : Z := 33.
Definition MsgHotPairNotify : Z := 34.
Definition MsgHotPairBegin : Z := 35.

Definition BackpressureNormal : Z := 0.
Definition BackpressureSlowDown : Z := 1.
Definition BackpressurePause : Z := 2.

Definition StatusOK : Z := 0.
Definition StatusERR : Z := 1.

Definition PrebindTarget : bytes := lit "x-tunnel.prebind".
Definition hotPairKeyPrefix : bytes := lit "prebind-".
Definition hotPairConnIDSep : byte := byte_of_Z 46.

(** ** The frame codec *)
Definition headerLen : Z := 8.

(** [int(^uint(0) >> 1)] on a 64-bit platform. *)
Definition maxInt : Z := 2 ^ 63 - 1.

Definition EncodeMessage (t : Z) (connID meta payload : bytes) : bytes :=
  let connID := if 255 <? len connID then take 255 connID else connID in
  let buf := make_bytes (headerLen + len connID + len meta + len payload) in
  let buf := <[0%nat := byte_of_Z t]> buf in
  let buf := <[1%nat := byte_of_Z (len connID)]> buf in
  let buf := copy_at 2 (PutUint16 (uint16 (len meta))) buf in
  let buf := copy_at 4 (PutUint32 (uint32 (len payload))) buf in
  let off := headerLen in
  let buf := copy_at off connID buf in
  let off := off + len connID in
  let buf := copy_at off meta buf in
  let off := off + len meta in
  copy_at off payload buf.

(** The two errors [DecodeMessage] returns. *)
Inductive DecodeError := ErrFrameTooShort | ErrBadLength.

Record Frame := mkFrame {
  f_type : Z; f_connID : bytes; f_meta : bytes; f_payload : bytes }.

(** [None]: a slice expression panics. *)
Definition DecodeMessage (b : bytes) : option (DecodeError + Frame) :=
  if len b <? headerLen then Some (inl ErrFrameTooShort) else
  t ← at_index 0 b;
  b1 ← at_index 1 b;
  let idLen := Z_of_byte b1 in
  ml ← slice 2 4 b;
  let metaLen := Uint16 ml in
  pl ← slice 4 8 b;
  let payloadLen32 := Uint32 pl in
  let total := headerLen + idLen + metaLen + payloadLen32 in
  if (len b <? total) || (maxInt <? total) then Some (inl ErrBadLength) else
  let payloadLen := payloadLen32 in
  let off := headerLen in
  connID ← slice off (off + idLen) b;
  let off := off + idLen in
  meta ← slice off (off + metaLen) b;
  let off := off + metaLen in
  payload ← slice off (off + payloadLen) b;
  Some (inr (mkFrame (Z_of_byte t) connID meta payload)).

(** ** Hot pairs *)
Record HotPairInfo := mkHotPairInfo { hp_Key : bytes; hp_ChA : Z; hp_ChB : Z }.

#[export] Instance HotPairInfo_eq_dec : EqDecision HotPairInfo.
Proof. solve_decision. Defined.

Definition hotPairRecordFixedLen : Z := 1 + 4 + 4.

(** The record that the encoder appends for one entry. *)
Definition encodeHotPairRecord (e : HotPairInfo) : bytes :=
  byte_of_Z (len (hp_Key e)) :: hp_Key e
    ++ PutUint32 (uint32 (hp_ChA e)) ++ PutUint32 (uint32 (hp_ChB e)).

(** The entries the encoder keeps. *)
Definition hotPairEncodable (e : HotPairInfo) : bool :=
  negb ((len (hp_Key e) =? 0) || (255 <? len (hp_Key e))).

Fixpoint EncodeHotPairNotify (entries : list HotPairInfo) : bytes :=
  match entries with
  | [] => []
  | e :: rest =>
      if (len (hp_Key e) =? 0) || (255 <? len (hp_Key e))
      then EncodeHotPairNotify rest
      else encodeHotPairRecord e ++ EncodeHotPairNotify rest
  end.

(** The loop of [DecodeHotPairNotify] at offset [off]. *)
Fixpoint decodeHotPairLoop (fuel : nat) (payload : bytes) (off : Z)
    (out : list HotPairInfo) : option (list HotPairInfo) :=
  match fuel with
  | O => None
  | S fuel =>
      if negb (off <? len payload) then Some out else
      if len payload <? off + hotPairRecordFixedLen then Some out else
      kb ← at_index off payload;
      let keyLen := Z_of_byte kb in
      if (keyLen =? 0) || (len payload <? off + hotPairRecordFixedLen + keyLen)
      then Some out else
      key ← slice (off + 1) (off + 1 + keyLen) payload;
      a ← slice (off + 1 + keyLen) (off + 5 + keyLen) payload;
      b ← slice (off + 5 + keyLen) (off + 9 + keyLen) payload;
      decodeHotPairLoop fuel payload (off + (hotPairRecordFixedLen + keyLen))
        (out ++ [mkHotPairInfo key (Uint32 a) (Uint32 b)])
  end.

Definition DecodeHotPairNotify (payload : bytes) : option (list HotPairInfo) :=
  decodeHotPairLoop (S (length payload)) payload 0 [].

(** [strings.IndexByte] and [strings.HasPrefix]. *)
Fixpoint IndexByte (s : bytes) (c : byte) : Z :=
  match s with
  | [] => -1
  | x :: s' =>
      if bool_decide (x = c) then 0
      else let i := IndexByte s' c in if i <? 0 then -1 else i + 1
  end.

Definition HasPrefix (s prefix : bytes) : bool :=
  bool_decide (take (length prefix) s = prefix).

Definition HotPairConnID (key uniqueSuffix : bytes) : bytes :=
  if bool_decide (key = []) || bool_decide (uniqueSuffix = []) then []
  else key ++ [hotPairConnIDSep] ++ uniqueSuffix.

(** [None] is [ok = false]. *)
Definition SplitHotPairConnID (connID : bytes) : option (bytes * bytes) :=
  let idx := IndexByte connID hotPairConnIDSep in
  if (idx <=? 0) || (idx =? len connID - 1) then None else
  let key := take (Z.to_nat idx) connID in
  let suffix := drop (Z.to_nat (idx + 1)) connID in
  if negb (HasPrefix key hotPairKeyPrefix) then None else Some (key, suffix).

(** ** [errors.go] *)
Definition ShortID (id : bytes) : bytes :=
  if HasPrefix id (lit "prebind-") && (16 <=? len id) then take 16 id
  else if 8 <=? len id then take 8 id
  else id.

(** [for i := 0; i <= len(s)-len(substr); i++], from [i] with [n] rounds left. *)
Fixpoint findSubstringLoop (n : nat) (i : Z) (s substr : bytes) : bool :=
  match n with
  | O => false
  | S n =>
      if bool_decide (slice i (i + len substr) s = Some substr) then true
      else findSubstringLoop n (i + 1) s substr
  end.

Definition FindSubstring (s substr : bytes) : bool :=
  findSubstringLoop (Z.to_nat (len s - len substr + 1)) 0 s substr.

Definition ContainsString (s substr : bytes) : bool :=
  (len substr <=? len s) && FindSubstring s substr.

(** What [IsNormalCloseError] observes of a non-nil [error]: whether
    [errors.Is] finds [io.EOF] or [net.ErrClosed], the code of the
    [*websocket.CloseError] that [errors.As] finds, whether it finds a
    [net.Error] with [Timeout()], and the text of [Error()]. *)
Record GoError := mkGoError {
  err_isEOF : bool; err_isNetClosed : bool; err_closeCode : option Z;
  err_netTimeout : bool; err_text : bytes }.

Definition CloseNormalClosure : Z := 1000.
Definition CloseGoingAway : Z := 1001.
Definition CloseNoStatusReceived : Z := 1005.

Definition IsNormalCloseError (err : option GoError) : bool :=
  match err with
  | None => false
  | Some e =>
      if err_isEOF e || err_isNetClosed e then true else
      if match err_closeCode e with
         | Some c => (c =? CloseNormalClosure) || (c =? CloseGoingAway)
                     || (c =? CloseNoStatusReceived)
         | None => false
         end then true else
      if err_netTimeout e then true else
      ContainsString (err_text e) (lit "tls: bad record MAC")
      || ContainsString (err_text e) (lit "use of closed network connection")
      || ContainsString (err_text e) (lit "connection reset by peer")
      || ContainsString (err_text e) (lit "broken pipe")
      || ContainsString (err_text e) (lit "websocket: close sent")
  end.

(** * Theorems *)

(** ** The frame codec *)

(** The identifier that is actually encoded: at most 255 bytes. *)
Definition wireID (connID : bytes) : bytes := take 255 connID.

Lemma wireID_code connID :
  (if 255 <? len connID then take 255 connID else connID) = wireID connID.
Proof.
  unfold wireID. destruct (Z.ltb_spec 255 (len connID)); [done|].
  rewrite take_ge; [done|]. unfold len in *. lia.
Qed.

Lemma len_wireID connID : len (wireID connID) = 255 `min` len connID.
Proof. unfold wireID. len_lia. Qed.
#[export] Hint Rewrite len_wireID : len.

(** The buffer-filling encoder computes the concatenation of the fields. *)
Lemma EncodeMessage_fields t connID meta payload :
  EncodeMessage t connID meta payload
  = [byte_of_Z t; byte_of_Z (len (wireID connID))]
    ++ PutUint16 (uint16 (len meta)) ++ PutUint32 (uint32 (len payload))
    ++ wireID connID ++ meta ++ payload.
Proof.
  unfold EncodeMessage. rewrite wireID_code. set (id := wireID connID). unfold headerLen.
  assert (0 <= len id) by apply len_nonneg. assert (0 <= len meta) by apply len_nonneg.
  assert (0 <= len payload) by apply len_nonneg.
  set (n := len id + len meta + len payload).
  replace (8 + len id + len meta + len payload) with (2 + (6 + n)) by lia.
  assert (<[1%nat := byte_of_Z (len id)]> (<[0%nat := byte_of_Z t]> (make_bytes (2 + (6 + n))))
    = [byte_of_Z t; byte_of_Z (len id)] ++ make_bytes (6 + n)) as ->.
  { unfold make_bytes. replace (Z.to_nat (2 + (6 + n))) with (S (S (Z.to_nat (6 + n)))) by lia.
    done. }
  set (h0 := [byte_of_Z t; byte_of_Z (len id)]).
  rewrite (copy_at_fill h0 _ _ (4 + n)) by len_lia.
  set (h1 := h0 ++ _). change 4 with (len h1) at 1.
  rewrite (copy_at_fill h1 _ _ n) by len_lia.
  set (h2 := h1 ++ _). change 8 with (len h2).
  rewrite (copy_at_fill h2 _ _ (len meta + len payload)) by lia.
  replace (len h2 + len id) with (len (h2 ++ id)) by len_lia.
  rewrite (copy_at_fill _ _ _ (len payload)) by lia.
  replace (len (h2 ++ id) + len meta) with (len ((h2 ++ id) ++ meta)) by len_lia.
  rewrite (copy_at_fill _ _ _ 0) by lia.
  unfold make_bytes. simpl replicate. rewrite app_nil_r.
  unfold h2, h1. by rewrite <- !app_assoc.
Qed.

Lemma len_EncodeMessage t connID meta payload :
  len (EncodeMessage t connID meta payload)
  = headerLen + len (wireID connID) + len meta + len payload.
Proof. rewrite EncodeMessage_fields. unfold headerLen. len_lia. Qed.

(** A buffer that starts with a header and then holds the announced fields,
    and what the decoder reads at each offset. *)
Section FrameLayout.
Context (b0 b1 : byte) (h16 h32 id meta payload rest : bytes).
Context (H16 : len h16 = 2) (H32 : len h32 = 4).
Let b := [b0; b1] ++ h16 ++ h32 ++ id ++ meta ++ payload ++ rest.

Lemma frame_len : len b = 8 + len id + len meta + len payload + len rest.
Proof. unfold b. len_lia. Qed.
Lemma frame_b0 : at_index 0 b = Some b0.
Proof. done. Qed.
Lemma frame_b1 : at_index 1 b = Some b1.
Proof. done. Qed.
Lemma frame_h16 : slice 2 4 b = Some h16.
Proof. apply (slice_app _ _ [b0; b1]); len_lia. Qed.
Lemma frame_h32 : slice 4 8 b = Some h32.
Proof. unfold b. rewrite (app_assoc [b0; b1]). apply slice_app; len_lia. Qed.
Lemma frame_id : slice 8 (8 + len id) b = Some id.
Proof.
  unfold b. rewrite (app_assoc [b0; b1]), (app_assoc (_ ++ h16)).
  apply slice_app; len_lia.
Qed.
Lemma frame_meta : slice (8 + len id) (8 + len id + len meta) b = Some meta.
Proof.
  unfold b. rewrite (app_assoc [b0; b1]), (app_assoc (_ ++ h16)), (app_assoc (_ ++ h32)).
  apply slice_app; len_lia.
Qed.
Lemma frame_payload :
  slice (8 + len id + len meta) (8 + len id + len meta + len payload) b = Some payload.
Proof.
  unfold b. rewrite (app_assoc [b0; b1]), (app_assoc (_ ++ h16)), (app_assoc (_ ++ h32)),
    (app_assoc (_ ++ id)).
  apply slice_app; len_lia.
Qed.

(** Decoding returns the announced fields; what follows is ignored. *)
Lemma DecodeMessage_layout :
  len id = Z_of_byte b1 -> len meta = Uint16 h16 -> len payload = Uint32 h32 ->
  8 + len id + len meta + len payload <= maxInt ->
  DecodeMessage b = Some (inr (mkFrame (Z_of_byte b0) id meta payload)).
Proof.
  intros Hid Hmeta Hpay Hmax.
  pose proof frame_len as Hb. pose proof frame_id as Eid. pose proof frame_meta as Em.
  pose proof frame_payload as Ep. pose proof frame_h16 as E16. pose proof frame_h32 as E32.
  pose proof frame_b0 as E0. pose proof frame_b1 as E1.
  unfold DecodeMessage, headerLen. clearbody b. rewrite (proj2 (Z.ltb_ge _ _)) by len_lia.
  rewrite E0, E1, E16, E32. cbn [mbind option_bind]. rewrite <- Hid, <- Hmeta, <- Hpay.
  rewrite (proj2 (Z.ltb_ge (len b) _)) by len_lia.
  rewrite (proj2 (Z.ltb_ge maxInt _)) by len_lia. cbn [orb].
  rewrite Eid, Em, Ep. done.
Qed.
End FrameLayout.

(** What a frame carries after the length fields have wrapped: the header holds
    [len meta] modulo [2^16] and [len payload] modulo [2^32]. *)
Definition wireMeta (meta : bytes) : bytes := take (Z.to_nat (uint16 (len meta))) meta.
Definition wirePayload (meta payload : bytes) : bytes :=
  take (Z.to_nat (uint32 (len payload)))
    (drop (Z.to_nat (uint16 (len meta))) meta ++ payload).

Lemma wire_split meta payload :
  exists rest, meta ++ payload = wireMeta meta ++ wirePayload meta payload ++ rest
    /\ len (wireMeta meta) = uint16 (len meta)
    /\ len (wirePayload meta payload) = uint32 (len payload).
Proof.
  unfold wireMeta, wirePayload. set (k := Z.to_nat (uint16 (len meta))).
  set (n := Z.to_nat (uint32 (len payload))). exists (drop n (drop k meta ++ payload)).
  assert (0 <= uint16 (len meta) <= len meta).
  { unfold uint16. split; [apply Z.mod_pos_bound; lia|apply Z.mod_le; len_lia]. }
  assert (0 <= uint32 (len payload) <= len payload).
  { unfold uint32. split; [apply Z.mod_pos_bound; lia|apply Z.mod_le; len_lia]. }
  repeat split.
  - by rewrite take_drop, app_assoc, take_drop.
  - unfold k. len_lia.
  - unfold n, k. len_lia.
Qed.

(** Decoding an encoded frame, for arbitrary inputs: the identifier is cut to
    255 bytes and the type, meta and payload lengths wrap at their widths. *)
Lemma DecodeMessage_EncodeMessage_gen t connID meta payload :
  headerLen + len connID + len meta + len payload <= maxInt ->
  DecodeMessage (EncodeMessage t connID meta payload)
  = Some (inr (mkFrame (t `mod` 256) (wireID connID)
      (wireMeta meta) (wirePayload meta payload))).
Proof.
  intros Hmax. pose proof (len_EncodeMessage t connID meta payload) as Hlen.
  rewrite EncodeMessage_fields in *. rewrite <- (Z_of_byte_of_Z t).
  destruct (wire_split meta payload) as (rest & E & Hm & Hp). rewrite E in *.
  assert (0 <= len connID) by apply len_nonneg.
  pose proof (len_wireID connID) as Hid.
  apply DecodeMessage_layout; [done..| | | |].
  - rewrite Z_of_byte_of_Z, Z.mod_small; lia.
  - rewrite <- (app_nil_r (PutUint16 _)), Uint16_PutUint16, Hm. unfold uint16.
    by rewrite Z.mod_mod.
  - rewrite <- (app_nil_r (PutUint32 _)), Uint32_PutUint32, Hp. unfold uint32.
    by rewrite Z.mod_mod.
  - unfold headerLen in *. apply (f_equal len) in E. len_lia.
Qed.

Lemma wire_exact meta payload :
  len meta < 2 ^ 16 -> len payload < 2 ^ 32 ->
  wireMeta meta = meta /\ wirePayload meta payload = payload.
Proof.
  intros Hm Hp. assert (0 <= len meta) by apply len_nonneg.
  assert (0 <= len payload) by apply len_nonneg.
  unfold wireMeta, wirePayload. rewrite uint16_id, uint32_id, !to_nat_len by lia.
  rewrite take_ge, drop_ge by lia. split; [done|]. simpl. by rewrite take_ge by lia.
Qed.

(** A frame within the limits of the wire survives it. *)
Lemma DecodeMessage_EncodeMessage t connID meta payload :
  0 <= t < 256 -> len connID <= 255 -> len meta < 2 ^ 16 -> len payload < 2 ^ 32 ->
  DecodeMessage (EncodeMessage t connID meta payload)
  = Some (inr (mkFrame t connID meta payload)).
Proof.
  intros Ht Hid Hm Hp. rewrite DecodeMessage_EncodeMessage_gen.
  - destruct (wire_exact meta payload) as [-> ->]; [done..|].
    rewrite Z.mod_small by lia. unfold wireID. rewrite take_ge; [done|].
    unfold len in Hid. lia.
  - unfold headerLen, maxInt. assert (0 <= len connID) by apply len_nonneg. lia.
Qed.

(** C38: a frame whose fields fit their length fields survives the trip:
    decoding what [EncodeMessage] builds gives back type, identifier, meta and
    payload. *)
Theorem EncodeMessage_roundtrip t connID meta payload :
  0 <= t < 256 -> len connID <= 255 -> len meta < 2 ^ 16 -> len payload < 2 ^ 32 ->
  DecodeMessage (EncodeMessage t connID meta payload)
  = Some (inr (mkFrame t connID meta payload)).
Proof. apply DecodeMessage_EncodeMessage. Qed.

Lemma EncodeMessage_roundtrip_witness :
  DecodeMessage (EncodeMessage MsgTCPConnect (lit "id") (lit "m") (lit "payload"))
  = Some (inr (mkFrame MsgTCPConnect (lit "id") (lit "m") (lit "payload"))).
Proof. apply EncodeMessage_roundtrip; vm_compute; done. Defined.

Lemma split_header (b : bytes) :
  headerLen <= len b ->
  exists b0 b1 m0 m1 p0 p1 p2 p3 tl, b = b0 :: b1 :: m0 :: m1 :: p0 :: p1 :: p2 :: p3 :: tl.
Proof.
  unfold headerLen, len. intros H.
  do 8 (destruct b as [|? b]; [simpl in H; lia|]). eauto 10.
Qed.

(** Name the bytes an equation computes, with their range. *)
Ltac generalize_bytes :=
  repeat match goal with |- context [byte_of_Z ?z] =>
    let x := fresh "x" in
    set (x := byte_of_Z z) in *; pose proof (Z_of_byte_range x); clearbody x
  end.

Lemma PutUint16_Uint16 b0 b1 : PutUint16 (Uint16 [b0; b1]) = [b0; b1].
Proof.
  pose proof (Uint16_PutUint16 (Uint16 [b0; b1]) []) as H.
  rewrite (uint16_id (Uint16 [b0; b1])) in H by apply Uint16_range.
  unfold PutUint16 in *. cbn [app] in H. generalize_bytes. rewrite !Uint16_eq in H.
  pose proof (Z_of_byte_range b0). pose proof (Z_of_byte_range b1).
  repeat f_equal; apply Z_of_byte_inj; lia.
Qed.

Lemma PutUint32_Uint32 b0 b1 b2 b3 :
  PutUint32 (Uint32 [b0; b1; b2; b3]) = [b0; b1; b2; b3].
Proof.
  pose proof (Uint32_PutUint32 (Uint32 [b0; b1; b2; b3]) []) as H.
  rewrite (uint32_id (Uint32 [b0; b1; b2; b3])) in H by apply Uint32_range.
  unfold PutUint32 in *. cbn [app] in H. generalize_bytes. rewrite !Uint32_eq in H.
  pose proof (Z_of_byte_range b0). pose proof (Z_of_byte_range b1).
  pose proof (Z_of_byte_range b2). pose proof (Z_of_byte_range b3).
  repeat f_equal; apply Z_of_byte_inj; lia.
Qed.

(** The two outcomes of the decoder on a buffer that holds a whole header. *)
Section HeaderPresent.
Context (b0 b1 m0 m1 p0 p1 p2 p3 : byte) (tl : bytes).
Let b := b0 :: b1 :: m0 :: m1 :: p0 :: p1 :: p2 :: p3 :: tl.
Let idLen := Z_of_byte b1.
Let metaLen := Uint16 [m0; m1].
Let payLen := Uint32 [p0; p1; p2; p3].
Let total := headerLen + idLen + metaLen + payLen.

Lemma DecodeMessage_accepts :
  total <= len b -> total <= maxInt ->
  exists f rest, DecodeMessage b = Some (inr f)
    /\ b = EncodeMessage (f_type f) (f_connID f) (f_meta f) (f_payload f) ++ rest
    /\ 0 <= f_type f < 256 /\ len (f_connID f) <= 255 /\ len (f_meta f) < 2 ^ 16
    /\ len (f_payload f) < 2 ^ 32.
Proof.
  unfold total, headerLen. intros Hle Hmax.
  pose proof (Z_of_byte_range b1). pose proof (Uint16_range [m0; m1]).
  pose proof (Uint32_range [p0; p1; p2; p3]).
  assert (len b = 8 + len tl) as Hb by (unfold b; len_lia).
  set (id := take (Z.to_nat idLen) tl). set (tl1 := drop (Z.to_nat idLen) tl).
  set (meta := take (Z.to_nat metaLen) tl1). set (tl2 := drop (Z.to_nat metaLen) tl1).
  set (pay := take (Z.to_nat payLen) tl2). set (rest := drop (Z.to_nat payLen) tl2).
  assert (len id = idLen) as Hid by (unfold id; len_lia).
  assert (len tl1 = len tl - idLen) by (unfold tl1; len_lia).
  assert (len meta = metaLen) as Hm by (unfold meta; len_lia).
  assert (len tl2 = len tl1 - metaLen) by (unfold tl2; len_lia).
  assert (len pay = payLen) as Hp by (unfold pay; len_lia).
  assert (b = [b0; b1] ++ [m0; m1] ++ [p0; p1; p2; p3] ++ id ++ meta ++ pay ++ rest) as ->.
  { unfold b, pay, rest. rewrite take_drop. unfold meta, tl2. rewrite take_drop.
    unfold id, tl1. by rewrite take_drop. }
  eexists _, rest. split; [apply DecodeMessage_layout; done || lia|].
  cbn [f_type f_connID f_meta f_payload]. pose proof (Z_of_byte_range b0).
  split; [|subst idLen metaLen payLen; lia].
  rewrite EncodeMessage_fields. unfold wireID.
  rewrite (take_ge id) by (unfold len in *; lia). rewrite Hm, Hp, Hid.
  rewrite uint16_id, uint32_id by lia. unfold metaLen, payLen, idLen.
  rewrite PutUint16_Uint16, PutUint32_Uint32, !byte_of_Z_of_byte.
  by rewrite <- !app_assoc.
Qed.

Lemma DecodeMessage_rejects :
  len b < total \/ maxInt < total -> DecodeMessage b = Some (inl ErrBadLength).
Proof.
  assert (headerLen <= len b) as Hl by (unfold b, headerLen; len_lia).
  assert (at_index 0 b = Some b0) as E0 by done.
  assert (at_index 1 b = Some b1) as E1 by done.
  assert (slice 2 4 b = Some [m0; m1]) as E2
    by (apply (slice_app _ _ [b0; b1] [m0; m1]); done).
  assert (slice 4 8 b = Some [p0; p1; p2; p3]) as E4
    by (apply (slice_app _ _ [b0; b1; m0; m1] [p0; p1; p2; p3]); done).
  intros Hbad. unfold DecodeMessage, total, headerLen in *. clearbody b.
  rewrite (proj2 (Z.ltb_ge _ _)) by done. rewrite E0, E1, E2, E4.
  cbn [mbind option_bind]. fold idLen metaLen payLen.
  by assert ((len b <? 8 + idLen + metaLen + payLen)
    || (maxInt <? 8 + idLen + metaLen + payLen) = true) as -> by lia.
Qed.
End HeaderPresent.

(** What a decoded frame can hold. *)
Lemma DecodeMessage_bounds b f :
  DecodeMessage b = Some (inr f) ->
  0 <= f_type f < 256 /\ len (f_connID f) <= 255 /\ len (f_meta f) < 2 ^ 16
  /\ len (f_payload f) < 2 ^ 32.
Proof.
  intros Hd. destruct (Z.ltb_spec (len b) headerLen) as [Hs|Hl].
  { unfold DecodeMessage in Hd. by rewrite (proj2 (Z.ltb_lt _ _)) in Hd by done. }
  destruct (split_header b Hl) as (b0 & b1 & m0 & m1 & p0 & p1 & p2 & p3 & tl & ->).
  set (b := b0 :: _) in *.
  set (total := headerLen + Z_of_byte b1 + Uint16 [m0; m1] + Uint32 [p0; p1; p2; p3]).
  destruct (decide (total <= len b /\ total <= maxInt)) as [[Hle Hmax]|Hbad].
  - destruct (DecodeMessage_accepts b0 b1 m0 m1 p0 p1 p2 p3 tl Hle Hmax) as (g & rest & E & _ & H).
    fold b in E. rewrite Hd in E. by injection E as <-.
  - assert (len b < total \/ maxInt < total) as Hb by lia.
    pose proof (DecodeMessage_rejects b0 b1 m0 m1 p0 p1 p2 p3 tl Hb) as E. fold b in E. congruence.
Qed.

(** C39: on any input the decoder returns (no slice expression panics); it fails
    exactly when the buffer is shorter than a header or than the announced
    lengths, and a decoded frame re-encodes to a prefix of the buffer. *)
Theorem DecodeMessage_total_exact b :
  match DecodeMessage b with
  | None => False
  | Some (inl ErrFrameTooShort) => len b < headerLen
  | Some (inl ErrBadLength) =>
      headerLen <= len b /\
      let total := headerLen + Z_of_byte (nth 1 b (byte_of_Z 0))
                   + Uint16 (drop 2 b) + Uint32 (drop 4 b) in
      (len b < total \/ maxInt < total)
  | Some (inr f) =>
      exists rest, b = EncodeMessage (f_type f) (f_connID f) (f_meta f) (f_payload f) ++ rest
  end.
Proof.
  destruct (Z.ltb_spec (len b) headerLen) as [Hs|Hl].
  { unfold DecodeMessage. by rewrite (proj2 (Z.ltb_lt _ _)) by done. }
  destruct (split_header b Hl) as (b0 & b1 & m0 & m1 & p0 & p1 & p2 & p3 & tl & ->).
  set (b := b0 :: _) in *.
  set (total := headerLen + Z_of_byte b1 + Uint16 [m0; m1] + Uint32 [p0; p1; p2; p3]).
  destruct (decide (total <= len b /\ total <= maxInt)) as [[Hle Hmax]|Hbad].
  - destruct (DecodeMessage_accepts b0 b1 m0 m1 p0 p1 p2 p3 tl Hle Hmax) as (f & rest & E & Hr & _).
    fold b in E, Hr. rewrite E. by exists rest.
  - assert (len b < total \/ maxInt < total) as Hb by lia.
    pose proof (DecodeMessage_rejects b0 b1 m0 m1 p0 p1 p2 p3 tl Hb) as E.
    fold b in E. rewrite E. done.
Qed.

(** ** The hot-pair notification codec *)

(** What survives the wire of an entry: the key and the channels as [uint32]. *)
Definition wireHotPair (e : HotPairInfo) : HotPairInfo :=
  mkHotPairInfo (hp_Key e) (uint32 (hp_ChA e)) (uint32 (hp_ChB e)).

Lemma EncodeHotPairNotify_filter es :
  EncodeHotPairNotify es
  = EncodeHotPairNotify (filter (fun e => hotPairEncodable e = true) es).
Proof.
  induction es as [|e es IH]; [done|]. rewrite filter_cons. cbn [EncodeHotPairNotify].
  case_decide as E; unfold hotPairEncodable in E.
  - apply negb_true_iff in E. cbn [EncodeHotPairNotify]. by rewrite E, IH.
  - apply not_true_is_false, negb_false_iff in E. by rewrite E.
Qed.

Lemma hotPairEncodable_len e :
  hotPairEncodable e = true <-> 0 < len (hp_Key e) <= 255.
Proof. unfold hotPairEncodable. pose proof (len_nonneg (hp_Key e)). lia. Qed.

Lemma len_encodeHotPairRecord e :
  len (encodeHotPairRecord e) = hotPairRecordFixedLen + len (hp_Key e).
Proof. unfold encodeHotPairRecord, hotPairRecordFixedLen. len_lia. Qed.

(** One round of the decoding loop on a complete record. *)
Lemma decodeHotPairLoop_record fuel pre e post out :
  hotPairEncodable e = true ->
  decodeHotPairLoop (S fuel) (pre ++ encodeHotPairRecord e ++ post) (len pre) out
  = decodeHotPairLoop fuel ((pre ++ encodeHotPairRecord e) ++ post)
      (len (pre ++ encodeHotPairRecord e)) (out ++ [wireHotPair e]).
Proof.
  intros Hk%hotPairEncodable_len. pose proof (len_encodeHotPairRecord e) as Hr.
  rewrite (app_assoc pre). set (p := (pre ++ encodeHotPairRecord e) ++ post).
  assert (len p = len pre + 9 + len (hp_Key e) + len post) as Hp
    by (unfold p; rewrite !len_app, Hr; unfold hotPairRecordFixedLen; lia).
  set (k := byte_of_Z (len (hp_Key e))).
  assert (Z_of_byte k = len (hp_Key e)) as Hk'
    by (unfold k; rewrite Z_of_byte_of_Z, Z.mod_small; lia).
  set (a := PutUint32 (uint32 (hp_ChA e))). set (b := PutUint32 (uint32 (hp_ChB e))).
  assert (p = pre ++ k :: hp_Key e ++ a ++ b ++ post) as Ep.
  { unfold p, encodeHotPairRecord. by rewrite <- app_assoc, <- app_comm_cons, <- !app_assoc. }
  assert (at_index (len pre) p = Some k) as E0 by (rewrite Ep; by apply at_index_app).
  assert (slice (len pre + 1) (len pre + 1 + len (hp_Key e)) p = Some (hp_Key e)) as E1.
  { rewrite Ep, (cons_middle k pre). rewrite app_assoc. apply slice_app; len_lia. }
  assert (slice (len pre + 1 + len (hp_Key e)) (len pre + 5 + len (hp_Key e)) p = Some a) as E2.
  { rewrite Ep, (cons_middle k pre), app_assoc, app_assoc. apply slice_app; unfold a; len_lia. }
  assert (slice (len pre + 5 + len (hp_Key e)) (len pre + 9 + len (hp_Key e)) p = Some b) as E3.
  { rewrite Ep, (cons_middle k pre), app_assoc, app_assoc, app_assoc.
    apply slice_app; unfold a, b; len_lia. }
  pose proof (len_nonneg post). cbn [decodeHotPairLoop].
  unfold hotPairRecordFixedLen in *. change (1 + 4 + 4) with 9 in *.
  rewrite (proj2 (Z.ltb_lt (len pre) _)) by lia.
  rewrite (proj2 (Z.ltb_ge (len p) _)) by lia. cbn [negb].
  rewrite E0. cbn [mbind option_bind]. rewrite Hk'.
  assert ((len (hp_Key e) =? 0) || (len p <? len pre + 9 + len (hp_Key e)) = false)
    as -> by lia.
  rewrite E1, E2, E3. cbn [mbind option_bind]. f_equal; [rewrite len_app, Hr; lia|].
  unfold a, b, wireHotPair. rewrite <- (app_nil_r (PutUint32 (uint32 (hp_ChA e)))),
    <- (app_nil_r (PutUint32 (uint32 (hp_ChB e)))), !Uint32_PutUint32.
  unfold uint32. by rewrite !Z.mod_mod.
Qed.

(** [p] does not start with a complete record. *)
Definition incompleteRecord (p : bytes) : Prop :=
  len p < hotPairRecordFixedLen \/
  exists k tl, p = k :: tl /\
    (Z_of_byte k = 0 \/ len p < hotPairRecordFixedLen + Z_of_byte k).

Lemma decodeHotPairLoop_stop fuel pre p out :
  incompleteRecord p -> decodeHotPairLoop (S fuel) (pre ++ p) (len pre) out = Some out.
Proof.
  intros Hp. cbn [decodeHotPairLoop]. unfold hotPairRecordFixedLen in *.
  change (1 + 4 + 4) with 9 in *.
  destruct (Z.ltb_spec (len pre) (len (pre ++ p))); cbn [negb]; [|done].
  destruct (Z.ltb_spec (len (pre ++ p)) (len pre + 9)); [done|].
  destruct Hp as [Hp|(k & tl & -> & Hk)];
    [unfold hotPairRecordFixedLen in *; len_lia|].
  rewrite at_index_app by done. cbn [mbind option_bind].
  assert ((Z_of_byte k =? 0) || (len (pre ++ k :: tl) <? len pre + 9 + Z_of_byte k) = true)
    as ->; [|done].
  unfold hotPairRecordFixedLen in *. len_lia.
Qed.

(** A non-empty proper prefix of a record is an incomplete record. *)
Lemma take_record_incomplete n e :
  hotPairEncodable e = true -> Z.of_nat n < len (encodeHotPairRecord e) ->
  incompleteRecord (take n (encodeHotPairRecord e)).
Proof.
  intros Hk%hotPairEncodable_len Hn. rewrite len_encodeHotPairRecord in Hn.
  destruct n as [|n]; [left; done|]. right.
  eexists _, _. split; [done|]. right.
  rewrite Z_of_byte_of_Z, Z.mod_small by lia.
  change (byte_of_Z (len (hp_Key e)) :: ?tl) with (take (S n) (encodeHotPairRecord e)).
  unfold hotPairRecordFixedLen in *. rewrite len_take. lia.
Qed.

Lemma decodeHotPairLoop_EncodeHotPairNotify es :
  Forall (fun e => hotPairEncodable e = true) es ->
  forall fuel pre p out, (length es < fuel)%nat -> incompleteRecord p ->
  decodeHotPairLoop fuel (pre ++ EncodeHotPairNotify es ++ p) (len pre) out
  = Some (out ++ (wireHotPair <$> es)).
Proof.
  induction 1 as [|e es He _ IH]; intros fuel pre p out Hf Hp;
    (destruct fuel as [|fuel]; [cbn in Hf; lia|]).
  - rewrite app_nil_r. by apply decodeHotPairLoop_stop.
  - cbn [EncodeHotPairNotify].
    assert ((len (hp_Key e) =? 0) || (255 <? len (hp_Key e)) = false) as ->
      by (apply hotPairEncodable_len in He; lia).
    rewrite <- app_assoc, decodeHotPairLoop_record by done.
    rewrite IH; [|cbn in Hf; lia|done]. by rewrite <- app_assoc.
Qed.

Lemma length_EncodeHotPairNotify es :
  Forall (fun e => hotPairEncodable e = true) es ->
  (length es <= length (EncodeHotPairNotify es))%nat.
Proof.
  induction 1 as [|e es He _ IH]; [done|]. cbn [EncodeHotPairNotify length].
  assert ((len (hp_Key e) =? 0) || (255 <? len (hp_Key e)) = false) as ->
    by (apply hotPairEncodable_len in He; lia).
  rewrite length_app. cbn [length encodeHotPairRecord]. lia.
Qed.

(** decoding an encoded notification returns the encodable entries, in
    order, with their channels as [uint32], whatever truncated record follows. *)
Theorem HotPairNotify_roundtrip es e n :
  hotPairEncodable e = true -> Z.of_nat n < len (encodeHotPairRecord e) ->
  DecodeHotPairNotify (EncodeHotPairNotify es ++ take n (encodeHotPairRecord e))
  = Some (wireHotPair <$> filter (fun e => hotPairEncodable e = true) es).
Proof.
  intros He Hn. rewrite EncodeHotPairNotify_filter.
  set (fs := filter _ es). assert (Forall (fun e => hotPairEncodable e = true) fs) as Hfs
    by (apply list.Forall_forall; by intros x [? _]%list_elem_of_filter).
  pose proof (length_EncodeHotPairNotify fs Hfs).
  unfold DecodeHotPairNotify.
  apply (decodeHotPairLoop_EncodeHotPairNotify fs Hfs _ []).
  - rewrite length_app. lia.
  - by apply take_record_incomplete.
Qed.

Lemma HotPairNotify_roundtrip_witness :
  let e1 := mkHotPairInfo (lit "prebind-a") 1 2 in
  let e2 := mkHotPairInfo (lit "") 3 4 in
  let e3 := mkHotPairInfo (lit "prebind-b") 5 6 in
  DecodeHotPairNotify (EncodeHotPairNotify [e1; e2] ++ take 7 (encodeHotPairRecord e3))
  = Some [e1].
Proof. intros e1 e2 e3. refine (HotPairNotify_roundtrip [e1; e2] e3 7 _ _); by vm_compute. Defined.

Lemma complete_or_incomplete p :
  (exists e post, hotPairEncodable e = true /\ wireHotPair e = e
     /\ p = encodeHotPairRecord e ++ post) \/ incompleteRecord p.
Proof.
  destruct (decide (len p < hotPairRecordFixedLen)) as [?|Hl]; [by right; left|].
  unfold hotPairRecordFixedLen in *. change (1 + 4 + 4) with 9 in *.
  destruct p as [|k tl]; [len_lia|]. rewrite len_cons in Hl.
  pose proof (Z_of_byte_range k).
  destruct (decide (Z_of_byte k = 0 \/ 1 + len tl < 9 + Z_of_byte k)) as [?|Hk].
  { right; right. exists k, tl. by rewrite len_cons. }
  left. set (n := Z.to_nat (Z_of_byte k)). set (key := take n tl).
  assert (len key = Z_of_byte k) as Hkey by (unfold key, n; len_lia).
  assert (len (drop n tl) = len tl - Z_of_byte k) as Hd by (unfold n; len_lia).
  destruct (drop n tl) as [|a0 [|a1 [|a2 [|a3 [|b0 [|b1 [|b2 [|b3 post]]]]]]]] eqn:E;
    rewrite ?len_cons, ?len_nil in Hd; try lia.
  exists (mkHotPairInfo key (Uint32 [a0; a1; a2; a3]) (Uint32 [b0; b1; b2; b3])), post.
  pose proof (Uint32_range [a0; a1; a2; a3]). pose proof (Uint32_range [b0; b1; b2; b3]).
  repeat split.
  - apply hotPairEncodable_len. cbn [hp_Key]. lia.
  - unfold wireHotPair. cbn [hp_Key hp_ChA hp_ChB]. by rewrite !uint32_id by done.
  - unfold encodeHotPairRecord. cbn [hp_Key hp_ChA hp_ChB].
    rewrite !uint32_id, !PutUint32_Uint32, Hkey, byte_of_Z_of_byte by done.
    cbn [app]. f_equal. rewrite <- app_assoc. cbn [app]. rewrite <- E.
    unfold key. by rewrite take_drop.
Qed.

Lemma decodeHotPairLoop_exact fuel : forall pre p out,
  (length p < fuel)%nat ->
  exists es rest, decodeHotPairLoop fuel (pre ++ p) (len pre) out = Some (out ++ es)
    /\ p = EncodeHotPairNotify es ++ rest /\ incompleteRecord rest
    /\ Forall (fun e => hotPairEncodable e = true /\ wireHotPair e = e) es.
Proof.
  induction fuel as [|fuel IH]; intros pre p out Hf; [lia|].
  destruct (complete_or_incomplete p) as [(e & post & He & Hw & ->)|Hp].
  - rewrite decodeHotPairLoop_record, Hw by done.
    destruct (IH (pre ++ encodeHotPairRecord e) post (out ++ [e])) as (es & rest & -> & -> & Hr & Hes).
    { rewrite length_app in Hf. cbn [length encodeHotPairRecord] in Hf. lia. }
    exists (e :: es), rest. rewrite <- app_assoc. repeat split; [|done|by constructor].
    cbn [EncodeHotPairNotify].
    assert ((len (hp_Key e) =? 0) || (255 <? len (hp_Key e)) = false) as ->
      by (apply hotPairEncodable_len in He; lia).
    by rewrite <- app_assoc.
  - exists [], p. rewrite decodeHotPairLoop_stop, app_nil_r by done. by repeat split.
Qed.

(** [DecodeHotPairNotify] terminates without a panic on any payload, and the
    entries it returns re-encode to the prefix of the payload that holds
    complete records; only a truncated (or zero-length-key) tail is dropped. *)
Theorem DecodeHotPairNotify_total_exact payload :
  exists es rest, DecodeHotPairNotify payload = Some es
    /\ payload = EncodeHotPairNotify es ++ rest /\ incompleteRecord rest
    /\ Forall (fun e => hotPairEncodable e = true) es.
Proof.
  destruct (decodeHotPairLoop_exact (S (length payload)) [] payload [])
    as (es & rest & Hd & Hp & Hr & Hes); [lia|].
  exists es, rest. repeat split; [done..|]. clear Hd Hp. by induction Hes as [|? ? []]; constructor.
Qed.

(** ** Hot-pair connection identifiers *)

Lemma IndexByte_spec c s :
  (IndexByte s c = -1 /\ (c ∉ s)) \/
  exists pre post, s = pre ++ c :: post /\ (c ∉ pre) /\ IndexByte s c = len pre.
Proof.
  induction s as [|x s IH]; [left; split; [done|set_solver]|].
  cbn [IndexByte]. case_bool_decide as Hx.
  - subst x. right. exists [], s. split_and!; [done|set_solver|done].
  - destruct IH as [[-> ?]|(pre & post & -> & ? & ->)].
    + left. split; [done|]. apply not_elem_of_cons. split; congruence.
    + right. exists (x :: pre), post.
      split_and!; [done|apply not_elem_of_cons; split; congruence|].
      rewrite len_cons. assert (0 <= len pre) by apply len_nonneg.
      destruct (Z.ltb_spec (len pre) 0); lia.
Qed.

Lemma IndexByte_middle c pre post : c ∉ pre -> IndexByte (pre ++ c :: post) c = len pre.
Proof.
  induction pre as [|x pre IH]; intros Hc; cbn [IndexByte app].
  - by rewrite bool_decide_true.
  - apply not_elem_of_cons in Hc as [Hx Hc]. rewrite bool_decide_false by done.
    rewrite IH, len_cons by done. assert (0 <= len pre) by apply len_nonneg.
    destruct (Z.ltb_spec (len pre) 0); lia.
Qed.

Lemma HasPrefix_spec s p : HasPrefix s p = true <-> exists rest, s = p ++ rest.
Proof.
  unfold HasPrefix. rewrite bool_decide_eq_true. split.
  - intros E. exists (drop (length p) s). by rewrite <- E at 1; rewrite take_drop.
  - intros [rest ->]. apply take_app_length.
Qed.

Lemma drop_after {A} (pre : list A) c post :
  drop (Z.to_nat (len pre + 1)) (pre ++ c :: post) = post.
Proof.
  replace (Z.to_nat (len pre + 1)) with (length pre + 1)%nat by (unfold len; lia).
  by rewrite drop_app_add.
Qed.

Lemma split_combined key suffix :
  HasPrefix key hotPairKeyPrefix = true -> hotPairConnIDSep ∉ key -> suffix <> [] ->
  SplitHotPairConnID (HotPairConnID key suffix) = Some (key, suffix).
Proof.
  intros Hp Hs Hsuf. assert (key <> []) as Hk.
  { apply HasPrefix_spec in Hp as [? ->]. by vm_compute. }
  unfold HotPairConnID. rewrite !bool_decide_false by done. cbn [orb app].
  unfold SplitHotPairConnID. rewrite IndexByte_middle by done.
  assert (0 < len key) by (destruct key; [done|len_lia]).
  assert (0 < len suffix) by (destruct suffix; [done|len_lia]).
  assert ((len key <=? 0) || (len key =? len (key ++ hotPairConnIDSep :: suffix) - 1) = false)
    as -> by len_lia.
  rewrite to_nat_len, take_app_length, Hp. cbn [negb].
  by rewrite drop_after.
Qed.

(** splitting a combined dial identifier gives back the pair key and the
    unique suffix, for a key of the warm-up form (prefix, no separator). *)
Theorem SplitHotPairConnID_roundtrip key suffix :
  HasPrefix key hotPairKeyPrefix = true -> hotPairConnIDSep ∉ key -> suffix <> [] ->
  SplitHotPairConnID (HotPairConnID key suffix) = Some (key, suffix).
Proof. apply split_combined. Qed.

Lemma SplitHotPairConnID_roundtrip_witness :
  SplitHotPairConnID (HotPairConnID (lit "prebind-7") (lit "u")) = Some (lit "prebind-7", lit "u").
Proof.
  apply SplitHotPairConnID_roundtrip; [by vm_compute| |by vm_compute].
  by apply (bool_decide_unpack _).
Defined.

(** [SplitHotPairConnID] accepts exactly the identifiers of the form
    key, separator, non-empty suffix, with the warm-up prefix and the first
    separator right after the key. *)
Theorem SplitHotPairConnID_spec connID key suffix :
  SplitHotPairConnID connID = Some (key, suffix) <->
  connID = key ++ hotPairConnIDSep :: suffix /\ (hotPairConnIDSep ∉ key)
  /\ suffix <> [] /\ HasPrefix key hotPairKeyPrefix = true.
Proof.
  split.
  - unfold SplitHotPairConnID. intros H.
    destruct (IndexByte_spec hotPairConnIDSep connID) as [[E _]|(pre & post & -> & Hpre & E)];
      rewrite E in H; [done|].
    destruct ((len pre <=? 0) || _) eqn:Eb in H; [done|].
    apply orb_false_iff in Eb as [Eb1 Eb2]. rewrite to_nat_len, take_app_length in H.
    destruct (HasPrefix pre hotPairKeyPrefix) eqn:Ep; cbn [negb] in H; [|done].
    rewrite drop_after in H. simplify_eq.
    split_and!; [done|done| |done]. intros ->. apply Z.eqb_neq in Eb2. len_lia.
  - intros (-> & Hk & Hs & Hp). assert (HotPairConnID key suffix = key ++ hotPairConnIDSep :: suffix) as <-.
    { unfold HotPairConnID.
      rewrite (bool_decide_false (key = [])) by (intros ->; by vm_compute in Hp).
      by rewrite bool_decide_false. }
    by apply split_combined.
Qed.

(** ** String helpers *)

Lemma findSubstringLoop_spec n : forall i s sub,
  0 <= i ->
  findSubstringLoop n i s sub = true <->
  exists k, i <= k < i + Z.of_nat n /\ slice k (k + len sub) s = Some sub.
Proof.
  induction n as [|n IH]; intros i s sub Hi; cbn [findSubstringLoop].
  { split; [done|]. intros (k & ? & _). lia. }
  case_bool_decide as E.
  - split; [|done]. intros _. exists i. split; [lia|done].
  - rewrite IH by lia. split; intros (k & Hk & Hs); exists k; (split; [|done]).
    + lia.
    + destruct (decide (k = i)) as [->|]; [done|lia].
Qed.

(** [ContainsString] decides the sub-string relation. *)
Theorem ContainsString_spec s sub :
  ContainsString s sub = true <-> exists pre post, s = pre ++ sub ++ post.
Proof.
  unfold ContainsString, FindSubstring. rewrite andb_true_iff, findSubstringLoop_spec, Z.leb_le by lia.
  split.
  - intros (Hle & k & Hk & Hs). unfold slice in Hs. case_bool_decide as Hb; [|done].
    injection Hs as Hs.
    exists (take (Z.to_nat k) s), (drop (length sub) (drop (Z.to_nat k) s)).
    replace (Z.to_nat (k + len sub - k)) with (length sub) in Hs by (unfold len; lia).
    rewrite <- Hs at 1. by rewrite take_drop, take_drop.
  - intros (pre & post & ->). split; [len_lia|]. exists (len pre).
    split; [len_lia|]. apply slice_app; done.
Qed.
