(* ===== verification/GoStrings.v ===== *)
(** The parts of Go's [strings] and [fmt] packages that the program uses on byte
    strings: [TrimPrefix], [Contains] and [SplitN(s, sep, 2)] for a one-byte
    separator, and [Sscanf] and [Sprintf] with the format ["%d"]. *)

From S2P Require Import Prelude Protocol.

(** ** [strings] *)
Definition TrimPrefix (s prefix : bytes) : bytes :=
  if HasPrefix s prefix then drop (length prefix) s else s.

Definition ContainsByte (s : bytes) (c : byte) : bool := 0 <=? IndexByte s c.

(** [strings.SplitN(s, string(c), 2)]: one part when [c] does not occur. *)
Definition SplitN2 (s : bytes) (c : byte) : bytes * option bytes :=
  let i := IndexByte s c in
  if i <? 0 then (s, None)
  else (take (Z.to_nat i) s, Some (drop (S (Z.to_nat i)) s)).

(** ** [fmt.Sscanf] with the format ["%d"]

    Leading white space is skipped (a line break is an error), then an optional
    sign, then at least one decimal digit; what follows is ignored.  The number
    must fit an [int]. *)
Definition isDigit (b : byte) : bool := (48 <=? Z_of_byte b) && (Z_of_byte b <=? 57).

Fixpoint scanDigits (acc : Z) (s : bytes) : Z :=
  match s with
  | b :: s => if isDigit b then scanDigits (10 * acc + (Z_of_byte b - 48)) s else acc
  | [] => acc
  end.

(** The UTF-8 encodings of the white-space runes that are not line breaks. *)
Definition spaceRunes : list bytes :=
  map (map byte_of_Z)
    ([[9]; [11]; [12]; [13]; [32]; [194; 133]; [194; 160]; [225; 154; 128]]
     ++ map (fun i => [226; 128; 128 + Z.of_nat i]) (seq 0 11)
     ++ [[226; 128; 168]; [226; 128; 169]; [226; 128; 175]; [226; 129; 159]; [227; 128; 128]]).

Fixpoint stripSpace (runes : list bytes) (s : bytes) : option bytes :=
  match runes with
  | r :: runes => if HasPrefix s r then Some (drop (length r) s) else stripSpace runes s
  | [] => None
  end.

(** [None]: a line break was met. *)
Fixpoint skipSpace (fuel : nat) (s : bytes) : option bytes :=
  match fuel with
  | O => Some s
  | S fuel =>
      if HasPrefix s [byte_of_Z 10] || HasPrefix s [byte_of_Z 13; byte_of_Z 10] then None
      else match stripSpace spaceRunes s with
           | Some s => skipSpace fuel s
           | None => Some s
           end
  end.

Definition scanInt (s : bytes) : option Z :=
  let '(neg, s) :=
    match s with
    | b :: s' => if Z_of_byte b =? 43 then (false, s')
                 else if Z_of_byte b =? 45 then (true, s') else (false, s)
    | [] => (false, s)
    end in
  match s with
  | b :: _ =>
      if isDigit b then
        let n := if neg then - scanDigits 0 s else scanDigits 0 s in
        if (- 2 ^ 63 <=? n) && (n <? 2 ^ 63) then Some n else None
      else None
  | [] => None
  end.

(** [None] is a non-nil error. *)
Definition SscanfD (s : bytes) : option Z := skipSpace (length s) s ≫= scanInt.

(** [fmt.Sprintf] with [%d]. *)
Fixpoint decDigits (fuel : nat) (n : Z) (acc : bytes) : bytes :=
  match fuel with
  | O => acc
  | S fuel =>
      let acc := byte_of_Z (48 + n mod 10) :: acc in
      if n <? 10 then acc else decDigits fuel (n / 10) acc
  end.
Definition SprintfD (n : Z) : bytes :=
  let digits n := decDigits (S (Z.to_nat (Z.log2 n))) n [] in
  if n <? 0 then byte_of_Z 45 :: digits (- n) else digits n.

(** ** Lemmas *)
Lemma SplitN2_absent s c : (c ∉ s) -> SplitN2 s c = (s, None).
Proof.
  intros Hc. unfold SplitN2.
  destruct (IndexByte_spec c s) as [[-> _]|(pre & post & -> & _ & _)]; [done|set_solver].
Qed.

Lemma SplitN2_present pre c post : (c ∉ pre) -> SplitN2 (pre ++ c :: post) c = (pre, Some post).
Proof.
  intros Hc. unfold SplitN2. rewrite IndexByte_middle by done.
  pose proof (len_nonneg pre). destruct (Z.ltb_spec (len pre) 0); [lia|].
  rewrite to_nat_len, take_app_length.
  replace (S (length pre)) with (length pre + 1)%nat by lia. by rewrite drop_app_add.
Qed.

Lemma ContainsByte_true s c : ContainsByte s c = true <-> c ∈ s.
Proof.
  unfold ContainsByte. rewrite Z.leb_le.
  destruct (IndexByte_spec c s) as [[-> ?]|(pre & post & -> & _ & ->)].
  - split; [lia|done].
  - split; intros; [set_solver|apply len_nonneg].
Qed.

Lemma ContainsByte_false s c : ContainsByte s c = false <-> (c ∉ s).
Proof. rewrite <- ContainsByte_true. by destruct (ContainsByte s c). Qed.

Lemma TrimPrefix_app p s : TrimPrefix (p ++ s) p = s.
Proof.
  unfold TrimPrefix. assert (HasPrefix (p ++ s) p = true) as ->
    by (apply HasPrefix_spec; eauto). apply drop_app_length.
Qed.

Lemma scanInt_range s n : scanInt s = Some n -> - 2 ^ 63 <= n < 2 ^ 63.
Proof. unfold scanInt. intros. repeat case_match; simplify_eq; lia. Qed.

(** ** Decimal numbers *)
Lemma digit_byte d : 0 <= d < 10 -> isDigit (byte_of_Z (48 + d)) = true /\ Z_of_byte (byte_of_Z (48 + d)) = 48 + d.
Proof.
  intros H. assert (Z_of_byte (byte_of_Z (48 + d)) = 48 + d) as E by (rewrite Z_of_byte_of_Z, Z.mod_small; lia).
  split; [|done]. unfold isDigit. rewrite E. apply andb_true_intro. split; lia.
Qed.

Lemma scanDigits_decDigits fuel : forall n acc,
  0 <= n < 10 ^ Z.of_nat fuel -> (0 < fuel)%nat -> scanDigits 0 (decDigits fuel n acc) = scanDigits n acc.
Proof.
  induction fuel as [|fuel IH]; intros n acc Hn Hf; [lia|]. cbn [decDigits].
  destruct (digit_byte (n mod 10)) as [Hd Eb]; [apply Z.mod_pos_bound; lia|].
  destruct (Z.ltb_spec n 10) as [Hlt|Hge].
  - cbn [scanDigits]. rewrite Hd, Eb, Z.mod_small by lia. f_equal. lia.
  - assert (n / 10 < 10 ^ Z.of_nat fuel) as Hq.
    { apply Z.div_lt_upper_bound; [lia|]. rewrite Nat2Z.inj_succ, Z.pow_succ_r in Hn by lia. lia. }
    assert (0 < n / 10) by (apply Z.div_str_pos; lia).
    rewrite IH; [|lia|destruct fuel; [cbn in Hq; lia|lia]].
    cbn [scanDigits]. rewrite Hd, Eb. f_equal. pose proof (Z.div_mod n 10). lia.
Qed.

Lemma decDigits_head fuel : forall n acc, (0 < fuel)%nat ->
  exists d rest, 0 <= d < 10 /\ decDigits fuel n acc = byte_of_Z (48 + d) :: rest.
Proof.
  induction fuel as [|fuel IH]; intros n acc Hf; [lia|]. cbn [decDigits].
  assert (0 <= n mod 10 < 10) by (apply Z.mod_pos_bound; lia).
  destruct (n <? 10); [by eexists _, _|]. destruct fuel; [by eexists _, _|]. apply IH. lia.
Qed.

Lemma skipSpace_digit fuel d s :
  0 <= d < 10 -> skipSpace fuel (byte_of_Z (48 + d) :: s) = Some (byte_of_Z (48 + d) :: s).
Proof.
  intros Hd. destruct fuel; [done|]. cbn [skipSpace].
  assert (d = 0 \/ d = 1 \/ d = 2 \/ d = 3 \/ d = 4 \/ d = 5 \/ d = 6 \/ d = 7 \/ d = 8 \/ d = 9) as H by lia.
  destruct H as [->|[->|[->|[->|[->|[->|[->|[->|[->| ->]]]]]]]]]; reflexivity.
Qed.

Lemma SscanfD_SprintfD n : 0 <= n < 2 ^ 63 -> SscanfD (SprintfD n) = Some n.
Proof.
  intros Hn. unfold SscanfD, SprintfD. rewrite (proj2 (Z.ltb_ge _ _)) by lia.
  set (fuel := S (Z.to_nat (Z.log2 n))).
  destruct (decDigits_head fuel n [] ltac:(unfold fuel; lia)) as (d & rest & Hd & E).
  assert (scanDigits 0 (decDigits fuel n []) = n) as Es.
  { rewrite scanDigits_decDigits; [done| |unfold fuel; lia]. split; [lia|].
    unfold fuel. rewrite Nat2Z.inj_succ, Z2Nat.id by apply Z.log2_nonneg.
    destruct (Z.eq_dec n 0) as [->|Hnz]; [done|].
    apply (Z.lt_le_trans _ (2 ^ Z.succ (Z.log2 n))); [apply Z.log2_spec; lia|].
    apply Z.pow_le_mono_l. lia. }
  rewrite E in Es |- *. rewrite skipSpace_digit by done. cbn [mbind option_bind]. unfold scanInt.
  destruct (digit_byte d Hd) as [Hdig Eb]. rewrite Eb.
  rewrite !(proj2 (Z.eqb_neq _ _)) by lia. rewrite Hdig, Es.
  by rewrite (proj2 (Z.leb_le _ _)), (proj2 (Z.ltb_lt _ _)) by lia.
Qed.
