(* ===== verification/GoNet.v ===== *)
(** What the program uses of Go's [net] package: splitting an address, parsing and
    printing IP addresses. An address is 4 or 16 bytes ([net.IP]). *)

From S2P Require Import Prelude Protocol GoStrings.

Definition ch (z : Z) : byte := byte_of_Z z.
Abbreviation chColon := (ch 58).
Abbreviation chDot := (ch 46).
Abbreviation chPercent := (ch 37).
Abbreviation chLBracket := (ch 91).
Abbreviation chRBracket := (ch 93).

(** [strings.LastIndexByte] *)
Fixpoint lastIndexFrom (i : Z) (s : bytes) (c : byte) (found : Z) : Z :=
  match s with
  | [] => found
  | b :: s => lastIndexFrom (i + 1) s c (if bool_decide (b = c) then i else found)
  end.
Definition LastIndexByte (s : bytes) (c : byte) : Z := lastIndexFrom 0 s c (-1).

Definition takeZ {A} (i : Z) (s : list A) : list A := take (Z.to_nat i) s.
Definition dropZ {A} (i : Z) (s : list A) : list A := drop (Z.to_nat i) s.

(** [net.SplitHostPort]; [None] is an error. *)
Definition SplitHostPort (hostport : bytes) : option (bytes * bytes) :=
  let i := LastIndexByte hostport chColon in
  if i <? 0 then None else
  let finish host j k :=
    if ContainsByte (dropZ j hostport) chLBracket || ContainsByte (dropZ k hostport) chRBracket
    then None else Some (host, dropZ (i + 1) hostport) in
  if bool_decide (head hostport = Some chLBracket) then
    let e := IndexByte hostport chRBracket in
    if e <? 0 then None
    else if e + 1 =? i then finish (takeZ (e - 1) (dropZ 1 hostport)) 1 (e + 1)
    else None
  else
    let host := takeZ i hostport in
    if ContainsByte host chColon then None else finish host 0 0.

(** ** [netip.ParseAddr] *)
Definition digitOf (b : byte) : option Z :=
  if isDigit b then Some (Z_of_byte b - 48) else None.

Definition hexOf (b : byte) : option Z :=
  let c := Z_of_byte b in
  if isDigit b then Some (c - 48)
  else if (97 <=? c) && (c <=? 102) then Some (c - 87)
  else if (65 <=? c) && (c <=? 70) then Some (c - 55)
  else None.

(** The loop of [parseIPv4Fields]: the fields so far, the current value and its
    number of digits. A dot needs digits before it and characters behind. *)
Fixpoint ipv4Loop (s : bytes) (fields : list Z) (val digLen : Z) : option (list Z) :=
  match s with
  | [] => if len fields =? 3 then Some (fields ++ [val]) else None
  | b :: s =>
      match digitOf b with
      | Some d =>
          if (digLen =? 1) && (val =? 0) then None else
          let val := val * 10 + d in
          if 255 <? val then None else ipv4Loop s fields val (digLen + 1)
      | None =>
          if bool_decide (b = chDot) then
            if (digLen =? 0) || bool_decide (s = []) then None
            else if len fields =? 3 then None
            else ipv4Loop s (fields ++ [val]) 0 0
          else None
      end
  end.

Definition parseIPv4Fields (s : bytes) : option (list Z) := ipv4Loop s [] 0 0.

(** The hex number at the head: its value, its length and the rest. *)
Fixpoint hexRun (s : bytes) (acc : Z) (off : Z) : option (Z * Z * bytes) :=
  match s with
  | [] => Some (acc, off, [])
  | b :: s' =>
      match hexOf b with
      | None => Some (acc, off, s)
      | Some d => if 3 <? off then None else hexRun s' (acc * 16 + d) (off + 1)
      end
  end.

(** The loop over the groups: [ip] is what was read, [ellipsis] where "::" stood.
    Every turn reads a digit, so the length of the text is fuel enough. *)
Fixpoint ipv6Loop (fuel : nat) (s : bytes) (ip : list Z) (ellipsis : option Z)
    : option (list Z * option Z) :=
  match fuel with
  | O => None
  | S fuel =>
      if 16 <=? len ip then if bool_decide (s = []) then Some (ip, ellipsis) else None else
      match hexRun s 0 0 with
      | None => None
      | Some (acc, off, rest) =>
          if off =? 0 then None else
          if bool_decide (head rest = Some chDot) then
            if negb (isSome ellipsis) && negb (len ip =? 12) then None
            else if 16 <? len ip + 4 then None
            else match parseIPv4Fields s with
                 | Some f => Some (ip ++ f, ellipsis)
                 | None => None
                 end
          else
            let ip := ip ++ [acc / 256; acc mod 256] in
            match rest with
            | [] => Some (ip, ellipsis)
            | c :: rest =>
                if negb (bool_decide (c = chColon)) then None else
                match rest with
                | [] => None
                | c :: rest' =>
                    if bool_decide (c = chColon) then
                      if isSome ellipsis then None else
                      if bool_decide (rest' = []) then Some (ip, Some (len ip))
                      else ipv6Loop fuel rest' ip (Some (len ip))
                    else ipv6Loop fuel rest ip ellipsis
                end
            end
      end
  end.

Definition expandEllipsis (ip : list Z) (ellipsis : option Z) : option (list Z) :=
  if len ip <? 16 then
    match ellipsis with
    | None => None
    | Some e => Some (takeZ e ip ++ repeat 0 (Z.to_nat (16 - len ip)) ++ dropZ e ip)
    end
  else match ellipsis with Some _ => None | None => Some ip end.

Definition parseIPv6 (s : bytes) : option (list Z) :=
  match s with
  | a :: b :: rest =>
      if bool_decide (a = chColon) && bool_decide (b = chColon) then
        match rest with
        | [] => Some (repeat 0 16)
        | _ => ipv6Loop (S (length rest)) rest [] (Some 0) ≫= uncurry expandEllipsis
        end
      else ipv6Loop (S (length s)) s [] None ≫= uncurry expandEllipsis
  | _ => ipv6Loop (S (length s)) s [] None ≫= uncurry expandEllipsis
  end.

(** ** [net.IP] *)
Abbreviation IP := (list Z).

Definition v4InV6Prefix : list Z := repeat 0 10 ++ [255; 255].

Definition first_of (cs : list byte) (s : bytes) : option byte :=
  snd <$> list_find (fun b => b ∈ cs) s.

(** [net.ParseIP]: 16 bytes; an address with a zone is refused. *)
Definition ParseIP (s : bytes) : option IP :=
  match first_of [chDot; chColon; chPercent] s with
  | Some b =>
      if bool_decide (b = chDot) then (fun f => v4InV6Prefix ++ f) <$> parseIPv4Fields s
      else if bool_decide (b = chColon) then
        if ContainsByte s chPercent then None else parseIPv6 s
      else None
  | None => None
  end.

(** [IP.To4]; [None] is nil. *)
Definition To4 (ip : IP) : option IP :=
  if len ip =? 4 then Some ip
  else if (len ip =? 16) && bool_decide (take 12 ip = v4InV6Prefix) then Some (drop 12 ip)
  else None.

Definition decDigit (d : Z) : byte := ch (48 + d).
(** [strconv.Itoa] below 1000. *)
Definition dec3 (n : Z) : bytes :=
  if n <? 10 then [decDigit n]
  else if n <? 100 then [decDigit (n / 10); decDigit (n mod 10)]
  else [decDigit (n / 100); decDigit (n / 10 mod 10); decDigit (n mod 10)].

Definition IPv4String (ip : IP) : bytes :=
  match map dec3 ip with
  | [] => []
  | d :: ds => d ++ concat (map (fun d => chDot :: d) ds)
  end.

Definition hexDigit (d : Z) : byte := if d <? 10 then ch (48 + d) else ch (87 + d).
Definition hex16 (n : Z) : bytes :=
  if n <? 16 then [hexDigit n]
  else if n <? 256 then [hexDigit (n / 16); hexDigit (n mod 16)]
  else if n <? 4096 then [hexDigit (n / 256); hexDigit (n / 16 mod 16); hexDigit (n mod 16)]
  else [hexDigit (n / 4096); hexDigit (n / 256 mod 16); hexDigit (n / 16 mod 16); hexDigit (n mod 16)].

Fixpoint groups (ip : IP) : list Z :=
  match ip with
  | hi :: lo :: ip => hi * 256 + lo :: groups ip
  | _ => []
  end.

(** The length of the run of zeros at the head. *)
Fixpoint zeroRun (l : list Z) : Z :=
  match l with
  | g :: l => if g =? 0 then 1 + zeroRun l else 0
  | [] => 0
  end.

(** The longest run of at least two zero groups, the first one of that length:
    start and end. *)
Fixpoint bestRun (i : Z) (l : list Z) (best : Z * Z) : Z * Z :=
  match l with
  | [] => best
  | _ :: l' =>
      let r := zeroRun l in
      bestRun (i + 1) l' (if (2 <=? r) && (snd best - fst best <? r) then (i, i + r) else best)
  end.

Fixpoint joinColon (l : list bytes) : bytes :=
  match l with
  | [] => []
  | [g] => g
  | g :: l => g ++ chColon :: joinColon l
  end.

Definition IPv6String (ip : IP) : bytes :=
  let gs := groups ip in
  let '(zs, ze) := bestRun 0 gs (0, 0) in
  if ze =? zs then joinColon (map hex16 gs)
  else joinColon (map hex16 (takeZ zs gs)) ++ [chColon; chColon]
       ++ joinColon (map hex16 (dropZ ze gs)).

(** [IP.String] of an address of 4 or 16 bytes. *)
Definition IPString (ip : IP) : bytes :=
  match To4 ip with
  | Some ip4 => IPv4String ip4
  | None => IPv6String ip
  end.

Definition samples : list string :=
  ["1.2.3.4"; "::1"; "2001:db8::1"; "::"; "fe80::1:2:3:4"; "1:2:3:4:5:6:7:8"; "a:0:0:b::c";
   "64:ff9b::102:304"; "255.255.255.255"; "1::"]%string.
Example ip_samples :
  map (fun s => IPString <$> ParseIP (lit s)) samples = map (fun s => Some (lit s)) samples.
Proof. vm_compute. reflexivity. Qed.
Example ip_refused :
  map (fun s => ParseIP (lit s))
    ["1.2.3"; "01.2.3.4"; "1.2.3.256"; "1..2.3"; "1.2.3.4."; ":1"; "1::2::3"; "1:2:3:4:5:6:7"; "12345::";
     "fe80::1%eth0"; "host"; ""; "1:2:3:4:5:6:7:8:9"; "1:2:3:4:5:6:7::8"; "1:"]%string
  = repeat None 15.
Proof. vm_compute. reflexivity. Qed.
Example ip_embedded : IPString <$> ParseIP (lit "::ffff:1.2.3.4") = Some (lit "1.2.3.4").
Proof. vm_compute. reflexivity. Qed.
Example split_samples :
  map (fun s => SplitHostPort (lit s)) ["host:80"; "[::1]:443"; "host"; "a:b:c"; "[::1]"; ":80"]%string
  = [Some (lit "host", lit "80"); Some (lit "::1", lit "443"); None; None; None; Some ([], lit "80")].
Proof. vm_compute. reflexivity. Qed.

(** ** [strconv.Atoi] *)
Definition Atoi (s : bytes) : option Z :=
  let digits := match s with
                | b :: s' => if (Z_of_byte b =? 43) || (Z_of_byte b =? 45) then s' else s
                | [] => []
                end in
  if forallb isDigit digits then scanInt s else None.
