(* ===== verification/Float64.v ===== *)
(** Go's [float64]: binary64 arithmetic, as the Standard Library specifies it
    ([SpecFloat], precision 53, exponents up to 1024), rounded after every operation.
    The lemmas bound results by powers of two and show that they are normalised, so
    that comparisons order them. *)

From Stdlib Require Import Floats.SpecFloat.
From S2P Require Import Prelude.

Abbreviation float64 := spec_float.
Abbreviation prec := 53.
Abbreviation emax := 1024.

Definition fadd : float64 -> float64 -> float64 := SFadd prec emax.
Definition fsub : float64 -> float64 -> float64 := SFsub prec emax.
Definition fmul : float64 -> float64 -> float64 := SFmul prec emax.
Definition fdiv : float64 -> float64 -> float64 := SFdiv prec emax.
Definition fltb : float64 -> float64 -> bool := SFltb.
Definition fleb : float64 -> float64 -> bool := SFleb.

(** [float64(z)]; the constant [n/d] of the source is the rounded quotient. *)
Definition of_int (z : Z) : float64 := binary_normalize prec emax z 0 false.
Definition fconst (n d : Z) : float64 := fdiv (of_int n) (of_int d).

Definition f_zero : float64 := of_int 0.
Definition f_one : float64 := of_int 1.

(** * Bounds *)

(** The significand [m] with exponent [e] is less than, or at most, [2^k]. *)
Definition magLt (k m e : Z) : Prop := 0 <= m /\ e <= k /\ m < 2 ^ (k - e).
Definition magLe (k m e : Z) : Prop := 0 <= m /\ e <= k /\ m <= 2 ^ (k - e).

Lemma magLt_Le k m e : magLt k m e -> magLe k m e.
Proof. unfold magLt, magLe. lia. Qed.
Lemma magLe_Lt k m e : magLe k m e -> magLt (k + 1) m e.
Proof.
  intros (H1 & H2 & H3). split; [done|]. split; [lia|].
  replace (k + 1 - e) with (Z.succ (k - e)) by lia. rewrite Z.pow_succ_r by lia.
  assert (0 < 2 ^ (k - e)) by (apply Z.pow_pos_nonneg; lia). lia.
Qed.
Lemma magLt_mono k l m e : k <= l -> magLt k m e -> magLt l m e.
Proof.
  intros Hkl (H1 & H2 & H3). split; [done|]. split; [lia|].
  apply (Z.lt_le_trans _ _ _ H3), Z.pow_le_mono_r; lia.
Qed.

(** ** Digits *)
Definition digits (m : Z) : Z := if m <=? 0 then 0 else Z.log2 m + 1.

Lemma digits_pos p : Zpos (digits2_pos p) = digits (Zpos p).
Proof.
  unfold digits. cbn [Z.leb Z.compare].
  induction p as [p IH|p IH|]; [| |reflexivity]; cbn [digits2_pos];
    rewrite Pos2Z.inj_succ, IH; [rewrite (Pos2Z.inj_xI p), Z.log2_succ_double|
      rewrite (Pos2Z.inj_xO p), Z.log2_double]; lia.
Qed.

Lemma Zdigits2_digits m : 0 <= m -> Zdigits2 m = digits m.
Proof. destruct m as [|p|p]; [done| |lia]. intros _. apply digits_pos. Qed.

Lemma digits_shift m n : 0 <= m -> 0 <= n -> digits (m / 2 ^ n) = Z.max 0 (digits m - n).
Proof.
  intros Hm Hn. rewrite <- Z.shiftr_div_pow2 by done. unfold digits.
  destruct (Z.leb_spec m 0) as [H0|H0].
  - assert (m = 0) as -> by lia. rewrite Z.shiftr_0_l. cbn. lia.
  - destruct (Z.leb_spec (Z.shiftr m n) 0) as [H1|H1].
    + assert (Z.shiftr m n = 0) as E by (pose proof (proj2 (Z.shiftr_nonneg m n) Hm); lia).
      apply Z.shiftr_eq_0_iff in E as [E|[_ E]]; lia.
    + assert (n <= Z.log2 m).
      { destruct (Z.le_gt_cases n (Z.log2 m)) as [|Hl]; [done|].
        rewrite Z.shiftr_eq_0 in H1 by lia. lia. }
      rewrite Z.log2_shiftr by lia. pose proof (Z.log2_nonneg m). lia.
Qed.

Lemma digits_mono m n : m <= n -> digits m <= digits n.
Proof.
  intros H. unfold digits. destruct (Z.leb_spec m 0), (Z.leb_spec n 0); try lia.
  - pose proof (Z.log2_nonneg n). lia.
  - pose proof (Z.log2_le_mono m n). lia.
Qed.

Lemma digits_lt k m e : magLt k m e -> digits m + e <= k.
Proof.
  intros (H1 & H2 & H3). unfold digits. destruct (Z.leb_spec m 0); [lia|].
  apply Z.log2_lt_pow2 in H3; lia.
Qed.
Lemma digits_ge m d : 0 < d <= digits m -> 2 ^ (d - 1) <= m.
Proof.
  unfold digits. destruct (Z.leb_spec m 0); [lia|]. intros [H0 H1].
  transitivity (2 ^ Z.log2 m); [apply Z.pow_le_mono_r; lia|by apply Z.log2_spec].
Qed.

(** ** Rounding *)
Lemma shr_1_half mrs : 0 <= shr_m mrs -> shr_m (shr_1 mrs) = shr_m mrs / 2.
Proof.
  destruct mrs as [m r s]. cbn [shr_m]. intros Hm.
  destruct m as [|[p|p|]|p]; cbn [shr_1 shr_m]; try done; try lia.
  - rewrite (Pos2Z.inj_xI p). symmetry. by rewrite Z.mul_comm, Z.div_add_l, Z.add_0_r by done.
  - rewrite (Pos2Z.inj_xO p). by rewrite Z.mul_comm, Z.div_mul.
Qed.

Lemma iter_shr p : forall mrs, 0 <= shr_m mrs -> shr_m (SpecFloat.iter_pos shr_1 p mrs) = shr_m mrs / 2 ^ Zpos p.
Proof.
  induction p as [p IH|p IH|]; intros mrs Hm; cbn [SpecFloat.iter_pos].
  - assert (0 <= shr_m (shr_1 mrs)) as H1 by (rewrite shr_1_half by done; apply Z.div_pos; lia).
    assert (0 <= shr_m (SpecFloat.iter_pos shr_1 p (shr_1 mrs))) as H2
      by (rewrite IH by done; apply Z.div_pos; [done|lia]).
    rewrite IH, IH, shr_1_half, !Z.div_div by (done || lia).
    f_equal. replace (Zpos p~1) with (1 + Zpos p + Zpos p) by lia. rewrite !Z.pow_add_r by lia. ring.
  - assert (0 <= shr_m (SpecFloat.iter_pos shr_1 p mrs)) as H2
      by (rewrite IH by done; apply Z.div_pos; [done|lia]).
    rewrite IH, IH, Z.div_div by (done || lia).
    f_equal. replace (Zpos p~0) with (Zpos p + Zpos p) by lia. rewrite Z.pow_add_r by lia. ring.
  - by apply shr_1_half.
Qed.

(** Canonical: no room to shift the significand left, at most 53 digits. *)
Definition canonical (m e : Z) : Prop := fexp prec emax (digits m + e) = e.

(** One normalisation: how far it shifts, and that the result is canonical when there
    was nothing to shift left. *)
Lemma shr_fexp_spec m e l mrs e' :
  0 <= m -> shr_fexp prec emax m e l = (mrs, e') ->
  e' = Z.max e (fexp prec emax (digits m + e)) /\ shr_m mrs = m / 2 ^ (e' - e)
  /\ (e <= fexp prec emax (digits m + e) -> canonical (shr_m mrs) e').
Proof.
  intros Hm. unfold shr_fexp. rewrite Zdigits2_digits by done.
  set (t := fexp prec emax (digits m + e)).
  assert (shr_m (shr_record_of_loc m l) = m) as Er by (by destruct l as [|[]]).
  assert (e' = Z.max e t -> shr_m mrs = m / 2 ^ (e' - e) -> e <= t -> canonical (shr_m mrs) e') as Hcan.
  { intros E1 E2 Hle. unfold canonical. rewrite E2, digits_shift by lia.
    unfold t, fexp, emin in *. lia. }
  assert (forall p, t - e = p -> shr (shr_record_of_loc m l) e p = (mrs, e') ->
    e' = Z.max e t /\ shr_m mrs = m / 2 ^ (e' - e)) as H.
  { intros [|p|p] Ep; cbn [shr]; intros [= <- <-].
    - split; [lia|]. by rewrite Er, Z.sub_diag, Z.div_1_r.
    - split; [lia|]. rewrite iter_shr, Er by (by rewrite Er). do 2 f_equal. lia.
    - split; [lia|]. by rewrite Er, Z.sub_diag, Z.div_1_r. }
  intros E. destruct (H _ eq_refl E) as [H1 H2]. split; [done|]. split; [done|]. by apply Hcan.
Qed.

(** Shifting right keeps a bound. *)
Lemma magLt_shift k m e e' : magLt k m e -> e <= e' <= k -> magLt k (m / 2 ^ (e' - e)) e'.
Proof.
  intros (H1 & H2 & H3) He. split; [apply Z.div_pos; lia|]. split; [lia|].
  apply Z.div_lt_upper_bound; [lia|]. rewrite <- Z.pow_add_r by lia.
  by replace (e' - e + (k - e')) with (k - e) by lia.
Qed.
Lemma magLe_shift k m e e' : magLe k m e -> e <= e' <= k -> magLe k (m / 2 ^ (e' - e)) e'.
Proof.
  intros (H1 & H2 & H3) He. split; [apply Z.div_pos; lia|]. split; [lia|].
  apply Z.div_le_upper_bound; [lia|]. rewrite <- Z.pow_add_r by lia.
  by replace (e' - e + (k - e')) with (k - e) by lia.
Qed.

(** A float of magnitude at most [2^k], neither infinite nor NaN, normalised. *)
Definition upTo (k : Z) (f : float64) : Prop :=
  match f with
  | S754_zero _ => True
  | S754_finite _ m e => magLe k (Zpos m) e /\ canonical (Zpos m) e
  | _ => False
  end.
Definition nonneg (f : float64) : Prop :=
  match f with S754_finite s _ _ => s = false | _ => True end.

Definition okExp (k : Z) : Prop := -1000 <= k <= 971.

Lemma round_upTo k s m e l :
  okExp k -> magLt k m e -> e <= fexp prec emax (digits m + e) ->
  upTo k (binary_round_aux prec emax s m e l)
  /\ (s = false -> nonneg (binary_round_aux prec emax s m e l)).
Proof.
  intros Hk Hm Hn. pose proof (digits_lt _ _ _ Hm) as Hd. pose proof (proj1 Hm) as Hm0.
  pose proof (proj1 (proj2 Hm)) as Hek.
  unfold binary_round_aux. destruct (shr_fexp prec emax m e l) as [mrs e'] eqn:E1.
  destruct (shr_fexp_spec m e l mrs e' Hm0 E1) as (He' & Em & Hc). specialize (Hc Hn).
  assert (e <= e' <= k) as Hek' by (unfold okExp, fexp, emin in *; lia).
  pose proof (magLt_shift k m e e' Hm Hek') as Hm'. rewrite <- Em in Hm'.
  set (m1 := round_nearest_even _ _). assert (shr_m mrs <= m1 <= shr_m mrs + 1) as Hr.
  { unfold m1, round_nearest_even. destruct (loc_of_shr_record mrs) as [|[]]; try lia.
    destruct (Z.even _); lia. }
  assert (magLe k m1 e') as Hm1 by (destruct Hm' as (? & ? & ?); unfold magLe; lia).
  assert (digits m1 + e' <= k + 1) as Hd1 by (apply digits_lt; by apply magLe_Lt).
  assert (e' <= fexp prec emax (digits m1 + e')) as Hn1.
  { unfold canonical in Hc. pose proof (digits_mono _ _ (proj1 Hr)) as Hdm.
    unfold fexp, emin in *. lia. }
  clearbody m1. destruct (shr_fexp prec emax m1 e' loc_Exact) as [mrs2 e2] eqn:E2.
  destruct (shr_fexp_spec m1 e' loc_Exact mrs2 e2 (proj1 Hm1) E2) as (He2 & Em2 & Hc2).
  specialize (Hc2 Hn1). assert (e' <= e2 <= k) as Hek2 by (unfold okExp, fexp, emin in *; lia).
  pose proof (magLe_shift k m1 e' e2 Hm1 Hek2) as Hm2. rewrite <- Em2 in Hm2.
  destruct (shr_m mrs2) as [|p|p]; [done| |destruct Hm2; lia].
  rewrite (proj2 (Z.leb_le _ _)) by (unfold okExp in Hk; lia). by repeat split; try apply Hm2.
Qed.

(** ** Operations *)
Definition below (k : Z) (f : float64) : Prop :=
  match f with
  | S754_zero _ => True
  | S754_finite _ m e => magLt k (Zpos m) e /\ canonical (Zpos m) e
  | _ => False
  end.

Lemma below_upTo k f : below k f -> upTo k f.
Proof. destruct f; try done. intros [H1 H2]. split; [by apply magLt_Le|done]. Qed.
Lemma upTo_below k l f : k < l -> upTo k f -> below l f.
Proof.
  intros Hkl. destruct f; try done. intros [H1%magLe_Lt H2]. split; [|done].
  apply (magLt_mono (k + 1)); [lia|done].
Qed.
Lemma upTo_mono k l f : k <= l -> upTo k f -> upTo l f.
Proof.
  intros Hkl H. destruct (Z.eq_dec k l) as [->|]; [done|]. apply below_upTo, (upTo_below k); [lia|done].
Qed.

Lemma digits_mul_pow2 m d : 0 < m -> 0 <= d -> digits (m * 2 ^ d) = digits m + d.
Proof.
  intros Hm Hd. assert (0 < m * 2 ^ d) by (apply Z.mul_pos_pos; [done|apply Z.pow_pos_nonneg; lia]).
  unfold digits. rewrite !(proj2 (Z.leb_gt _ _)) by done. rewrite Z.log2_mul_pow2 by done. lia.
Qed.

Lemma shl_align_spec m e t m' e' :
  shl_align m e t = (m', e') -> e' = Z.min e t /\ Zpos m' = Zpos m * 2 ^ (e - e').
Proof.
  assert (forall d, Zpos (Pos.iter xO m d) = Zpos m * 2 ^ Zpos d) as Hi.
  { intros d. induction d as [|d IH] using Pos.peano_ind; [cbn; lia|].
    rewrite Pos.iter_succ, (Pos2Z.inj_xO (Pos.iter _ _ _)), IH, Pos2Z.inj_succ, Z.pow_succ_r by lia. ring. }
  unfold shl_align. destruct (t - e) as [|d|d] eqn:E; intros [= <- <-].
  - split; [lia|]. rewrite Z.sub_diag. lia.
  - split; [lia|]. rewrite Z.sub_diag. lia.
  - split; [lia|]. rewrite Hi. do 2 f_equal. lia.
Qed.

Lemma binary_round_upTo k s m e :
  okExp k -> -1074 <= e -> magLt k (Zpos m) e ->
  upTo k (binary_round prec emax s m e) /\ (s = false -> nonneg (binary_round prec emax s m e)).
Proof.
  intros Hk He Hm. unfold binary_round. rewrite digits_pos. set (t := fexp _ _ _).
  destruct (shl_align m e t) as [m' e'] eqn:E. destruct (shl_align_spec _ _ _ _ _ E) as [He' Em'].
  destruct Hm as (H0 & H1 & H2).
  assert (digits (Zpos m') + e' = digits (Zpos m) + e) as Ed
    by (rewrite Em', digits_mul_pow2 by lia; lia).
  apply round_upTo; [done| |rewrite Ed; fold t; lia].
  split; [done|]. split; [lia|]. rewrite Em'.
  replace (k - e') with ((k - e) + (e - e')) by lia. rewrite (Z.pow_add_r 2 (k - e)) by lia.
  apply Z.mul_lt_mono_pos_r; [apply Z.pow_pos_nonneg; lia|done].
Qed.

Lemma of_int_upTo k z : 0 <= k <= 971 -> Z.abs z < 2 ^ k ->
  upTo k (of_int z) /\ (0 <= z -> nonneg (of_int z)).
Proof.
  intros Hk Hz. unfold of_int, binary_normalize. destruct z as [|p|p]; [done| |].
  - destruct (binary_round_upTo k false p 0) as [H1 H2];
      [unfold okExp; lia|lia|unfold magLt; rewrite Z.sub_0_r; lia|].
    split; [done|]. intros _. by apply H2.
  - destruct (binary_round_upTo k true p 0) as [H1 _];
      [unfold okExp; lia|lia|unfold magLt; rewrite Z.sub_0_r; lia|]. split; [done|lia].
Qed.

Lemma canonical_cases m e : canonical m e -> digits m = 53 \/ (e = -1074 /\ digits m <= 53).
Proof. unfold canonical, fexp, emin. lia. Qed.

Lemma fmul_upTo a b x y :
  -400 <= a <= 52 -> -400 <= b <= 52 -> upTo a x -> below b y ->
  upTo (a + b) (fmul x y) /\ (nonneg x -> nonneg y -> nonneg (fmul x y)).
Proof.
  intros Ha Hb. destruct x as [| | |sx mx ex]; try done; destruct y as [| | |sy my ey]; try done.
  intros [(_ & X1 & X2) Cx] [(_ & Y1 & Y2) Cy]. unfold fmul, SFmul.
  change (Zpos (mx * my)) with (Zpos mx * Zpos my).
  assert (digits (Zpos mx) + digits (Zpos my) - 1 <= digits (Zpos mx * Zpos my)) as Hd.
  { pose proof (Z.log2_mul_below (Zpos mx) (Zpos my) ltac:(lia) ltac:(lia)). unfold digits. cbn [Z.leb Z.compare].
    destruct (Z.leb_spec (Zpos mx * Zpos my) 0); lia. }
  assert (ex <= a /\ (digits (Zpos mx) = 53 -> ex + 52 <= a)) as [_ Hex].
  { split; [done|]. intros H. pose proof (digits_ge (Zpos mx) 53 ltac:(lia)) as H1.
    destruct (Z.le_gt_cases (ex + 52) a) as [|Hgt]; [done|exfalso].
    assert (2 ^ (a - ex) < 2 ^ (53 - 1)) by (apply Z.pow_lt_mono_r; lia). lia. }
  assert (ey <= b /\ (digits (Zpos my) = 53 -> ey + 53 <= b)) as [_ Hey].
  { split; [done|]. intros H. pose proof (digits_ge (Zpos my) 53 ltac:(lia)) as H1.
    destruct (Z.le_gt_cases (ey + 53) b) as [|Hgt]; [done|exfalso].
    assert (2 ^ (b - ey) <= 2 ^ (53 - 1)) by (apply Z.pow_le_mono_r; lia). lia. }
  apply canonical_cases in Cx, Cy.
  assert (0 < digits (Zpos mx) /\ 0 < digits (Zpos my)) as [Dx Dy]
    by (unfold digits; cbn [Z.leb Z.compare]; pose proof (Z.log2_nonneg (Zpos mx));
        pose proof (Z.log2_nonneg (Zpos my)); lia).
  destruct (round_upTo (a + b) (xorb sx sy) (Zpos mx * Zpos my) (ex + ey) loc_Exact) as [H1 H2].
  - unfold okExp. lia.
  - split; [done|]. split; [lia|]. replace (a + b - (ex + ey)) with ((a - ex) + (b - ey)) by lia.
    rewrite Z.pow_add_r by lia. apply (Z.le_lt_trans _ (2 ^ (a - ex) * Zpos my)).
    + apply Z.mul_le_mono_nonneg_r; lia.
    + apply Z.mul_lt_mono_pos_l; [apply Z.pow_pos_nonneg; lia|lia].
  - unfold fexp, emin. lia.
  - split; [done|]. cbn. intros -> ->. by apply H2.
Qed.

Lemma canonical_emin m e : canonical m e -> -1074 <= e.
Proof. unfold canonical, fexp, emin. lia. Qed.

(** A signed sum of aligned significands. *)
Lemma aligned_sum a m1 e1 m2 e2 t1 t2 :
  -900 <= a <= 900 -> upTo a (S754_finite false m1 e1) -> below a (S754_finite false m2 e2) ->
  t1 = Zpos (fst (shl_align m1 e1 (Z.min e1 e2))) \/ t1 = - Zpos (fst (shl_align m1 e1 (Z.min e1 e2))) ->
  t2 = Zpos (fst (shl_align m2 e2 (Z.min e1 e2))) \/ t2 = - Zpos (fst (shl_align m2 e2 (Z.min e1 e2))) ->
  upTo (a + 1) (binary_normalize prec emax (t1 + t2) (Z.min e1 e2) false).
Proof.
  intros Ha [(_ & X1 & X2) Cx] [(_ & Y1 & Y2) Cy].
  destruct (shl_align m1 e1 _) as [n1 f1] eqn:E1. destruct (shl_align m2 e2 _) as [n2 f2] eqn:E2.
  apply shl_align_spec in E1 as [F1 N1]. apply shl_align_spec in E2 as [F2 N2]. cbn [fst].
  set (ez := Z.min e1 e2) in *. assert (f1 = ez) as -> by lia. assert (f2 = ez) as -> by lia.
  assert (Zpos n1 <= 2 ^ (a - ez)) as B1.
  { rewrite N1. replace (a - ez) with ((a - e1) + (e1 - ez)) by lia. rewrite (Z.pow_add_r 2 (a - e1)) by lia.
    apply Z.mul_le_mono_nonneg_r; [apply Z.pow_nonneg; lia|done]. }
  assert (Zpos n2 < 2 ^ (a - ez)) as B2.
  { rewrite N2. replace (a - ez) with ((a - e2) + (e2 - ez)) by lia. rewrite (Z.pow_add_r 2 (a - e2)) by lia.
    apply Z.mul_lt_mono_pos_r; [apply Z.pow_pos_nonneg; lia|done]. }
  intros H1 H2. pose proof (canonical_emin _ _ Cx). pose proof (canonical_emin _ _ Cy).
  assert (Z.abs (t1 + t2) < 2 ^ (a + 1 - ez)) as Hs.
  { replace (a + 1 - ez) with (Z.succ (a - ez)) by lia. rewrite Z.pow_succ_r by lia. lia. }
  unfold binary_normalize. destruct (t1 + t2) as [|p|p]; [done| |];
    (apply binary_round_upTo; [unfold okExp; lia|lia|unfold magLt; lia]).
Qed.

Lemma fadd_upTo a x y : -900 <= a <= 900 -> upTo a x -> below a y -> upTo (a + 1) (fadd x y).
Proof.
  intros Ha Hx Hy. destruct x as [sx| | |sx mx ex]; try done; destruct y as [sy| | |sy my ey]; try done.
  - by destruct sx, sy.
  - apply (upTo_mono a); [lia|by apply below_upTo].
  - by apply (upTo_mono a); [lia|].
  - unfold fadd, SFadd. apply (aligned_sum a mx ex my ey); [done|exact Hx|exact Hy| |];
      [destruct sx|destruct sy]; cbn [cond_Zopp]; auto.
Qed.
Lemma fsub_upTo a x y : -900 <= a <= 900 -> upTo a x -> below a y -> upTo (a + 1) (fsub x y).
Proof.
  intros Ha Hx Hy. destruct x as [sx| | |sx mx ex]; try done; destruct y as [sy| | |sy my ey]; try done.
  - by destruct sx, sy.
  - apply (upTo_mono a); [lia|by apply below_upTo in Hy].
  - by apply (upTo_mono a); [lia|].
  - unfold fsub, SFsub. rewrite <- Z.add_opp_r.
    apply (aligned_sum a mx ex my ey); [done|exact Hx|exact Hy| |];
      [destruct sx|destruct sy]; cbn [cond_Zopp]; rewrite ?Z.opp_involutive; auto.
Qed.

(** The quotient of a shifted significand: its magnitude and its digits. *)
Lemma quotient_magLt a c mx ex my ey s e' :
  0 <= s -> s = ex - ey - e' -> e' <= a - c + 1 -> 0 <= mx -> ex <= a -> mx <= 2 ^ (a - ex) ->
  ey <= c -> 2 ^ (c - ey) <= my -> magLt (a - c + 1) (mx * 2 ^ s / my) e'.
Proof.
  intros Hs Es He Hm Hex Hmx Hey Hmy. assert (0 < 2 ^ s) by (apply Z.pow_pos_nonneg; lia).
  assert (0 < 2 ^ (c - ey)) by (apply Z.pow_pos_nonneg; lia).
  split; [apply Z.div_pos; lia|]. split; [done|]. apply Z.div_lt_upper_bound; [lia|].
  apply (Z.le_lt_trans _ (2 ^ (a - ex) * 2 ^ s)); [apply Z.mul_le_mono_nonneg_r; lia|].
  apply (Z.lt_le_trans _ (2 ^ (c - ey) * 2 ^ (a - c + 1 - e'))).
  - rewrite <- !Z.pow_add_r by lia. apply Z.pow_lt_mono_r; lia.
  - apply Z.mul_le_mono_nonneg_r; [apply Z.pow_nonneg; lia|done].
Qed.

Lemma quotient_digits mx my s :
  0 < mx -> 0 < my -> 0 <= s -> digits mx + s - digits my <= digits (mx * 2 ^ s / my).
Proof.
  intros Hx Hy Hs. set (q := mx * 2 ^ s / my).
  destruct (Z.le_gt_cases (digits mx + s - digits my) 0) as [|Hpos].
  { unfold digits at 3. destruct (q <=? 0); [done|pose proof (Z.log2_nonneg q); lia]. }
  assert (0 < digits mx) by (unfold digits; rewrite (proj2 (Z.leb_gt _ _)) by done; pose proof (Z.log2_nonneg mx); lia).
  assert (my <= 2 ^ digits my) as Hd.
  { unfold digits. rewrite (proj2 (Z.leb_gt _ _)) by done. apply Z.lt_le_incl, Z.log2_spec. lia. }
  assert (2 ^ (digits mx + s - digits my - 1) <= q) as Hlow.
  { apply Z.div_le_lower_bound; [lia|].
    transitivity (2 ^ digits my * 2 ^ (digits mx + s - digits my - 1)).
    - apply Z.mul_le_mono_nonneg_r; [apply Z.pow_nonneg; lia|done].
    - assert (0 <= digits my) by (unfold digits; destruct (my <=? 0); [lia|pose proof (Z.log2_nonneg my); lia]).
      rewrite <- Z.pow_add_r by lia.
      replace (digits my + (digits mx + s - digits my - 1)) with ((digits mx - 1) + s) by lia.
      rewrite Z.pow_add_r by lia. apply Z.mul_le_mono_nonneg_r; [apply Z.pow_nonneg; lia|by apply digits_ge]. }
  assert (0 < q) by (assert (0 < 2 ^ (digits mx + s - digits my - 1)) by (apply Z.pow_pos_nonneg; lia); lia).
  pose proof (Z.log2_le_mono _ _ Hlow) as Hl. rewrite Z.log2_pow2 in Hl by lia.
  unfold digits at 3. rewrite (proj2 (Z.leb_gt _ _)) by done. lia.
Qed.

(** Division by a float of at least [2^c]. *)
Lemma fdiv_upTo a c x s my ey :
  -400 <= a <= 400 -> 0 <= c <= 400 -> upTo a x -> ey <= c -> 2 ^ (c - ey) <= Zpos my ->
  upTo (a - c + 1) (fdiv x (S754_finite s my ey))
  /\ (nonneg x -> s = false -> nonneg (fdiv x (S754_finite s my ey))).
Proof.
  intros Ha Hc. destruct x as [| | |sx mx ex]; try done. intros [(_ & X1 & X2) Cx] Hey Hmy.
  unfold fdiv, SFdiv, SFdiv_core_binary. rewrite !Zdigits2_digits by done.
  set (d1 := digits (Zpos mx)). set (d2 := digits (Zpos my)).
  set (f := fexp prec emax (d1 + ex - (d2 + ey))). set (e' := Z.min f (ex - ey)).
  set (s' := ex - ey - e'). assert (0 <= s') as Hs' by (unfold s', e'; lia).
  assert (d1 + ex <= a + 1) as Hd1 by (apply digits_lt, magLe_Lt; done).
  assert (c - ey + 1 <= d2) as Hd2.
  { unfold d2, digits. cbn [Z.leb Z.compare].
    pose proof (Z.log2_le_mono _ _ Hmy) as H. rewrite Z.log2_pow2 in H by lia. lia. }
  assert (e' <= a - c + 1) as He' by (unfold e', f, fexp, emin; lia).
  assert (match s' with 0 => Zpos mx | Zpos _ => Z.shiftl (Zpos mx) s' | Zneg _ => 0 end
    = Zpos mx * 2 ^ s') as -> by (destruct s'; [lia|by rewrite Z.shiftl_mul_pow2|lia]).
  assert (fst (Z.div_eucl (Zpos mx * 2 ^ s') (Zpos my)) = Zpos mx * 2 ^ s' / Zpos my) as Eq
    by (unfold Z.div; by destruct (Z.div_eucl _ _)).
  destruct (Z.div_eucl _ _) as [q r]. cbn [fst] in Eq. subst q.
  pose proof (quotient_digits (Zpos mx) (Zpos my) s' ltac:(lia) ltac:(lia) Hs') as Hdq.
  fold d1 d2 in Hdq.
  destruct (round_upTo (a - c + 1) (xorb sx s) (Zpos mx * 2 ^ s' / Zpos my) e' (new_location (Zpos my) r))
    as [H1 H2].
  - unfold okExp. lia.
  - by apply (quotient_magLt a c (Zpos mx) ex (Zpos my) ey).
  - unfold e', f, s', fexp, emin in *. lia.
  - split; [done|]. cbn. intros -> ->. by apply H2.
Qed.

(** ** Comparison *)

(** What [SFcompare] compares, in this order. *)
Definition sortKey (f : float64) : Z * Z * Z :=
  match f with
  | S754_zero _ | S754_nan => (0, 0, 0)
  | S754_infinity s => (if s then -2 else 2, 0, 0)
  | S754_finite s m e => if s then (-1, - e, Zneg m) else (1, e, Zpos m)
  end.
Definition keyLt (a b : Z * Z * Z) : Prop :=
  a.1.1 < b.1.1 \/ (a.1.1 = b.1.1 /\ (a.1.2 < b.1.2 \/ (a.1.2 = b.1.2 /\ a.2 < b.2))).

Lemma fltb_key x y : x <> S754_nan -> y <> S754_nan -> fltb x y = true <-> keyLt (sortKey x) (sortKey y).
Proof.
  intros Hx Hy. unfold fltb, SFltb, keyLt.
  destruct x as [|[]| |[] mx ex]; try done; destruct y as [|[]| |[] my ey]; try done; cbn;
    try (split; [try discriminate; try lia; auto|intros; try reflexivity; exfalso; lia]).
  all: change (Pos.compare_cont Eq mx my) with (Pos.compare mx my).
  all: destruct (Z.compare_spec ex ey); [destruct (Pos.compare_spec mx my)|..]; cbn;
    (split; [try discriminate; intros _; lia|intros; try reflexivity; exfalso; lia]).
Qed.

(** [>] orders floats that are not NaN. *)
Lemma fltb_asym x y : x <> S754_nan -> y <> S754_nan -> fltb x y = true -> fltb y x = false.
Proof.
  intros Hx Hy H. apply not_true_is_false. intros H'. apply fltb_key in H, H'; try done.
  unfold keyLt in *. lia.
Qed.
Lemma fltb_cotrans x y z :
  x <> S754_nan -> y <> S754_nan -> z <> S754_nan -> fltb x z = true -> fltb x y = true \/ fltb y z = true.
Proof.
  intros Hx Hy Hz. rewrite !fltb_key by done. unfold keyLt. lia.
Qed.

Lemma upTo_not_nan k f : upTo k f -> f <> S754_nan.
Proof. by destruct f. Qed.

(** The nearest float to 0.7, and a product rounded to nearest. *)
Example fconst_07 : fconst 7 10 = S754_finite false 6305039478318694 (-53).
Proof. vm_compute. reflexivity. Qed.
Example fmul_sample : fmul (fconst 1 10) (of_int 3) = S754_finite false 5404319552844596 (-54).
Proof. vm_compute. reflexivity. Qed.
