(* ===== verification/Relay.v ===== *)
(** The relay nodes of a client ([relay.go]): their measurement and score, the choice
    of nodes at the start and after a failure, and the load per node.

    A node is mutated in place and never removed, so a pointer to it is its position
    in the list. Probing and name resolution are arguments; the goroutines of
    [testAllNodes] touch a node each and are run one after the other. The scores are
    binary64 numbers, rounded after every operation (no fused multiplication). *)

From Stdlib Require Import Sorted.
From S2P Require Import Prelude Float64 GoStrings GoNet.

Definition Hour : Z := 60 * Minute.

(** ** Sorting *)

(** [sort.Slice]: some permutation, sorted when [less] orders the elements. *)
Definition ordersOn {A} (less : A -> A -> bool) (l : list A) : Prop :=
  (forall x y, x ∈ l -> y ∈ l -> less x y = true -> less y x = false)
  /\ (forall x y z, x ∈ l -> y ∈ l -> z ∈ l -> less x z = true -> less x y = true \/ less y z = true).

Class SliceSort := {
  sortSlice : forall {A : Type}, (A -> A -> bool) -> list A -> list A;
  sortSlice_perm : forall A (less : A -> A -> bool) l, sortSlice less l ≡ₚ l;
  sortSlice_sorted : forall A (less : A -> A -> bool) l, ordersOn less l ->
    StronglySorted (fun x y => less y x = false) (sortSlice less l) }.

(** ** State *)
Record RelayNode := mkRelayNode {
  rn_ID : bytes; rn_Address : bytes; rn_IP : bytes; rn_Score : float64;
  rn_LastTest : option Z; rn_Latency : Z; rn_SuccessRate : float64; rn_Weight : float64;
  rn_FailCount : Z; rn_FailTime : option Z }.                 (* None: the zero time *)
#[export] Instance RelayNode_eta : Eta RelayNode := fun n =>
  mkRelayNode (rn_ID n) (rn_Address n) (rn_IP n) (rn_Score n) (rn_LastTest n) (rn_Latency n)
    (rn_SuccessRate n) (rn_Weight n) (rn_FailCount n) (rn_FailTime n).

Record RelayNodeManager := mkRelayNodeManager {
  rnm_nodes : list RelayNode; rnm_healthScore : Z; rnm_loadCounts : gmap bytes Z }.
#[export] Instance RelayNodeManager_eta : Eta RelayNodeManager := fun m =>
  mkRelayNodeManager (rnm_nodes m) (rnm_healthScore m) (rnm_loadCounts m).

Definition NewRelayNodeManager : RelayNodeManager := mkRelayNodeManager [] 0 ∅.

Record relayNodeSnapshot := mkRelayNodeSnapshot {
  sn_node : nat; sn_address : bytes; sn_ip : bytes; sn_score : float64;
  sn_successRate : float64; sn_latency : Z; sn_failCount : Z; sn_failTime : option Z }.

(** ** Addresses *)
Definition splitAddress (address defaultPort : bytes) : bytes * bytes :=
  match SplitHostPort address with
  | None => (address, defaultPort)
  | Some hp => hp
  end.

Definition formatIPPort (ip : IP) (port : bytes) : bytes :=
  match To4 ip with
  | None => chLBracket :: IPString ip ++ chRBracket :: chColon :: port
  | Some _ => IPString ip ++ chColon :: port
  end.

Definition newNode (sourceAddress resolvedAddr : bytes) : RelayNode :=
  mkRelayNode resolvedAddr sourceAddress resolvedAddr (of_int 50) None 0 f_zero f_zero 0 None.

Definition snapshotNode (i : nat) (n : RelayNode) : relayNodeSnapshot :=
  mkRelayNodeSnapshot i (rn_Address n) (rn_IP n) (rn_Score n) (rn_SuccessRate n) (rn_Latency n)
    (rn_FailCount n) (rn_FailTime n).
Definition snapshotNodes (m : RelayNodeManager) : list relayNodeSnapshot :=
  imap snapshotNode (rnm_nodes m).

(** ** Adding nodes *)
Fixpoint resolvedNodes (sourceAddress port : bytes) (existing : gset bytes) (ips : list IP)
    : list RelayNode :=
  match ips with
  | [] => []
  | ip :: ips =>
      let resolvedAddr := formatIPPort ip port in
      if bool_decide (resolvedAddr ∈ existing) then resolvedNodes sourceAddress port existing ips
      else newNode sourceAddress resolvedAddr
             :: resolvedNodes sourceAddress port ({[resolvedAddr]} ∪ existing) ips
  end.

Definition addResolvedNodes (sourceAddress port : bytes) (ips : list IP) (m : RelayNodeManager)
    : RelayNodeManager :=
  let existing : gset bytes := list_to_set (map rn_IP (rnm_nodes m)) in
  m <| rnm_nodes ::= fun l => l ++ resolvedNodes sourceAddress port existing ips |>.

(** [lookup a]: what [LookupIP] answers for the host of the source address [a]. *)
Fixpoint refreshLoop (lookup : bytes -> option (list IP)) (seen : gset bytes)
    (snapshots : list relayNodeSnapshot) (m : RelayNodeManager) : RelayNodeManager :=
  match snapshots with
  | [] => m
  | s :: snapshots =>
      let a := sn_address s in
      if bool_decide (a ∈ seen) then refreshLoop lookup seen snapshots m else
      let seen := {[a]} ∪ seen in
      let '(host, port) := splitAddress a (lit "443") in
      match ParseIP host with
      | Some _ => refreshLoop lookup seen snapshots m
      | None =>
          match lookup a with
          | None => refreshLoop lookup seen snapshots m
          | Some ips => refreshLoop lookup seen snapshots (addResolvedNodes a port ips m)
          end
      end
  end.
Definition refreshHostnameNodes (lookup : bytes -> option (list IP)) (m : RelayNodeManager)
    : RelayNodeManager := refreshLoop lookup ∅ (snapshotNodes m) m.

Definition addNodes (l : list RelayNode) (m : RelayNodeManager) : RelayNodeManager :=
  m <| rnm_nodes ::= fun nodes => nodes ++ l |>.

(** [AddNode]; [false] is the resolver's error. *)
Definition AddNode (lookup : bytes -> option (list IP)) (address defaultPort : bytes)
    (m : RelayNodeManager) : RelayNodeManager * bool :=
  let '(host, port) := splitAddress address defaultPort in
  match ParseIP host with
  | Some ip => let a := formatIPPort ip port in (addNodes [newNode a a] m, true)
  | None =>
      match lookup address with
      | None => (m, false)
      | Some addrs => (addNodes (map (fun ip => newNode address (formatIPPort ip port)) addrs) m, true)
      end
  end.

(** ** Measurement *)

(** [time.Since(t).Hours()]; the zero time is further back than a Duration. *)
Definition since (now : Z) (t : option Z) : Z :=
  match t with Some t => now - t | None => 2 ^ 63 - 1 end.
Definition Hours (d : Z) : float64 :=
  fadd (of_int (Z.quot d Hour)) (fdiv (of_int (Z.rem d Hour)) (of_int (60 * 60 * 1000000000))).

Definition maxLatency : Z := 5000 * Millisecond.

Definition baseScore (n : RelayNode) : float64 :=
  let normalizedLatency := fdiv (of_int (rn_Latency n)) (of_int maxLatency) in
  let normalizedLatency := if fltb f_one normalizedLatency then f_one else normalizedLatency in
  fadd (fmul (fsub f_one normalizedLatency) (fconst 7 10)) (fmul (rn_SuccessRate n) (fconst 3 10)).

Definition CalculateScore (now : Z) (n : RelayNode) : float64 :=
  let hoursSinceTest := Hours (since now (rn_LastTest n)) in
  let decayFactor := if fltb f_one hoursSinceTest
                     then fdiv f_one (fadd f_one (fmul hoursSinceTest (fconst 1 10)))
                     else f_one in
  fmul (baseScore n) decayFactor.

(** The outcome of [TestNodeSpeed] (the latency, or an error), and the times at which the
    test is noted and the score is computed. *)
Record probe := mkProbe { pb_latency : option Z; pb_now : Z; pb_later : Z }.

Definition scored (now later : Z) (n : RelayNode) : RelayNode :=
  let n := n <| rn_LastTest := Some now |> in
  let score := CalculateScore later n in
  n <| rn_Score := score |> <| rn_Weight := score |>.

Definition testNode (pb : probe) (n : RelayNode) : RelayNode :=
  let n := match pb_latency pb with
           | None => n <| rn_Latency := 9999 * Second |> <| rn_SuccessRate := f_zero |>
           | Some latency => n <| rn_Latency := latency |> <| rn_SuccessRate := f_one |>
           end in
  scored (pb_now pb) (pb_later pb) n.

(** [AddNodeAndTest]: the addresses that answered; [None] is the resolver's error. *)
Definition answered (test : nat -> probe) (nodes : list RelayNode) : list bytes :=
  omap id (imap (fun i n => match pb_latency (test i) with Some _ => Some (rn_IP n) | None => None end) nodes).

Definition AddNodeAndTest (lookup : bytes -> option (list IP)) (test : nat -> probe)
    (address defaultPort : bytes) (m : RelayNodeManager) : RelayNodeManager * option (list bytes) :=
  let '(host, port) := splitAddress address defaultPort in
  let add nodes := (addNodes (imap (fun i n => testNode (test i) n) nodes) m, Some (answered test nodes)) in
  match ParseIP host with
  | Some ip => let a := formatIPPort ip port in add [newNode a a]
  | None =>
      match lookup address with
      | None => (m, None)
      | Some addrs => add (map (fun ip => newNode address (formatIPPort ip port)) addrs)
      end
  end.

Definition testAllNodes (lookup : bytes -> option (list IP)) (test : nat -> probe)
    (m : RelayNodeManager) : RelayNodeManager :=
  let m := refreshHostnameNodes lookup m in
  m <| rnm_nodes ::= imap (fun i n => testNode (test i) n) |>.

(** ** Health *)
Definition SetHealthScore (score : Z) (m : RelayNodeManager) : RelayNodeManager :=
  let score := if score <? 0 then 0 else score in
  let score := if 100 <? score then 100 else score in
  m <| rnm_healthScore := score |>.

Definition CurrentTestInterval (m : RelayNodeManager) : Z :=
  let score := rnm_healthScore m in
  if score <? 30 then 15 * Second else if 70 <=? score then 60 * Second else 30 * Second.

Definition updateHealthScore (m : RelayNodeManager) : RelayNodeManager :=
  let snapshots := snapshotNodes m in
  if bool_decide (snapshots = []) then SetHealthScore 50 m else
  let failures := len (filter (fun s => 0 < sn_failCount s) snapshots) in
  SetHealthScore (int32 (100 - failures * 100 / len snapshots)) m.

Definition healthySnapshot (s : relayNodeSnapshot) : bool :=
  fltb (of_int 30) (sn_score s) && fltb f_zero (sn_successRate s).
Definition GetHealthyRelayIPs (m : RelayNodeManager) : list bytes :=
  map sn_ip (filter (fun s => healthySnapshot s = true) (snapshotNodes m)).
Definition GetAvailableHealthyCount (m : RelayNodeManager) : Z :=
  len (filter (fun s => healthySnapshot s = true) (snapshotNodes m)).
Definition NodeCount (m : RelayNodeManager) : Z := len (rnm_nodes m).

(** ** Success and failure of a dial *)
Definition GetNodeByIP (ip : bytes) (m : RelayNodeManager) : option nat :=
  fst <$> list_find (fun n => rn_IP n = ip) (rnm_nodes m).

Definition updNode (ip : bytes) (f : RelayNode -> RelayNode) (m : RelayNodeManager) : RelayNodeManager :=
  match GetNodeByIP ip m with
  | None => m
  | Some i => m <| rnm_nodes ::= alter f i |>
  end.

Definition MarkNodeFailed (ip : bytes) (now : Z) (m : RelayNodeManager) : RelayNodeManager :=
  updNode ip (fun n => n <| rn_FailCount ::= Z.add 1 |> <| rn_FailTime := Some now |>
                         <| rn_SuccessRate := f_zero |> <| rn_Score := f_zero |>
                         <| rn_Weight := f_zero |>) m.

Definition MarkNodeSuccess (ip : bytes) (now later : Z) (m : RelayNodeManager) : RelayNodeManager :=
  updNode ip (fun n => scored now later
                (n <| rn_FailCount := 0 |> <| rn_SuccessRate := f_one |>)) m.

(** ** Load *)
Definition Acquire (ip : bytes) (m : RelayNodeManager) : RelayNodeManager :=
  m <| rnm_loadCounts ::= <[ip := int32 (default 0 (rnm_loadCounts m !! ip) + 1)]> |>.
Definition Release (ip : bytes) (m : RelayNodeManager) : RelayNodeManager :=
  let count := default 0 (rnm_loadCounts m !! ip) in
  m <| rnm_loadCounts ::= fun l => if 1 <? count then <[ip := count - 1]> l else delete ip l |>.
Definition AcquiredCount (ip : bytes) (m : RelayNodeManager) : Z :=
  default 0 (rnm_loadCounts m !! ip).

Definition maxLoadPerNode : Z := 16.
Definition candidateWeight (m : RelayNodeManager) (ip : bytes) (score : float64) : float64 :=
  let load := of_int (AcquiredCount ip m) in
  let loadFactor := fsub f_one (fmul (fdiv load (of_int maxLoadPerNode)) (fconst 1 2)) in
  let loadFactor := if fltb loadFactor (fconst 1 10) then fconst 1 10 else loadFactor in
  fmul score loadFactor.

(** ** Choice *)

(** The candidates of [selectHealthy]. *)
Definition eligible (excludeIPs : list bytes) (now : Z) (s : relayNodeSnapshot) : bool :=
  negb (bool_decide (sn_ip s ∈ excludeIPs))
  && negb ((3 <=? sn_failCount s) && (since now (sn_failTime s) <? 30 * Second))
  && negb (fleb (sn_successRate s) f_zero).
Definition selectHealthy (excludeIPs : list bytes) (now : Z) (m : RelayNodeManager)
    : list relayNodeSnapshot :=
  filter (fun s => eligible excludeIPs now s = true) (snapshotNodes m).

(** The loop that takes the weights from [pick]; the last candidate if none is hit. *)
Fixpoint pickLoop (m : RelayNodeManager) (pick : float64) (c : relayNodeSnapshot)
    (candidates : list relayNodeSnapshot) : relayNodeSnapshot :=
  let pick := fsub pick (candidateWeight m (sn_ip c) (sn_score c)) in
  if fltb pick f_zero then c else
  match candidates with
  | [] => c
  | c' :: candidates => pickLoop m pick c' candidates
  end.

Definition totalWeight (m : RelayNodeManager) (l : list relayNodeSnapshot) : float64 :=
  foldl (fun t s => fadd t (candidateWeight m (sn_ip s) (sn_score s))) f_zero l.

Definition betterFallback (a b : relayNodeSnapshot) : bool :=
  if negb (sn_failCount a =? sn_failCount b) then sn_failCount a <? sn_failCount b
  else fltb (sn_score b) (sn_score a).
Definition betterScore (a b : relayNodeSnapshot) : bool := fltb (sn_score b) (sn_score a).

Section Select.
Context {srt : SliceSort}.

(** [SelectNodeExcluding]; the times of the two rounds and [rng.Float64()]. *)
Definition SelectNodeExcluding (lookup : bytes -> option (list IP)) (now later : Z) (random : float64)
    (excludeIPs : list bytes) (m : RelayNodeManager) : RelayNodeManager * option relayNodeSnapshot :=
  let '(m, candidates) := match selectHealthy excludeIPs now m with
                          | [] => let m := refreshHostnameNodes lookup m in
                                  (m, selectHealthy excludeIPs later m)
                          | l => (m, l)
                          end in
  match candidates with
  | c :: rest => (m, Some (pickLoop m (fmul random (totalWeight m candidates)) c rest))
  | [] =>
      let filtered := filter (fun s => sn_ip s ∉ excludeIPs) (snapshotNodes m) in
      (m, head (sortSlice betterFallback filtered))
  end.

Definition SelectBestNode (m : RelayNodeManager) : option nat :=
  sn_node <$> head (sortSlice betterScore (snapshotNodes m)).

(** [n] is not negative. *)
Definition SelectBestNodes (n : nat) (m : RelayNodeManager) : list relayNodeSnapshot :=
  take n (sortSlice betterScore (snapshotNodes m)).
End Select.
