(* ===== verification/RelaySpecs.v ===== *)
(** Theorems about the relay nodes: the range of the scores, which node is chosen, how
    the load of a node is counted. *)

From Stdlib Require Import Sorted Floats.SpecFloat.
From stdpp Require Import sorting.
From S2P Require Import Prelude Float64 GoStrings GoNet Relay.

(** ** Scores *)

(** Comparison with a constant of 53 digits that is at least [2^k]. *)
Lemma fltb_upTo k m0 e0 f :
  2 ^ 52 <= Zpos m0 -> k - e0 = 52 -> -1074 <= e0 -> upTo k f ->
  fltb (S754_finite false m0 e0) f = false.
Proof.
  intros Hm0 Hk He0. destruct f as [s|s| |[] m e]; try done. intros [(_ & H1 & H2) Hc].
  unfold fltb, SFltb, SFcompare. change (Pos.compare_cont Eq m0 m) with (Pos.compare m0 m).
  destruct (Z.compare_spec e0 e) as [->|Hlt|]; [|exfalso|done].
  - destruct (Pos.compare_spec m0 m) as [| |]; try done. exfalso. rewrite Hk in H2. lia.
  - apply canonical_cases in Hc as [Hd|]; [|lia].
    pose proof (digits_ge (Zpos m) 53 ltac:(lia)).
    assert (2 ^ (k - e) < 2 ^ (53 - 1)) by (apply Z.pow_lt_mono_r; lia). lia.
Qed.

Lemma not_above_one k f : upTo k f -> nonneg f -> fltb f_one f = false -> below 1 f.
Proof.
  intros Hf Hn. destruct f as [| | |s m e]; try done. cbn in Hn. subst s. destruct Hf as [_ Hc].
  change f_one with (S754_finite false (2 ^ 52) (-52)). unfold fltb, SFltb, SFcompare.
  change (Pos.compare_cont Eq (2 ^ 52) m) with (Pos.compare (2 ^ 52) m). intros H.
  assert (e <= -52) as He by (destruct (Z.compare_spec (-52) e); [lia|discriminate H|lia]).
  split; [|done]. split; [done|]. split; [lia|].
  assert (digits (Zpos m) <= 53) as Hd by (apply canonical_cases in Hc; lia).
  unfold digits in Hd. cbn [Z.leb Z.compare] in Hd.
  apply (Z.lt_le_trans _ (2 ^ Z.succ (Z.log2 (Zpos m)))); [by apply Z.log2_spec|].
  apply Z.pow_le_mono_r; lia.
Qed.

Lemma f_one_below : below 1 f_one.
Proof. split; [split; [|split]|]; vm_compute; congruence. Qed.
Lemma f_one_upTo : upTo 0 f_one.
Proof. split; [split; [|split]|]; vm_compute; congruence. Qed.
Lemma f07_below : below 0 (fconst 7 10).
Proof. split; [split; [|split]|]; vm_compute; congruence. Qed.
Lemma f03_below : below 0 (fconst 3 10).
Proof. split; [split; [|split]|]; vm_compute; congruence. Qed.

Definition successOK (r : float64) : Prop := r = f_zero \/ r = f_one.
Definition latencyOK (l : Z) : Prop := 0 <= l < 2 ^ 63.

Lemma baseScore_upTo n : latencyOK (rn_Latency n) -> successOK (rn_SuccessRate n) -> upTo 3 (baseScore n).
Proof.
  intros Hl Hs. unfold baseScore. set (nl := fdiv _ _).
  assert (upTo 32 nl /\ nonneg nl) as [Hu Hn].
  { destruct (of_int_upTo 63 (rn_Latency n) ltac:(lia)) as [H1 H2]; [unfold latencyOK in Hl; lia|].
    unfold nl. change (of_int maxLatency) with (S754_finite false 5242880000000000 (-20)).
    destruct (fdiv_upTo 63 32 (of_int (rn_Latency n)) false 5242880000000000 (-20)) as [H3 H4];
      [lia|lia|done|lia|by vm_compute|]. split; [exact H3|]. apply H4; [apply H2, Hl|done]. }
  set (l := if fltb f_one nl then f_one else nl). assert (below 1 l) as Hb.
  { unfold l. destruct (fltb f_one nl) eqn:E; [apply f_one_below|by apply (not_above_one 32)]. }
  apply (fadd_upTo 2); [lia| |].
  - apply (fmul_upTo 2 0); [lia|lia| |apply f07_below].
    apply (fsub_upTo 1); [lia|apply (upTo_mono 0); [lia|apply f_one_upTo]|done].
  - apply (upTo_below 0); [lia|]. apply (fmul_upTo 0 0); [lia|lia| |apply f03_below].
    destruct Hs as [->| ->]; [done|apply f_one_upTo].
Qed.

(** Less than 2^40 ns, 18 minutes, pass between two statements. *)
Definition prompt (now later : Z) : Prop := 0 <= later - now < 2 ^ 40.

Lemma Hours_small d : 0 <= d < 2 ^ 40 -> fltb f_one (Hours d) = false.
Proof.
  intros Hd. unfold Hours.
  assert (Hour = 3600 * 1000000000) as EH by reflexivity.
  rewrite Z.quot_small, Z.rem_small by (rewrite EH; lia).
  change (of_int (60 * 60 * 1000000000)) with (S754_finite false 7372800000000000 (-11)).
  destruct (of_int_upTo 40 d ltac:(lia)) as [H1 _]; [lia|].
  destruct (fdiv_upTo 40 41 (of_int d) false 7372800000000000 (-11)) as [H2 _];
    [lia|lia|done|lia|by vm_compute|].
  change f_one with (S754_finite false (2 ^ 52) (-52)).
  apply (fltb_upTo 0); [by vm_compute|done|lia|].
  change (40 - 41 + 1) with 0 in H2. change (of_int 0) with (S754_zero false). unfold fadd.
  destruct (fdiv _ _) as [[]| | |]; try done.
Qed.

Lemma CalculateScore_upTo now later n :
  prompt now later -> latencyOK (rn_Latency n) -> successOK (rn_SuccessRate n) ->
  upTo 4 (CalculateScore later (n <| rn_LastTest := Some now |>)).
Proof.
  intros Hp Hl Hs. unfold CalculateScore. cbn [rn_LastTest upd setter RelayNode_eta since].
  change (rn_LastTest (n <| rn_LastTest := Some now |>)) with (Some now). cbn [since].
  rewrite Hours_small by done. apply (fmul_upTo 3 1); [lia|lia| |apply f_one_below].
  by apply baseScore_upTo.
Qed.

(** ** What every run keeps *)

(** A node that was never measured has the initial score and no success. *)
Record nodeOK (n : RelayNode) : Prop := {
  nk_success : successOK (rn_SuccessRate n);
  nk_score : (rn_Score n = of_int 50 /\ rn_SuccessRate n = f_zero) \/ upTo 4 (rn_Score n);
  nk_latency : latencyOK (rn_Latency n);
  nk_fails : 0 <= rn_FailCount n }.

Lemma newNode_ok a b : nodeOK (newNode a b).
Proof. split; cbn; [by left|by left|by split|done]. Qed.

Lemma scored_ok now later n :
  prompt now later -> latencyOK (rn_Latency n) -> successOK (rn_SuccessRate n) -> 0 <= rn_FailCount n ->
  nodeOK (scored now later n).
Proof. intros Hp Hl Hs Hf. split; [done| |done|done]. right. by apply CalculateScore_upTo. Qed.

Definition probeOK (pb : probe) : Prop :=
  prompt (pb_now pb) (pb_later pb) /\ match pb_latency pb with Some l => latencyOK l | None => True end.

Lemma testNode_ok pb n : probeOK pb -> nodeOK n -> nodeOK (testNode pb n).
Proof.
  intros [Hp Hl] [H1 H2 H3 H4]. unfold testNode.
  destruct (pb_latency pb); apply scored_ok; try done; cbn; [by right|by left].
Qed.

Definition nodesOK (m : RelayNodeManager) : Prop := Forall nodeOK (rnm_nodes m).

(** The operations, with what the world supplies. *)
Inductive relayOp :=
| RoAdd (lookup : bytes -> option (list IP)) (address defaultPort : bytes)
| RoAddAndTest (lookup : bytes -> option (list IP)) (test : nat -> probe) (address defaultPort : bytes)
| RoRefresh (lookup : bytes -> option (list IP))              (* also in [SelectNodeExcluding] *)
| RoTestAll (lookup : bytes -> option (list IP)) (test : nat -> probe)
| RoHealth
| RoFailed (ip : bytes) (now : Z)
| RoSuccess (ip : bytes) (now later : Z)
| RoAcquire (ip : bytes)
| RoRelease (ip : bytes).

Definition runRelayOp (o : relayOp) (m : RelayNodeManager) : RelayNodeManager :=
  match o with
  | RoAdd lookup a p => (AddNode lookup a p m).1
  | RoAddAndTest lookup test a p => (AddNodeAndTest lookup test a p m).1
  | RoRefresh lookup => refreshHostnameNodes lookup m
  | RoTestAll lookup test => testAllNodes lookup test m
  | RoHealth => updateHealthScore m
  | RoFailed ip now => MarkNodeFailed ip now m
  | RoSuccess ip now later => MarkNodeSuccess ip now later m
  | RoAcquire ip => Acquire ip m
  | RoRelease ip => Release ip m
  end.

Definition relayOpOK (o : relayOp) : Prop :=
  match o with
  | RoAddAndTest _ test _ _ | RoTestAll _ test => forall i, probeOK (test i)
  | RoSuccess _ now later => prompt now later
  | _ => True
  end.

(** Refreshing appends nodes with addresses that were not there. *)
Lemma resolvedNodes_new src port ips : forall existing,
  Forall nodeOK (resolvedNodes src port existing ips)
  /\ NoDup (map rn_IP (resolvedNodes src port existing ips))
  /\ forall n, n ∈ resolvedNodes src port existing ips -> rn_IP n ∉ existing.
Proof.
  induction ips as [|ip ips IH]; intros existing; cbn [resolvedNodes].
  - split; [constructor|]. split; [constructor|]. intros n []%not_elem_of_nil.
  - case_bool_decide as Hin; [apply IH|]. set (a := formatIPPort ip port) in *.
    destruct (IH ({[a]} ∪ existing)) as (H1 & H2 & H3). split; [|split].
    + constructor; [apply newNode_ok|done].
    + cbn. constructor; [|done]. intros (n & Hn & Hi)%list_elem_of_fmap. apply H3 in Hi. set_solver.
    + intros n [->|Hn]%elem_of_cons; [done|]. apply H3 in Hn. set_solver.
Qed.

Definition grownBy (m : RelayNodeManager) (new : list RelayNode) (m' : RelayNodeManager) : Prop :=
  m' = m <| rnm_nodes := rnm_nodes m ++ new |> /\ Forall nodeOK new
  /\ NoDup (map rn_IP new) /\ forall n, n ∈ new -> rn_IP n ∉ map rn_IP (rnm_nodes m).

Lemma grownBy_nil m : grownBy m [] m.
Proof.
  split; [destruct m; cbn; by rewrite app_nil_r|]. split; [constructor|]. split; [constructor|].
  intros n []%not_elem_of_nil.
Qed.

Lemma grownBy_trans m n1 m1 n2 m2 : grownBy m n1 m1 -> grownBy m1 n2 m2 -> grownBy m (n1 ++ n2) m2.
Proof.
  intros (-> & F1 & D1 & N1) (-> & F2 & D2 & N2). cbn in N2. split; [by rewrite app_assoc|].
  split; [by apply Forall_app|]. split.
  - rewrite map_app. apply NoDup_app. split; [done|]. split; [|done].
    intros a H1 (n & -> & Hn)%list_elem_of_fmap. apply (N2 n Hn). rewrite map_app, elem_of_app. by right.
  - intros n [Hn|Hn]%elem_of_app; [by apply N1|]. intros H. apply (N2 n Hn).
    rewrite map_app, elem_of_app. by left.
Qed.

Lemma refreshLoop_grows lookup snaps : forall seen m, exists new, grownBy m new (refreshLoop lookup seen snaps m).
Proof.
  induction snaps as [|s snaps IH]; intros seen m; cbn [refreshLoop]; [exists []; apply grownBy_nil|].
  case_bool_decide; [apply IH|]. destruct (splitAddress _ _) as [host port].
  destruct (ParseIP host); [apply IH|]. destruct (lookup _) as [ips|]; [|apply IH].
  destruct (resolvedNodes_new (sn_address s) port ips (list_to_set (map rn_IP (rnm_nodes m)))) as (H1 & H2 & H3).
  destruct (IH ({[sn_address s]} ∪ seen) (addResolvedNodes (sn_address s) port ips m)) as [new Hnew].
  eexists. eapply grownBy_trans; [|exact Hnew]. split; [reflexivity|]. split; [done|]. split; [done|].
  intros n Hn%H3. by rewrite elem_of_list_to_set in Hn.
Qed.

Lemma refresh_grows lookup m : exists new, grownBy m new (refreshHostnameNodes lookup m).
Proof. apply refreshLoop_grows. Qed.

Lemma grownBy_ok m new m' : grownBy m new m' -> nodesOK m -> nodesOK m'.
Proof. intros (-> & F & _) Hm. by apply Forall_app. Qed.

Lemma updNode_ok ip f m : (forall n, nodeOK n -> nodeOK (f n)) -> nodesOK m -> nodesOK (updNode ip f m).
Proof.
  intros Hf Hm. unfold updNode. destruct (GetNodeByIP ip m) as [i|]; [|done].
  unfold nodesOK. cbn. apply Forall_alter; [done|]. intros x _ Hx. by apply Hf.
Qed.

Lemma Forall_imap {A} (P : A -> Prop) (f : nat -> A -> A) l :
  (forall i x, P x -> P (f i x)) -> Forall P l -> Forall P (imap f l).
Proof.
  intros Hf Hl. apply Forall_lookup. intros i y. rewrite list_lookup_imap.
  intros (x & Hx & ->)%fmap_Some. apply Hf. by eapply Forall_lookup_1.
Qed.

Lemma runRelayOp_ok o m : relayOpOK o -> nodesOK m -> nodesOK (runRelayOp o m).
Proof.
  intros Ho Hm. destruct o; cbn [runRelayOp relayOpOK] in *.
  - unfold AddNode. destruct (splitAddress _ _) as [host port]. destruct (ParseIP host).
    + apply Forall_app. split; [done|]. apply Forall_singleton, newNode_ok.
    + destruct (lookup address) as [l|]; [|done]. apply Forall_app. split; [done|].
      apply Forall_fmap, Forall_true. intros ip. apply newNode_ok.
  - unfold AddNodeAndTest. destruct (splitAddress _ _) as [host port].
    assert (forall nodes, Forall nodeOK nodes ->
      nodesOK (addNodes (imap (fun i n => testNode (test i) n) nodes) m)) as Hadd.
    { intros nodes Hn. apply Forall_app. split; [done|].
      apply Forall_imap; [intros i x; by apply testNode_ok|done]. }
    destruct (ParseIP host); [|destruct (lookup address) as [l|]; [|done]]; apply Hadd.
    + apply Forall_singleton, newNode_ok.
    + apply Forall_fmap, Forall_true. intros ip. apply newNode_ok.
  - destruct (refresh_grows lookup m) as [new H]. by apply (grownBy_ok _ _ _ H).
  - destruct (refresh_grows lookup m) as [new H]. unfold testAllNodes, nodesOK. cbn.
    apply Forall_imap; [intros i x; by apply testNode_ok|]. by apply (grownBy_ok _ _ _ H).
  - unfold updateHealthScore. by case_bool_decide.
  - apply updNode_ok; [|done]. intros n [H1 H2 H3 H4]. split; cbn; [by left|by right|done|lia].
  - apply updNode_ok; [|done]. intros n [H1 H2 H3 H4]. apply scored_ok; [done|done|by right|done].
  - done.
  - done.
Qed.

Definition relayStep (m m' : RelayNodeManager) : Prop := exists o, relayOpOK o /\ m' = runRelayOp o m.

Lemma reachable_ok m : rtc relayStep NewRelayNodeManager m -> nodesOK m.
Proof.
  intros Hr. apply (rtc_invariant relayStep nodesOK) with NewRelayNodeManager;
    [|done|constructor]. intros x y [o [Ho ->]]. by apply runRelayOp_ok.
Qed.

(** ** The choice *)

Lemma score_not_nan n : nodeOK n -> rn_Score n <> S754_nan.
Proof. intros Hn. destruct (nk_score _ Hn) as [[-> _]|H]; [discriminate|by apply upTo_not_nan in H]. Qed.

Lemma snapshot_node m s :
  s ∈ snapshotNodes m -> exists n, rnm_nodes m !! sn_node s = Some n /\ s = snapshotNode (sn_node s) n.
Proof.
  intros [i Hi]%list_elem_of_lookup_1. unfold snapshotNodes in Hi. rewrite list_lookup_imap in Hi.
  apply fmap_Some in Hi as (n & Hn & ->). by exists n.
Qed.

Lemma snapshot_not_nan m s : nodesOK m -> s ∈ snapshotNodes m -> sn_score s <> S754_nan.
Proof.
  intros Hm (n & Hn & ->)%snapshot_node. cbn. apply score_not_nan. by eapply Forall_lookup_1.
Qed.

Lemma betterScore_orders m l : nodesOK m -> (forall s, s ∈ l -> s ∈ snapshotNodes m) -> ordersOn betterScore l.
Proof.
  intros Hm Hl. assert (forall s, s ∈ l -> sn_score s <> S754_nan) as Hn
    by (intros s Hs; by apply (snapshot_not_nan m), Hl).
  split; unfold betterScore.
  - intros x y Hx Hy. apply fltb_asym; by apply Hn.
  - intros x y z Hx Hy Hz H. destruct (fltb_cotrans _ (sn_score y) _ (Hn z Hz) (Hn y Hy) (Hn x Hx) H); auto.
Qed.

Lemma betterFallback_orders m l :
  nodesOK m -> (forall s, s ∈ l -> s ∈ snapshotNodes m) -> ordersOn betterFallback l.
Proof.
  intros Hm Hl. destruct (betterScore_orders m l Hm Hl) as [Ha Hc]. unfold betterScore in *.
  split; unfold betterFallback.
  - intros x y Hx Hy. specialize (Ha x y Hx Hy).
    destruct (Z.eqb_spec (sn_failCount x) (sn_failCount y)) as [->|]; cbn [negb].
    + by rewrite Z.eqb_refl.
    + rewrite (proj2 (Z.eqb_neq _ _)) by done. cbn [negb]. lia.
  - intros x y z Hx Hy Hz. specialize (Hc x y z Hx Hy Hz).
    destruct (Z.eqb_spec (sn_failCount x) (sn_failCount z)), (Z.eqb_spec (sn_failCount x) (sn_failCount y)),
      (Z.eqb_spec (sn_failCount y) (sn_failCount z)); cbn [negb]; try lia; auto.
Qed.

Lemma pickLoop_in m cs : forall pick c, pickLoop m pick c cs ∈ c :: cs.
Proof.
  induction cs as [|c' cs IH]; intros pick c; cbn [pickLoop].
  - case_match; apply list_elem_of_singleton; done.
  - case_match; [left|right; apply IH].
Qed.

Lemma sorted_head {A} (R : A -> A -> Prop) l x y :
  StronglySorted R l -> head l = Some x -> y ∈ l -> y = x \/ R x y.
Proof.
  intros Hs. destruct Hs as [|a l Hs Hall]; [done|]. intros [= <-] [->|Hy]%elem_of_cons; [by left|].
  right. by eapply Forall_forall in Hall.
Qed.

(** The choice among candidates in service. *)
Lemma pick_eligible excludeIPs t m c rest pick :
  selectHealthy excludeIPs t m = c :: rest ->
  (pickLoop m pick c rest ∈ snapshotNodes m) /\ (sn_ip (pickLoop m pick c rest) ∉ excludeIPs)
  /\ eligible excludeIPs t (pickLoop m pick c rest) = true.
Proof.
  intros E. pose proof (pickLoop_in m rest pick c) as Hin.
  rewrite <- E in Hin. apply list_elem_of_filter in Hin as [He Hs]. split; [done|]. split; [|done].
  unfold eligible in He. by case_bool_decide.
Qed.

Section Choice.
Context {srt : SliceSort}.

Lemma sortSlice_elem {A} (less : A -> A -> bool) l x : x ∈ sortSlice less l <-> x ∈ l.
Proof. by rewrite sortSlice_perm. Qed.

(** The head after sorting. *)
Lemma sortSlice_head {A} (less : A -> A -> bool) l :
  ordersOn less l ->
  match head (sortSlice less l) with
  | Some x => (x ∈ l) /\ forall y, y ∈ l -> less y x = false
  | None => l = []
  end.
Proof.
  intros Ho. pose proof (sortSlice_sorted _ less l Ho) as Hs.
  destruct (head (sortSlice less l)) as [x|] eqn:Eh.
  - assert (x ∈ l) as Hx.
    { rewrite <- (sortSlice_elem less). destruct (sortSlice less l); [done|]. injection Eh as ->. left. }
    split; [done|]. intros y Hy. pose proof Hy as Hy'. rewrite <- (sortSlice_elem less) in Hy'.
    destruct (sorted_head _ _ x y Hs Eh Hy') as [->|Hle]; [|exact Hle].
    apply not_true_is_false. intros Hlt. pose proof (proj1 Ho x x Hx Hx Hlt). congruence.
  - apply Permutation_nil. rewrite <- (sortSlice_perm _ less l). by destruct (sortSlice less l).
Qed.

(** Without a candidate. *)
Lemma fallback_spec excludeIPs t m :
  nodesOK m -> selectHealthy excludeIPs t m = [] ->
  match head (sortSlice betterFallback (filter (fun s => sn_ip s ∉ excludeIPs) (snapshotNodes m))) with
  | None => forall n, n ∈ rnm_nodes m -> rn_IP n ∈ excludeIPs
  | Some s => (s ∈ snapshotNodes m) /\ (sn_ip s ∉ excludeIPs)
      /\ forall c, c ∈ snapshotNodes m -> eligible excludeIPs t c = false
           /\ (sn_ip c ∉ excludeIPs -> betterFallback c s = false)
  end.
Proof.
  intros Hm E. set (l := filter (fun s => sn_ip s ∉ excludeIPs) (snapshotNodes m)).
  assert (forall s, s ∈ l <-> (sn_ip s ∉ excludeIPs) /\ (s ∈ snapshotNodes m)) as Hl
    by (intros s; unfold l; by rewrite list_elem_of_filter).
  pose proof (sortSlice_head betterFallback l
    (betterFallback_orders m l Hm (fun s Hs => proj2 (proj1 (Hl s) Hs)))) as Hh.
  destruct (head (sortSlice betterFallback l)) as [s|].
  - destruct Hh as [[H1 H2]%Hl Hbest]. split; [done|]. split; [done|]. intros c Hc. split.
    + apply not_true_is_false. intros He. apply (not_elem_of_nil c). rewrite <- E.
      by apply list_elem_of_filter.
    + intros Hex. by apply Hbest, Hl.
  - intros n [i Hi]%list_elem_of_lookup_1. destruct (decide (rn_IP n ∈ excludeIPs)) as [|Hex]; [done|exfalso].
    apply (not_elem_of_nil (snapshotNode i n)). rewrite <- Hh. apply Hl. split; [done|].
    apply (list_elem_of_lookup_2 _ i). unfold snapshotNodes. by rewrite list_lookup_imap, Hi.
Qed.

Definition selectedBy (excludeIPs : list bytes) (now later : Z) (m : RelayNodeManager)
    (r : option relayNodeSnapshot) : Prop :=
  match r with
  | None => forall n, n ∈ rnm_nodes m -> rn_IP n ∈ excludeIPs
  | Some s =>
      (s ∈ snapshotNodes m) /\ (sn_ip s ∉ excludeIPs)
      /\ (eligible excludeIPs now s = true \/ eligible excludeIPs later s = true
          \/ forall c, c ∈ snapshotNodes m -> eligible excludeIPs later c = false
               /\ (sn_ip c ∉ excludeIPs -> betterFallback c s = false))
  end.

Lemma select_cases lookup now later random excludeIPs m m' r :
  nodesOK m -> SelectNodeExcluding lookup now later random excludeIPs m = (m', r) ->
  nodesOK m' /\ selectedBy excludeIPs now later m' r.
Proof.
  intros Hr. unfold SelectNodeExcluding.
  destruct (selectHealthy excludeIPs now m) as [|c rest] eqn:E1.
  - destruct (refresh_grows lookup m) as [new Hg]. apply (grownBy_ok _ _ _ Hg) in Hr.
    set (m1 := refreshHostnameNodes lookup m) in *. clearbody m1.
    destruct (selectHealthy excludeIPs later m1) as [|c rest] eqn:E2; intros [= <- <-]; (split; [done|]).
    + pose proof (fallback_spec excludeIPs later m1 Hr E2) as Hf.
      destruct (head _) as [s|]; cbn; naive_solver.
    + destruct (pick_eligible _ _ _ _ _ (fmul random (totalWeight m1 (c :: rest))) E2) as (H1 & H2 & H3).
      split; [exact H1|]. split; [exact H2|]. right. left. exact H3.
  - intros [= <- <-]. split; [done|].
    destruct (pick_eligible _ _ _ _ _ (fmul random (totalWeight m (c :: rest))) E1) as (H1 & H2 & H3).
    split; [exact H1|]. split; [exact H2|]. left. exact H3.
Qed.


(** at the start the channels get the best nodes: as many as asked for if there are
    so many, none twice, and none that is left out scores better than one that is
    taken. *)
Theorem SelectBestNodes_spec n m :
  rtc relayStep NewRelayNodeManager m ->
  let best := SelectBestNodes n m in
  length best = min n (length (rnm_nodes m)) /\ NoDup (map sn_node best)
  /\ forall s c, s ∈ best -> c ∈ snapshotNodes m -> c ∉ best ->
       (s ∈ snapshotNodes m) /\ betterScore c s = false.
Proof.
  intros Hr%reachable_ok. cbv zeta. unfold SelectBestNodes.
  assert (ordersOn betterScore (snapshotNodes m)) as Ho by (by apply (betterScore_orders m)).
  pose proof (sortSlice_perm _ betterScore (snapshotNodes m)) as Hp.
  pose proof (sortSlice_sorted _ betterScore (snapshotNodes m) Ho) as Hs.
  assert (map sn_node (snapshotNodes m) = seq 0 (length (rnm_nodes m))) as Eseq.
  { apply list_eq. intros i. rewrite list_lookup_fmap. unfold snapshotNodes. rewrite list_lookup_imap.
    destruct (rnm_nodes m !! i) as [x|] eqn:E; cbn.
    - apply lookup_lt_Some in E. symmetry. by apply lookup_seq.
    - apply lookup_ge_None in E. symmetry. by apply lookup_seq_ge. }
  set (l := sortSlice betterScore (snapshotNodes m)) in *. split; [|split].
  - rewrite length_take, Hp. unfold snapshotNodes. by rewrite length_imap.
  - assert (NoDup (map sn_node (take n l ++ drop n l))) as Hnd
      by (rewrite take_drop, Hp, Eseq; apply NoDup_seq).
    rewrite map_app in Hnd. by apply NoDup_app in Hnd as [? _].
  - intros s c Hin Hc Hout. split.
    { rewrite <- Hp, <- (take_drop n l), elem_of_app. by left. }
    rewrite <- (take_drop n l) in Hs. apply (StronglySorted_app_1_elem_of _ _ _ _ _ Hs); [done|]. rewrite <- Hp, <- (take_drop n l), elem_of_app in Hc. by destruct Hc.
Qed.
End Choice.

(** ** An implementation of the sort *)
Section Insertion.
Context {A : Type} (less : A -> A -> bool).

Fixpoint insertBy (x : A) (l : list A) : list A :=
  match l with
  | [] => [x]
  | y :: l => if less y x then y :: insertBy x l else x :: y :: l
  end.
Definition insertionSort (l : list A) : list A := foldr insertBy [] l.

Lemma insertBy_perm x l : insertBy x l ≡ₚ x :: l.
Proof.
  induction l as [|y l IH]; [done|]. cbn. destruct (less y x); [|done]. rewrite IH. apply Permutation_swap.
Qed.
Lemma insertionSort_perm l : insertionSort l ≡ₚ l.
Proof. induction l as [|x l IH]; [done|]. cbn. by rewrite insertBy_perm, IH. Qed.

Let R x y := less y x = false.
Lemma insertBy_sorted x l : ordersOn less (x :: l) -> StronglySorted R l -> StronglySorted R (insertBy x l).
Proof.
  intros [Ha Hc]. induction l as [|y l IH]; intros Hs; [by repeat constructor|]. cbn.
  apply StronglySorted_inv in Hs as [Hs Hall]. destruct (less y x) eqn:E.
  - constructor.
    + apply IH; [..|done]; [intros u v Hu Hv; apply Ha; set_solver|intros u v z Hu Hv Hz; apply Hc; set_solver].
    + rewrite insertBy_perm. constructor; [|done]. unfold R. apply Ha; [set_solver|set_solver|done].
  - constructor; [by constructor|]. constructor; [exact E|]. rewrite Forall_forall in Hall |- *.
    intros z Hz. apply not_true_is_false. intros Hzx. specialize (Hall z Hz). unfold R in Hall.
    destruct (Hc z y x) as [H|H]; [set_solver..|exact Hzx| |]; congruence.
Qed.

Lemma insertionSort_sorted l : ordersOn less l -> StronglySorted R (insertionSort l).
Proof.
  induction l as [|x l IH]; intros Ho; [constructor|]. cbn. apply insertBy_sorted.
  - destruct Ho as [Ha Hc]. split.
    + intros u v. rewrite insertionSort_perm. apply Ha.
    + intros u v z. rewrite insertionSort_perm. apply Hc.
  - apply IH. destruct Ho as [Ha Hc]. split; [intros u v Hu Hv; apply Ha; set_solver|].
    intros u v z Hu Hv Hz. apply Hc; set_solver.
Qed.
End Insertion.

#[export] Instance insertion_SliceSort : SliceSort := {
  sortSlice A less l := insertionSort less l;
  sortSlice_perm A less l := insertionSort_perm less l;
  sortSlice_sorted A less l := insertionSort_sorted less l }.

(** ** Scores, health *)

Lemma healthy_never n : nodeOK n -> forall i, healthySnapshot (snapshotNode i n) = false.
Proof.
  intros Hn i. unfold healthySnapshot. cbn [sn_score sn_successRate snapshotNode].
  destruct (nk_score _ Hn) as [[_ ->]|Hs]; [by rewrite andb_false_r|].
  change (of_int 30) with (S754_finite false (30 * 2 ^ 48) (-48)).
  rewrite (fltb_upTo 4); [done|by vm_compute|done|lia|done].
Qed.


(** the health is the percentage of nodes without a failure, rounded up, 50 without
    nodes; it decides how often the nodes are measured: every 15 s below 30, every minute
    from 70 on. *)
Theorem updateHealthScore_spec m :
  let n := len (rnm_nodes m) in
  let failed := len (filter (fun s => 0 < sn_failCount s) (snapshotNodes m)) in
  let m' := updateHealthScore m in
  rnm_nodes m' = rnm_nodes m
  /\ rnm_healthScore m' = (if n =? 0 then 50 else 100 - failed * 100 / n)
  /\ 0 <= rnm_healthScore m' <= 100
  /\ (n <> 0 -> failed = 0 -> CurrentTestInterval m' = 60 * Second)
  /\ (n <> 0 -> failed = n -> CurrentTestInterval m' = 15 * Second).
Proof.
  cbv zeta. unfold updateHealthScore.
  assert (len (snapshotNodes m) = len (rnm_nodes m)) as El by (unfold len, snapshotNodes; by rewrite length_imap).
  set (failed := len (filter _ _)). assert (0 <= failed <= len (snapshotNodes m)) as Hf.
  { split; [apply len_nonneg|]. unfold failed, len. pose proof (length_filter (fun s => 0 < sn_failCount s) (snapshotNodes m)). lia. }
  case_bool_decide as E.
  - rewrite E in El. rewrite <- El. cbn. repeat split; try done; lia.
  - assert (0 < len (snapshotNodes m)) as Hpos.
    { destruct (snapshotNodes m); [done|]. rewrite len_cons. pose proof (len_nonneg l). lia. }
    rewrite <- El. rewrite (proj2 (Z.eqb_neq _ _)) by lia. set (n := len (snapshotNodes m)) in *.
    assert (0 <= failed * 100 / n <= 100) as Hq.
    { split; [apply Z.div_pos; lia|]. apply Z.div_le_upper_bound; lia. }
    unfold SetHealthScore. cbn [rnm_healthScore rnm_nodes upd setter RelayNodeManager_eta].
    rewrite int32_id by lia. rewrite (proj2 (Z.ltb_ge _ 0)) by lia. rewrite (proj2 (Z.ltb_ge 100 _)) by lia.
    split; [done|]. split; [done|]. split; [cbn; lia|]. split; intros _ Efail.
    + rewrite Efail. done.
    + rewrite Efail, Z.mul_comm, Z.div_mul by lia. done.
Qed.

(** ** Load *)

(** Sessions over relay nodes, [live] of them by the address of their node: a dial
    succeeds, a session ends; and anything else that happens to the manager. *)
Inductive sessionStep : RelayNodeManager * list bytes -> RelayNodeManager * list bytes -> Prop :=
| ss_begin m live ip now later : len live < 2 ^ 31 - 1 ->
    sessionStep (m, live) (Acquire ip (MarkNodeSuccess ip now later m), ip :: live)
| ss_end m live ip rest : live ≡ₚ ip :: rest -> sessionStep (m, live) (Release ip m, rest)
| ss_other m live o : (forall ip, o <> RoAcquire ip /\ o <> RoRelease ip) ->
    sessionStep (m, live) (runRelayOp o m, live).

Definition liveOn (ip : bytes) (live : list bytes) : Z := len (filter (fun a => a = ip) live).
Definition loadsOK (s : RelayNodeManager * list bytes) : Prop :=
  forall ip, rnm_loadCounts (s.1) !! ip = if liveOn ip s.2 =? 0 then None else Some (liveOn ip s.2).

Lemma updNode_loads ip f m : rnm_loadCounts (updNode ip f m) = rnm_loadCounts m.
Proof. unfold updNode. by destruct (GetNodeByIP ip m). Qed.

Lemma runRelayOp_loads o m :
  (forall ip, o <> RoAcquire ip /\ o <> RoRelease ip) -> rnm_loadCounts (runRelayOp o m) = rnm_loadCounts m.
Proof.
  intros Ho. destruct o; cbn [runRelayOp].
  - unfold AddNode. destruct (splitAddress _ _). destruct (ParseIP _); [done|]. by destruct (lookup _).
  - unfold AddNodeAndTest. destruct (splitAddress _ _). destruct (ParseIP _); [done|]. by destruct (lookup _).
  - by destruct (refresh_grows lookup m) as (? & -> & _).
  - unfold testAllNodes. by destruct (refresh_grows lookup m) as (? & -> & _).
  - unfold updateHealthScore. by case_bool_decide.
  - apply updNode_loads.
  - apply updNode_loads.
  - by destruct (Ho ip).
  - by destruct (Ho ip).
Qed.

Lemma liveOn_cons ip a l : liveOn ip (a :: l) = liveOn ip l + (if bool_decide (a = ip) then 1 else 0).
Proof.
  unfold liveOn. rewrite filter_cons. case_bool_decide.
  - rewrite decide_True by done. rewrite len_cons. lia.
  - rewrite decide_False by done. lia.
Qed.
Lemma liveOn_range ip l : 0 <= liveOn ip l <= len l.
Proof.
  split; [apply len_nonneg|]. unfold liveOn, len. pose proof (length_filter (fun a => a = ip) l). lia.
Qed.
Lemma liveOn_perm ip l l' : l ≡ₚ l' -> liveOn ip l = liveOn ip l'.
Proof. intros H. unfold liveOn, len. by rewrite H. Qed.

Lemma sessionStep_loads s s' : sessionStep s s' -> loadsOK s -> loadsOK s'.
Proof.
  intros Hs Hl. destruct Hs as [m live a now later Hlen|m live a rest Hp|m live o Ho]; intros ip; specialize (Hl ip) as Hip.
  - cbn [fst snd] in *. unfold Acquire. cbn [rnm_loadCounts upd setter RelayNodeManager_eta].
    unfold MarkNodeSuccess. rewrite updNode_loads, liveOn_cons. pose proof (liveOn_range ip live).
    case_bool_decide as E.
    + subst a. rewrite lookup_insert_eq, Hip, (proj2 (Z.eqb_neq (liveOn ip live + 1) 0)) by lia. f_equal.
      destruct (Z.eqb_spec (liveOn ip live) 0) as [->|]; [done|]. cbn. apply int32_id. lia.
    + rewrite lookup_insert_ne by done. by rewrite Z.add_0_r.
  - cbn [fst snd] in *. unfold Release. cbn [rnm_loadCounts upd setter RelayNodeManager_eta].
    specialize (Hl a) as Ha. cbn [fst snd] in Ha. rewrite (liveOn_perm _ _ _ Hp), liveOn_cons in Ha.
    rewrite (liveOn_perm _ _ _ Hp), liveOn_cons in Hip. rewrite bool_decide_true in Ha by done. pose proof (liveOn_range a rest) as Hr.
    rewrite (proj2 (Z.eqb_neq _ 0)) in Ha by lia. rewrite Ha. cbn [default from_option id]. cbv beta.
    case_bool_decide as E.
    + subst a. destruct (Z.ltb_spec 1 (liveOn ip rest + 1)).
      * rewrite lookup_insert_eq, (proj2 (Z.eqb_neq _ 0)) by lia. f_equal. lia.
      * rewrite lookup_delete_eq. by rewrite (proj2 (Z.eqb_eq _ 0)) by lia.
    + rewrite Z.add_0_r in Hip. destruct (_ <? _); [rewrite lookup_insert_ne by done|rewrite lookup_delete_ne by done];
        exact Hip.
  - cbn [fst snd] in *. by rewrite runRelayOp_loads.
Qed.

(** C26: the load of a node is the number of live sessions through it, in every run, and a
    node without a session has no entry. *)
Theorem relay_loads m live :
  rtc sessionStep (NewRelayNodeManager, []) (m, live) ->
  forall ip, AcquiredCount ip m = liveOn ip live /\ (is_Some (rnm_loadCounts m !! ip) <-> ip ∈ live).
Proof.
  intros Hr ip. assert (loadsOK (m, live)) as Hl.
  { apply (rtc_invariant sessionStep loadsOK) with (NewRelayNodeManager, []);
      [intros x y Hxy Hx; by apply (sessionStep_loads x)|done|by intros a]. }
  specialize (Hl ip). cbn in Hl. unfold AcquiredCount. rewrite Hl.
  assert (ip ∈ live <-> liveOn ip live <> 0) as Hiff.
  { clear. induction live as [|a l IH]; [split; [by intros ?%not_elem_of_nil|done]|].
    rewrite elem_of_cons, liveOn_cons. pose proof (liveOn_range ip l). case_bool_decide; naive_solver lia. }
  destruct (Z.eqb_spec (liveOn ip live) 0) as [E|E].
  - split; [done|]. rewrite Hiff. split; [intros [? [=]]|done].
  - split; [done|]. rewrite Hiff. split; [done|by eexists].
Qed.

(** ** Two nodes: one fast, one slow; the fast one then fails. *)
Definition noDNS (a : bytes) : option (list IP) := None.
Definition demoProbe (i : nat) : probe :=
  mkProbe (Some (if (i =? 0)%nat then 20 * Millisecond else 900 * Millisecond)) 1000 1001.
Definition fastNode : bytes := lit "192.0.2.1:443".
Definition slowNode : bytes := lit "192.0.2.2:8443".
Definition demoRelayOps : list relayOp :=
  [RoAdd noDNS (lit "192.0.2.1") (lit "443"); RoAdd noDNS slowNode (lit "443"); RoTestAll noDNS demoProbe].
Definition runRelayOps (ops : list relayOp) (m : RelayNodeManager) : RelayNodeManager :=
  foldl (fun m o => runRelayOp o m) m ops.
Definition relay1 : RelayNodeManager := runRelayOps demoRelayOps NewRelayNodeManager.
Definition relay2 : RelayNodeManager := MarkNodeFailed fastNode 2000 relay1.

Lemma runRelayOps_run ops : forall m, Forall relayOpOK ops -> rtc relayStep m (runRelayOps ops m).
Proof.
  induction ops as [|o ops IH]; intros m H; [apply rtc_refl|]. apply Forall_cons in H as [Ho H].
  eapply rtc_l; [exists o; split; [exact Ho|reflexivity]|by apply IH].
Qed.
Lemma demoRelayOps_ok : Forall relayOpOK demoRelayOps.
Proof.
  repeat constructor; cbn; intros; destruct (i =? 0)%nat; vm_compute; intuition congruence.
Qed.
Lemma relay1_run : rtc relayStep NewRelayNodeManager relay1.
Proof. apply runRelayOps_run, demoRelayOps_ok. Qed.
Lemma relay2_run : rtc relayStep NewRelayNodeManager relay2.
Proof.
  transitivity relay1; [apply relay1_run|]. apply rtc_once. by exists (RoFailed fastNode 2000).
Qed.

Example demo_best : map sn_ip (SelectBestNodes 2 relay1) = [fastNode; slowNode].
Proof. vm_compute. reflexivity. Qed.


Lemma SelectBestNodes_spec_witness :
  map sn_ip (SelectBestNodes 1 relay1) = [fastNode]
  /\ length (SelectBestNodes 1 relay1) = min 1 (length (rnm_nodes relay1)).
Proof.
  split; [vm_compute; reflexivity|]. exact (proj1 (SelectBestNodes_spec 1 relay1 relay1_run)).
Defined.


Definition loads2 : RelayNodeManager * list bytes :=
  (Acquire slowNode (MarkNodeSuccess slowNode 10 11 (Acquire fastNode (MarkNodeSuccess fastNode 5 6 NewRelayNodeManager))),
   [slowNode; fastNode]).
Lemma relay_loads_witness :
  let s := Release fastNode loads2.1 in
  AcquiredCount fastNode s = 0 /\ AcquiredCount slowNode s = 1 /\ AcquiredCount slowNode s = liveOn slowNode [slowNode].
Proof.
  split; [vm_compute; reflexivity|]. split; [vm_compute; reflexivity|].
  apply (relay_loads (Release fastNode loads2.1) [slowNode]).
  eapply rtc_l; [apply (ss_begin NewRelayNodeManager [] fastNode 5 6); vm_compute; reflexivity|].
  eapply rtc_l; [apply (ss_begin _ [fastNode] slowNode 10 11); vm_compute; reflexivity|].
  apply rtc_once. apply (ss_end _ [slowNode; fastNode] fastNode [slowNode]). apply Permutation_swap.
Defined.
