(* ===== verification/IPStrategy.v ===== *)
(** Address families ([protocol/ip_strategy.go]): the strategy of a side of the
    tunnel, the resolution of a target under it, and the cache of the resolver,
    whose answers are an argument. *)

From Stdlib Require Import Sorted.
From S2P Require Import Prelude Protocol GoStrings GoNet.

Definition IPStrategyDefault : Z := 0.
Definition IPStrategyIPv4Only : Z := 1.
Definition IPStrategyIPv6Only : Z := 2.
Definition IPStrategyPv4Pv6 : Z := 3.
Definition IPStrategyPv6Pv4 : Z := 4.

(** ** [ParseIPStrategy] *)

(** [strings.TrimSpace] *)
Definition allSpaces : list bytes := [byte_of_Z 10] :: spaceRunes.
Fixpoint trimWith (fuel : nat) (runes : list bytes) (s : bytes) : bytes :=
  match fuel with
  | O => s
  | S fuel => match stripSpace runes s with Some s => trimWith fuel runes s | None => s end
  end.
Definition TrimSpace (s : bytes) : bytes :=
  let s := trimWith (length s) allSpaces s in
  reverse (trimWith (length s) (map reverse allSpaces) (reverse s)).

Definition removeSpaces (s : bytes) : bytes := filter (fun b => b <> byte_of_Z 32) s.

Definition ParseIPStrategy (s : bytes) : Z :=
  let s := removeSpaces (TrimSpace s) in
  if bool_decide (s = lit "4") then IPStrategyIPv4Only
  else if bool_decide (s = lit "6") then IPStrategyIPv6Only
  else if bool_decide (s = lit "4,6") then IPStrategyPv4Pv6
  else if bool_decide (s = lit "6,4") then IPStrategyPv6Pv4
  else IPStrategyDefault.

(** ** The cache *)
Record dnsCacheEntry := mkDnsCacheEntry { de_addrs : list IP; de_expiresAt : Z }.
Abbreviation dnsCache := (gmap bytes dnsCacheEntry).

Definition dnsCacheTTL : Z := Minute.

(** [lookup]: what [net.LookupIP] would answer now; [None] is an error. *)
Definition lookupIPCached (lookup : bytes -> option (list IP)) (now : Z) (host : bytes)
    (cache : dnsCache) : dnsCache * option (list IP) :=
  let miss cache :=
    match lookup host with
    | None => (cache, None)
    | Some addrs => (<[host := mkDnsCacheEntry addrs (now + dnsCacheTTL)]> cache, Some addrs)
    end in
  match cache !! host with
  | Some e => if now <? de_expiresAt e then (cache, Some (de_addrs e)) else miss (delete host cache)
  | None => miss cache
  end.

(** ** Resolution *)
Definition isIPv4 (ip : IP) : bool := isSome (To4 ip).

Definition joinPlain (host port : bytes) : bytes := host ++ chColon :: port.
Definition joinBracket (host port : bytes) : bytes :=
  chLBracket :: host ++ chRBracket :: chColon :: port.

(** The loop [for _, addr := range addrs]: the first address of a family. *)
Fixpoint firstOf (v4 : bool) (addrs : list IP) : option IP :=
  match addrs with
  | [] => None
  | a :: addrs => if Bool.eqb (isIPv4 a) v4 then Some a else firstOf v4 addrs
  end.

Section Resolve.
Context (addrs : option (list IP)) (host port : bytes).

Definition resolveIPv4Only : bytes :=
  match addrs with
  | None => joinPlain host port
  | Some addrs => match firstOf true addrs with
                  | Some a => joinPlain (IPString a) port
                  | None => joinPlain host port
                  end
  end.

Definition resolveIPv6Only : bytes :=
  match addrs with
  | None => joinBracket host port
  | Some addrs => match firstOf false addrs with
                  | Some a => joinBracket (IPString a) port
                  | None => joinBracket host port
                  end
  end.

Definition resolveIPv4First : bytes :=
  match addrs with
  | None => joinPlain host port
  | Some addrs => match firstOf true addrs with
                  | Some a => joinPlain (IPString a) port
                  | None => match firstOf false addrs with
                            | Some a => joinBracket (IPString a) port
                            | None => joinPlain host port
                            end
                  end
  end.

Definition resolveIPv6First : bytes :=
  match addrs with
  | None => joinBracket host port
  | Some addrs => match firstOf false addrs with
                  | Some a => joinBracket (IPString a) port
                  | None => match firstOf true addrs with
                            | Some a => joinPlain (IPString a) port
                            | None => joinBracket host port
                            end
                  end
  end.
End Resolve.

Definition ResolveWithStrategy (lookup : bytes -> option (list IP)) (now : Z) (target : bytes)
    (strategy : Z) (cache : dnsCache) : dnsCache * bytes :=
  match SplitHostPort target with
  | None => (cache, target)
  | Some (host, port) =>
      match ParseIP host with
      | Some ip =>
          if negb (isIPv4 ip) && negb (HasPrefix host (lit "[")) then (cache, joinBracket host port)
          else (cache, target)
      | None =>
          let resolve f := let '(cache, addrs) := lookupIPCached lookup now host cache in
                           (cache, f addrs host port) in
          if strategy =? IPStrategyIPv4Only then resolve resolveIPv4Only
          else if strategy =? IPStrategyIPv6Only then resolve resolveIPv6Only
          else if strategy =? IPStrategyPv4Pv6 then resolve resolveIPv4First
          else if strategy =? IPStrategyPv6Pv4 then resolve resolveIPv6First
          else (cache, target)
      end
  end.

(** * Theorems *)

(** The addresses a strategy admits, in its order. *)
Definition preference (strategy : Z) (addrs : list IP) : list IP :=
  let v4 := filter (fun a => isIPv4 a = true) addrs in
  let v6 := filter (fun a => isIPv4 a = false) addrs in
  if strategy =? IPStrategyIPv4Only then v4
  else if strategy =? IPStrategyIPv6Only then v6
  else if strategy =? IPStrategyPv4Pv6 then v4 ++ v6
  else v6 ++ v4.

Definition prefersIPv6 (strategy : Z) : bool :=
  (strategy =? IPStrategyIPv6Only) || (strategy =? IPStrategyPv6Pv4).

(** An address as a dial target; without one, the name itself, which the system
    resolves without a strategy. *)
Definition dialTarget (strategy : Z) (a : option IP) (host port : bytes) : bytes :=
  match a with
  | Some a => if isIPv4 a then joinPlain (IPString a) port else joinBracket (IPString a) port
  | None => if prefersIPv6 strategy then joinBracket host port else joinPlain host port
  end.

Lemma firstOf_head v4 addrs : firstOf v4 addrs = head (filter (fun a => isIPv4 a = v4) addrs).
Proof.
  induction addrs as [|a addrs IH]; [done|]. cbn [firstOf]. rewrite filter_cons.
  destruct (Bool.eqb_spec (isIPv4 a) v4) as [E|E].
  - by rewrite decide_True.
  - by rewrite decide_False.
Qed.

Lemma head_app {A} (l k : list A) : head (l ++ k) = match head l with Some x => Some x | None => head k end.
Proof. by destruct l. Qed.

Lemma head_filter_eq v4 addrs a :
  head (filter (fun a => isIPv4 a = v4) addrs) = Some a -> isIPv4 a = v4.
Proof.
  intros H. assert (a ∈ filter (fun a => isIPv4 a = v4) addrs) as Ha.
  { destruct (filter _ addrs) as [|x l]; [done|]. injection H as ->. left. }
  by apply list_elem_of_filter in Ha as [? _].
Qed.

(** C19: the four resolvers agree with one rule: the target is the first address the
    strategy admits, in the order of its preference, written for its family. *)
Theorem resolve_prefers lookup now target strategy cache host port addrs cache' :
  SplitHostPort target = Some (host, port) -> ParseIP host = None ->
  1 <= strategy <= 4 ->
  lookupIPCached lookup now host cache = (cache', Some addrs) ->
  ResolveWithStrategy lookup now target strategy cache
  = (cache', dialTarget strategy (head (preference strategy addrs)) host port).
Proof.
  intros Hs Hp Hst Hl. unfold ResolveWithStrategy. rewrite Hs, Hp, Hl.
  assert (strategy = 1 \/ strategy = 2 \/ strategy = 3 \/ strategy = 4) as Hcase by lia.
  unfold resolveIPv4Only, resolveIPv6Only, resolveIPv4First, resolveIPv6First, preference, dialTarget, prefersIPv6,
    IPStrategyIPv4Only, IPStrategyIPv6Only, IPStrategyPv4Pv6, IPStrategyPv6Pv4.
  rewrite !firstOf_head.
  destruct (head (filter (fun a => isIPv4 a = true) addrs)) as [a|] eqn:E4,
    (head (filter (fun a => isIPv4 a = false) addrs)) as [b|] eqn:E6;
    try pose proof (head_filter_eq true addrs _ E4) as F4;
    try pose proof (head_filter_eq false addrs _ E6) as F6;
    destruct Hcase as [->|[->|[->| ->]]]; cbn [Z.eqb Pos.eqb orb];
    rewrite ?head_app, ?E4, ?E6, ?F4, ?F6; done.
Qed.

(** A name with two addresses. *)
Definition demoDNS (now : Z) (host : bytes) : option (list IP) :=
  if bool_decide (host = lit "example.org") then
    match ParseIP (lit "2001:db8::7"), ParseIP (lit "192.0.2.7") with
    | Some a, Some b => Some [a; b]
    | _, _ => None
    end
  else None.

Lemma resolve_prefers_witness :
  (ResolveWithStrategy (demoDNS 0) 0 (lit "example.org:443") IPStrategyPv4Pv6 ∅).2 = lit "192.0.2.7:443"
  /\ (ResolveWithStrategy (demoDNS 0) 0 (lit "example.org:443") IPStrategyIPv6Only ∅).2
     = lit "[2001:db8::7]:443".
Proof.
  assert (forall st, 1 <= st <= 4 ->
    (ResolveWithStrategy (demoDNS 0) 0 (lit "example.org:443") st ∅).2
    = dialTarget st (head (preference st (default [] (demoDNS 0 (lit "example.org")))))
        (lit "example.org") (lit "443")) as H.
  { intros st Hst.
    rewrite (resolve_prefers (demoDNS 0) 0 (lit "example.org:443") st ∅ (lit "example.org") (lit "443")
      (default [] (demoDNS 0 (lit "example.org")))
      (lookupIPCached (demoDNS 0) 0 (lit "example.org") ∅).1); [reflexivity|..];
      [vm_compute; reflexivity|vm_compute; reflexivity|exact Hst|reflexivity]. }
  split; rewrite H; try (vm_compute; reflexivity); unfold IPStrategyPv4Pv6, IPStrategyIPv6Only; lia.
Defined.

(** ** The cache in a run *)

(** Queries at times that never go back; [dns t] is the world at time [t]. *)
Fixpoint runLookups (dns : Z -> bytes -> option (list IP)) (queries : list (Z * bytes))
    (cache : dnsCache) : list (Z * bytes * option (list IP)) :=
  match queries with
  | [] => []
  | (now, host) :: queries =>
      let '(cache, r) := lookupIPCached (dns now) now host cache in
      (now, host, r) :: runLookups dns queries cache
  end.

Definition fromDNS (dns : Z -> bytes -> option (list IP)) (now : Z) (cache : dnsCache) : Prop :=
  forall h e, cache !! h = Some e ->
    exists t, t <= now /\ dns t h = Some (de_addrs e) /\ de_expiresAt e = t + dnsCacheTTL.

Lemma lookup_fresh dns now host cache cache' r :
  fromDNS dns now cache -> lookupIPCached (dns now) now host cache = (cache', r) ->
  fromDNS dns now cache' /\
  match r with
  | Some addrs => exists t, now - dnsCacheTTL < t <= now /\ dns t host = Some addrs
  | None => dns now host = None
  end.
Proof.
  intros Hc. unfold lookupIPCached.
  assert (forall c, fromDNS dns now c -> forall c' r',
    match dns now host with
    | None => (c, None)
    | Some addrs => (<[host := mkDnsCacheEntry addrs (now + dnsCacheTTL)]> c, Some addrs)
    end = (c', r') -> fromDNS dns now c' /\
    match r' with
    | Some addrs => exists t, now - dnsCacheTTL < t <= now /\ dns t host = Some addrs
    | None => dns now host = None
    end) as Hmiss.
  { intros c Hc1 c' r'. destruct (dns now host) as [addrs|] eqn:E; intros [= <- <-]; [|done].
    split; [|exists now; unfold dnsCacheTTL, Minute, Second, Millisecond; split; [lia|done]].
    intros h e [[<- <-]|[_ He]]%lookup_insert_Some; [|by apply Hc1]. exists now. split; [lia|done]. }
  destruct (cache !! host) as [e|] eqn:E; [|by apply Hmiss].
  destruct (Z.ltb_spec now (de_expiresAt e)) as [Hlt|_].
  - intros [= <- <-]. split; [done|]. destruct (Hc _ _ E) as (t & Ht & Hd & He).
    exists t. split; [lia|done].
  - apply Hmiss. intros h e' [_ He']%lookup_delete_Some. by apply Hc.
Qed.

(** through the cache, every answer is one the resolver gave for that name less
    than a minute before, and an error is an error of now. *)
Theorem dns_cache_fresh dns queries :
  StronglySorted Z.le (map fst queries) ->
  Forall (fun '(now, host, r) =>
    match r with
    | Some addrs => exists t, now - Minute < t <= now /\ dns t host = Some addrs
    | None => dns now host = None
    end) (runLookups dns queries ∅).
Proof.
  assert (forall now cache, fromDNS dns now cache -> Forall (Z.le now) (map fst queries) ->
    StronglySorted Z.le (map fst queries) ->
    Forall (fun '(now, host, r) =>
      match r with
      | Some addrs => exists t, now - Minute < t <= now /\ dns t host = Some addrs
      | None => dns now host = None
      end) (runLookups dns queries cache)) as H.
  { induction queries as [|[t h] queries IH]; intros now cache Hc Hall Hs; [constructor|].
    cbn [runLookups]. destruct (lookupIPCached (dns t) t h cache) as [cache' r] eqn:E.
    cbn in Hall, Hs. apply Forall_cons in Hall as [Ht _].
    apply StronglySorted_inv in Hs as [Hs Hall].
    assert (fromDNS dns t cache) as Hc'.
    { intros h' e He. destruct (Hc _ _ He) as (t' & ? & ?). exists t'. split; [lia|done]. }
    destruct (lookup_fresh dns t h cache cache' r Hc' E) as [H1 H2].
    constructor; [exact H2|]. by apply (IH t). }
  intros Hs. destruct queries as [|[t h] queries]; [constructor|].
  apply (H t ∅); [by intros ? ? ?|..|done]. apply StronglySorted_inv in Hs as [_ Hs]. by constructor.
Qed.

(** The second query comes from the cache, the third does not. *)
Definition changingDNS (now : Z) (host : bytes) : option (list IP) := Some [[10; 0; 0; now / Second]].

Lemma dns_cache_fresh_witness :
  runLookups changingDNS [(0, lit "a"); (59 * Second, lit "a"); (61 * Second, lit "a")] ∅
  = [(0, lit "a", Some [[10; 0; 0; 0]]); (59 * Second, lit "a", Some [[10; 0; 0; 0]]);
     (61 * Second, lit "a", Some [[10; 0; 0; 61]])]
  /\ Forall (fun '(now, host, r) =>
       match r with
       | Some addrs => exists t, now - Minute < t <= now /\ changingDNS t host = Some addrs
       | None => changingDNS now host = None
       end) (runLookups changingDNS
               [(0, lit "a"); (59 * Second, lit "a"); (61 * Second, lit "a")] ∅).
Proof.
  split; [vm_compute; reflexivity|]. apply (dns_cache_fresh changingDNS).
  repeat constructor; vm_compute; discriminate.
Defined.
