(* ===== verification/HotPairTable.v ===== *)
(** The server's hot-pair table ([hotpair_table.go]).

    The table maps a client to its entries by key.  The abstract state that
    clients of the table see is [view]: the live entry of a (client, key) at a
    given time.  The refinement theorems state each operation on the view; the
    sweeping of expired entries is unobservable. *)

From S2P Require Import Prelude Protocol.

(** ** State *)
Record HotPairEntry := mkHotPairEntry {
  he_Key : bytes; he_ChA : Z; he_ChB : Z; he_At : Z }.

#[export] Instance HotPairEntry_eq_dec : EqDecision HotPairEntry.
Proof. solve_decision. Defined.

Definition hotPairEntryTTL : Z := 10 * Minute.

Abbreviation HotPairTable := (gmap bytes (gmap bytes HotPairEntry)).

Definition NewHotPairTable : HotPairTable := ∅.

(** [now.Sub(e.At) > hotPairEntryTTL] *)
Definition expired (now : Z) (e : HotPairEntry) : bool :=
  hotPairEntryTTL <? now - he_At e.

(** [DecodeHotPairNotify] never panics (see [Protocol]), so the default is
    never taken. *)
Definition decodeNotify (payload : bytes) : list HotPairInfo :=
  default [] (DecodeHotPairNotify payload).

(** The entries that are stored: [continue] on the others. *)
Definition storable (e : HotPairInfo) : bool :=
  negb (bool_decide (hp_Key e = []) || (hp_ChA e <=? 0) || (hp_ChB e <=? 0)).

Definition upsertEntries (now : Z) (entries : list HotPairInfo)
    (m : gmap bytes HotPairEntry) : gmap bytes HotPairEntry :=
  foldl (fun m e =>
    if bool_decide (hp_Key e = []) || (hp_ChA e <=? 0) || (hp_ChB e <=? 0) then m
    else <[hp_Key e := mkHotPairEntry (hp_Key e) (hp_ChA e) (hp_ChB e) now]> m) m entries.

Definition sweepExpired (now : Z) (m : gmap bytes HotPairEntry) : gmap bytes HotPairEntry :=
  filter (fun '(_, e) => expired now e = false) m.

Definition HandleNotify (now : Z) (clientID payload : bytes) (t : HotPairTable)
    : HotPairTable :=
  let entries := decodeNotify payload in
  match entries with
  | [] => t
  | _ =>
      let m := default ∅ (t !! clientID) in
      <[clientID := upsertEntries now entries (sweepExpired now m)]> t
  end.

(** [Lookup]: the new table (an expired entry is deleted) and the copy. *)
Definition Lookup (now : Z) (clientID key : bytes) (t : HotPairTable)
    : HotPairTable * option HotPairEntry :=
  if bool_decide (clientID = []) || bool_decide (key = []) then (t, None) else
  match t !! clientID with
  | None => (t, None)
  | Some m =>
      match m !! key with
      | None => (t, None)
      | Some e =>
          if expired now e then (<[clientID := delete key m]> t, None)
          else (t, Some e)
      end
  end.

(** The loop of [Newest]; [ks] is the order in which [range m] yields the keys,
    which Go leaves unspecified. *)
Fixpoint newestLoop (now : Z) (ks : list bytes) (m : gmap bytes HotPairEntry)
    (best : option HotPairEntry) : gmap bytes HotPairEntry * option HotPairEntry :=
  match ks with
  | [] => (m, best)
  | k :: ks =>
      match m !! k with
      | None => newestLoop now ks m best
      | Some e =>
          if expired now e then newestLoop now ks (delete k m) best
          else newestLoop now ks m
                 match best with
                 | None => Some e
                 | Some b => if he_At b <? he_At e then Some e else best
                 end
      end
  end.

Definition Newest (now : Z) (ks : list bytes) (clientID : bytes) (t : HotPairTable)
    : HotPairTable * option HotPairEntry :=
  if bool_decide (clientID = []) then (t, None) else
  match t !! clientID with
  | None => (t, None)
  | Some m =>
      let '(m', best) := newestLoop now ks m None in
      (<[clientID := m']> t, best)
  end.

Definition refsChannel (chID : Z) (e : HotPairEntry) : bool :=
  (he_ChA e =? chID) || (he_ChB e =? chID).

Definition InvalidateChannel (chID : Z) (t : HotPairTable) : HotPairTable :=
  filter (fun '(_, m) => size m <> 0%nat)
    ((fun m => filter (fun '(_, e) => refsChannel chID e = false) m) <$> t).

Definition InvalidateClient (clientID : bytes) (t : HotPairTable) : HotPairTable :=
  delete clientID t.

(** [(clients, entries)] *)
Definition SizeForTest (t : HotPairTable) : Z * Z :=
  (Z.of_nat (size t), map_fold (fun _ m n => n + Z.of_nat (size m)) 0 t).

(** ** Abstract state *)

(** The stored entry, live or not. *)
Definition stored (t : HotPairTable) (clientID key : bytes) : option HotPairEntry :=
  t !! clientID ≫= (fun m => m !! key).

(** The entry a user of the table can see at time [now]. *)
Definition view (t : HotPairTable) (now : Z) (clientID key : bytes) : option HotPairEntry :=
  match stored t clientID key with
  | Some e => if expired now e then None else Some e
  | None => None
  end.

(** The last storable entry for a key in a notification. *)
Definition lastNotified (es : list HotPairInfo) (key : bytes) : option HotPairInfo :=
  last (filter (fun e => storable e = true /\ hp_Key e = key) es).

(** Well-formed table: an entry is stored under its own, non-empty key and
    names two positive channels. *)
Definition wfTable (t : HotPairTable) : Prop :=
  forall c k e, stored t c k = Some e ->
    he_Key e = k /\ k <> [] /\ 0 < he_ChA e /\ 0 < he_ChB e.

(** * Theorems *)

Lemma expired_mono now now' e : now <= now' -> expired now e = true -> expired now' e = true.
Proof. unfold expired. lia. Qed.

Lemma stored_insert t c m c' k :
  stored (<[c := m]> t) c' k = if decide (c = c') then m !! k else stored t c' k.
Proof.
  unfold stored. rewrite lookup_insert. by case_decide.
Qed.

Lemma stored_default t c k : default ∅ (t !! c) !! k = stored t c k.
Proof. unfold stored. destruct (t !! c); [done|]. apply lookup_empty. Qed.

(** A change of the stored entries that only drops expired ones is not
    visible from then on. *)
Lemma view_drop_expired now t t' :
  (forall c k, stored t' c k = stored t c k \/
     (stored t' c k = None /\ exists e, stored t c k = Some e /\ expired now e = true)) ->
  forall now' c k, now <= now' -> view t' now' c k = view t now' c k.
Proof.
  intros H now' c k Hle. unfold view.
  destruct (H c k) as [->|[-> (e & -> & He)]]; [done|].
  by rewrite (expired_mono now now').
Qed.

(** [Lookup] returns the live entry of the abstract table, and deleting an
    expired entry on the way is unobservable at any later time. *)
Theorem Lookup_refines now clientID key t :
  (Lookup now clientID key t).2
    = (if bool_decide (clientID = []) || bool_decide (key = []) then None
       else view t now clientID key)
  /\ forall now' c k, now <= now' ->
       view (Lookup now clientID key t).1 now' c k = view t now' c k.
Proof.
  unfold Lookup. destruct (bool_decide (clientID = []) || _); [done|].
  unfold view at 1, stored at 1. destruct (t !! clientID) as [m|] eqn:Em; [|done].
  cbn [mbind option_bind]. destruct (m !! key) as [e|] eqn:Ee; [|done].
  destruct (expired now e) eqn:Ex; [|done]. cbn [fst snd]. split; [done|].
  apply view_drop_expired. intros c k. rewrite stored_insert.
  case_decide as Hc; [subst c|by left].
  destruct (decide (key = k)) as [<-|Hk].
  - right. rewrite lookup_delete_eq. split; [done|]. exists e.
    unfold stored. by rewrite Em.
  - left. rewrite lookup_delete_ne by done. unfold stored. by rewrite Em.
Qed.

(** *** [HandleNotify] *)

Lemma storable_code e :
  bool_decide (hp_Key e = []) || (hp_ChA e <=? 0) || (hp_ChB e <=? 0) = negb (storable e).
Proof. unfold storable. by rewrite negb_involutive. Qed.

Lemma lastNotified_snoc es e k :
  lastNotified (es ++ [e]) k
  = if decide (storable e = true /\ hp_Key e = k) then Some e else lastNotified es k.
Proof.
  unfold lastNotified. rewrite filter_app, filter_cons, filter_nil.
  case_decide; [apply last_snoc|by rewrite app_nil_r].
Qed.

Lemma lookup_upsertEntries now es m k :
  upsertEntries now es m !! k
  = match lastNotified es k with
    | Some e => Some (mkHotPairEntry k (hp_ChA e) (hp_ChB e) now)
    | None => m !! k
    end.
Proof.
  unfold upsertEntries. induction es as [|e es IH] using rev_ind; [done|].
  rewrite foldl_snoc, lastNotified_snoc, storable_code.
  destruct (storable e) eqn:Es; cbn [negb].
  - case_decide as Hk; [destruct Hk as [_ <-]; by rewrite lookup_insert_eq|].
    rewrite lookup_insert_ne by (intros ?; by apply Hk). apply IH.
  - rewrite decide_False by (by intros []). apply IH.
Qed.

Lemma lookup_sweepExpired now m k :
  sweepExpired now m !! k
  = match m !! k with Some e => if expired now e then None else Some e | None => None end.
Proof.
  unfold sweepExpired. rewrite map_lookup_filter.
  destruct (m !! k) as [e|]; [|done]. cbn [mbind option_bind].
  case_guard as H; cbn in H |- *; [by rewrite H|by apply not_false_is_true in H as ->].
Qed.

Lemma stored_HandleNotify now c p t c' k :
  stored (HandleNotify now c p t) c' k
  = if decide (c = c' /\ decodeNotify p <> []) then
      match lastNotified (decodeNotify p) k with
      | Some e => Some (mkHotPairEntry k (hp_ChA e) (hp_ChB e) now)
      | None => view t now c k
      end
    else stored t c' k.
Proof.
  unfold HandleNotify. destruct (decodeNotify p) as [|e es] eqn:E.
  { by rewrite decide_False by (by intros []). }
  rewrite stored_insert, <- E. case_decide as Hc.
  - rewrite decide_True by (split; [done|congruence]).
    rewrite lookup_upsertEntries, lookup_sweepExpired, stored_default. done.
  - by rewrite decide_False by (by intros []).
Qed.

(** C40: a notification upserts, by key, the last valid entry of each key with
    the current time and leaves every other live entry of every client as it
    was; the sweep of expired entries is unobservable. *)
Theorem HandleNotify_refines now clientID payload t now' c k :
  now <= now' ->
  view (HandleNotify now clientID payload t) now' c k
  = match (if decide (c = clientID) then lastNotified (decodeNotify payload) k else None) with
    | Some e =>
        let e' := mkHotPairEntry k (hp_ChA e) (hp_ChB e) now in
        if expired now' e' then None else Some e'
    | None => view t now' c k
    end.
Proof.
  intros Hle. unfold view at 1. rewrite stored_HandleNotify.
  destruct (decide (c = clientID)) as [->|Hc].
  - case_decide as Hd.
    + destruct (lastNotified (decodeNotify payload) k); [done|].
      unfold view. destruct (stored t clientID k) as [e|]; [|done].
      destruct (expired now e) eqn:Ex; [|done]. by rewrite (expired_mono now now').
    + destruct (decodeNotify payload); [done|]. by destruct Hd.
  - rewrite decide_False; [done|]. intros [? _]. by subst.
Qed.

Lemma HandleNotify_refines_witness :
  let p := EncodeHotPairNotify [mkHotPairInfo (lit "k") 1 2; mkHotPairInfo (lit "k") 3 4] in
  0 <= 5 /\
  view (HandleNotify 0 (lit "c") p NewHotPairTable) 5 (lit "c") (lit "k")
  = Some (mkHotPairEntry (lit "k") 3 4 0).
Proof.
  intros p. split; [done|].
  rewrite (HandleNotify_refines 0 (lit "c") p NewHotPairTable 5 (lit "c") (lit "k")) by done.
  by vm_compute.
Defined.

(** *** [Newest] *)

Lemma newestLoop_map now ks : forall m best k,
  (newestLoop now ks m best).1 !! k
  = match m !! k with
    | Some e => if expired now e && bool_decide (k ∈ ks) then None else Some e
    | None => None
    end.
Proof.
  induction ks as [|k0 ks IH]; intros m best k; cbn [newestLoop].
  - cbn [fst]. destruct (m !! k) as [e|]; [|done]. by rewrite andb_false_r.
  - assert (bool_decide (k ∈ k0 :: ks) = bool_decide (k = k0) || bool_decide (k ∈ ks)) as ->.
    { rewrite <- bool_decide_or. apply bool_decide_ext, elem_of_cons. }
    destruct (decide (k = k0)) as [->|Hk].
    + rewrite (bool_decide_true (k0 = k0)) by done. cbn [orb].
      destruct (m !! k0) as [e0|] eqn:E0; [|by rewrite IH, E0].
      rewrite andb_true_r. destruct (expired now e0) eqn:Ex0; rewrite IH.
      * by rewrite lookup_delete_eq.
      * by rewrite E0, Ex0.
    + rewrite (bool_decide_false (k = k0)) by done. cbn [orb].
      destruct (m !! k0) as [e0|]; [destruct (expired now e0)|]; rewrite IH; [|done|done].
      by rewrite lookup_delete_ne.
Qed.

(** The loop keeps the newer of the best so far and the next live entry. *)
Definition newer (best : option HotPairEntry) (e : HotPairEntry) : option HotPairEntry :=
  match best with
  | None => Some e
  | Some b => if he_At b <? he_At e then Some e else best
  end.

Definition liveAt (now : Z) (m : gmap bytes HotPairEntry) (k : bytes) : option HotPairEntry :=
  match m !! k with Some e => if expired now e then None else Some e | None => None end.

Lemma newestLoop_fold now ks : forall m best,
  (newestLoop now ks m best).2 = foldl newer best (omap (liveAt now m) ks).
Proof.
  induction ks as [|k0 ks IH]; intros m best; cbn [newestLoop omap list_omap]; [done|].
  unfold liveAt at 1. destruct (m !! k0) as [e0|] eqn:E0; [|apply IH].
  destruct (expired now e0) eqn:Ex0; rewrite IH; [|done]. f_equal.
  apply list_omap_ext, Forall_Forall2_diag, Forall_true. intros k. unfold liveAt.
  destruct (decide (k0 = k)) as [<-|?]; [|by rewrite lookup_delete_ne].
  by rewrite lookup_delete_eq, E0, Ex0.
Qed.

Lemma foldl_newer es : forall best,
  match foldl newer best es with
  | None => best = None /\ es = []
  | Some b => (best = Some b \/ b ∈ es)
      /\ (forall b0, best = Some b0 -> he_At b0 <= he_At b)
      /\ forall e, e ∈ es -> he_At e <= he_At b
  end.
Proof.
  induction es as [|e es IH]; intros best; cbn [foldl].
  { destruct best as [b|]; [|done].
    split_and!; [by left|by intros ? [= ->]|by intros ? ?%not_elem_of_nil]. }
  assert (exists b1, newer best e = Some b1 /\ he_At e <= he_At b1
    /\ (best = Some b1 \/ b1 = e) /\ forall b0, best = Some b0 -> he_At b0 <= he_At b1)
    as (b1 & Hb1 & He & Hsrc & Hold).
  { unfold newer. destruct best as [b|]; [destruct (Z.ltb_spec (he_At b) (he_At e))|].
    - exists e. split_and!; [done|lia|by right|intros ? [= <-]; lia].
    - exists b. split_and!; [done|lia|by left|intros ? [= <-]; lia].
    - exists e. split_and!; [done|lia|by right|done]. }
  specialize (IH (newer best e)). rewrite Hb1 in IH |- *.
  destruct (foldl newer _ es) as [b|]; [|by destruct IH].
  destruct IH as (Hb & Hbest & Hall). specialize (Hbest b1 eq_refl). split_and!.
  - destruct Hb as [[= ->]|Hb]; [destruct Hsrc as [?| ->]; [by left|right; by left]|].
    right; by right.
  - intros b0 Hb0. specialize (Hold b0 Hb0). lia.
  - intros e' [->|Hin]%elem_of_cons; [lia|eauto].
Qed.

(** whatever order the map is ranged in, [Newest] returns a live entry of
    the client with the latest notification time, [nil] exactly when the client
    has no live entry, and its sweep is unobservable. *)
Theorem Newest_refines now ks clientID t :
  clientID <> [] -> ks ≡ₚ (map_to_list (default ∅ (t !! clientID))).*1 ->
  match (Newest now ks clientID t).2 with
  | None => forall k, view t now clientID k = None
  | Some b => (exists k, view t now clientID k = Some b)
      /\ forall k e, view t now clientID k = Some e -> he_At e <= he_At b
  end
  /\ forall now' c k, now <= now' ->
       view (Newest now ks clientID t).1 now' c k = view t now' c k.
Proof.
  intros Hc Hks. unfold Newest. rewrite bool_decide_false by done.
  destruct (t !! clientID) as [m|] eqn:Em; cbn [default] in Hks.
  2:{ split; [|done]. intros k. unfold view, stored. by rewrite Em. }
  assert (forall k, stored t clientID k = m !! k) as Hst by (intros k; unfold stored; by rewrite Em).
  assert (forall k e, m !! k = Some e -> k ∈ ks) as Hin.
  { intros k e Hm. rewrite Hks. apply list_elem_of_fmap. exists (k, e).
    split; [done|]. by apply elem_of_map_to_list. }
  pose proof (foldl_newer (omap (liveAt now m) ks) None) as Hbest.
  rewrite <- newestLoop_fold in Hbest.
  pose proof (newestLoop_map now ks m None) as Hmap.
  destruct (newestLoop now ks m None) as [m' best]. cbn [fst snd] in *. split.
  - assert (forall k, view t now clientID k = liveAt now m k) as Hview
      by (intros k; unfold view; by rewrite Hst).
    assert (forall k e, liveAt now m k = Some e -> e ∈ omap (liveAt now m) ks) as Hlive.
    { intros k e He. apply list_elem_of_omap. exists k. split; [|done].
      unfold liveAt in He. destruct (m !! k) eqn:Em'; [|done]. eauto. }
    destruct best as [b|]; setoid_rewrite Hview.
    + destruct Hbest as ([?|(k & Hk & He)%list_elem_of_omap] & _ & Hall); [done|]. eauto.
    + destruct Hbest as [_ Hnil]. rewrite Hnil in Hlive. intros k.
      destruct (liveAt now m k) eqn:He; [|done]. by apply Hlive, not_elem_of_nil in He.
  - apply view_drop_expired. intros c k. rewrite stored_insert.
    case_decide as Hcc; [subst c|by left]. rewrite Hmap, Hst.
    destruct (m !! k) as [e|]; [|by left].
    destruct (expired now e) eqn:Ex; [|by left]. cbn [andb].
    case_bool_decide; [right; split; [done|by exists e]|by left].
Qed.

Lemma Newest_refines_witness :
  let t := HandleNotify 7 (lit "c") (EncodeHotPairNotify [mkHotPairInfo (lit "k") 1 2])
             NewHotPairTable in
  (Newest 9 [lit "k"] (lit "c") t).2 = Some (mkHotPairEntry (lit "k") 1 2 7)
  /\ forall now' c k, 9 <= now' ->
       view (Newest 9 [lit "k"] (lit "c") t).1 now' c k = view t now' c k.
Proof.
  intros t. split; [by vm_compute|].
  refine (proj2 (Newest_refines 9 [lit "k"] (lit "c") t _ _)); by vm_compute.
Defined.

(** *** Invalidation *)

Lemma lookup_dropChannel (chID : Z) (m : gmap bytes HotPairEntry) (k : bytes) :
  (filter (fun '(_, e) => refsChannel chID e = false) m : gmap bytes HotPairEntry) !! k
  = match m !! k with Some e => if refsChannel chID e then None else Some e | None => None end.
Proof.
  rewrite map_lookup_filter. destruct (m !! k) as [e|]; [|done]. cbn [mbind option_bind].
  case_guard as H; cbn in H |- *; [by rewrite H|by apply not_false_is_true in H as ->].
Qed.

Lemma stored_InvalidateChannel chID t c k :
  stored (InvalidateChannel chID t) c k
  = match stored t c k with
    | Some e => if refsChannel chID e then None else Some e
    | None => None
    end.
Proof.
  unfold stored, InvalidateChannel. rewrite map_lookup_filter, lookup_fmap.
  destruct (t !! c) as [m|]; [|done]. cbn [fmap option_fmap option_map mbind option_bind].
  rewrite <- lookup_dropChannel. case_guard as Hsz; cbn [mbind option_bind]; [done|].
  symmetry. cbn in Hsz. apply map_size_empty_inv in Hsz. rewrite Hsz. apply lookup_empty.
Qed.

(** after a channel goes down no entry of any client names it, every other
    entry is kept, and no client is left with an empty table. *)
Theorem InvalidateChannel_spec chID t :
  (forall c k, stored (InvalidateChannel chID t) c k
     = match stored t c k with
       | Some e => if (he_ChA e =? chID) || (he_ChB e =? chID) then None else Some e
       | None => None
       end)
  /\ forall c m, InvalidateChannel chID t !! c = Some m -> m <> ∅.
Proof.
  split; [apply stored_InvalidateChannel|].
  intros c m [_ Hsz]%map_lookup_filter_Some ->. by apply Hsz.
Qed.

(** *** Reachable tables *)

(** The calls the server makes on the table, with the clock and (for [Newest])
    the iteration order of the moment. *)
Inductive hpOp :=
| OpNotify (now : Z) (clientID payload : bytes)
| OpLookup (now : Z) (clientID key : bytes)
| OpNewest (now : Z) (ks : list bytes) (clientID : bytes)
| OpInvalidateChannel (chID : Z)
| OpInvalidateClient (clientID : bytes).

Definition hpApply (t : HotPairTable) (op : hpOp) : HotPairTable :=
  match op with
  | OpNotify now c p => HandleNotify now c p t
  | OpLookup now c k => (Lookup now c k t).1
  | OpNewest now ks c => (Newest now ks c t).1
  | OpInvalidateChannel ch => InvalidateChannel ch t
  | OpInvalidateClient c => InvalidateClient c t
  end.

Lemma view_stored t now c k e : view t now c k = Some e -> stored t c k = Some e.
Proof. unfold view. destruct (stored t c k); [|done]. by destruct (expired _ _). Qed.

Lemma lastNotified_storable es k e :
  lastNotified es k = Some e -> storable e = true /\ hp_Key e = k.
Proof.
  unfold lastNotified. intros He%last_Some_elem_of. by apply list_elem_of_filter in He as [? _].
Qed.

(** Operations other than [OpNotify] store nothing new. *)
Lemma stored_hpApply t op c k e :
  (forall now c p, op <> OpNotify now c p) ->
  stored (hpApply t op) c k = Some e -> stored t c k = Some e.
Proof.
  intros Hop. destruct op as [now c0 p|now c0 k0|now ks c0|ch|c0]; cbn [hpApply].
  - by destruct (Hop now c0 p).
  - unfold Lookup. destruct (bool_decide _ || _); [done|].
    destruct (t !! c0) as [m|] eqn:Em; [|done]. destruct (m !! k0) as [e0|]; [|done].
    destruct (expired now e0); [|done]. cbn [fst]. rewrite stored_insert.
    case_decide as Hc; [subst c0|done]. intros [_ Hm]%lookup_delete_Some.
    unfold stored. by rewrite Em.
  - unfold Newest. case_bool_decide; [done|]. destruct (t !! c0) as [m|] eqn:Em; [|done].
    pose proof (newestLoop_map now ks m None k) as Hmap.
    destruct (newestLoop now ks m None) as [m' best]. cbn [fst] in *. rewrite stored_insert.
    destruct (decide (c0 = c)) as [->|]; [|done]. unfold stored. rewrite Em. cbn [mbind option_bind].
    rewrite Hmap. destruct (m !! k); [|done]. by destruct (_ && _).
  - rewrite stored_InvalidateChannel. destruct (stored t c k); [|done]. by destruct (refsChannel _ _).
  - unfold stored, InvalidateClient. destruct (decide (c0 = c)) as [<-|].
    + by rewrite lookup_delete_eq.
    + by rewrite lookup_delete_ne.
Qed.

(** in every reachable table, whatever the clients send, an entry sits
    under its own non-empty key and names two positive channels. *)
Theorem hpTable_wf ops : wfTable (foldl hpApply NewHotPairTable ops).
Proof.
  induction ops as [|op ops IH] using rev_ind; [by intros c k e|].
  rewrite foldl_snoc. set (t := foldl _ _ _) in *. intros c k e He.
  destruct op as [now c0 p| | | |]; try (apply (IH c k e); revert He; by apply stored_hpApply).
  cbn [hpApply] in He. rewrite stored_HandleNotify in He. case_decide as Hd; [destruct Hd as [-> _]|by apply (IH c k e)].
  destruct (lastNotified _ k) as [i|] eqn:Ei; [|apply (IH c k e), (view_stored _ now); done].
  injection He as <-. apply lastNotified_storable in Ei as [Hs <-]. unfold storable in Hs.
  destruct (bool_decide (hp_Key i = [])) eqn:Hk; [done|]. apply bool_decide_eq_false in Hk.
  cbn [he_Key he_ChA he_ChB]. split_and!; [done|done|lia|lia].
Qed.
