(* ===== verification/Config.v ===== *)
(** Client and server configuration ([config.go], [server_config.go]):
    defaults, validation, and the timeouts derived from them
    ([pool.go], [server_pool.go]).  Durations are nanoseconds. *)

From S2P Require Import Prelude Protocol.

Module Server.

Record ServerConfig := mkServerConfig {
  ListenAddr : bytes; Token : bytes;
  CertFile : bytes; KeyFile : bytes; AutoCert : bool;
  ReadTimeout : Z; WriteTimeout : Z; PingInterval : Z; HandshakeTimeout : Z;
  ReadBufferSize : Z; WriteBufferSize : Z;
  BackpressureLimitBytes : Z;
  MaxTotalChannels : Z; MaxChannelsPerClient : Z;
  MaxReverseListeners : Z }.

#[global] Instance ServerConfig_eta : Eta ServerConfig := fun c =>
  mkServerConfig (ListenAddr c) (Token c) (CertFile c) (KeyFile c) (AutoCert c)
    (ReadTimeout c) (WriteTimeout c) (PingInterval c) (HandshakeTimeout c)
    (ReadBufferSize c) (WriteBufferSize c) (BackpressureLimitBytes c)
    (MaxTotalChannels c) (MaxChannelsPerClient c) (MaxReverseListeners c).

Definition DefaultServerConfig : ServerConfig :=
  {| ListenAddr := lit ":8443"; Token := [];
     CertFile := []; KeyFile := []; AutoCert := true;
     ReadTimeout := 15 * Second; WriteTimeout := 5 * Second;
     PingInterval := 5 * Second; HandshakeTimeout := 5 * Second;
     ReadBufferSize := 64 * 1024; WriteBufferSize := 64 * 1024;
     BackpressureLimitBytes := Z.shiftl 32 20;
     MaxTotalChannels := 0; MaxChannelsPerClient := 0; MaxReverseListeners := 3 |}.

Inductive ConfigError :=
| ErrInvalidListenAddr | ErrEmptyToken | ErrNegativeChannelLimits | ErrTimeoutNotPositive.

(** [None] is a [nil] error. *)
Definition Validate (c : ServerConfig) : option ConfigError :=
  if bool_decide (ListenAddr c = []) then Some ErrInvalidListenAddr else
  if bool_decide (Token c = []) then Some ErrEmptyToken else
  if (MaxTotalChannels c <? 0) || (MaxChannelsPerClient c <? 0)
  then Some ErrNegativeChannelLimits else
  if (ReadTimeout c <=? 0) || (WriteTimeout c <=? 0) || (PingInterval c <=? 0)
     || (HandshakeTimeout c <=? 0)
  then Some ErrTimeoutNotPositive else None.

Definition connectTimeout (c : option ServerConfig) : Z :=
  match c with
  | None => 10 * Second
  | Some c => if HandshakeTimeout c <=? 0 then 10 * Second else HandshakeTimeout c
  end.

Definition udpReadTimeout (c : option ServerConfig) : Z :=
  match c with
  | None => 30 * Second
  | Some c => if ReadTimeout c <=? 0 then 30 * Second else ReadTimeout c * 2
  end.

(** [newServerPool]: the global queue limit. *)
Definition queueLimit (c : ServerConfig) : Z :=
  let limit := BackpressureLimitBytes c in
  if limit <=? 0 then Z.shiftl 32 20 else limit.

End Server.

Module Client.

Record Config := mkConfig {
  ServerAddr : bytes; Token : bytes; Connections : Z; ClientID : bytes;
  DialTimeout : Z; HandshakeTimeout : Z; ReadTimeout : Z; WriteTimeout : Z;
  PingInterval : Z; ReconnectDelay : Z; ConnectTimeout : Z;
  EnableECH : bool; ECHDomain : bytes; DNSServer : bytes; InsecureSkipVerify : bool;
  IPStrategy : Z;
  RelayNodes : list bytes;
  UDPBlockedPorts : list Z;
  EnableReverse : bool; ReverseListeners : list bytes;
  ReadBufferSize : Z; WriteBufferSize : Z;
  BackpressureLimitBytes : Z; WriteQueueWaitTimeout : Z;
  MaxSOCKS5Connections : Z;
  EnableHotPair : bool; HotPairCount : Z; HotPairRefreshInterval : Z;
  FastRetryAttempts : Z; FastRetryWindow : Z; MaxFastRetryConsecutive : Z }.

#[global] Instance Config_eta : Eta Config := fun c =>
  mkConfig
    (ServerAddr c) (Token c) (Connections c) (ClientID c) (DialTimeout c)
    (HandshakeTimeout c) (ReadTimeout c) (WriteTimeout c) (PingInterval c)
    (ReconnectDelay c) (ConnectTimeout c) (EnableECH c) (ECHDomain c) (DNSServer c)
    (InsecureSkipVerify c) (IPStrategy c) (RelayNodes c) (UDPBlockedPorts c)
    (EnableReverse c) (ReverseListeners c) (ReadBufferSize c) (WriteBufferSize c)
    (BackpressureLimitBytes c) (WriteQueueWaitTimeout c) (MaxSOCKS5Connections c)
    (EnableHotPair c) (HotPairCount c) (HotPairRefreshInterval c) (FastRetryAttempts c)
    (FastRetryWindow c) (MaxFastRetryConsecutive c).

Definition DefaultBackpressureLimitBytes : Z := Z.shiftl 8 20.

Definition DefaultConfig : Config :=
  {| ServerAddr := []; Token := []; Connections := 3; ClientID := [];
     DialTimeout := 3 * Second; HandshakeTimeout := 5 * Second;
     ReadTimeout := 15 * Second; WriteTimeout := 5 * Second;
     PingInterval := 5 * Second; ReconnectDelay := 1 * Second;
     ConnectTimeout := 15 * Second;
     EnableECH := true; ECHDomain := lit "cloudflare-ech.com";
     DNSServer := lit "https://v.recipes/dns-query"; InsecureSkipVerify := false;
     IPStrategy := 0; RelayNodes := []; UDPBlockedPorts := [443];
     EnableReverse := false; ReverseListeners := [];
     ReadBufferSize := 64 * 1024; WriteBufferSize := 64 * 1024;
     BackpressureLimitBytes := DefaultBackpressureLimitBytes;
     WriteQueueWaitTimeout := 500 * Millisecond;
     MaxSOCKS5Connections := 1024;
     EnableHotPair := false; HotPairCount := 1; HotPairRefreshInterval := 30 * Second;
     FastRetryAttempts := 1; FastRetryWindow := 1 * Second; MaxFastRetryConsecutive := 3 |}.

Inductive ConfigError :=
| ErrInvalidServerAddr | ErrServerAddrScheme | ErrInvalidConnections
| ErrInvalidTimeout | ErrNegativeSOCKS5Limit.

Definition Validate (c : Config) : option ConfigError :=
  if bool_decide (ServerAddr c = []) then Some ErrInvalidServerAddr else
  if negb (HasPrefix (ServerAddr c) (lit "wss://"))
     && negb (HasPrefix (ServerAddr c) (lit "ws://"))
  then Some ErrServerAddrScheme else
  if Connections c <=? 0 then Some ErrInvalidConnections else
  if (DialTimeout c <=? 0) || (HandshakeTimeout c <=? 0) || (ReadTimeout c <=? 0)
     || (WriteTimeout c <=? 0) || (PingInterval c <=? 0) || (ReconnectDelay c <=? 0)
     || (ConnectTimeout c <=? 0)
  then Some ErrInvalidTimeout else
  if MaxSOCKS5Connections c <? 0 then Some ErrNegativeSOCKS5Limit else None.

Definition connectTimeout (c : option Config) : Z :=
  match c with
  | None => 15 * Second
  | Some c => if ConnectTimeout c <=? 0 then 15 * Second else ConnectTimeout c
  end.

Definition proxyHandshakeTimeout (c : option Config) : Z :=
  match c with
  | None => 3 * Second
  | Some c => if HandshakeTimeout c <=? 0 then 3 * Second else HandshakeTimeout c
  end.

(** [newClientPool]: the global write-queue limit. *)
Definition queueLimit (c : Config) : Z :=
  let limit := BackpressureLimitBytes c in
  if limit <=? 0 then DefaultBackpressureLimitBytes else limit.

End Client.

(** * Theorems *)

(** a server configuration is accepted exactly when it has an address and a
    token, non-negative channel limits and positive timeouts, and then every
    derived timeout and the queue limit are positive. *)
Theorem server_config_valid c :
  Server.Validate c = None <->
  Server.ListenAddr c <> [] /\ Server.Token c <> []
  /\ 0 <= Server.MaxTotalChannels c /\ 0 <= Server.MaxChannelsPerClient c
  /\ 0 < Server.ReadTimeout c /\ 0 < Server.WriteTimeout c
  /\ 0 < Server.PingInterval c /\ 0 < Server.HandshakeTimeout c.
Proof.
  unfold Server.Validate. repeat case_bool_decide; repeat case_match; split;
    try (intros; discriminate); try tauto; intros; destruct_and?; split_and?; done || lia.
Qed.

Lemma server_limits_positive c :
  0 < Server.queueLimit c /\ 0 < Server.connectTimeout (Some c)
  /\ 0 < Server.udpReadTimeout (Some c).
Proof.
  unfold Server.queueLimit, Server.connectTimeout, Server.udpReadTimeout, Second, Millisecond.
  change (Z.shiftl 32 20) with 33554432.
  repeat match goal with |- context [?a <=? ?b] => destruct (Z.leb_spec a b) end; lia.
Qed.

(** The URL scheme that validation accepts and the dialer refuses. *)
Lemma client_config_valid c :
  Client.Validate c = None <->
  (HasPrefix (Client.ServerAddr c) (lit "wss://") = true
   \/ HasPrefix (Client.ServerAddr c) (lit "ws://") = true)
  /\ 0 < Client.Connections c /\ 0 < Client.DialTimeout c /\ 0 < Client.HandshakeTimeout c
  /\ 0 < Client.ReadTimeout c /\ 0 < Client.WriteTimeout c /\ 0 < Client.PingInterval c
  /\ 0 < Client.ReconnectDelay c /\ 0 < Client.ConnectTimeout c
  /\ 0 <= Client.MaxSOCKS5Connections c.
Proof.
  unfold Client.Validate. case_bool_decide as Ha.
  { rewrite Ha. split; [done|]. by intros [[?|?] _]. }
  destruct (HasPrefix _ (lit "wss://")), (HasPrefix _ (lit "ws://")); cbn [negb andb];
    repeat case_match; split; try (intros; discriminate); intros; destruct_and?;
    split_and?; try tauto; try lia; try (by destruct_or?).
Qed.
