(* ===== verification/Channels.v ===== *)
(** The server's channel layer: the WebSocket connections ([connection.go]) and
    the part of the pool that owns them ([server_pool.go]): write queues, the
    global queue counter, back-pressure, broadcast, admission.

    Pointers to [ServerWSConn] are keys of [n_heap]; [n_wsConns] (the slice with
    its [nil] holes) and [n_clientChConns] hold such pointers.  A WebSocket is
    what was written to it, in order ([ws_wire]).  The writer goroutine owns the
    receiving end of the Go channel [writeChan]: its buffer is [ws_queue], which
    survives the closing of the channel. *)

From S2P Require Import Prelude Protocol GoStrings Config.

Definition BinaryMessage : Z := 2.
Definition CloseMessage : Z := 8.
Definition PingMessage : Z := 9.

Abbreviation wsid := positive.

(** ** State *)
Record writeTask := mkWriteTask { wt_msgType : Z; wt_data : bytes; wt_size : Z }.

Record ServerWSConn := mkServerWSConn {
  ws_chID : Z;
  ws_clientID : bytes;
  ws_remoteAddr : bytes;
  ws_closed : bool;
  ws_writeChan : bool;               (* the field [writeChan] is not nil *)
  ws_queue : list writeTask;         (* the buffer of that channel *)
  ws_queueFullCount : Z;
  ws_lastQueueFull : option Z;       (* [None]: the zero [time.Time] *)
  ws_lastReset : option Z;
  ws_wire : list (Z * bytes);        (* frames written to the socket *)
  ws_sockClosed : bool }.

#[export] Instance ServerWSConn_eta : Eta ServerWSConn := fun c =>
  mkServerWSConn (ws_chID c) (ws_clientID c) (ws_remoteAddr c) (ws_closed c)
    (ws_writeChan c) (ws_queue c) (ws_queueFullCount c) (ws_lastQueueFull c)
    (ws_lastReset c) (ws_wire c) (ws_sockClosed c).

(** The fields of [serverPool] that this layer reads and writes, the heap of
    connections and the clock. *)
Record Net := mkNet {
  n_heap : gmap wsid ServerWSConn;
  n_wsConns : list (option wsid);
  n_clientChConns : gmap bytes (gmap Z wsid);
  n_bytesSent : Z;
  n_bytesReceived : Z;
  n_globalQueueBytes : Z;
  n_globalQueueLimit : Z;
  n_backpressureState : Z;
  n_backpressureCooldown : Z;
  n_cooldownTimers : list Z;         (* wake-up times of the cooldown goroutines *)
  n_now : Z }.

#[export] Instance Net_eta : Eta Net := fun s =>
  mkNet (n_heap s) (n_wsConns s) (n_clientChConns s) (n_bytesSent s)
    (n_bytesReceived s) (n_globalQueueBytes s) (n_globalQueueLimit s)
    (n_backpressureState s) (n_backpressureCooldown s) (n_cooldownTimers s) (n_now s).

(** [make(chan writeTask, 4096)] *)
Definition writeChanCap : Z := 4096.
Definition maxAllowedChID : Z := 65535.

Definition updWS (w : wsid) (f : ServerWSConn -> ServerWSConn) (s : Net) : Net :=
  s <| n_heap ::= alter f w |>.

(** [p.clientChConns[clientID][chID]] *)
Definition lookupChannel (s : Net) (clientID : bytes) (chID : Z) : option wsid :=
  n_clientChConns s !! clientID ≫= (fun m => m !! chID).

(** [uint64] counters. *)
Definition uint64 (z : Z) : Z := z `mod` 2 ^ 64.
Definition addSentBytes (n : Z) (s : Net) : Net :=
  if 0 <? n then s <| n_bytesSent ::= fun b => uint64 (b + n) |> else s.
Definition addReceivedBytes (n : Z) (s : Net) : Net :=
  if 0 <? n then s <| n_bytesReceived ::= fun b => uint64 (b + n) |> else s.

(** ** Queue accounting *)
Definition addQueueBytes (size : Z) (s : Net) : Net * Z :=
  let n := n_globalQueueBytes s + size in (s <| n_globalQueueBytes := n |>, n).

Definition rollbackQueueBytes (size : Z) (s : Net) : Net * Z :=
  let newSize := n_globalQueueBytes s - size in
  let s := s <| n_globalQueueBytes := newSize |> in
  if newSize <? 0 then (s <| n_globalQueueBytes := 0 |>, 0) else (s, newSize).

(** ** Back-pressure and the asynchronous write

    [asyncWrite], [updateBackpressureState], [broadcastBackpressure] and
    [broadcastWriteToClient] call each other; the recursion is cut by a fuel,
    and [asyncWrite_unfold] below shows that the chosen fuel satisfies the
    recursive equations of the code. *)

Definition updateBackpressureState_with (broadcast : Z -> Net -> Net) (newSize : Z)
    (s : Net) : Net :=
  let limit := n_globalQueueLimit s in
  if limit <=? 0 then s else
  if (limit * 95) ÷ 100 <? newSize then
    if negb (n_backpressureState s =? BackpressurePause)
    then broadcast BackpressurePause (s <| n_backpressureState := BackpressurePause |>)
    else s
  else
  if (limit * 8) ÷ 10 <? newSize then
    if n_backpressureState s =? BackpressureNormal then
      if n_backpressureCooldown s =? 0 then
        let s := s <| n_backpressureCooldown := 1 |>
                   <| n_backpressureState := BackpressureSlowDown |> in
        let s := broadcast BackpressureSlowDown s in
        s <| n_cooldownTimers ::= cons (n_now s + 1 * Second) |>
      else s
    else s
  else s.

Definition notifyChannelReset (w : wsid) (s : Net) : Net :=
  match n_heap s !! w with
  | None => s
  | Some c =>
      if ws_closed c then s else
      let meta := PutUint32 (uint32 (ws_chID c)) in
      let data := EncodeMessage MsgChannelReset [] meta [] in
      updWS w (fun c => c <| ws_wire ::= fun l => l ++ [(BinaryMessage, data)] |>) s
  end.

Inductive writeResult := WriteOK | QueueFull.

(** [asyncWrite]; a [nil] or closed connection swallows the write. *)
Definition asyncWrite_with (update : Z -> Net -> Net) (w : wsid) (msgType : Z)
    (data : bytes) (s : Net) : Net * writeResult :=
  let size := len data in
  match n_heap s !! w with
  | None => (s, WriteOK)
  | Some c =>
      if ws_closed c || negb (ws_writeChan c) then (s, WriteOK) else
      let '(s, newSize) := addQueueBytes size s in
      if len (ws_queue c) <? writeChanCap then
        let s := updWS w (fun c =>
          c <| ws_queue ::= fun q => q ++ [mkWriteTask msgType data size] |>) s in
        (update newSize s, WriteOK)
      else
        let '(s, _) := rollbackQueueBytes size s in
        let now := n_now s in
        let count :=
          (if match ws_lastQueueFull c with None => true | Some t => Second <? now - t end
           then 0 else ws_queueFullCount c) + 1 in
        let shouldReset := (5 <=? count) &&
          match ws_lastReset c with None => true | Some t => 5 * Second <? now - t end in
        let s := updWS w (fun c =>
          c <| ws_lastQueueFull := Some now |>
            <| ws_queueFullCount := if shouldReset then 0 else count |>
            <| ws_lastReset ::= fun t => if shouldReset then Some now else t |>) s in
        ((if shouldReset then notifyChannelReset w s else s), QueueFull)
  end.

Definition isActive (s : Net) (w : wsid) : bool :=
  match n_heap s !! w with Some c => negb (ws_closed c) | None => false end.

Definition ownedBy (s : Net) (clientID : bytes) (w : wsid) : bool :=
  match n_heap s !! w with Some c => bool_decide (ws_clientID c = clientID) | None => false end.

(** The loop that collects the active connections; an empty [clientID] means
    all clients. *)
Definition activeConns (clientID : bytes) (s : Net) : list wsid :=
  omap (fun e =>
    match e with
    | None => None
    | Some w =>
        if negb (isActive s w) then None else
        if negb (bool_decide (clientID = [])) && negb (ownedBy s clientID w) then None
        else Some w
    end) (n_wsConns s).

Inductive sendResult := SendOK | NoChannel.

Definition broadcastWriteToClient_with
    (write : wsid -> Z -> bytes -> Net -> Net * writeResult)
    (clientID : bytes) (msgType : Z) (data : bytes) (s : Net) : Net * sendResult :=
  match activeConns clientID s with
  | [] => (s, NoChannel)
  | conns => (foldl (fun s w => (write w msgType data s).1) s conns, SendOK)
  end.

Definition broadcastBackpressure_with
    (write : wsid -> Z -> bytes -> Net -> Net * writeResult) (state : Z) (s : Net) : Net :=
  let meta := [byte_of_Z state] in
  let msg := EncodeMessage MsgBackpressure [] meta [] in
  (broadcastWriteToClient_with write [] BinaryMessage msg s).1.

Fixpoint asyncWrite_fuel (fuel : nat) (w : wsid) (msgType : Z) (data : bytes) (s : Net)
    : Net * writeResult :=
  match fuel with
  | O => (s, WriteOK)
  | S fuel =>
      asyncWrite_with
        (updateBackpressureState_with (broadcastBackpressure_with (asyncWrite_fuel fuel)))
        w msgType data s
  end.

(** A broadcast only follows a raise of the back-pressure state, so three levels
    of nesting are enough ([asyncWrite_unfold]). *)
Definition asyncWrite := asyncWrite_fuel 3.

Definition broadcastBackpressure := broadcastBackpressure_with asyncWrite.
Definition updateBackpressureState := updateBackpressureState_with broadcastBackpressure.
Definition broadcastWriteToClient := broadcastWriteToClient_with asyncWrite.
Definition broadcastWrite (msgType : Z) (data : bytes) (s : Net) : Net * sendResult :=
  broadcastWriteToClient [] msgType data s.

Definition sendToChannel (clientID : bytes) (chID msgType : Z) (data : bytes) (s : Net)
    : Net * sendResult :=
  match lookupChannel s clientID chID with
  | None => (s, NoChannel)
  | Some w =>
      if negb (isActive s w) then (s, NoChannel)
      else ((asyncWrite w msgType data s).1, SendOK)
  end.

(** [removeQueueBytes]: the counter goes down and the state recovers. *)
Definition removeQueueBytes (size : Z) (s : Net) : Net :=
  let newSize := n_globalQueueBytes s - size in
  let s := s <| n_globalQueueBytes := newSize |> in
  let '(s, newSize) :=
    if newSize <? 0 then (s <| n_globalQueueBytes := 0 |>, 0) else (s, newSize) in
  let limit := n_globalQueueLimit s in
  if limit <=? 0 then s else
  let currentState := n_backpressureState s in
  if (currentState =? BackpressurePause) && (newSize <? (limit * 3) ÷ 10) then
    broadcastBackpressure BackpressureNormal
      (s <| n_backpressureState := BackpressureNormal |>)
  else
  if (currentState =? BackpressurePause) && (newSize <? (limit * 9) ÷ 10) then
    broadcastBackpressure BackpressureSlowDown
      (s <| n_backpressureState := BackpressureSlowDown |>)
  else
  if (currentState =? BackpressureSlowDown) && (newSize <? (limit * 7) ÷ 10) then
    broadcastBackpressure BackpressureNormal
      (s <| n_backpressureState := BackpressureNormal |>)
  else s.

(** The cooldown goroutines whose second has elapsed wake up. *)
Definition cooldownWake (s : Net) : Net :=
  let rest := filter (fun t => n_now s < t) (n_cooldownTimers s) in
  if len rest <? len (n_cooldownTimers s)
  then s <| n_cooldownTimers := rest |> <| n_backpressureCooldown := 0 |>
  else s.

(** ** The writer goroutine *)

(** [writeDirect]; [werr] is the outcome of [ws.WriteMessage]. The result is
    [false] when the write failed. *)
Definition writeDirect (w : wsid) (msgType : Z) (data : bytes) (werr : bool) (s : Net)
    : Net * bool :=
  match n_heap s !! w with
  | None => (s, true)
  | Some c =>
      if ws_closed c then (s, true) else
      if werr then (s, false) else
      let s := updWS w (fun c => c <| ws_wire ::= fun l => l ++ [(msgType, data)] |>) s in
      (addSentBytes (len data) s, true)
  end.

(** One receive of the writer: the head of the queue leaves the Go channel, its
    bytes leave the counter, and the frame is written. [None]: nothing to receive. *)
Definition writerRecv (w : wsid) (s : Net) : option (Net * writeTask) :=
  c ← n_heap s !! w;
  match ws_queue c with
  | [] => None
  | task :: q =>
      let s := updWS w (fun c => c <| ws_queue := q |>) s in
      Some (if 0 <? wt_size task then removeQueueBytes (wt_size task) s else s, task)
  end.

Definition writerTask (w : wsid) (werr : bool) (s : Net) : option (Net * bool) :=
  '(s, task) ← writerRecv w s;
  Some (writeDirect w (wt_msgType task) (wt_data task) werr s).

Definition writerPing (w : wsid) (werr : bool) (s : Net) : Net * bool :=
  writeDirect w PingMessage [] werr s.

(** The deferred loop that empties the queue when the writer returns. *)
Fixpoint writerDrain (fuel : nat) (w : wsid) (s : Net) : Net :=
  match fuel with
  | O => s
  | S fuel =>
      match writerRecv w s with
      | Some (s, _) => writerDrain fuel w s
      | None => s
      end
  end.

(** ** Counting and looking up channels *)
Definition countActiveChannelsLocked (clientID : bytes) (s : Net) : Z * Z :=
  foldl (fun '(total, clientTotal) e =>
    match e with
    | None => (total, clientTotal)
    | Some w =>
        if negb (isActive s w) then (total, clientTotal)
        else (total + 1, if ownedBy s clientID w then clientTotal + 1 else clientTotal)
    end) (0, 0) (n_wsConns s).
Definition countActiveChannels := countActiveChannelsLocked.

Definition countActiveChannelsForClient (clientID : bytes) (s : Net) : Z :=
  foldl (fun cnt e =>
    match e with
    | Some w => if isActive s w && ownedBy s clientID w then cnt + 1 else cnt
    | None => cnt
    end) 0 (n_wsConns s).

Definition channelAliveForClient (clientID : bytes) (chID : Z) (s : Net) : bool :=
  match lookupChannel s clientID chID with Some w => isActive s w | None => false end.

(** The search loop of [allocClientChIDLocked] from [i] on. *)
Fixpoint allocLoop (fuel : nat) (i : Z) (clientID : bytes) (s : Net) : Z :=
  match fuel with
  | O => 0
  | S fuel =>
      if negb (channelAliveForClient clientID i s) then i
      else allocLoop fuel (i + 1) clientID s
  end.
Definition allocClientChIDLocked (clientID : bytes) (s : Net) : Z :=
  allocLoop (Z.to_nat maxAllowedChID) 1 clientID s.

(** ** Admission of a WebSocket ([handleWebSocket]) *)
Record httpRequest := mkHttpRequest {
  rq_subprotocols : list bytes;      (* websocket.Subprotocols(r) *)
  rq_client_id : bytes;              (* queryParams.Get("client_id") *)
  rq_ch_id : bytes }.                (* queryParams.Get("ch_id") *)

Inductive httpStatus := StatusUnauthorized | StatusBadRequest | StatusTooManyRequests.

(** A limit of [0] means no limit. *)
Definition limitHit (limit count : Z) : bool := (0 <? limit) && (limit <=? count).

(** From the request to the call of [Upgrade]; [uuid] is the identifier that
    [uuid.New()] gives to an anonymous client. *)
Definition admitRequest (cfg : Server.ServerConfig) (token uuid : bytes) (r : httpRequest)
    (s : Net) : httpStatus + bytes * Z :=
  let authorized :=
    match rq_subprotocols r with p :: _ => bool_decide (p = token) | [] => false end in
  if negb authorized then inl StatusUnauthorized else
  let clientID := if bool_decide (rq_client_id r = []) then uuid else rq_client_id r in
  let chosen :=
    if negb (bool_decide (rq_ch_id r = [])) then
      match SscanfD (rq_ch_id r) with
      | None => inl StatusBadRequest
      | Some chID =>
          if (chID <=? 0) || (maxAllowedChID <? chID) then inl StatusBadRequest else inr chID
      end
    else
      let chID := allocClientChIDLocked clientID s in
      if chID =? 0 then inl StatusTooManyRequests else inr chID in
  match chosen with
  | inl e => inl e
  | inr chID =>
      let '(totalActive, clientActive) := countActiveChannels clientID s in
      if limitHit (Server.MaxTotalChannels cfg) totalActive then inl StatusTooManyRequests else
      if limitHit (Server.MaxChannelsPerClient cfg) clientActive
      then inl StatusTooManyRequests
      else inr (clientID, chID)
  end.

Inductive registerResult := Registered (w : wsid) | LimitReached | ChIDInUse.

Definition newServerWSConn (clientID : bytes) (chID : Z) (remoteAddr : bytes) : ServerWSConn :=
  mkServerWSConn chID clientID remoteAddr false true [] 0 None None [] false.

(** The critical section after the upgrade; a refused WebSocket is closed and
    never enters the pool. *)
Definition registerChannel (cfg : Server.ServerConfig) (clientID : bytes) (chID : Z)
    (remoteAddr : bytes) (s : Net) : Net * registerResult :=
  let '(totalActive, clientActive) := countActiveChannelsLocked clientID s in
  if limitHit (Server.MaxTotalChannels cfg) totalActive
     || limitHit (Server.MaxChannelsPerClient cfg) clientActive
  then (s, LimitReached) else
  if channelAliveForClient clientID chID s then (s, ChIDInUse) else
  let w := fresh (dom (n_heap s)) in
  let m := default ∅ (n_clientChConns s !! clientID) in
  (s <| n_heap ::= <[w := newServerWSConn clientID chID remoteAddr]> |>
     <| n_clientChConns ::= <[clientID := <[chID := w]> m]> |>
     <| n_wsConns ::= fun l => l ++ [Some w] |>, Registered w).

(** ** Closing and forgetting a channel: the parts of [close] and
    [cleanupChannel] that concern this layer *)

(** [close] sends a close frame first; its payload, formatted by the WebSocket
    library, is left out. *)
Definition markClosed (sendFrame : bool) (w : wsid) (s : Net) : Net :=
  updWS w (fun c =>
    c <| ws_closed := true |> <| ws_writeChan := false |>
      <| ws_wire ::= fun l => if sendFrame then l ++ [(CloseMessage, [])] else l |>
      <| ws_sockClosed := true |>) s.

(** The first occurrence of [w] in [wsConns] becomes [nil]. *)
Fixpoint clearSlot (w : wsid) (l : list (option wsid)) : list (option wsid) :=
  match l with
  | [] => []
  | e :: l => if bool_decide (e = Some w) then None :: l else e :: clearSlot w l
  end.

(** The map deletions of [cleanupChannel]; the result tells what was stored
    under the channel and whether it was the client's last one. *)
Definition forgetChannel (clientID : bytes) (chID : Z) (s : Net)
    : Net * option wsid * bool :=
  match n_clientChConns s !! clientID with
  | None => (s, None, false)
  | Some m =>
      let wsConn := m !! chID in
      let m := delete chID m in
      let clientGone := bool_decide (m = ∅) in
      let s := s <| n_clientChConns ::= fun cm =>
        if clientGone then delete clientID cm else <[clientID := m]> cm |> in
      let s := match wsConn with
               | Some w => s <| n_wsConns ::= clearSlot w |>
               | None => s
               end in
      (s, wsConn, clientGone)
  end.

(** [newServerPool]: this layer's fields. *)
Definition newNet (cfg : Server.ServerConfig) (now : Z) : Net :=
  mkNet ∅ [] ∅ 0 0 0 (Server.queueLimit cfg) BackpressureNormal 0 [] now.

(** ** The layer as a transition system *)
Inductive netStep (cfg : Server.ServerConfig) : Net -> Net -> Prop :=
| st_write s w mt d : netStep cfg s (asyncWrite w mt d s).1
| st_broadcast s clientID mt d : netStep cfg s (broadcastWriteToClient clientID mt d s).1
| st_send s clientID chID mt d : netStep cfg s (sendToChannel clientID chID mt d s).1
| st_task s s' w werr ok : writerTask w werr s = Some (s', ok) -> netStep cfg s s'
| st_ping s w werr : netStep cfg s (writerPing w werr s).1
| st_drain s n w : netStep cfg s (writerDrain n w s)
| st_register s clientID chID addr :
    netStep cfg s (registerChannel cfg clientID chID addr s).1
| st_close s b w : netStep cfg s (markClosed b w s)
| st_forget s clientID chID : netStep cfg s (forgetChannel clientID chID s).1.1
| st_receive s n : netStep cfg s (addReceivedBytes n s)
| st_wake s : netStep cfg s (cooldownWake s)
| st_time s d : 0 <= d -> netStep cfg s (s <| n_now ::= Z.add d |>).
