(* ===== verification/ChannelQueue.v ===== *)
(** The write path of the server's channel layer ([Channels]): the mutual
    recursion of writing and back-pressure terminates, the queue counter is
    exact, notices are delivered in order, and the back-pressure state follows
    the level with hysteresis. *)

From S2P Require Import Prelude Protocol Config Channels.

(** ** The write path as a sequence of atomic effects

    Everything [asyncWrite] does, nested broadcasts included, is a sequence of
    the effects [writeEffect]; facts about the write path are proved by
    induction on that sequence. *)
Definition raisesTo (s : Net) (st : Z) : Prop :=
  let limit := n_globalQueueLimit s in
  0 < limit /\
  ((st = BackpressurePause /\ n_backpressureState s <> BackpressurePause /\
    (limit * 95) ÷ 100 < n_globalQueueBytes s) \/
   (st = BackpressureSlowDown /\ n_backpressureState s = BackpressureNormal /\
    n_backpressureCooldown s = 1 /\ (limit * 8) ÷ 10 < n_globalQueueBytes s)).

Inductive writeEffect (P : writeTask -> Prop) : Net -> Net -> Prop :=
| we_enqueue s w c t :
    n_heap s !! w = Some c -> ws_closed c = false -> ws_writeChan c = true ->
    len (ws_queue c) < writeChanCap -> wt_size t = len (wt_data t) -> P t ->
    writeEffect P s (updWS w (fun c => c <| ws_queue ::= fun q => q ++ [t] |>)
                     (s <| n_globalQueueBytes := n_globalQueueBytes s + wt_size t |>))
| we_full s w a b d :
    writeEffect P s (updWS w (fun c => c <| ws_lastQueueFull := a |>
      <| ws_queueFullCount := b |> <| ws_lastReset ::= d |>)
      (s <| n_globalQueueBytes := 0 `max` n_globalQueueBytes s |>))
| we_reset s w c :
    n_heap s !! w = Some c -> ws_closed c = false ->
    writeEffect P s (updWS w (fun c => c <| ws_wire ::= fun l => l ++
      [(BinaryMessage, EncodeMessage MsgChannelReset [] (PutUint32 (uint32 (ws_chID c))) [])] |>) s)
| we_cooldown s :
    n_backpressureCooldown s = 0 -> writeEffect P s (s <| n_backpressureCooldown := 1 |>)
| we_raise s st : raisesTo s st -> writeEffect P s (s <| n_backpressureState := st |>)
| we_timer s t : writeEffect P s (s <| n_cooldownTimers ::= cons t |>).

(** The tasks that a back-pressure broadcast enqueues. *)
Definition backpressureMsg (st : Z) : bytes :=
  EncodeMessage MsgBackpressure [] [byte_of_Z st] [].
Definition backpressureTask (t : writeTask) : Prop :=
  exists st, t = mkWriteTask BinaryMessage (backpressureMsg st) (len (backpressureMsg st)).

(** How many raises of the back-pressure state are left. *)
Definition rank (s : Net) : nat :=
  if n_backpressureState s =? BackpressurePause then 0
  else if n_backpressureState s =? BackpressureNormal then 2 else 1.

(** The bytes of the tasks that wait in the queues. *)
Definition qsize (q : list writeTask) : Z := foldr (fun t acc => wt_size t + acc) 0 q.
Definition queueBytes (h : gmap wsid ServerWSConn) : Z :=
  map_fold (fun _ c acc => qsize (ws_queue c) + acc) 0 h.

Lemma rank_effect P s s' : writeEffect P s s' -> (rank s' <= rank s)%nat.
Proof.
  destruct 1 as [| | | |s st [_ [(-> & ? & _)|(-> & E & _)]]|]; try done; unfold rank; simpl.
  - lia.
  - rewrite E. simpl. lia.
Qed.

Lemma rank_effects P s s' : rtc (writeEffect P) s s' -> (rank s' <= rank s)%nat.
Proof. induction 1; [done|]. etrans; [eassumption|by eapply rank_effect]. Qed.

Section Nested.
Context (write : wsid -> Z -> bytes -> Net -> Net * writeResult).
Context (P : writeTask -> Prop) (HP : forall t, backpressureTask t -> P t).
Context (Hwrite : forall w mt d s,
  P (mkWriteTask mt d (len d)) -> rtc (writeEffect P) s (write w mt d s).1).

Lemma writeAll_effects mt d ws : P (mkWriteTask mt d (len d)) -> forall s,
  rtc (writeEffect P) s (foldl (fun s w => (write w mt d s).1) s ws).
Proof.
  intros Ht. induction ws as [|w ws IH]; intros s; simpl; [done|].
  etrans; [by apply Hwrite|apply IH].
Qed.

Lemma broadcastWriteToClient_effects clientID mt d s :
  P (mkWriteTask mt d (len d)) ->
  rtc (writeEffect P) s (broadcastWriteToClient_with write clientID mt d s).1.
Proof.
  unfold broadcastWriteToClient_with.
  intros. destruct (activeConns clientID s) eqn:E; [done|]. by apply writeAll_effects.
Qed.

Lemma broadcastBackpressure_effects st s :
  rtc (writeEffect P) s (broadcastBackpressure_with write st s).
Proof. apply broadcastWriteToClient_effects, HP. by exists st. Qed.

Lemma update_effects s :
  rtc (writeEffect P) s
    (updateBackpressureState_with (broadcastBackpressure_with write) (n_globalQueueBytes s) s).
Proof.
  unfold updateBackpressureState_with.
  destruct (Z.leb_spec (n_globalQueueLimit s) 0); [done|].
  destruct (Z.ltb_spec ((n_globalQueueLimit s * 95) ÷ 100) (n_globalQueueBytes s)).
  { destruct (Z.eqb_spec (n_backpressureState s) BackpressurePause); [done|].
    eapply rtc_l; [apply (we_raise _ _ BackpressurePause); split; [done|left]; done|].
    apply broadcastBackpressure_effects. }
  destruct (Z.ltb_spec ((n_globalQueueLimit s * 8) ÷ 10) (n_globalQueueBytes s)); [|done].
  destruct (Z.eqb_spec (n_backpressureState s) BackpressureNormal); [|done].
  destruct (Z.eqb_spec (n_backpressureCooldown s) 0); [|done].
  eapply rtc_l; [by apply we_cooldown|].
  eapply rtc_l; [apply (we_raise _ _ BackpressureSlowDown); split; [done|right]; done|].
  eapply rtc_r; [apply broadcastBackpressure_effects|]. apply we_timer.
Qed.

Lemma notifyChannelReset_effects w s : rtc (writeEffect P) s (notifyChannelReset w s).
Proof.
  unfold notifyChannelReset. destruct (n_heap s !! w) as [c|] eqn:Hc; [|done].
  destruct (ws_closed c) eqn:Hcl; [done|].
  replace (updWS w _ s) with (updWS w (fun c => c <| ws_wire ::= fun l => l ++
    [(BinaryMessage, EncodeMessage MsgChannelReset [] (PutUint32 (uint32 (ws_chID c))) [])] |>) s).
  { apply rtc_once. by eapply we_reset. }
  unfold updWS; simpl. f_equal. apply map_eq. intros w'.
  destruct (decide (w = w')) as [<-|]; [|by rewrite !lookup_alter_ne].
  rewrite !lookup_alter_eq, Hc. done.
Qed.

Lemma rollback_add size s :
  (rollbackQueueBytes size (addQueueBytes size s).1).1
  = s <| n_globalQueueBytes := 0 `max` n_globalQueueBytes s |>.
Proof.
  unfold rollbackQueueBytes, addQueueBytes; simpl.
  replace (n_globalQueueBytes s + size - size) with (n_globalQueueBytes s) by lia.
  destruct (Z.ltb_spec (n_globalQueueBytes s) 0); simpl; f_equal; lia.
Qed.

(** The three outcomes of [asyncWrite]. *)
Lemma asyncWrite_with_cases upd w mt d s :
  (asyncWrite_with upd w mt d s = (s, WriteOK) /\
     ~ exists c, n_heap s !! w = Some c /\ ws_closed c = false /\ ws_writeChan c = true) \/
  (exists c s1, n_heap s !! w = Some c /\ ws_closed c = false /\ ws_writeChan c = true /\
     len (ws_queue c) < writeChanCap /\
     s1 = updWS w (fun c => c <| ws_queue ::= fun q => q ++ [mkWriteTask mt d (len d)] |>)
            (s <| n_globalQueueBytes := n_globalQueueBytes s + len d |>) /\
     asyncWrite_with upd w mt d s = (upd (n_globalQueueBytes s1) s1, WriteOK)) \/
  (exists c a b e s1, n_heap s !! w = Some c /\ ws_closed c = false /\ ws_writeChan c = true /\
     writeChanCap <= len (ws_queue c) /\
     s1 = updWS w (fun c => c <| ws_lastQueueFull := a |> <| ws_queueFullCount := b |>
            <| ws_lastReset ::= e |>)
            (s <| n_globalQueueBytes := 0 `max` n_globalQueueBytes s |>) /\
     (asyncWrite_with upd w mt d s = (s1, QueueFull) \/
      asyncWrite_with upd w mt d s = (notifyChannelReset w s1, QueueFull))).
Proof.
  unfold asyncWrite_with. destruct (n_heap s !! w) as [c|] eqn:Hc;
    [|left; split; [done|]; intros (? & ? & _); congruence].
  destruct (ws_closed c) eqn:Hcl; simpl orb.
  { left; split; [done|]; intros (? & ? & ? & _); congruence. }
  destruct (ws_writeChan c) eqn:Hch; simpl negb;
    [|left; split; [done|]; intros (? & ? & ? & ?); congruence].
  right. unfold addQueueBytes. cbv beta iota zeta.
  destruct (Z.ltb_spec (len (ws_queue c)) writeChanCap).
  - left. eexists c, _. split_and!; done.
  - right. pose proof (rollback_add (len d) s) as Hroll. unfold addQueueBytes in Hroll.
    cbn [fst] in Hroll.
    rewrite (surjective_pairing (rollbackQueueBytes _ _)), Hroll. cbv beta iota.
    cbv zeta. match goal with |- context [if ?b then notifyChannelReset _ _ else _] =>
      destruct b end; eexists c, _, _, _, _; (split_and!; [done..|]);
      [right|left]; reflexivity.
Qed.

Lemma asyncWrite_with_effects upd w mt d s :
  P (mkWriteTask mt d (len d)) ->
  (forall s, rtc (writeEffect P) s (upd (n_globalQueueBytes s) s)) ->
  rtc (writeEffect P) s (asyncWrite_with upd w mt d s).1.
Proof.
  intros Ht Hupd. destruct (asyncWrite_with_cases upd w mt d s)
    as [[-> _]|[(c & s1 & Hc & Hcl & Hch & Hq & -> & ->)
               |(c & a & b & e & s1 & Hc & Hcl & Hch & Hq & -> & H)]]; [done| |].
  - eapply rtc_l; [|apply Hupd]. by eapply (we_enqueue _ _ _ _ (mkWriteTask mt d (len d))).
  - eapply rtc_l; [by apply (we_full _ _ w a b e)|].
    destruct H as [->| ->]; [done|apply notifyChannelReset_effects].
Qed.
End Nested.

Lemma asyncWrite_fuel_effects (P : writeTask -> Prop) n :
  (forall t, backpressureTask t -> P t) -> forall w mt d s,
  P (mkWriteTask mt d (len d)) -> rtc (writeEffect P) s (asyncWrite_fuel n w mt d s).1.
Proof.
  intros HP. induction n as [|n IH]; intros w mt d s Ht; simpl; [done|].
  apply asyncWrite_with_effects; [done|]. intros. by apply update_effects.
Qed.

Lemma asyncWrite_effects (P : writeTask -> Prop) w mt d s :
  (forall t, backpressureTask t -> P t) -> P (mkWriteTask mt d (len d)) ->
  rtc (writeEffect P) s (asyncWrite w mt d s).1.
Proof. intros. by apply asyncWrite_fuel_effects. Qed.

Lemma writeAll_agree n m mt d ws : forall s,
  (forall w s', (rank s' <= rank s)%nat ->
     asyncWrite_fuel n w mt d s' = asyncWrite_fuel m w mt d s') ->
  foldl (fun s w => (asyncWrite_fuel n w mt d s).1) s ws
  = foldl (fun s w => (asyncWrite_fuel m w mt d s).1) s ws.
Proof.
  induction ws as [|w ws IH]; intros s H; simpl; [done|].
  rewrite <- H by done. apply IH. intros w' s' Hr. apply H.
  etrans; [exact Hr|]. by eapply rank_effects, (asyncWrite_fuel_effects (fun _ => True)).
Qed.

Lemma broadcast_agree n m st s :
  (forall w mt d s', (rank s' <= rank s)%nat ->
     asyncWrite_fuel n w mt d s' = asyncWrite_fuel m w mt d s') ->
  broadcastBackpressure_with (asyncWrite_fuel n) st s
  = broadcastBackpressure_with (asyncWrite_fuel m) st s.
Proof.
  intros H. unfold broadcastBackpressure_with, broadcastWriteToClient_with.
  destruct (activeConns [] s); [done|]. cbn [fst]. apply writeAll_agree. intros. by apply H.
Qed.

Lemma rank_normal s : n_backpressureState s = BackpressureNormal -> rank s = 2%nat.
Proof. unfold rank. by intros ->. Qed.
Lemma rank_not_pause s : n_backpressureState s <> BackpressurePause -> (1 <= rank s)%nat.
Proof. unfold rank. destruct (Z.eqb_spec (n_backpressureState s) BackpressurePause); [done|].
  destruct (_ =? _); lia. Qed.

(** With more fuel than raises left, the fuel does not matter. *)
Lemma asyncWrite_fuel_agree n : forall m w mt d s,
  (rank s < n)%nat -> (rank s < m)%nat ->
  asyncWrite_fuel n w mt d s = asyncWrite_fuel m w mt d s.
Proof.
  induction n as [|n IH]; intros [|m] w mt d s Hn Hm; [lia..|]. cbn [asyncWrite_fuel].
  set (un := updateBackpressureState_with _). set (um := updateBackpressureState_with _).
  assert (forall g s', rank s' = rank s -> un g s' = um g s') as Hup.
  { intros g s' Hr. unfold un, um, updateBackpressureState_with.
    destruct (n_globalQueueLimit s' <=? 0); [done|].
    destruct (_ <? g).
    - destruct (Z.eqb_spec (n_backpressureState s') BackpressurePause); [done|]. simpl.
      apply broadcast_agree. intros w' mt' d' s2 Hr2. change (rank s2 <= 0)%nat in Hr2.
      pose proof (rank_not_pause s'). apply IH; lia.
    - destruct (_ <? g); [|done].
      destruct (Z.eqb_spec (n_backpressureState s') BackpressureNormal) as [E|]; [|done].
      destruct (_ =? 0); [|done]. simpl. rewrite (broadcast_agree n m); [done|].
      intros w' mt' d' s2 Hr2. change (rank s2 <= 1)%nat in Hr2.
      rewrite (rank_normal _ E) in Hr. apply IH; lia. }
  unfold asyncWrite_with. destruct (n_heap s !! w) as [c|]; [|done].
  destruct (_ || _); [done|]. unfold addQueueBytes. simpl.
  destruct (_ <? writeChanCap); [|done]. by rewrite Hup.
Qed.

Lemma rank_le_2 s : (rank s <= 2)%nat.
Proof. unfold rank. repeat case_match; lia. Qed.

Lemma asyncWrite_eq w mt d s :
  asyncWrite w mt d s = asyncWrite_with updateBackpressureState w mt d s.
Proof.
  unfold asyncWrite at 1. pose proof (rank_le_2 s).
  rewrite (asyncWrite_fuel_agree 3 4) by lia. reflexivity.
Qed.

(** ** Accounting of the queued bytes *)
Lemma qsize_app q q' : qsize (q ++ q') = qsize q + qsize q'.
Proof. induction q as [|t q IH]; simpl; [done|rewrite IH; lia]. Qed.

Lemma queueBytes_insert h w c :
  h !! w = None -> queueBytes (<[w:=c]> h) = qsize (ws_queue c) + queueBytes h.
Proof.
  intros. unfold queueBytes. rewrite map_fold_insert_L; [done| |done]. intros; lia.
Qed.

Lemma queueBytes_delete h w c :
  h !! w = Some c -> queueBytes h = qsize (ws_queue c) + queueBytes (delete w h).
Proof.
  intros Hc. rewrite <- (insert_delete_id h w c Hc) at 1.
  by rewrite queueBytes_insert by apply lookup_delete_eq.
Qed.

Lemma updWS_heap w f s c :
  n_heap s !! w = Some c -> n_heap (updWS w f s) = <[w := f c]> (n_heap s).
Proof.
  intros Hc. unfold updWS; simpl. apply map_eq. intros w'.
  destruct (decide (w = w')) as [<-|]; [|by rewrite lookup_alter_ne, lookup_insert_ne].
  by rewrite lookup_alter_eq, lookup_insert_eq, Hc.
Qed.

Lemma updWS_id w f s : n_heap s !! w = None -> updWS w f s = s.
Proof.
  intros Hc. destruct s as [h ? ? ? ? ? ? ? ? ? ?]; unfold updWS; simpl in *. f_equal.
  apply map_eq. intros w'.
  destruct (decide (w = w')) as [<-|]; [|by rewrite lookup_alter_ne].
  by rewrite lookup_alter_eq, Hc.
Qed.

Lemma updWS_lookup w f s w' :
  n_heap (updWS w f s) !! w' = (if decide (w = w') then f else id) <$> n_heap s !! w'.
Proof.
  unfold updWS; simpl. destruct (decide (w = w')) as [<-|].
  - by rewrite lookup_alter_eq.
  - rewrite lookup_alter_ne by done. by destruct (n_heap s !! w').
Qed.

Lemma queueBytes_updWS w f s c :
  n_heap s !! w = Some c ->
  queueBytes (n_heap (updWS w f s))
  = queueBytes (n_heap s) - qsize (ws_queue c) + qsize (ws_queue (f c)).
Proof.
  intros Hc. rewrite (updWS_heap _ _ _ _ Hc), <- insert_delete_eq.
  rewrite queueBytes_insert by apply lookup_delete_eq.
  rewrite (queueBytes_delete _ _ _ Hc). lia.
Qed.

(** An update that leaves the queue alone. *)
Lemma queueBytes_updWS_same w f s :
  (forall c, ws_queue (f c) = ws_queue c) ->
  queueBytes (n_heap (updWS w f s)) = queueBytes (n_heap s).
Proof.
  intros Hf. destruct (n_heap s !! w) as [c|] eqn:Hc; [|by rewrite updWS_id].
  rewrite (queueBytes_updWS _ _ _ _ Hc), Hf. lia.
Qed.

(** What holds of every connection: its queue is within the capacity of the Go
    channel, its tasks carry their size, and [writeChan] is [nil] exactly when
    the connection is closed. *)
Definition wfWS (c : ServerWSConn) : Prop :=
  len (ws_queue c) <= writeChanCap /\
  Forall (fun t => wt_size t = len (wt_data t)) (ws_queue c) /\
  ws_writeChan c = negb (ws_closed c).

Definition validState (st : Z) : Prop :=
  st = BackpressureNormal \/ st = BackpressureSlowDown \/ st = BackpressurePause.

(** The invariant of the layer. *)
Record netInv (s : Net) : Prop := {
  ni_account : n_globalQueueBytes s = queueBytes (n_heap s);
  ni_conns : forall w c, n_heap s !! w = Some c -> wfWS c;
  ni_state : validState (n_backpressureState s);
  ni_limit : 0 < n_globalQueueLimit s }.

Lemma qsize_nonneg q : Forall (fun t => wt_size t = len (wt_data t)) q -> 0 <= qsize q.
Proof.
  induction 1 as [|t q Ht _ IH]; simpl; [done|]. pose proof (len_nonneg (wt_data t)). lia.
Qed.

Lemma queueBytes_nonneg h :
  (forall w c, h !! w = Some c -> wfWS c) -> 0 <= queueBytes h.
Proof.
  induction h as [|w c h Hw IH] using map_ind; intros Hwf; [done|].
  rewrite queueBytes_insert by done.
  assert (0 <= qsize (ws_queue c)).
  { apply qsize_nonneg. apply (Hwf w). by rewrite lookup_insert_eq. }
  enough (0 <= queueBytes h) by lia. apply IH. intros w' c' Hw'. apply (Hwf w').
  rewrite lookup_insert_ne; [done|]. intros ->; congruence.
Qed.

Lemma netInv_nonneg s : netInv s -> 0 <= n_globalQueueBytes s.
Proof. intros [-> ? _ _]. by apply queueBytes_nonneg. Qed.

Lemma netInv_updWS w f s g :
  netInv s ->
  (forall c, n_heap s !! w = Some c -> wfWS c -> wfWS (f c) /\
     g = n_globalQueueBytes s - qsize (ws_queue c) + qsize (ws_queue (f c))) ->
  (n_heap s !! w = None -> g = n_globalQueueBytes s) ->
  netInv (updWS w f (s <| n_globalQueueBytes := g |>)).
Proof.
  intros [Ha Hc Hs Hl] Hf Hn.
  destruct (n_heap s !! w) as [c|] eqn:E.
  - destruct (Hf c eq_refl (Hc _ _ E)) as [Hwf Hg]. split; [| |done|done].
    + rewrite (queueBytes_updWS _ _ _ c) by done. simpl. lia.
    + intros w' c'. rewrite updWS_lookup. simpl. destruct (decide (w = w')) as [<-|].
      * rewrite E. simpl. by intros [= <-].
      * intros (? & ? & ->)%fmap_Some; by eapply Hc.
  - rewrite updWS_id by done. split; simpl; [|done..]. rewrite Hn by done. done.
Qed.

Lemma netInv_effect P s s' : writeEffect P s s' -> netInv s -> netInv s'.
Proof.
  intros Hstep Hinv. pose proof (netInv_nonneg _ Hinv) as Hnn.
  destruct Hstep as [s w c t Hc Hcl Hch Hq Ht _|s w a b d|s w c Hc Hcl|s H0|s st Hr|s t].
  - apply netInv_updWS; [done| |congruence].
    intros c' E (_ & ? & ?). simplify_eq. simpl. rewrite qsize_app. simpl.
    split; [split_and!; simpl; [|apply Forall_app; split; [done|by constructor]|done]|lia].
    len_lia.
  - apply netInv_updWS; [done| |intros _; lia].
    intros c E Hwf. split; [exact Hwf|simpl; lia].
  - pose proof (netInv_updWS w (fun c => c <| ws_wire ::= fun l => l ++
      [(BinaryMessage, EncodeMessage MsgChannelReset [] (PutUint32 (uint32 (ws_chID c))) [])] |>)
      s (n_globalQueueBytes s) Hinv) as H.
    destruct s. apply H; [|done]. intros c' _ Hwf. split; [exact Hwf|simpl; lia].
  - destruct Hinv. by split.
  - destruct Hinv as [? ? _ ?]. split; simpl; [done..| |done].
    destruct Hr as [_ [(-> & _)|(-> & _)]]; unfold validState; tauto.
  - destruct Hinv. by split.
Qed.

Lemma netInv_effects P s s' : rtc (writeEffect P) s s' -> netInv s -> netInv s'.
Proof. induction 1; eauto using netInv_effect. Qed.

(** ** What the write path leaves alone *)
Definition resetFrame (c : ServerWSConn) : Z * bytes :=
  (BinaryMessage, EncodeMessage MsgChannelReset [] (PutUint32 (uint32 (ws_chID c))) []).

(** A connection only gains queued tasks satisfying [P], at the end of its
    queue, and reset frames on its socket. *)
Definition wsGrows (P : writeTask -> Prop) (c c' : ServerWSConn) : Prop :=
  ws_chID c' = ws_chID c /\ ws_clientID c' = ws_clientID c /\
  ws_remoteAddr c' = ws_remoteAddr c /\ ws_closed c' = ws_closed c /\
  ws_writeChan c' = ws_writeChan c /\ ws_sockClosed c' = ws_sockClosed c /\
  (exists k, ws_queue c' = ws_queue c ++ k /\ Forall P k) /\
  (exists r, ws_wire c' = ws_wire c ++ r /\ Forall (eq (resetFrame c)) r).

Record netGrows (P : writeTask -> Prop) (s s' : Net) : Prop := {
  ng_wsConns : n_wsConns s' = n_wsConns s;
  ng_clientChConns : n_clientChConns s' = n_clientChConns s;
  ng_sent : n_bytesSent s' = n_bytesSent s;
  ng_received : n_bytesReceived s' = n_bytesReceived s;
  ng_limit : n_globalQueueLimit s' = n_globalQueueLimit s;
  ng_now : n_now s' = n_now s;
  ng_bytes : n_globalQueueBytes s <= n_globalQueueBytes s';
  ng_heap : forall w, option_Forall2 (wsGrows P) (n_heap s !! w) (n_heap s' !! w) }.

#[export] Instance wsGrows_preorder P : PreOrder (wsGrows P).
Proof.
  split.
  - intros c. split_and!; [done..| |]; exists []; by rewrite app_nil_r.
  - intros c1 c2 c3 (?&?&?&?&?&?&(k&Hk&?)&(r&Hr&HFr)) (?&?&?&?&?&?&(k'&Hk'&?)&(r'&Hr'&?)).
    split_and!; [congruence..| |].
    + exists (k ++ k'). rewrite Hk', Hk, app_assoc. by rewrite Forall_app.
    + exists (r ++ r'). rewrite Hr', Hr, app_assoc. rewrite Forall_app.
      split; [done|]. split; [done|]. eapply Forall_impl; [eassumption|]. intros ? <-.
      unfold resetFrame. congruence.
Qed.

#[export] Instance netGrows_preorder P : PreOrder (netGrows P).
Proof.
  split.
  - intros s. by split.
  - intros s1 s2 s3 [] []. split; try congruence; [lia|]. intros w.
    specialize (ng_heap0 w). specialize (ng_heap1 w).
    destruct ng_heap0; inversion ng_heap1; subst; constructor. by etrans.
Qed.

Lemma netGrows_updWS P w f s g :
  n_globalQueueBytes s <= g ->
  (forall c, n_heap s !! w = Some c -> wsGrows P c (f c)) ->
  netGrows P s (updWS w f (s <| n_globalQueueBytes := g |>)).
Proof.
  intros Hg Hf. split; try done. intros w'. rewrite updWS_lookup. simpl.
  destruct (decide (w = w')) as [<-|].
  - destruct (n_heap s !! w) as [c|]; constructor. by apply Hf.
  - destruct (n_heap s !! w'); constructor; reflexivity.
Qed.

Lemma netGrows_effect P s s' : writeEffect P s s' -> netGrows P s s'.
Proof.
  destruct 1 as [s w c t Hc Hcl Hch Hq Ht HP|s w a b d|s w c Hc Hcl|s H0|s st Hr|s t].
  - apply netGrows_updWS; [pose proof (len_nonneg (wt_data t)); lia|]. intros c' _.
    split_and!; try done; [by exists [t]; split; [|constructor]|exists []; by rewrite app_nil_r].
  - apply netGrows_updWS; [lia|]. intros c' _.
    split_and!; try done; exists []; by rewrite app_nil_r.
  - pose proof (netGrows_updWS P w (fun c => c <| ws_wire ::= fun l => l ++ [resetFrame c] |>)
      s (n_globalQueueBytes s) ltac:(lia)) as H. destruct s. apply H. intros c' _.
    split_and!; try done; [exists []; by rewrite app_nil_r|].
    exists [resetFrame c']. split; [done|by constructor].
  - by split.
  - by split.
  - by split.
Qed.

Lemma netGrows_effects P s s' : rtc (writeEffect P) s s' -> netGrows P s s'.
Proof. induction 1; [done|]. etrans; [by apply netGrows_effect|done]. Qed.

(** The state after a sequence of effects, and the counter that justified it. *)
Lemma state_effects P s s' :
  rtc (writeEffect P) s s' ->
  n_backpressureState s' = n_backpressureState s \/
  (n_backpressureState s' = BackpressurePause /\
   (n_globalQueueLimit s' * 95) ÷ 100 < n_globalQueueBytes s') \/
  (n_backpressureState s' = BackpressureSlowDown /\
   n_backpressureState s = BackpressureNormal /\
   (n_globalQueueLimit s' * 8) ÷ 10 < n_globalQueueBytes s').
Proof.
  induction 1 as [|s s1 s2 Hstep Hsteps IH]; [by left|].
  pose proof (netGrows_effects _ _ _ Hsteps) as Hg.
  pose proof (ng_bytes _ _ _ Hg). pose proof (ng_limit _ _ _ Hg) as Hl.
  destruct Hstep as [| | | |s st [_ [(-> & Hne & ?)|(-> & Hn & _ & ?)]]|];
    simpl in *; try exact IH.
  - right; left. destruct IH as [->|[?|(? & ? & ?)]]; [|done|done].
    split; [done|]. rewrite Hl. lia.
  - destruct IH as [->|[?|(? & ? & ?)]]; [|by right; left|done].
    right; right. split_and!; [done..|]. rewrite Hl. lia.
Qed.

(** ** Operations preserve the invariant *)
Lemma broadcastWriteToClient_netInv clientID mt d s :
  netInv s -> netInv (broadcastWriteToClient clientID mt d s).1.
Proof.
  apply (netInv_effects (fun _ => True)).
  apply broadcastWriteToClient_effects; [|done]. intros. by apply asyncWrite_effects.
Qed.

Lemma asyncWrite_netInv w mt d s : netInv s -> netInv (asyncWrite w mt d s).1.
Proof. apply (netInv_effects (fun _ => True)). by apply asyncWrite_effects. Qed.

Lemma sendToChannel_effects (P : writeTask -> Prop) clientID chID mt d s :
  (forall t, backpressureTask t -> P t) -> P (mkWriteTask mt d (len d)) ->
  rtc (writeEffect P) s (sendToChannel clientID chID mt d s).1.
Proof.
  intros. unfold sendToChannel. destruct (lookupChannel s clientID chID); [|done].
  destruct (negb _); [done|]. by apply asyncWrite_effects.
Qed.

Lemma sendToChannel_netInv clientID chID mt d s :
  netInv s -> netInv (sendToChannel clientID chID mt d s).1.
Proof. apply (netInv_effects (fun _ => True)). by apply sendToChannel_effects. Qed.

(** The state that [removeQueueBytes] selects, if any, for the level [n]. *)
Definition recovered (limit st n : Z) : option Z :=
  if (st =? BackpressurePause) && (n <? (limit * 3) ÷ 10) then Some BackpressureNormal else
  if (st =? BackpressurePause) && (n <? (limit * 9) ÷ 10) then Some BackpressureSlowDown else
  if (st =? BackpressureSlowDown) && (n <? (limit * 7) ÷ 10) then Some BackpressureNormal
  else None.

Lemma removeQueueBytes_eq size s :
  0 < n_globalQueueLimit s ->
  let n := 0 `max` (n_globalQueueBytes s - size) in
  removeQueueBytes size s =
  match recovered (n_globalQueueLimit s) (n_backpressureState s) n with
  | Some st => broadcastBackpressure st
      (s <| n_globalQueueBytes := n |> <| n_backpressureState := st |>)
  | None => s <| n_globalQueueBytes := n |>
  end.
Proof.
  intros Hl n. unfold removeQueueBytes, recovered.
  destruct (Z.ltb_spec (n_globalQueueBytes s - size) 0).
  - simpl. destruct (Z.leb_spec (n_globalQueueLimit s) 0); [lia|].
    unfold n. rewrite Z.max_l by lia. repeat case_match; reflexivity.
  - simpl. destruct (Z.leb_spec (n_globalQueueLimit s) 0); [lia|].
    unfold n. rewrite Z.max_r by lia. repeat case_match; reflexivity.
Qed.

Lemma recovered_valid limit st n st' : recovered limit st n = Some st' -> validState st'.
Proof. unfold recovered, validState. intros. repeat case_match; simplify_eq; tauto. Qed.

Lemma broadcastBackpressure_effs st s :
  rtc (writeEffect backpressureTask) s (broadcastBackpressure st s).
Proof.
  apply broadcastBackpressure_effects; [done|]. intros. by apply asyncWrite_effects.
Qed.

Lemma netInv_state s st : validState st -> netInv s -> netInv (s <| n_backpressureState := st |>).
Proof. intros ? []. by split. Qed.

Lemma writerRecv_netInv w s s' t : writerRecv w s = Some (s', t) -> netInv s -> netInv s'.
Proof.
  unfold writerRecv. intros H Hinv.
  destruct (n_heap s !! w) as [c|] eqn:Hc; [|done]. cbn [mbind option_bind] in H.
  destruct (ws_queue c) as [|t0 q] eqn:Hq; [done|]. injection H as <- ->.
  destruct (ni_conns _ Hinv _ _ Hc) as (Hcap & Hsz & Hch). rewrite Hq in Hcap, Hsz.
  apply Forall_cons in Hsz as [Ht Hsz]. pose proof (qsize_nonneg _ Hsz).
  pose proof (len_nonneg (wt_data t)) as Htnn.
  assert (netInv (updWS w (fun c => c <| ws_queue := q |>)
    (s <| n_globalQueueBytes := n_globalQueueBytes s - wt_size t |>))) as Hpop.
  { apply netInv_updWS; [done| |congruence]. intros c' E _. simplify_eq. simpl. rewrite Hq.
    split; [|simpl; lia]. split_and!; simpl; [len_lia|done|done]. }
  destruct (Z.ltb_spec 0 (wt_size t)).
  - rewrite removeQueueBytes_eq by apply (ni_limit _ Hinv). simpl.
    pose proof (netInv_nonneg _ Hpop) as Hnn. simpl in Hnn.
    rewrite Z.max_r by lia.
    destruct (recovered _ _ _) as [st|] eqn:Hr; [|exact Hpop].
    eapply netInv_effects; [apply broadcastBackpressure_effs|].
    by apply (netInv_state _ st (recovered_valid _ _ _ _ Hr)) in Hpop.
  - replace (n_globalQueueBytes s - wt_size t) with (n_globalQueueBytes s) in Hpop by lia.
    by destruct s.
Qed.

Lemma netInv_same_heap s s' :
  n_heap s' = n_heap s -> n_globalQueueBytes s' = n_globalQueueBytes s ->
  n_backpressureState s' = n_backpressureState s ->
  n_globalQueueLimit s' = n_globalQueueLimit s -> netInv s -> netInv s'.
Proof. intros Hh Hb Hs Hl []. split; rewrite ?Hh, ?Hb, ?Hs, ?Hl; done. Qed.

Lemma netInv_updWS_queue w f s :
  (forall c, ws_queue (f c) = ws_queue c /\ (wfWS c -> wfWS (f c))) ->
  netInv s -> netInv (updWS w f s).
Proof.
  intros Hf Hinv.
  pose proof (netInv_updWS w f s (n_globalQueueBytes s) Hinv) as H. destruct s. apply H; [|done].
  intros c _ Hwf. destruct (Hf c) as [Hq Hc]. split; [by apply Hc|]. rewrite Hq. simpl. lia.
Qed.

Lemma writeDirect_netInv w mt d werr s : netInv s -> netInv (writeDirect w mt d werr s).1.
Proof.
  intros Hinv. unfold writeDirect. destruct (n_heap s !! w) as [c|]; [|done].
  destruct (ws_closed c); [done|]. destruct werr; [done|]. cbn [fst].
  assert (netInv (updWS w (fun c => c <| ws_wire ::= fun l => l ++ [(mt, d)] |>) s)) as H'
    by (apply netInv_updWS_queue; done).
  unfold addSentBytes. destruct (0 <? len d); [|done].
  by eapply netInv_same_heap; [..|exact H'].
Qed.

Lemma writerTask_netInv w werr s s' ok :
  writerTask w werr s = Some (s', ok) -> netInv s -> netInv s'.
Proof.
  unfold writerTask. destruct (writerRecv w s) as [[s1 t]|] eqn:E; [|done].
  cbn [mbind option_bind]. intros [= H] Hinv.
  change s' with (s', ok).1. rewrite <- H.
  by eapply writeDirect_netInv, writerRecv_netInv.
Qed.

Lemma writerDrain_netInv n w : forall s, netInv s -> netInv (writerDrain n w s).
Proof.
  induction n as [|n IH]; intros s Hinv; simpl; [done|].
  destruct (writerRecv w s) as [[s1 t]|] eqn:E; [|done].
  by eapply IH, writerRecv_netInv.
Qed.

Lemma markClosed_netInv b w s : netInv s -> netInv (markClosed b w s).
Proof.
  apply netInv_updWS_queue. intros c. split; [done|]. intros (? & ? & _). by split_and!.
Qed.

Lemma forgetChannel_netInv clientID chID s :
  netInv s -> netInv (forgetChannel clientID chID s).1.1.
Proof.
  intros. unfold forgetChannel. destruct (n_clientChConns s !! clientID) as [m|]; [|done].
  destruct (m !! chID); by apply (netInv_same_heap s).
Qed.

Lemma registerChannel_netInv cfg clientID chID addr s :
  netInv s -> netInv (registerChannel cfg clientID chID addr s).1.
Proof.
  intros Hinv. unfold registerChannel. destruct (countActiveChannelsLocked clientID s).
  destruct (_ || _); [done|]. destruct (channelAliveForClient _ _ _); [done|].
  destruct Hinv as [Ha Hc Hs Hl].
  assert (n_heap s !! fresh (dom (n_heap s)) = None) as Hf
    by (apply not_elem_of_dom, is_fresh).
  split; simpl; [|intros w c|done..].
  - rewrite queueBytes_insert by done. done.
  - rewrite lookup_insert. case_decide; [|by apply Hc].
    intros [= <-]. split_and!; [by vm_compute|constructor|done].
Qed.

Lemma cooldownWake_netInv s : netInv s -> netInv (cooldownWake s).
Proof.
  intros. unfold cooldownWake. destruct (_ <? _); [|done]. by apply (netInv_same_heap s).
Qed.

Lemma newNet_netInv cfg now : netInv (newNet cfg now).
Proof.
  split; simpl; [done|by intros ? ?; rewrite lookup_empty|by left|].
  unfold Server.queueLimit. destruct (Z.leb_spec (Server.BackpressureLimitBytes cfg) 0); [|lia].
  reflexivity.
Qed.

Lemma netStep_netInv cfg s s' : netStep cfg s s' -> netInv s -> netInv s'.
Proof.
  destruct 1; eauto using asyncWrite_netInv, broadcastWriteToClient_netInv,
    sendToChannel_netInv, writerTask_netInv, writerDrain_netInv, markClosed_netInv,
    forgetChannel_netInv, registerChannel_netInv, cooldownWake_netInv.
  - by apply writeDirect_netInv.
  - intros. unfold addReceivedBytes. destruct (0 <? n); [|done]. by apply (netInv_same_heap s).
  - by apply netInv_same_heap.
Qed.

Lemma reachable_netInv cfg now s : rtc (netStep cfg) (newNet cfg now) s -> netInv s.
Proof.
  intros H. eapply rtc_invariant; [apply (netStep_netInv cfg)|exact H|apply newNet_netInv].
Qed.

(** ** Properties *)

(** C10: In every state the layer reaches, the global counter is the number
    of bytes that wait in the queues (so the clamps at zero never fire), every
    queue is within the capacity of its Go channel, and exactly the closed
    connections have no write channel. *)
Theorem queue_accounting cfg now s :
  rtc (netStep cfg) (newNet cfg now) s ->
  n_globalQueueBytes s = queueBytes (n_heap s) /\ 0 <= n_globalQueueBytes s /\
  forall w c, n_heap s !! w = Some c ->
    len (ws_queue c) <= writeChanCap /\
    Forall (fun t => wt_size t = len (wt_data t)) (ws_queue c) /\
    ws_writeChan c = negb (ws_closed c).
Proof.
  intros H%reachable_netInv. split_and!; [apply (ni_account _ H)|by apply netInv_nonneg|].
  apply (ni_conns _ H).
Qed.

Lemma queue_accounting_witness :
  let cfg := Server.DefaultServerConfig in
  let s1 := (registerChannel cfg (lit "c") 1 [] (newNet cfg 0)).1 in
  let s2 := (sendToChannel (lit "c") 1 BinaryMessage (lit "hello") s1).1 in
  n_globalQueueBytes s2 = 5 /\ n_globalQueueBytes s2 = queueBytes (n_heap s2).
Proof.
  intros cfg s1 s2. split; [by vm_compute|].
  apply (queue_accounting cfg 0 s2).
  eapply rtc_l; [apply (st_register cfg (newNet cfg 0) (lit "c") 1 [])|].
  apply rtc_once, (st_send cfg s1).
Defined.

Lemma asyncWrite_live w s c :
  netInv s -> n_heap s !! w = Some c -> ws_closed c = false -> ws_writeChan c = true.
Proof. intros H Hc Hcl. destruct (ni_conns _ H _ _ Hc) as (_ & _ & ->). by rewrite Hcl. Qed.

Lemma updateBackpressure_grows s :
  netGrows backpressureTask s (updateBackpressureState (n_globalQueueBytes s) s).
Proof.
  apply netGrows_effects, update_effects; [done|]. intros. by apply asyncWrite_effects.
Qed.

Lemma asyncWrite_room w mt d s c :
  n_heap s !! w = Some c -> ws_closed c = false -> ws_writeChan c = true ->
  len (ws_queue c) < writeChanCap ->
  (asyncWrite w mt d s).2 = WriteOK /\
  (exists c' k, n_heap (asyncWrite w mt d s).1 !! w = Some c' /\ Forall backpressureTask k /\
     ws_queue c' = ws_queue c ++ mkWriteTask mt d (len d) :: k) /\
  (forall w', w' <> w -> option_Forall2 (wsGrows backpressureTask)
     (n_heap s !! w') (n_heap (asyncWrite w mt d s).1 !! w')).
Proof.
  intros Hc Hcl Hch Hq. rewrite asyncWrite_eq.
  destruct (asyncWrite_with_cases updateBackpressureState w mt d s)
    as [[_ []]|[(c0 & s1 & Hc0 & _ & _ & _ & Hs1 & ->)
      |(c0 & a & b & e & s1 & Hc0 & _ & _ & Hq' & _)]]; [by exists c| |simplify_eq; lia].
  pose proof (ng_heap _ _ _ (updateBackpressure_grows s1)) as Hg.
  simplify_eq. split_and!; [done| |].
  - specialize (Hg w). rewrite updWS_lookup, decide_True in Hg by done.
    simpl n_heap in Hg. rewrite Hc in Hg.
    inversion Hg as [? c' (_&_&_&_&_&_&(k&Hk&HF)&_) E1 E2|]; subst.
    exists c', k. split_and!; [done|done|]. rewrite Hk. simpl. by rewrite <- app_assoc.
  - intros w' Hne. specialize (Hg w'). rewrite updWS_lookup, decide_False in Hg by done.
    by rewrite option_fmap_id in Hg.
Qed.

Lemma wsGrows_False c c' :
  wsGrows (fun _ => False) c c' -> ws_queue c' = ws_queue c /\ wsGrows backpressureTask c c'.
Proof.
  intros (?&?&?&?&?&?&(k&Hk&HF)&?).
  destruct k as [|t k]; [|by apply Forall_cons in HF as [[] _]].
  rewrite app_nil_r in Hk. split; [done|]. split_and!; try done.
  exists []. by rewrite app_nil_r.
Qed.

Lemma asyncWrite_fullq w mt d s c :
  n_heap s !! w = Some c -> ws_closed c = false -> ws_writeChan c = true ->
  writeChanCap <= len (ws_queue c) ->
  (asyncWrite w mt d s).2 = QueueFull /\
  n_globalQueueBytes (asyncWrite w mt d s).1 = 0 `max` n_globalQueueBytes s /\
  netGrows (fun _ => False) s (asyncWrite w mt d s).1.
Proof.
  intros Hc Hcl Hch Hq. rewrite asyncWrite_eq.
  destruct (asyncWrite_with_cases updateBackpressureState w mt d s)
    as [[_ []]|[(c0 & s1 & Hc0 & _ & _ & Hq' & _)
      |(c0 & a & b & e & s1 & _ & _ & _ & _ & Hs1 & H)]]; [by exists c|simplify_eq; lia|].
  assert (netGrows (fun _ => False) s s1) as Hg
    by (subst s1; apply netGrows_effect, we_full).
  destruct H as [->| ->]; cbn [fst snd]; split_and!; [done|by subst s1|done|done| |].
  - subst s1. unfold notifyChannelReset. by repeat case_match.
  - etrans; [exact Hg|]. apply netGrows_effects, notifyChannelReset_effects.
Qed.

(** Delivery and isolation: a write to a live connection either appends its task
    to that queue, followed at most by back-pressure notices, or, when the queue
    is full, reports it and leaves all queues and the counter as they were; every
    other connection gains at most back-pressure notices. *)
Theorem asyncWrite_delivers w msgType data s c :
  netInv s -> n_heap s !! w = Some c -> ws_closed c = false ->
  let '(s', r) := asyncWrite w msgType data s in
  netInv s' /\
  (r = WriteOK <-> len (ws_queue c) < writeChanCap) /\
  (exists c' k, n_heap s' !! w = Some c' /\ Forall backpressureTask k /\
     ws_queue c' = ws_queue c ++
       match r with WriteOK => mkWriteTask msgType data (len data) :: k | QueueFull => [] end) /\
  (r = QueueFull -> n_globalQueueBytes s' = n_globalQueueBytes s) /\
  (forall w', w' <> w ->
     option_Forall2 (wsGrows backpressureTask) (n_heap s !! w') (n_heap s' !! w')).
Proof.
  intros Hinv Hc Hcl. pose proof (asyncWrite_netInv w msgType data s Hinv) as Hinv'.
  pose proof (asyncWrite_live w s c Hinv Hc Hcl) as Hch.
  pose proof (netInv_nonneg _ Hinv) as Hnn.
  destruct (Z.lt_ge_cases (len (ws_queue c)) writeChanCap) as [Hq|Hq].
  - destruct (asyncWrite_room w msgType data s c Hc Hcl Hch Hq) as (Hr & (c' & k & ?) & Ho).
    destruct (asyncWrite w msgType data s) as [s' r]. simpl in *. subst r.
    split_and!; [done|done|naive_solver|done|done].
  - destruct (asyncWrite_fullq w msgType data s c Hc Hcl Hch Hq) as (Hr & Hb & Hg).
    destruct (asyncWrite w msgType data s) as [s' r]. simpl in *. subst r.
    split_and!; [done|split; [done|lia]| |intros; lia|].
    + pose proof (ng_heap _ _ _ Hg w) as Hw. rewrite Hc in Hw.
      inversion Hw as [? c' [Hq' _]%wsGrows_False E1 E2|]; subst.
      exists c', []. by rewrite Hq', app_nil_r.
    + intros w' _. destruct (ng_heap _ _ _ Hg w') as [x y [_ Hxy]%wsGrows_False|]; by constructor.
Qed.

Lemma asyncWrite_delivers_witness :
  let cfg := Server.DefaultServerConfig in
  let s := (registerChannel cfg (lit "c") 1 [] (newNet cfg 0)).1 in
  (asyncWrite 1%positive BinaryMessage (lit "x") s).2 = WriteOK.
Proof.
  intros cfg s.
  pose proof (asyncWrite_delivers 1%positive BinaryMessage (lit "x") s
    (newServerWSConn (lit "c") 1 [])) as H.
  destruct (asyncWrite _ _ _ _) as [s' r].
  destruct H as (_ & [_ Hr] & _); [| |reflexivity|apply Hr; reflexivity].
  - apply (reachable_netInv cfg 0). apply rtc_once, (st_register cfg (newNet cfg 0)).
  - by vm_compute.
Defined.

(** The mutual recursion of the code (writing may raise the back-pressure state,
    which broadcasts, which writes) terminates: three levels are enough, more
    fuel changes nothing, and the result satisfies the recursive equation of the
    code, in which the nested writes are [asyncWrite] itself. *)
Theorem asyncWrite_unfold w msgType data s :
  asyncWrite w msgType data s = asyncWrite_with updateBackpressureState w msgType data s /\
  forall fuel, (3 <= fuel)%nat ->
    asyncWrite_fuel fuel w msgType data s = asyncWrite w msgType data s.
Proof.
  split; [apply asyncWrite_eq|]. intros fuel Hf. pose proof (rank_le_2 s).
  apply asyncWrite_fuel_agree; lia.
Qed.

Lemma recovered_level limit st n st' :
  0 < limit -> recovered limit st n = Some st' ->
  n <= (limit * 9) ÷ 10 /\ (st' = BackpressureSlowDown \/ n <= (limit * 7) ÷ 10).
Proof.
  unfold recovered. intros Hl H.
  destruct (Z.ltb_spec n ((limit * 3) ÷ 10)), (Z.ltb_spec n ((limit * 9) ÷ 10)),
    (Z.ltb_spec n ((limit * 7) ÷ 10)), (st =? BackpressurePause), (st =? BackpressureSlowDown);
    simpl in H; simplify_eq; 
    (split; [quot_lia|]);
    first [by left|right; quot_lia].
Qed.

(** The state and the level of queued bytes that justifies a raise to it. *)
Definition raisedAt (st : Z) (s : Net) : Prop :=
  let limit := n_globalQueueLimit s in
  (st = BackpressurePause /\ (limit * 95) ÷ 100 < n_globalQueueBytes s) \/
  (st = BackpressureSlowDown /\ (limit * 8) ÷ 10 < n_globalQueueBytes s).

Lemma broadcast_state st st0 s :
  n_backpressureState s = st ->
  let s' := broadcastBackpressure st0 s in
  n_backpressureState s' = st \/
  (n_backpressureState s' = BackpressurePause /\ raisedAt BackpressurePause s') \/
  (n_backpressureState s' = BackpressureSlowDown /\ st = BackpressureNormal /\
   raisedAt BackpressureSlowDown s').
Proof.
  intros Hst s'. pose proof (state_effects _ _ _ (broadcastBackpressure_effs st0 s)) as H.
  fold s' in H. unfold raisedAt. rewrite Hst in H. tauto.
Qed.

Lemma update_levels s :
  let s' := updateBackpressureState (n_globalQueueBytes s) s in
  let limit := n_globalQueueLimit s in
  0 < limit ->
  ((limit * 95) ÷ 100 < n_globalQueueBytes s -> n_backpressureState s' = BackpressurePause) /\
  (n_globalQueueBytes s <= (limit * 8) ÷ 10 -> s' = s) /\
  ((limit * 8) ÷ 10 < n_globalQueueBytes s -> n_backpressureCooldown s = 0 ->
     n_backpressureState s' <> BackpressureNormal).
Proof.
  intros s' limit Hl. subst s' limit.
  unfold updateBackpressureState, updateBackpressureState_with.
  destruct (Z.leb_spec (n_globalQueueLimit s) 0); [lia|].
  destruct (Z.ltb_spec ((n_globalQueueLimit s * 95) ÷ 100) (n_globalQueueBytes s)) as [H95|H95].
  - assert (n_backpressureState (if negb (n_backpressureState s =? BackpressurePause)
      then broadcastBackpressure BackpressurePause
             (s <| n_backpressureState := BackpressurePause |>) else s)
      = BackpressurePause) as E.
    { destruct (Z.eqb_spec (n_backpressureState s) BackpressurePause) as [E|]; [done|]. simpl negb.
      destruct (broadcast_state BackpressurePause BackpressurePause
        (s <| n_backpressureState := BackpressurePause |>)) as [H'|[[H' _]|(_ & H' & _)]];
        done. }
    rewrite E. split_and!; [done|intros; quot_lia|done].
  - destruct (Z.ltb_spec ((n_globalQueueLimit s * 8) ÷ 10) (n_globalQueueBytes s)) as [H80|];
      [|split_and!; [intros; lia|done|intros; lia]].
    split_and!; [intros; lia|intros; lia|]. intros _ ->.
    destruct (Z.eqb_spec (n_backpressureState s) BackpressureNormal); [|done]. simpl.
    match goal with |- context [broadcastBackpressure ?st ?s0] =>
      destruct (broadcast_state st st s0 eq_refl) as [->|[[-> _]|(-> & _)]]; done end.
Qed.

(** Raising: after a write to a live connection with room, the level of queued
    bytes forces the state: above 95% it is Pause, up to 80% nothing changes and
    nothing is announced, in between a Normal pool leaves Normal unless a raise
    happened within the cooldown. The state never changes without its level. *)
Theorem backpressure_raise w msgType data s c :
  netInv s -> n_heap s !! w = Some c -> ws_closed c = false ->
  len (ws_queue c) < writeChanCap ->
  let s' := (asyncWrite w msgType data s).1 in
  let level := n_globalQueueBytes s + len data in
  let limit := n_globalQueueLimit s in
  ((limit * 95) ÷ 100 < level -> n_backpressureState s' = BackpressurePause) /\
  (level <= (limit * 8) ÷ 10 ->
     n_backpressureState s' = n_backpressureState s /\
     s' = updWS w (fun c => c <| ws_queue ::= fun q => q ++ [mkWriteTask msgType data (len data)] |>)
            (s <| n_globalQueueBytes := level |>)) /\
  ((limit * 8) ÷ 10 < level -> n_backpressureCooldown s = 0 ->
     n_backpressureState s' <> BackpressureNormal) /\
  (n_backpressureState s' <> n_backpressureState s -> raisedAt (n_backpressureState s') s').
Proof.
  intros Hinv Hc Hcl Hq s' level limit.
  pose proof (asyncWrite_live w s c Hinv Hc Hcl) as Hch. pose proof (ni_limit _ Hinv).
  assert (rtc (writeEffect (fun _ => True)) s s') as Heff by by apply asyncWrite_effects.
  apply state_effects in Heff. unfold s' in *. clear s'. rewrite asyncWrite_eq in *.
  destruct (asyncWrite_with_cases updateBackpressureState w msgType data s)
    as [[_ []]|[(c0 & s1 & Hc0 & _ & _ & _ & Hs1 & E)
      |(c0 & a & b & e & s1 & Hc0 & _ & _ & Hq' & _)]]; [by exists c| |simplify_eq; lia].
  rewrite E in *. cbn [fst] in *. pose proof (update_levels s1) as (H1 & H2 & H3); [by subst s1|].
  split_and!; [by subst s1| |by subst s1|unfold raisedAt; tauto].
  intros Hle. rewrite H2 by by subst s1. subst s1. done.
Qed.

Lemma backpressure_raise_witness :
  let cfg := Server.DefaultServerConfig <| Server.BackpressureLimitBytes := 20 |> in
  let s := (registerChannel cfg (lit "c") 1 [] (newNet cfg 0)).1 in
  n_backpressureState (asyncWrite 1%positive BinaryMessage (lit "aaaaaaaaaaaaaaaaaaaa") s).1
  = BackpressurePause.
Proof.
  intros cfg s.
  apply (backpressure_raise 1%positive BinaryMessage (lit "aaaaaaaaaaaaaaaaaaaa") s
    (newServerWSConn (lit "c") 1 [])); [|reflexivity..].
  apply (reachable_netInv cfg 0). apply rtc_once, (st_register cfg (newNet cfg 0)).
Defined.

(** Recovery: dequeuing moves Pause to SlowDown only below 90%, to Normal only
    below 30%, and SlowDown to Normal only below 70%; otherwise the state stays
    and nothing is announced. A level that triggered a recovery does not trigger
    the next raise (hysteresis): the state after the recovery is the chosen one
    unless the announcements themselves lifted the level over the threshold. *)
Theorem backpressure_recover size s :
  0 < n_globalQueueLimit s -> validState (n_backpressureState s) ->
  let limit := n_globalQueueLimit s in
  let st := n_backpressureState s in
  let n := 0 `max` (n_globalQueueBytes s - size) in
  let s' := removeQueueBytes size s in
  let st' := n_backpressureState s' in
  ((st = BackpressureNormal \/ (st = BackpressureSlowDown /\ (limit * 7) ÷ 10 <= n) \/
    (st = BackpressurePause /\ (limit * 9) ÷ 10 <= n)) -> s' = s <| n_globalQueueBytes := n |>) /\
  (st = BackpressureSlowDown -> n < (limit * 7) ÷ 10 ->
     st' = BackpressureNormal \/ raisedAt st' s') /\
  (st = BackpressurePause -> (limit * 3) ÷ 10 <= n < (limit * 9) ÷ 10 ->
     st' = BackpressureSlowDown \/ (st' = BackpressurePause /\ raisedAt st' s')) /\
  (st = BackpressurePause -> n < (limit * 3) ÷ 10 ->
     st' = BackpressureNormal \/ raisedAt st' s') /\
  (forall st1, recovered limit st n = Some st1 ->
     let s1 := s <| n_globalQueueBytes := n |> <| n_backpressureState := st1 |> in
     updateBackpressureState n s1 = s1).
Proof.
  intros Hl Hv limit st n s' st'.
  pose proof (removeQueueBytes_eq size s Hl) as E. cbv zeta in E. fold limit st n s' in E.
  assert (forall st1, recovered limit st n = Some st1 -> st' = st1 \/
    (st' = BackpressurePause /\ raisedAt BackpressurePause s') \/
    (st' = BackpressureSlowDown /\ st1 = BackpressureNormal /\ raisedAt BackpressureSlowDown s'))
    as Hrec.
  { intros st1 H1. unfold st'. rewrite E, H1. by apply broadcast_state. }
  assert (recovered limit st n = None -> s' = s <| n_globalQueueBytes := n |>) as Hnone
    by (intros H1; by rewrite E, H1).
  unfold recovered in Hrec, Hnone.
  split_and!.
  - intros H. apply Hnone. destruct H as [->|[[-> ?]|[-> ?]]]; [done| |];
      unfold BackpressureSlowDown, BackpressurePause; simpl;
      repeat match goal with |- context [n <? ?b] => destruct (Z.ltb_spec n b); [quot_lia|] end; done.
  - intros -> Hn. apply Z.ltb_lt in Hn. rewrite Hn in Hrec.
    destruct (Hrec _ eq_refl) as [?|[[-> ?]|(-> & _ & ?)]]; auto.
  - intros -> [H3 H9]. apply Z.ltb_ge in H3. apply Z.ltb_lt in H9. rewrite H3, H9 in Hrec.
    destruct (Hrec _ eq_refl) as [?|[[-> ?]|(_ & [=] & _)]]; auto.
  - intros -> H3. apply Z.ltb_lt in H3. rewrite H3 in Hrec.
    destruct (Hrec _ eq_refl) as [?|[[-> ?]|(-> & _ & ?)]]; auto.
  - intros st1 H1 s1. apply recovered_level in H1; [|done].
    unfold updateBackpressureState, updateBackpressureState_with. simpl. fold limit.
    destruct (limit <=? 0); [done|].
    destruct (Z.ltb_spec ((limit * 95) ÷ 100) n); [quot_lia|].
    destruct (Z.ltb_spec ((limit * 8) ÷ 10) n); [|done].
    destruct H1 as [_ [->|]]; [done|quot_lia].
Qed.

Lemma backpressure_recover_witness :
  let s := (newNet Server.DefaultServerConfig 0) <| n_globalQueueLimit := 100 |>
             <| n_globalQueueBytes := 96 |> <| n_backpressureState := BackpressurePause |> in
  let s' := removeQueueBytes 50 s in
  n_backpressureState s' = BackpressureSlowDown \/
  (n_backpressureState s' = BackpressurePause /\ raisedAt (n_backpressureState s') s').
Proof.
  intros s. destruct (backpressure_recover 50 s) as (_ & _ & H & _);
    [reflexivity|right; right; reflexivity|].
  apply H; [reflexivity|]. vm_compute. split; [discriminate|reflexivity].
Defined.

(** The announcements of two raises can overtake each other: the SlowDown notice
    written to the first channel can itself lift the level over 95%, and the
    nested broadcast then reaches the second channel before the outer one does.
    That channel's client sees Pause followed by SlowDown while the pool is in
    Pause. *)
Definition overtakeStart : Net :=
  let cfg := Server.DefaultServerConfig <| Server.BackpressureLimitBytes := 100 |> in
  let s := (registerChannel cfg (lit "c") 1 [] (newNet cfg 0)).1 in
  (registerChannel cfg (lit "c") 2 [] s).1.

Theorem backpressure_notices_overtake :
  let s' := (asyncWrite 1%positive BinaryMessage (repeat (byte_of_Z 0) 90) overtakeStart).1 in
  n_backpressureState s' = BackpressurePause /\
  ws_queue <$> (n_heap s' !! 2%positive)
  = Some (map (fun st => mkWriteTask BinaryMessage (backpressureMsg st) 9)
            [BackpressurePause; BackpressureSlowDown]).
Proof. by vm_compute. Qed.
