(* ===== verification/ChannelRegistry.v ===== *)
(** Registration of channels ([Channels.registerChannel], [forgetChannel]): the
    channel maps only hold connections under their own client and number, a live
    channel is never replaced, and the configured limits are never exceeded. *)

From S2P Require Import Prelude Protocol GoStrings Config Channels ChannelQueue.

(** ** Registration: who owns a channel, and how many there are *)
Definition slotActive (s : Net) (e : option wsid) : bool :=
  match e with Some w => isActive s w | None => false end.
Definition slotOf (clientID : bytes) (s : Net) (e : option wsid) : bool :=
  match e with Some w => isActive s w && ownedBy s clientID w | None => false end.
Definition countSlots (p : option wsid -> bool) (l : list (option wsid)) : Z :=
  len (filter (fun e => p e = true) l).

Lemma countSlots_nil p : countSlots p [] = 0.
Proof. done. Qed.

Lemma countSlots_cons p e l : countSlots p (e :: l) = (if p e then 1 else 0) + countSlots p l.
Proof.
  unfold countSlots. rewrite filter_cons. destruct (p e); [|done].
  by rewrite decide_True, len_cons.
Qed.

Lemma countSlots_app p l k : countSlots p (l ++ k) = countSlots p l + countSlots p k.
Proof. unfold countSlots. by rewrite filter_app, len_app. Qed.

Lemma countSlots_mono (p q : option wsid -> bool) l :
  (forall e, e ∈ l -> p e = true -> q e = true) -> countSlots p l <= countSlots q l.
Proof.
  induction l as [|e l IH]; intros H; [done|]. rewrite !countSlots_cons.
  assert (countSlots p l <= countSlots q l) by (apply IH; intros; apply H; set_solver).
  specialize (H e ltac:(set_solver)).
  destruct (p e); [rewrite H by done|]; [lia|]. destruct (q e); lia.
Qed.

Lemma countSlots_clear p w l : p None = false -> countSlots p (clearSlot w l) <= countSlots p l.
Proof.
  intros Hp. induction l as [|e l IH]; [done|]. cbn [clearSlot].
  case_bool_decide; rewrite !countSlots_cons; [rewrite Hp|]; destruct (p e); lia.
Qed.

Lemma countActive_slots clientID s :
  countActiveChannelsLocked clientID s
  = (countSlots (slotActive s) (n_wsConns s), countSlots (slotOf clientID s) (n_wsConns s)).
Proof.
  unfold countActiveChannelsLocked. generalize (n_wsConns s). intros l.
  enough (forall a b, foldl (fun '(total, clientTotal) e =>
    match e with
    | None => (total, clientTotal)
    | Some w =>
        if negb (isActive s w) then (total, clientTotal)
        else (total + 1, if ownedBy s clientID w then clientTotal + 1 else clientTotal)
    end) (a, b) l
    = (a + countSlots (slotActive s) l, b + countSlots (slotOf clientID s) l)) as H
    by apply (H 0 0).
  induction l as [|e l IH]; intros a b; simpl foldl; [rewrite !countSlots_nil; f_equal; lia|].
  rewrite !countSlots_cons. destruct e as [w|].
  - change (slotActive s (Some w)) with (isActive s w).
    change (slotOf clientID s (Some w)) with (isActive s w && ownedBy s clientID w).
    destruct (isActive s w), (ownedBy s clientID w); simpl; rewrite IH; f_equal; lia.
  - rewrite IH. cbn [slotActive slotOf]. f_equal; lia.
Qed.

Lemma countForClient_slots clientID s :
  countActiveChannelsForClient clientID s = countSlots (slotOf clientID s) (n_wsConns s).
Proof.
  unfold countActiveChannelsForClient. generalize (n_wsConns s). intros l.
  enough (forall a, foldl (fun cnt e => match e with
    | Some w => if isActive s w && ownedBy s clientID w then cnt + 1 else cnt
    | None => cnt end) a l = a + countSlots (slotOf clientID s) l) as H by apply (H 0).
  induction l as [|e l IH]; intros a; simpl foldl; [rewrite countSlots_nil; lia|].
  rewrite countSlots_cons, IH. destruct e as [w|]; [|cbn [slotOf]; lia].
  change (slotOf clientID s (Some w)) with (isActive s w && ownedBy s clientID w).
  destruct (isActive s w && ownedBy s clientID w); lia.
Qed.

(** A step that neither registers nor forgets a channel keeps the identity of
    every connection and never reopens one. *)
Definition idsLe (c c' : ServerWSConn) : Prop :=
  ws_chID c' = ws_chID c /\ ws_clientID c' = ws_clientID c /\
  (ws_closed c = true -> ws_closed c' = true).

Record sameIds (s s' : Net) : Prop := {
  si_wsConns : n_wsConns s' = n_wsConns s;
  si_clientChConns : n_clientChConns s' = n_clientChConns s;
  si_heap : forall w, option_Forall2 idsLe (n_heap s !! w) (n_heap s' !! w) }.

#[export] Instance idsLe_preorder : PreOrder idsLe.
Proof.
  split; [by intros c; unfold idsLe; split_and!|].
  intros c1 c2 c3 (?&?&?) (?&?&?). unfold idsLe. split_and!; [congruence..|auto].
Qed.

#[export] Instance sameIds_preorder : PreOrder sameIds.
Proof.
  split; [by split|]. intros s1 s2 s3 [H1 H2 H3] [H4 H5 H6]. split; [congruence..|].
  intros w. specialize (H3 w). specialize (H6 w).
  destruct H3; inversion H6; subst; constructor. by etrans.
Qed.

Lemma sameIds_grows P s s' : netGrows P s s' -> sameIds s s'.
Proof.
  intros [Hw Hcc _ _ _ _ _ Hh]. split; [done..|]. intros w. specialize (Hh w).
  destruct Hh as [c c' (?&?&?&?&_)|]; constructor. split_and!; [done..|congruence].
Qed.

Lemma sameIds_updWS w f s : (forall c, idsLe c (f c)) -> sameIds s (updWS w f s).
Proof.
  intros Hf. split; [done|done|]. intros w'. rewrite updWS_lookup.
  destruct (decide (w = w')), (n_heap s !! w'); simpl; constructor; [apply Hf|done].
Qed.

Lemma sameIds_heap s s' :
  n_heap s' = n_heap s -> n_wsConns s' = n_wsConns s ->
  n_clientChConns s' = n_clientChConns s -> sameIds s s'.
Proof. intros H1 H2 H3. split; [done..|]. intros w. by rewrite H1. Qed.

Lemma removeQueueBytes_ids size s : sameIds s (removeQueueBytes size s).
Proof.
  unfold removeQueueBytes.
  destruct (n_globalQueueBytes s - size <? 0); cbv beta iota zeta;
    repeat (destruct (_ : bool)); try (by apply sameIds_heap);
    (etrans; [|eapply sameIds_grows, netGrows_effects, broadcastBackpressure_effs]);
    by apply sameIds_heap.
Qed.

Lemma writerRecv_ids w s s' t : writerRecv w s = Some (s', t) -> sameIds s s'.
Proof.
  unfold writerRecv. destruct (n_heap s !! w) as [c|]; [|done]. cbn [mbind option_bind].
  destruct (ws_queue c) as [|t0 q]; [done|]. intros [= <- ->].
  etrans; [by apply (sameIds_updWS w (fun c => c <| ws_queue := q |>))|].
  destruct (0 <? wt_size t); [apply removeQueueBytes_ids|done].
Qed.

Lemma writeDirect_ids w mt d werr s : sameIds s (writeDirect w mt d werr s).1.
Proof.
  unfold writeDirect. destruct (n_heap s !! w) as [c|]; [|done].
  destruct (ws_closed c); [done|]. destruct werr; [done|]. cbn [fst].
  etrans; [by apply (sameIds_updWS w (fun c => c <| ws_wire ::= fun l => l ++ [(mt, d)] |>))|].
  unfold addSentBytes. destruct (0 <? len d); [by apply sameIds_heap|done].
Qed.

Lemma writerDrain_ids n w : forall s, sameIds s (writerDrain n w s).
Proof.
  induction n as [|n IH]; intros s; simpl; [done|].
  destruct (writerRecv w s) as [[s1 t]|] eqn:E; [|done].
  etrans; [by eapply writerRecv_ids|apply IH].
Qed.

Lemma markClosed_ids b w s : sameIds s (markClosed b w s).
Proof. by apply sameIds_updWS. Qed.

Lemma effects_ids P s s' : rtc (writeEffect P) s s' -> sameIds s s'.
Proof. intros. by eapply sameIds_grows, netGrows_effects. Qed.

(** Every step but registration and forgetting. *)
Lemma netStep_ids cfg s s' :
  netStep cfg s s' ->
  sameIds s s' \/ (exists cl ch a, s' = (registerChannel cfg cl ch a s).1) \/
  (exists cl ch, s' = (forgetChannel cl ch s).1.1).
Proof.
  destruct 1 as [s w mt d|s cl mt d|s cl ch mt d|s s' w werr ok H|s w werr|s n w|s cl ch a
    |s b w|s cl ch|s n|s|s d Hd]; eauto 6 using writerDrain_ids, markClosed_ids.
  - left. by apply (effects_ids (fun _ => True)), asyncWrite_effects.
  - left. apply (effects_ids (fun _ => True)), broadcastWriteToClient_effects; [|done].
    intros. by apply asyncWrite_effects.
  - left. by apply (effects_ids (fun _ => True)), sendToChannel_effects.
  - left. unfold writerTask in H. destruct (writerRecv w s) as [[s1 t]|] eqn:E; [|done].
    cbn [mbind option_bind] in H. injection H as H. etrans; [by eapply writerRecv_ids|].
    change s' with (s', ok).1. rewrite <- H. apply writeDirect_ids.
  - left. apply writeDirect_ids.
  - left. unfold addReceivedBytes. destruct (0 <? n); [by apply sameIds_heap|done].
  - left. unfold cooldownWake. destruct (_ <? _); [by apply sameIds_heap|done].
  - left. by apply sameIds_heap.
Qed.

Record regInv (cfg : Server.ServerConfig) (s : Net) : Prop := {
  ri_slots : forall w, Some w ∈ n_wsConns s -> is_Some (n_heap s !! w);
  ri_reg : forall cl ch w, lookupChannel s cl ch = Some w ->
    exists c, n_heap s !! w = Some c /\ ws_clientID c = cl /\ ws_chID c = ch;
  ri_total : 0 < Server.MaxTotalChannels cfg ->
    countSlots (slotActive s) (n_wsConns s) <= Server.MaxTotalChannels cfg;
  ri_client : 0 < Server.MaxChannelsPerClient cfg -> forall cl,
    countSlots (slotOf cl s) (n_wsConns s) <= Server.MaxChannelsPerClient cfg }.

Lemma isActive_ids s s' w : sameIds s s' -> isActive s' w = true -> isActive s w = true.
Proof.
  intros [_ _ H]. specialize (H w). unfold isActive.
  destruct H as [c c' (_ & _ & Hc)|]; [|done].
  destruct (ws_closed c); [by rewrite Hc|done].
Qed.

Lemma ownedBy_ids s s' cl w : sameIds s s' -> ownedBy s' cl w = ownedBy s cl w.
Proof.
  intros [_ _ H]. specialize (H w). unfold ownedBy.
  destruct H as [c c' (_ & -> & _)|]; done.
Qed.

Lemma slotActive_ids s s' e : sameIds s s' -> slotActive s' e = true -> slotActive s e = true.
Proof. intros Hs. destruct e as [w|]; [by apply isActive_ids|done]. Qed.

Lemma slotOf_ids s s' cl e : sameIds s s' -> slotOf cl s' e = true -> slotOf cl s e = true.
Proof.
  intros Hs. destruct e as [w|]; [|done]. unfold slotOf. rewrite !andb_true_iff.
  rewrite (ownedBy_ids _ _ _ _ Hs). intros [? ?]. split; [by eapply isActive_ids|done].
Qed.

Lemma regInv_ids cfg s s' : sameIds s s' -> regInv cfg s -> regInv cfg s'.
Proof.
  intros Hs [Hsl Hreg Ht Hc]. pose proof Hs as [Hw Hcc Hh]. split.
  - rewrite Hw. intros w ?%Hsl. specialize (Hh w). destruct Hh; [done|by destruct H].
  - intros cl ch w. unfold lookupChannel. rewrite Hcc. intros Hl.
    destruct (Hreg _ _ _ Hl) as (c & E & ? & ?). specialize (Hh w). rewrite E in Hh.
    inversion Hh as [? c' (? & ? & _)|]; subst. exists c'. by split_and!.
  - intros H. specialize (Ht H). etrans; [|exact Ht]. rewrite Hw.
    apply countSlots_mono. intros. by eapply slotActive_ids.
  - intros H cl. specialize (Hc H cl). etrans; [|exact Hc]. rewrite Hw.
    apply countSlots_mono. intros. by eapply slotOf_ids.
Qed.

Lemma lookupChannel_forget cl ch s cl' ch' :
  lookupChannel (forgetChannel cl ch s).1.1 cl' ch'
  = if decide (cl' = cl /\ ch' = ch) then None else lookupChannel s cl' ch'.
Proof.
  unfold forgetChannel, lookupChannel.
  destruct (n_clientChConns s !! cl) as [m|] eqn:Hm.
  - assert (forall s1, n_clientChConns s1 = (if bool_decide (delete ch m = ∅)
        then delete cl (n_clientChConns s) else <[cl := delete ch m]> (n_clientChConns s)) ->
      n_clientChConns s1 !! cl' ≫= (fun m => m !! ch')
      = if decide (cl' = cl /\ ch' = ch) then None
        else n_clientChConns s !! cl' ≫= (fun m => m !! ch')) as H.
    { intros s1 ->. destruct (decide (cl' = cl)) as [->|].
      - rewrite Hm. simpl. case_bool_decide as Hd.
        + rewrite lookup_delete_eq. simpl. case_decide as Hc; [done|].
          assert (delete ch m !! ch' = None) as Hn by (rewrite Hd; apply lookup_empty).
          rewrite lookup_delete_ne in Hn; [done|]. intros ->; tauto.
        + rewrite lookup_insert_eq. simpl. rewrite lookup_delete.
          repeat case_decide; naive_solver.
      - rewrite decide_False by tauto.
        case_bool_decide; [by rewrite lookup_delete_ne|by rewrite lookup_insert_ne]. }
    destruct (m !! ch); apply H; simpl; by case_bool_decide.
  - simpl. case_decide as Hd; [|done]. destruct Hd as [-> _]. by rewrite Hm.
Qed.

Lemma clearSlot_elem w w' l : Some w' ∈ clearSlot w l -> Some w' ∈ l.
Proof.
  induction l as [|e l IH]; [done|]. cbn [clearSlot]. case_bool_decide; set_solver.
Qed.

Lemma forgetChannel_heap cl ch s : n_heap (forgetChannel cl ch s).1.1 = n_heap s.
Proof. unfold forgetChannel. by repeat case_match. Qed.

Lemma forgetChannel_slots cl ch s :
  n_wsConns (forgetChannel cl ch s).1.1 = n_wsConns s \/
  exists w, lookupChannel s cl ch = Some w /\
    n_wsConns (forgetChannel cl ch s).1.1 = clearSlot w (n_wsConns s).
Proof.
  unfold forgetChannel, lookupChannel. destruct (n_clientChConns s !! cl) as [m|]; [|by left].
  simpl. destruct (m !! ch) as [w|]; [right; by exists w|by left].
Qed.

Lemma slot_same_heap s s' cl :
  n_heap s' = n_heap s -> slotActive s' = slotActive s /\ slotOf cl s' = slotOf cl s.
Proof. intros H. unfold slotActive, slotOf, isActive, ownedBy. by rewrite H. Qed.

Lemma regInv_forget cfg cl ch s : regInv cfg s -> regInv cfg (forgetChannel cl ch s).1.1.
Proof.
  intros [Hsl Hreg Ht Hc]. pose proof (forgetChannel_heap cl ch s) as Hh.
  pose proof (fun cl' => slot_same_heap _ _ cl' Hh) as Hslot.
  assert (forall p, p None = false ->
    countSlots p (n_wsConns (forgetChannel cl ch s).1.1) <= countSlots p (n_wsConns s)) as Hle.
  { intros p Hp. destruct (forgetChannel_slots cl ch s) as [->|(w & _ & ->)]; [done|].
    by apply countSlots_clear. }
  split.
  - rewrite Hh. intros w Hw. apply Hsl.
    destruct (forgetChannel_slots cl ch s) as [<-|(w' & _ & Hw')]; [done|].
    rewrite Hw' in Hw. by eapply clearSlot_elem.
  - intros cl' ch' w. rewrite lookupChannel_forget, Hh. case_decide; [done|apply Hreg].
  - intros H. rewrite (proj1 (Hslot cl)). etrans; [by apply Hle|by apply Ht].
  - intros H cl'. rewrite (proj2 (Hslot cl')). etrans; [by apply Hle|by apply Hc].
Qed.

Lemma limitHit_false limit n : limitHit limit n = false -> 0 < limit -> n < limit.
Proof. unfold limitHit. rewrite andb_false_iff, Z.ltb_ge, Z.leb_gt. lia. Qed.

(** The state after a successful registration. *)
Definition registered (clientID : bytes) (chID : Z) (remoteAddr : bytes) (s : Net) : Net :=
  let w := fresh (dom (n_heap s)) in
  s <| n_heap ::= <[w := newServerWSConn clientID chID remoteAddr]> |>
    <| n_clientChConns ::=
         <[clientID := <[chID := w]> (default ∅ (n_clientChConns s !! clientID))]> |>
    <| n_wsConns ::= fun l => l ++ [Some w] |>.

Lemma registerChannel_cases cfg cl ch a s :
  let '(s', r) := registerChannel cfg cl ch a s in
  match r with
  | Registered w =>
      w = fresh (dom (n_heap s)) /\ s' = registered cl ch a s /\
      limitHit (Server.MaxTotalChannels cfg) (countSlots (slotActive s) (n_wsConns s)) = false /\
      limitHit (Server.MaxChannelsPerClient cfg) (countSlots (slotOf cl s) (n_wsConns s)) = false /\
      channelAliveForClient cl ch s = false
  | LimitReached =>
      s' = s /\
      (limitHit (Server.MaxTotalChannels cfg) (countSlots (slotActive s) (n_wsConns s)) = true \/
       limitHit (Server.MaxChannelsPerClient cfg) (countSlots (slotOf cl s) (n_wsConns s)) = true)
  | ChIDInUse => s' = s /\ channelAliveForClient cl ch s = true
  end.
Proof.
  unfold registerChannel. rewrite countActive_slots.
  destruct (limitHit _ _) eqn:H1; [by split; [|left]|].
  destruct (limitHit _ _) eqn:H2 in |- *; [by split; [|right]|]. simpl orb.
  destruct (channelAliveForClient cl ch s) eqn:H3; [done|].
  by split_and!.
Qed.

Lemma lookupChannel_registered cl ch a s cl' ch' :
  lookupChannel (registered cl ch a s) cl' ch'
  = if decide (cl' = cl /\ ch' = ch) then Some (fresh (dom (n_heap s)))
    else lookupChannel s cl' ch'.
Proof.
  unfold lookupChannel, registered; simpl. destruct (decide (cl' = cl)) as [->|].
  - rewrite lookup_insert_eq. simpl. rewrite lookup_insert. case_decide; case_decide; try naive_solver.
    by destruct (n_clientChConns s !! cl).
  - rewrite lookup_insert_ne by done. by rewrite decide_False by tauto.
Qed.

Lemma fresh_heap (s : Net) : n_heap s !! fresh (dom (n_heap s)) = None.
Proof. apply not_elem_of_dom, is_fresh. Qed.

Lemma registered_heap_ne cl ch a s w :
  is_Some (n_heap s !! w) -> n_heap (registered cl ch a s) !! w = n_heap s !! w.
Proof.
  intros Hw. unfold registered; simpl. rewrite lookup_insert_ne; [done|].
  intros <-. rewrite fresh_heap in Hw. by destruct Hw.
Qed.

Lemma isActive_registered cl ch a s w :
  is_Some (n_heap s !! w) -> isActive (registered cl ch a s) w = isActive s w.
Proof. intros. unfold isActive. by rewrite registered_heap_ne. Qed.

Lemma ownedBy_registered cl ch a s cl' w :
  is_Some (n_heap s !! w) -> ownedBy (registered cl ch a s) cl' w = ownedBy s cl' w.
Proof. intros. unfold ownedBy. by rewrite registered_heap_ne. Qed.

Lemma new_active cl ch a s :
  isActive (registered cl ch a s) (fresh (dom (n_heap s))) = true /\
  forall cl', ownedBy (registered cl ch a s) cl' (fresh (dom (n_heap s))) = bool_decide (cl = cl').
Proof. unfold isActive, ownedBy, registered; simpl. by rewrite lookup_insert_eq. Qed.

(** A registration adds exactly one active slot, the client's. *)
Lemma countSlots_registered cfg cl ch a s cl' :
  regInv cfg s ->
  countSlots (slotActive (registered cl ch a s)) (n_wsConns (registered cl ch a s))
  = countSlots (slotActive s) (n_wsConns s) + 1 /\
  countSlots (slotOf cl' (registered cl ch a s)) (n_wsConns (registered cl ch a s))
  = countSlots (slotOf cl' s) (n_wsConns s) + (if decide (cl' = cl) then 1 else 0).
Proof.
  intros [Hsl _ _ _]. destruct (new_active cl ch a s) as [Ha Ho].
  assert (forall p q, (forall e, e ∈ n_wsConns s -> p e = q e) ->
    countSlots p (n_wsConns s) = countSlots q (n_wsConns s)) as Heq.
  { intros p q H. apply Z.le_antisymm; apply countSlots_mono; intros e He; by rewrite H. }
  change (n_wsConns (registered cl ch a s))
    with (n_wsConns s ++ [Some (fresh (dom (n_heap s)))]).
  rewrite !countSlots_app, !countSlots_cons, !countSlots_nil. split.
  - rewrite (Heq (slotActive (registered cl ch a s)) (slotActive s)).
    + unfold slotActive at 2. rewrite Ha. lia.
    + intros [w|] He; [|done]. by apply isActive_registered, Hsl.
  - rewrite (Heq (slotOf cl' (registered cl ch a s)) (slotOf cl' s)).
    + unfold slotOf at 2. rewrite Ha, Ho. simpl andb.
      case_bool_decide; case_decide; simplify_eq; lia.
    + intros [w|] He; [|done]. unfold slotOf.
      by rewrite isActive_registered, ownedBy_registered by apply Hsl, He.
Qed.

Lemma regInv_register cfg cl ch a s : regInv cfg s -> regInv cfg (registerChannel cfg cl ch a s).1.
Proof.
  intros Hinv. pose proof (registerChannel_cases cfg cl ch a s) as H.
  destruct (registerChannel cfg cl ch a s) as [s' [w| |]]; [|by destruct H as [-> _]..].
  destruct H as (_ & -> & Ht & Hc & _). simpl.
  pose proof (fun cl' => countSlots_registered _ cl ch a s cl' Hinv) as Hcnt.
  destruct Hinv as [Hsl Hreg Htot Hcl]. split.
  - intros w' [Hw|Hw%list_elem_of_singleton]%elem_of_app.
    + rewrite registered_heap_ne; by apply Hsl.
    + injection Hw as ->. unfold registered; simpl. by rewrite lookup_insert_eq.
  - intros cl' ch' w'. rewrite lookupChannel_registered. case_decide as Hd.
    + destruct Hd as [-> ->]. intros [= <-]. unfold registered; simpl.
      rewrite lookup_insert_eq. by eexists.
    + intros (c & Hc' & ?)%Hreg. exists c. by rewrite registered_heap_ne by by eexists.
  - intros Hpos. rewrite (proj1 (Hcnt cl)).
    pose proof (limitHit_false _ _ Ht Hpos). lia.
  - intros Hpos cl'. rewrite (proj2 (Hcnt cl')). specialize (Hcl Hpos cl').
    case_decide as Hd; [|lia]. subst cl'. pose proof (limitHit_false _ _ Hc Hpos). lia.
Qed.

Lemma netStep_regInv cfg s s' : netStep cfg s s' -> regInv cfg s -> regInv cfg s'.
Proof.
  intros [Hs|[(cl & ch & a & ->)|(cl & ch & ->)]]%netStep_ids;
    eauto using regInv_ids, regInv_register, regInv_forget.
Qed.

Lemma reachable_regInv cfg now s : rtc (netStep cfg) (newNet cfg now) s -> regInv cfg s.
Proof.
  intros H. eapply rtc_invariant; [apply (netStep_regInv cfg)|exact H|].
  split; simpl; [set_solver| |intros; rewrite countSlots_nil; lia..].
  intros cl ch w. unfold lookupChannel; simpl. by rewrite lookup_empty.
Qed.

(** ** Properties *)

(** C11: The configured limits hold in every state the layer reaches, whatever the
    order of upgrades, closings and clean-ups: the active channels, in total and
    per client, are at most the limits; and a channel number only leads to a
    connection of that client and number. *)
Theorem channel_limits cfg now s :
  rtc (netStep cfg) (newNet cfg now) s ->
  (forall clientID, let '(total, clientTotal) := countActiveChannels clientID s in
     (0 < Server.MaxTotalChannels cfg -> total <= Server.MaxTotalChannels cfg) /\
     (0 < Server.MaxChannelsPerClient cfg -> clientTotal <= Server.MaxChannelsPerClient cfg)) /\
  (forall clientID chID w, lookupChannel s clientID chID = Some w ->
     exists c, n_heap s !! w = Some c /\ ws_clientID c = clientID /\ ws_chID c = chID).
Proof.
  intros H%reachable_regInv. split; [|apply (ri_reg _ _ H)]. intros cl.
  unfold countActiveChannels. rewrite countActive_slots.
  split; intros; [by apply (ri_total _ _ H)|by apply (ri_client _ _ H)].
Qed.

Lemma channel_limits_witness :
  let cfg := Server.DefaultServerConfig <| Server.MaxChannelsPerClient := 1 |> in
  let s1 := (registerChannel cfg (lit "c") 1 [] (newNet cfg 0)).1 in
  let s2 := (registerChannel cfg (lit "c") 2 [] s1).1 in
  (countActiveChannels (lit "c") s2).2 = 1 /\ (countActiveChannels (lit "c") s2).2 <= 1.
Proof.
  intros cfg s1 s2. split; [by vm_compute|].
  destruct (channel_limits cfg 0 s2) as [H _].
  { eapply rtc_l; [apply (st_register cfg (newNet cfg 0) (lit "c") 1 [])|].
    apply rtc_once, (st_register cfg s1). }
  specialize (H (lit "c")). destruct (countActiveChannels (lit "c") s2) as [t ct].
  by apply H.
Defined.

(** Registration never hijacks: it succeeds only when the client's channel number
    is free, all other registrations stay, a live registered channel is never
    replaced, the new channel is live with an empty queue, and on refusal the pool
    is unchanged. *)
Theorem registerChannel_no_hijack cfg clientID chID remoteAddr s :
  regInv cfg s ->
  let '(s', r) := registerChannel cfg clientID chID remoteAddr s in
  (forall cl ch w, lookupChannel s cl ch = Some w -> isActive s w = true ->
     lookupChannel s' cl ch = Some w /\ isActive s' w = true) /\
  match r with
  | Registered w =>
      channelAliveForClient clientID chID s = false /\
      lookupChannel s' clientID chID = Some w /\
      n_heap s' !! w = Some (newServerWSConn clientID chID remoteAddr) /\
      countActiveChannelsForClient clientID s' = countActiveChannelsForClient clientID s + 1 /\
      (forall cl ch, (cl, ch) <> (clientID, chID) -> lookupChannel s' cl ch = lookupChannel s cl ch)
  | LimitReached | ChIDInUse => s' = s
  end.
Proof.
  intros Hinv. pose proof (registerChannel_cases cfg clientID chID remoteAddr s) as H.
  destruct (registerChannel cfg clientID chID remoteAddr s) as [s' [w| |]];
    [|by destruct H as [-> _]..].
  destruct H as (-> & -> & _ & _ & Hfree).
  assert (forall cl ch, (cl, ch) <> (clientID, chID) ->
    lookupChannel (registered clientID chID remoteAddr s) cl ch = lookupChannel s cl ch) as Hother.
  { intros cl ch Hne. rewrite lookupChannel_registered, decide_False; [done|].
    intros [-> ->]. by apply Hne. }
  split; [|split_and!; [done| | | |done]].
  - intros cl ch w Hl Ha. destruct (ri_reg _ _ Hinv _ _ _ Hl) as (c & Hc & _).
    rewrite isActive_registered by by eexists. split; [|done]. rewrite Hother; [done|].
    intros [= -> ->]. unfold channelAliveForClient in Hfree. rewrite Hl in Hfree. congruence.
  - by rewrite lookupChannel_registered, decide_True.
  - unfold registered; simpl. by rewrite lookup_insert_eq.
  - rewrite !countForClient_slots.
    rewrite (proj2 (countSlots_registered _ clientID chID remoteAddr s clientID Hinv)).
    by rewrite decide_True.
Qed.

Lemma registerChannel_no_hijack_witness :
  let cfg := Server.DefaultServerConfig in
  let s1 := (registerChannel cfg (lit "c") 1 [] (newNet cfg 0)).1 in
  lookupChannel (registerChannel cfg (lit "c") 1 (lit "other") s1).1 (lit "c") 1
  = Some 1%positive.
Proof.
  intros cfg s1.
  pose proof (registerChannel_no_hijack cfg (lit "c") 1 (lit "other") s1) as H.
  destruct (registerChannel cfg (lit "c") 1 (lit "other") s1) as [s' r].
  apply H; [|by vm_compute..].
  apply (reachable_regInv cfg 0), rtc_once, (st_register cfg (newNet cfg 0)).
Defined.

(** [allocLoop] returns the first free number from [i] on, or [0]. *)
Lemma allocLoop_spec cl s n : forall i, 0 < i ->
  let r := allocLoop n i cl s in
  (r = 0 /\ forall k, i <= k < i + Z.of_nat n -> channelAliveForClient cl k s = true) \/
  (i <= r < i + Z.of_nat n /\ channelAliveForClient cl r s = false /\
   forall k, i <= k < r -> channelAliveForClient cl k s = true).
Proof.
  induction n as [|n IH]; intros i Hi; cbn [allocLoop]; [left; split; [done|lia]|].
  destruct (channelAliveForClient cl i s) eqn:E; simpl negb.
  - destruct (IH (i + 1) ltac:(lia)) as [[-> H]|(Hr & Hf & H)]; [left|right].
    + split; [done|]. intros k Hk. destruct (decide (k = i)) as [->|]; [done|]. apply H. lia.
    + split_and!; [lia|lia|done|]. intros k Hk.
      destruct (decide (k = i)) as [->|]; [done|]. apply H. lia.
  - right. split_and!; [lia|lia|done|lia].
Qed.

Definition admitted (r : httpRequest) (clientID : bytes) (chID : Z) (s : Net) : Prop :=
  1 <= chID <= maxAllowedChID /\
  if decide (rq_ch_id r = []) then
    channelAliveForClient clientID chID s = false /\
    forall k, 1 <= k < chID -> channelAliveForClient clientID k s = true
  else SscanfD (rq_ch_id r) = Some chID.

Lemma requested_number r cl s n :
  rq_ch_id r <> [] -> SscanfD (rq_ch_id r) = Some n ->
  (n <=? 0) || (maxAllowedChID <? n) = false -> admitted r cl n s.
Proof.
  intros Hr Hn H. apply orb_false_iff in H as [?%Z.leb_gt ?%Z.ltb_ge].
  split; [lia|]. by rewrite decide_False.
Qed.

Lemma allocated_number r cl s :
  rq_ch_id r = [] -> allocClientChIDLocked cl s <> 0 ->
  admitted r cl (allocClientChIDLocked cl s) s.
Proof.
  intros Hr Hne. pose proof (allocLoop_spec cl s (Z.to_nat maxAllowedChID) 1 ltac:(lia)) as H.
  fold (allocClientChIDLocked cl s) in H. cbv zeta in H.
  unfold admitted. rewrite decide_True by done.
  destruct H as [[? _]|(? & ? & ?)]; [done|].
  assert (Z.of_nat (Z.to_nat maxAllowedChID) = maxAllowedChID) by done.
  split_and!; [lia..|done|done].
Qed.

(** Admission ([handleWebSocket] up to the upgrade): a request is admitted
    only with the token, for a non-empty client (its own, or the generated one),
    with a channel number in 1..65535, the requested one when it was given, else
    the least free one, and only when both limits leave room at that moment. *)
Theorem admitRequest_spec cfg token uuid r s clientID chID :
  uuid <> [] ->
  admitRequest cfg token uuid r s = inr (clientID, chID) ->
  (exists ps, rq_subprotocols r = token :: ps) /\ clientID <> [] /\
  (rq_client_id r <> [] -> clientID = rq_client_id r) /\
  admitted r clientID chID s /\
  limitHit (Server.MaxTotalChannels cfg) (countActiveChannels clientID s).1 = false /\
  limitHit (Server.MaxChannelsPerClient cfg) (countActiveChannels clientID s).2 = false.
Proof.
  intros Hu. unfold admitRequest.
  destruct (rq_subprotocols r) as [|p ps]; [done|]. case_bool_decide as Hp; [|done]. subst p.
  simpl negb. cbv iota zeta.
  set (cl := if bool_decide (rq_client_id r = []) then uuid else rq_client_id r).
  assert (cl <> []) by (unfold cl; by case_bool_decide).
  assert (rq_client_id r <> [] -> cl = rq_client_id r) by (intros; unfold cl; by case_bool_decide).
  clearbody cl. intros H'.
  enough (exists ch, admitted r cl ch s /\ (let '(t, ct) := countActiveChannels cl s in
    if limitHit (Server.MaxTotalChannels cfg) t then inl StatusTooManyRequests else
    if limitHit (Server.MaxChannelsPerClient cfg) ct then inl StatusTooManyRequests
    else inr (cl, ch)) = (inr (clientID, chID) : httpStatus + bytes * Z)) as (ch & Ha & E).
  { destruct (countActiveChannels cl s) as [t ct] eqn:Ec.
    destruct (limitHit _ t) eqn:Ht; [done|]. destruct (limitHit _ ct) eqn:Hct; [done|].
    injection E as <- <-. rewrite Ec. split_and!; try done. by eexists. }
  case_bool_decide as Hr; simpl negb in H'; cbv iota zeta in H'.
  - destruct (Z.eqb_spec (allocClientChIDLocked cl s) 0); [done|].
    eexists. split; [by apply allocated_number|exact H'].
  - destruct (SscanfD (rq_ch_id r)) as [n|] eqn:Hn; [|done].
    destruct (_ || _) eqn:Hrange in H'; [done|].
    exists n. split; [by apply requested_number|exact H'].
Qed.

Lemma admitRequest_spec_witness :
  let cfg := Server.DefaultServerConfig in
  let r := mkHttpRequest [lit "tok"] (lit "c") (lit "7") in
  1 <= 7 <= maxAllowedChID.
Proof.
  intros cfg r.
  apply (admitRequest_spec cfg (lit "tok") (lit "u") r (newNet cfg 0) (lit "c") 7);
    [discriminate|vm_compute; reflexivity].
Defined.

(** The slots of [wsConns] are never reclaimed: clean-up writes [nil] into them,
    so the slice grows with every reconnect. *)
Lemma length_clearSlot w l : length (clearSlot w l) = length l.
Proof. induction l as [|e l IH]; [done|]. cbn [clearSlot]. case_bool_decide; simpl; congruence. Qed.

Lemma slots_never_reclaimed cfg s s' :
  rtc (netStep cfg) s s' -> (length (n_wsConns s) <= length (n_wsConns s'))%nat.
Proof.
  induction 1 as [|s s1 s2 Hstep _ IH]; [done|]. etrans; [|exact IH]. clear IH.
  destruct (netStep_ids _ _ _ Hstep) as [[-> _ _]|[(cl & ch & a & ->)|(cl & ch & ->)]]; [done| |].
  - pose proof (registerChannel_cases cfg cl ch a s) as H.
    destruct (registerChannel cfg cl ch a s) as [s' [w| |]]; [|by destruct H as [-> _]..].
    destruct H as (_ & -> & _). simpl. rewrite length_app. lia.
  - destruct (forgetChannel_slots cl ch s) as [->|(w & _ & ->)]; [done|].
    by rewrite length_clearSlot.
Qed.
