(* ===== verification/ServerState.v ===== *)
(** The state of the server pool ([server_pool.go], [connection.go],
    [reverse_server.go], [reverse_listener.go]) and the operations on it that all
    handlers share.

    [ServerConnState], [ServerReverseConn], target sockets and proxy listeners
    are reached through pointers that outlive their map entries (goroutines and
    timers keep them), so each kind has a heap. What the program wrote to a
    socket is the socket's content here; whether a write or a dial succeeds is an
    argument of the step. Log output and deadlines are left out. *)

From S2P Require Import Prelude Protocol Config HotPairTable Channels.

(** ** Data *)
Abbreviation stid := positive.
Abbreviation rcid := positive.
Abbreviation sockid := positive.
Abbreviation srvid := positive.

Record ServerConnState := mkServerConnState {
  st_connID : bytes; st_clientID : bytes; st_target : bytes;
  st_targetConn : option sockid; st_targetUDP : option sockid;
  st_uplinkChID : Z; st_downlinkChID : Z; st_ipStrategy : Z; st_isUDP : bool;
  st_clientAddr : bytes; st_connected : bool; st_closed : bool;
  st_pendingData : list bytes }.
#[export] Instance ServerConnState_eta : Eta ServerConnState := fun c =>
  mkServerConnState (st_connID c) (st_clientID c) (st_target c) (st_targetConn c)
    (st_targetUDP c) (st_uplinkChID c) (st_downlinkChID c) (st_ipStrategy c) (st_isUDP c)
    (st_clientAddr c) (st_connected c) (st_closed c) (st_pendingData c).

Definition pendingDataMaxSize : Z := 1024 * 1024.

(** A target socket: what was written to it (with the address for UDP). *)
Record Socket := mkSocket { sk_sent : list (bytes * bytes); sk_closed : bool }.
#[export] Instance Socket_eta : Eta Socket := fun c => mkSocket (sk_sent c) (sk_closed c).

(** [rc_delivered] is what was written to the tunnel end of the pipe. *)
Record ServerReverseConn := mkServerReverseConn {
  rc_connID : bytes; rc_target : bytes; rc_ownerClientID : bytes;
  rc_sendCh : Z; rc_recvCh : Z;
  rc_delivered : list bytes; rc_pipeClosed : bool; rc_appClosed : bool;
  rc_settled : bool; rc_ok : bool; rc_errMsg : bytes;
  rc_pairPreset : bool; rc_repaired : bool }.
#[export] Instance ServerReverseConn_eta : Eta ServerReverseConn := fun c =>
  mkServerReverseConn (rc_connID c) (rc_target c) (rc_ownerClientID c) (rc_sendCh c)
    (rc_recvCh c) (rc_delivered c) (rc_pipeClosed c) (rc_appClosed c) (rc_settled c)
    (rc_ok c) (rc_errMsg c) (rc_pairPreset c) (rc_repaired c).

(** A SOCKS5 or HTTP proxy server that a client asked for. *)
Record proxyServer := mkProxyServer {
  ps_scheme : bytes; ps_host : bytes; ps_auth : option (bytes * bytes); ps_closed : bool }.
#[export] Instance proxyServer_eta : Eta proxyServer := fun c =>
  mkProxyServer (ps_scheme c) (ps_host c) (ps_auth c) (ps_closed c).

Record reverseListener := mkReverseListener {
  rl_spec : bytes; rl_listenerID : bytes; rl_server : srvid }.

Record ReverseListenerManager := mkReverseListenerManager {
  rm_maxPerClient : Z;
  rm_clients : gmap bytes (gmap bytes reverseListener);
  rm_pool : bool;                              (* the field [pool] is not nil *)
  rm_servers : gmap srvid proxyServer }.       (* every server ever started *)
#[export] Instance ReverseListenerManager_eta : Eta ReverseListenerManager := fun c =>
  mkReverseListenerManager (rm_maxPerClient c) (rm_clients c) (rm_pool c) (rm_servers c).

(** Goroutines the pool has started and that have not returned. A
    [connectTarget] is in one of three places: before its first lock, in the dial,
    or writing the remaining pending data to the new connection. *)
Inductive goroutine :=
| GoConnectTarget (i : stid)
| GoDialing (i : stid)
| GoFlushPending (i : stid) (k : sockid) (pending : list bytes)
| GoForwardTarget (i : stid)
| GoForwardUDP (i : stid)
| GoUpstreamPump (i : rcid)
| GoCleanup (clientID : bytes) (chID : Z).     (* a [close] before its clean-up *)

#[export] Instance goroutine_eq_dec : EqDecision goroutine.
Proof. solve_decision. Defined.

Record serverPool := mkServerPool {
  p_config : Server.ServerConfig;
  p_token : bytes;
  p_net : Net;
  p_conns : gmap bytes stid;
  p_states : gmap stid ServerConnState;
  p_socks : gmap sockid Socket;
  p_revConns : gmap bytes rcid;
  p_revHeap : gmap rcid ServerReverseConn;
  p_manager : ReverseListenerManager;
  p_hotPairs : HotPairTable;
  p_prebindTTL : Z;
  p_prebindArmed : gmap bytes Z;
  p_timers : list (Z * bytes);                 (* pending [AfterFunc]s: unregisterConn *)
  p_go : list goroutine }.
#[export] Instance serverPool_eta : Eta serverPool := fun p =>
  mkServerPool (p_config p) (p_token p) (p_net p) (p_conns p) (p_states p) (p_socks p)
    (p_revConns p) (p_revHeap p) (p_manager p) (p_hotPairs p) (p_prebindTTL p)
    (p_prebindArmed p) (p_timers p) (p_go p).

Definition prebindStateTTL : Z := 5 * Second.

Definition NewReverseListenerManager (maxPerClient : Z) : ReverseListenerManager :=
  mkReverseListenerManager (if maxPerClient <=? 0 then 3 else maxPerClient) ∅ false ∅.

Definition newServerPool (token : bytes) (config : Server.ServerConfig) (now : Z)
    : serverPool :=
  mkServerPool config token (newNet config now) ∅ ∅ ∅ ∅ ∅
    ((NewReverseListenerManager (Server.MaxReverseListeners config)) <| rm_pool := true |>)
    NewHotPairTable prebindStateTTL ∅ [] [].

(** The time of [time.Now()]. *)
Definition poolNow (p : serverPool) : Z := n_now (p_net p).

(** ** Access *)
Definition getConn (connID : bytes) (p : serverPool) : option (stid * ServerConnState) :=
  i ← p_conns p !! connID; st ← p_states p !! i; Some (i, st).

Definition updState (i : stid) (f : ServerConnState -> ServerConnState) (p : serverPool)
    : serverPool := p <| p_states ::= alter f i |>.

Definition updRev (i : rcid) (f : ServerReverseConn -> ServerReverseConn) (p : serverPool)
    : serverPool := p <| p_revHeap ::= alter f i |>.

Definition closeSock (k : option sockid) (p : serverPool) : serverPool :=
  match k with
  | None => p
  | Some k => p <| p_socks ::= alter (fun s => s <| sk_closed := true |>) k |>
  end.

(** [None]: the write fails, because of the peer ([werr]) or because the socket
    was closed. *)
Definition writeSock (k : sockid) (addr data : bytes) (werr : bool) (p : serverPool)
    : option serverPool :=
  s ← p_socks p !! k;
  if werr || sk_closed s then None
  else Some (p <| p_socks ::=
               alter (fun s => s <| sk_sent ::= fun l => l ++ [(addr, data)] |>) k |>).

Definition openSock (p : serverPool) : serverPool * sockid :=
  let k := fresh (dom (p_socks p)) in
  (p <| p_socks ::= <[k := mkSocket [] false]> |>, k).

(** The goroutine [g] is replaced by [gs]. *)
Fixpoint replaceFirst (g : goroutine) (gs l : list goroutine) : list goroutine :=
  match l with
  | [] => []
  | h :: l => if bool_decide (h = g) then gs ++ l else h :: replaceFirst g gs l
  end.
Definition goBecomes (g : goroutine) (gs : list goroutine) (p : serverPool) : serverPool :=
  p <| p_go ::= replaceFirst g gs |>.

(** [p.clientChConns[clientID][chID]], dereferenced. *)
Definition channelConn (clientID : bytes) (chID : Z) (p : serverPool) : option ServerWSConn :=
  w ← lookupChannel (p_net p) clientID chID; n_heap (p_net p) !! w.

(** [p.sendToChannel] and [p.broadcastWriteToClient] on the pool. *)
Definition poolSend (clientID : bytes) (chID : Z) (data : bytes) (p : serverPool)
    : serverPool * sendResult :=
  let '(n, r) := sendToChannel clientID chID BinaryMessage data (p_net p) in
  (p <| p_net := n |>, r).
Definition poolBroadcast (clientID : bytes) (data : bytes) (p : serverPool)
    : serverPool * sendResult :=
  let '(n, r) := broadcastWriteToClient clientID BinaryMessage data (p_net p) in
  (p <| p_net := n |>, r).

(** ** Downlink *)
Inductive downlinkError := ErrNoConn | ErrNoChannel.

Definition sendDownlink (connID : bytes) (msgType : Z) (meta payload : bytes) (p : serverPool)
    : serverPool * option downlinkError :=
  match getConn connID p with
  | None => (p, Some ErrNoConn)
  | Some (_, st) =>
      let data := EncodeMessage msgType connID meta payload in
      let '(p, r) :=
        if 0 <? st_downlinkChID st
        then poolSend (st_clientID st) (st_downlinkChID st) data p
        else poolBroadcast (st_clientID st) data p in
      (p, match r with SendOK => None | NoChannel => Some ErrNoChannel end)
  end.

(** [unregisterConn] *)
Definition unregisterConn (connID : bytes) (p : serverPool) : serverPool :=
  match p_conns p !! connID with
  | None => p
  | Some i =>
      let p := p <| p_conns ::= delete connID |> in
      match p_states p !! i with
      | None => p
      | Some st =>
          if st_closed st then p else
          let p := updState i (fun st => st <| st_closed := true |>) p in
          if negb (st_connected st) then p else
          let p := updState i (fun st => st <| st_connected := false |>) p in
          closeSock (st_targetUDP st) (closeSock (st_targetConn st) p)
      end
  end.
