(* ===== verification/ReverseListener.v ===== *)
(** Reverse listeners ([reverse_listener.go]): the specification parser and the
    manager that opens, at a client's request, SOCKS5 and HTTP proxy servers whose
    connections leave through that client.

    Starting a proxy server belongs to the [xshared] library; its outcome
    ([None]: started, [Some msg]: the error text) is an argument. *)

From S2P Require Import Prelude Protocol GoStrings Config Channels ServerState.

(** ** [parseListenerSpec]: host, user, password, scheme *)
Definition parseAuthority (rest : bytes) : bytes * bytes * bytes :=
  if ContainsByte rest (byte_of_Z 64) then
    let '(auth, host) := SplitN2 rest (byte_of_Z 64) in
    let host := default [] host in
    if ContainsByte auth (byte_of_Z 58) then
      let '(user, pass) := SplitN2 auth (byte_of_Z 58) in (host, user, default [] pass)
    else (host, auth, [])
  else (rest, [], []).

Definition parseListenerSpec (spec : bytes) : option (bytes * bytes * bytes * bytes) :=
  if HasPrefix spec (lit "socks5://") then
    let '(host, user, pass) := parseAuthority (TrimPrefix spec (lit "socks5://")) in
    Some (host, user, pass, lit "socks5")
  else if HasPrefix spec (lit "http://") then
    let '(host, user, pass) := parseAuthority (TrimPrefix spec (lit "http://")) in
    Some (host, user, pass, lit "http")
  else None.

(** ** The manager *)
Definition managerReply (clientID : bytes) (chID : Z) (listenerID : bytes) (status : Z)
    (reason : bytes) (p : serverPool) : serverPool :=
  if negb (rm_pool (p_manager p)) then p else
  let meta := [byte_of_Z status] in
  let meta := if bool_decide (reason = []) then meta else meta ++ reason in
  (poolSend clientID chID (EncodeMessage MsgReverseListenResult listenerID meta []) p).1.

(** A proxy server with credentials asks for them ([WithUserPassAuth]). *)
Definition newProxyServer (scheme host user pass : bytes) : proxyServer :=
  mkProxyServer scheme host
    (if negb (bool_decide (user = [])) || negb (bool_decide (pass = []))
     then Some (user, pass) else None) false.

Definition HandleReverseListen (clientID : bytes) (chID : Z) (listenerID spec : bytes)
    (start : option bytes) (p : serverPool) : serverPool :=
  let m := p_manager p in
  let reply := managerReply clientID chID listenerID in
  if negb (rm_pool m) then reply StatusERR (lit "manager not initialized") p else
  let clientMap := default ∅ (rm_clients m !! clientID) in
  let p := p <| p_manager ::= fun m => m <| rm_clients ::= <[clientID := clientMap]> |> |> in
  match clientMap !! spec with
  | Some _ => reply StatusOK [] p
  | None =>
      if rm_maxPerClient m <=? Z.of_nat (size clientMap)
      then reply StatusERR (lit "listener limit reached") p else
      match parseListenerSpec spec with
      | None => reply StatusERR (lit "unsupported spec") p
      | Some (host, user, pass, scheme) =>
          if bool_decide (scheme = lit "socks5") || bool_decide (scheme = lit "http") then
            match start with
            | Some err => reply StatusERR err p
            | None =>
                let k := fresh (dom (rm_servers m)) in
                let rl := mkReverseListener spec listenerID k in
                let p := p <| p_manager ::= fun m =>
                  m <| rm_servers ::= <[k := newProxyServer scheme host user pass]> |>
                    <| rm_clients ::= <[clientID := <[spec := rl]> clientMap]> |> |> in
                reply StatusOK [] p
            end
          else reply StatusERR (lit "unsupported scheme") p
      end
  end.

(** [server.Close()] of every listener of a client's map. *)
Definition closeListeners (ls : gmap bytes reverseListener) (ss : gmap srvid proxyServer)
    : gmap srvid proxyServer :=
  foldr (fun kv => alter (fun s => s <| ps_closed := true |>) (rl_server kv.2)) ss
    (map_to_list ls).

Definition ShutdownClient (clientID : bytes) (m : ReverseListenerManager)
    : ReverseListenerManager :=
  match rm_clients m !! clientID with
  | None => m
  | Some ls => m <| rm_servers ::= closeListeners ls |> <| rm_clients ::= delete clientID |>
  end.

Definition ManagerShutdown (m : ReverseListenerManager) : ReverseListenerManager :=
  m <| rm_servers ::= fun ss =>
         foldr (fun kv => closeListeners kv.2) ss (map_to_list (rm_clients m)) |>
    <| rm_clients := ∅ |>.

(** * Theorems *)

(** ** Parsing *)
Lemma parseAuthority_credentials user pass host :
  (byte_of_Z 64 ∉ user) -> (byte_of_Z 64 ∉ pass) -> (byte_of_Z 58 ∉ user) ->
  parseAuthority (user ++ byte_of_Z 58 :: pass ++ byte_of_Z 64 :: host) = (host, user, pass).
Proof.
  intros Hu Hp Hc. unfold parseAuthority.
  replace (user ++ byte_of_Z 58 :: pass ++ byte_of_Z 64 :: host)
    with ((user ++ byte_of_Z 58 :: pass) ++ byte_of_Z 64 :: host) by by rewrite <- app_assoc.
  assert (byte_of_Z 64 ∉ user ++ byte_of_Z 58 :: pass) as Ha.
  { rewrite elem_of_app, elem_of_cons. by intros [?|[?|?]]. }
  rewrite (proj2 (ContainsByte_true _ _)) by set_solver.
  rewrite SplitN2_present by done. cbn [default].
  rewrite (proj2 (ContainsByte_true _ _)) by set_solver.
  by rewrite SplitN2_present.
Qed.

Lemma parseAuthority_user user host :
  (byte_of_Z 64 ∉ user) -> (byte_of_Z 58 ∉ user) ->
  parseAuthority (user ++ byte_of_Z 64 :: host) = (host, user, []).
Proof.
  intros Hu Hc. unfold parseAuthority.
  rewrite (proj2 (ContainsByte_true _ _)) by set_solver.
  rewrite SplitN2_present by done. cbn [default].
  by rewrite (proj2 (ContainsByte_false _ _)).
Qed.

Lemma parseAuthority_host host :
  (byte_of_Z 64 ∉ host) -> parseAuthority host = (host, [], []).
Proof. intros H. unfold parseAuthority. by rewrite (proj2 (ContainsByte_false _ _)). Qed.

Lemma parse_scheme scheme rest :
  scheme = lit "socks5" \/ scheme = lit "http" ->
  parseListenerSpec (scheme ++ lit "://" ++ rest)
  = let '(host, user, pass) := parseAuthority rest in Some (host, user, pass, scheme).
Proof.
  intros [-> | ->]; unfold parseListenerSpec.
  - change (lit "socks5" ++ lit "://" ++ rest) with (lit "socks5://" ++ rest).
    assert (HasPrefix (lit "socks5://" ++ rest) (lit "socks5://") = true) as ->
      by (apply HasPrefix_spec; eauto). by rewrite TrimPrefix_app.
  - change (lit "http" ++ lit "://" ++ rest) with (lit "http://" ++ rest).
    destruct (HasPrefix (lit "http://" ++ rest) (lit "socks5://")) eqn:E.
    { apply HasPrefix_spec in E as [r E]. discriminate. }
    assert (HasPrefix (lit "http://" ++ rest) (lit "http://") = true) as ->
      by (apply HasPrefix_spec; eauto). by rewrite TrimPrefix_app.
Qed.

(** How a listener specification is written. *)
Definition renderSpec (scheme : bytes) (auth : option (bytes * option bytes)) (host : bytes)
    : bytes :=
  scheme ++ lit "://" ++
  match auth with
  | None => host
  | Some (user, None) => user ++ byte_of_Z 64 :: host
  | Some (user, Some pass) => user ++ byte_of_Z 58 :: pass ++ byte_of_Z 64 :: host
  end.

(** C9: Round trip of the specification: a written specification parses
    to its parts when the separators do not occur where they would split it (the
    host may contain anything but, without credentials, an at sign; the password
    may contain colons). *)
Theorem parseListenerSpec_render scheme auth host :
  scheme = lit "socks5" \/ scheme = lit "http" ->
  match auth with
  | None => byte_of_Z 64 ∉ host
  | Some (user, pass) => (byte_of_Z 64 ∉ user) /\ (byte_of_Z 58 ∉ user) /\
                         (byte_of_Z 64 ∉ default [] pass)
  end ->
  parseListenerSpec (renderSpec scheme auth host)
  = Some (host, default [] (fst <$> auth), default [] (auth ≫= snd), scheme).
Proof.
  intros Hs Ha. unfold renderSpec. rewrite parse_scheme by done.
  destruct auth as [[user [pass|]]|]; simpl in *.
  - by rewrite parseAuthority_credentials by tauto.
  - by rewrite parseAuthority_user by tauto.
  - by rewrite parseAuthority_host.
Qed.

Lemma parseListenerSpec_render_witness :
  parseListenerSpec (lit "socks5://me:a:b@0.0.0.0:30000")
  = Some (lit "0.0.0.0:30000", lit "me", lit "a:b", lit "socks5").
Proof.
  apply (parseListenerSpec_render (lit "socks5") (Some (lit "me", Some (lit "a:b")))
    (lit "0.0.0.0:30000")); [by left|].
  simpl. split_and!; by apply (bool_decide_unpack _); vm_compute.
Defined.

(** ** The manager *)
Definition listenerAt (m : ReverseListenerManager) (cl spec : bytes) : option reverseListener :=
  rm_clients m !! cl ≫= (fun ls => ls !! spec).

Record listenersInv (m : ReverseListenerManager) : Prop := {
  li_limit : forall cl ls, rm_clients m !! cl = Some ls ->
    Z.of_nat (size ls) <= rm_maxPerClient m;
  li_open : forall cl spec rl, listenerAt m cl spec = Some rl ->
    exists host user pass scheme,
      parseListenerSpec spec = Some (host, user, pass, scheme) /\
      rm_servers m !! rl_server rl = Some (newProxyServer scheme host user pass);
  li_inj : forall cl spec rl cl' spec' rl',
    listenerAt m cl spec = Some rl -> listenerAt m cl' spec' = Some rl' ->
    rl_server rl = rl_server rl' -> cl = cl' /\ spec = spec';
  li_cover : forall k s, rm_servers m !! k = Some s -> ps_closed s = false ->
    exists cl spec rl, listenerAt m cl spec = Some rl /\ rl_server rl = k }.

Lemma lookup_closeAll (l : list (bytes * reverseListener)) (ss : gmap srvid proxyServer) k :
  foldr (fun kv => alter (fun s => s <| ps_closed := true |>) (rl_server kv.2)) ss l !! k
  = if decide (Exists (fun kv => rl_server kv.2 = k) l)
    then (fun s => s <| ps_closed := true |>) <$> ss !! k else ss !! k.
Proof.
  induction l as [|kv l IH]; cbn [foldr].
  - rewrite decide_False; [done|]. by intros ?%Exists_nil.
  - destruct (decide (rl_server kv.2 = k)) as [<-|Hne].
    + rewrite lookup_alter_eq, IH. rewrite (decide_True (P := Exists _ (kv :: l))) by by left.
      case_decide; destruct (ss !! _); done.
    + rewrite lookup_alter_ne, IH by done.
      case_decide as H1; case_decide as H2; try done; exfalso.
      * by apply H2; right.
      * apply H1. by apply Exists_cons in H2 as [?|?].
Qed.

Lemma lookup_closeListeners ls ss k :
  closeListeners ls ss !! k
  = if decide (Exists (fun kv => rl_server kv.2 = k) (map_to_list ls))
    then (fun s => s <| ps_closed := true |>) <$> ss !! k else ss !! k.
Proof. apply lookup_closeAll. Qed.

Lemma Exists_listener ls k :
  Exists (fun kv : bytes * reverseListener => rl_server kv.2 = k) (map_to_list ls) <->
  exists spec rl, ls !! spec = Some rl /\ rl_server rl = k.
Proof.
  rewrite Exists_exists. split.
  - intros ([spec rl] & ?%elem_of_map_to_list & ?). by exists spec, rl.
  - intros (spec & rl & ? & ?). exists (spec, rl). by rewrite elem_of_map_to_list.
Qed.

Lemma managerReply_manager cl ch lid st r p : p_manager (managerReply cl ch lid st r p) = p_manager p.
Proof.
  unfold managerReply, poolSend. destruct (negb _); [done|]. by destruct (sendToChannel _ _ _ _ _).
Qed.

(** The manager after a request: untouched, with an entry for the client, or with
    one more open server. *)
Definition touched (cl : bytes) (m : ReverseListenerManager) : ReverseListenerManager :=
  m <| rm_clients ::= <[cl := default ∅ (rm_clients m !! cl)]> |>.

Definition opened (cl lid spec : bytes) (srv : proxyServer) (m : ReverseListenerManager)
    : ReverseListenerManager :=
  let k := fresh (dom (rm_servers m)) in
  m <| rm_servers ::= <[k := srv]> |>
    <| rm_clients ::= <[cl := <[spec := mkReverseListener spec lid k]>
                               (default ∅ (rm_clients m !! cl))]> |>.

Lemma HandleReverseListen_manager cl ch lid spec start p :
  let m := p_manager p in
  let m' := p_manager (HandleReverseListen cl ch lid spec start p) in
  m' = m \/ m' = touched cl m \/
  exists host user pass scheme,
    listenerAt m cl spec = None /\
    Z.of_nat (size (default ∅ (rm_clients m !! cl) : gmap bytes reverseListener))
      < rm_maxPerClient m /\
    parseListenerSpec spec = Some (host, user, pass, scheme) /\ start = None /\
    m' = opened cl lid spec (newProxyServer scheme host user pass) m.
Proof.
  intros m m'. unfold m', HandleReverseListen. fold m.
  destruct (rm_pool m); simpl negb; cbv iota; [|left; apply managerReply_manager].
  right. destruct (default ∅ (rm_clients m !! cl) !! spec) eqn:Hs.
  { left. by rewrite managerReply_manager. }
  destruct (Z.leb_spec (rm_maxPerClient m)
    (Z.of_nat (size (default ∅ (rm_clients m !! cl) : gmap bytes reverseListener)))).
  { left. by rewrite managerReply_manager. }
  destruct (parseListenerSpec spec) as [[[[host user] pass] scheme]|];
    [|left; by rewrite managerReply_manager].
  destruct (_ || _); [|left; by rewrite managerReply_manager].
  destruct start; [left; by rewrite managerReply_manager|right].
  exists host, user, pass, scheme. rewrite managerReply_manager.
  split_and!; [|done|done|done|].
  - unfold listenerAt. destruct (rm_clients m !! cl); done.
  - unfold opened. simpl. fold m. f_equal. by rewrite insert_insert_eq.
Qed.

Lemma listenerAt_touched cl m cl' spec :
  listenerAt (touched cl m) cl' spec = listenerAt m cl' spec.
Proof.
  unfold listenerAt, touched; simpl. destruct (decide (cl = cl')) as [<-|].
  - rewrite lookup_insert_eq. by destruct (rm_clients m !! cl).
  - by rewrite lookup_insert_ne.
Qed.

Lemma listenerAt_opened cl lid spec srv m cl' spec' :
  listenerAt (opened cl lid spec srv m) cl' spec'
  = if decide (cl' = cl /\ spec' = spec)
    then Some (mkReverseListener spec lid (fresh (dom (rm_servers m))))
    else listenerAt m cl' spec'.
Proof.
  unfold listenerAt, opened; simpl. destruct (decide (cl' = cl)) as [->|].
  - rewrite lookup_insert_eq. simpl. rewrite lookup_insert.
    case_decide; case_decide; try naive_solver. by destruct (rm_clients m !! cl).
  - rewrite lookup_insert_ne by done. by rewrite decide_False by tauto.
Qed.

Lemma touched_inv cl m : 0 <= rm_maxPerClient m -> listenersInv m -> listenersInv (touched cl m).
Proof.
  intros Hm [Hl Ho Hi Hc]. split.
  - intros cl' ls. unfold touched; simpl. rewrite lookup_insert. case_decide; [|by apply Hl].
    intros [= <-]. destruct (rm_clients m !! cl) as [ls|] eqn:E; [by apply (Hl cl)|done].
  - intros cl' spec rl. rewrite listenerAt_touched. apply Ho.
  - intros cl1 s1 r1 cl2 s2 r2. rewrite !listenerAt_touched. apply Hi.
  - intros k s Hk Hop. destruct (Hc k s Hk Hop) as (cl' & spec & rl & ? & ?).
    exists cl', spec, rl. by rewrite listenerAt_touched.
Qed.

Lemma opened_inv cl lid spec host user pass scheme m :
  listenerAt m cl spec = None ->
  Z.of_nat (size (default ∅ (rm_clients m !! cl) : gmap bytes reverseListener))
    < rm_maxPerClient m ->
  parseListenerSpec spec = Some (host, user, pass, scheme) ->
  listenersInv m ->
  listenersInv (opened cl lid spec (newProxyServer scheme host user pass) m).
Proof.
  intros Hnone Hsz Hparse [Hl Ho Hi Hc].
  assert (rm_servers m !! fresh (dom (rm_servers m)) = None) as Hfresh
    by (apply not_elem_of_dom, is_fresh).
  assert (forall cl' s rl, listenerAt m cl' s = Some rl ->
    rl_server rl <> fresh (dom (rm_servers m))) as Hne.
  { intros cl' s rl (? & ? & ? & ? & _ & H)%Ho E. congruence. }
  split.
  - intros cl' ls. unfold opened; simpl. rewrite lookup_insert. case_decide; [|by apply Hl].
    intros [= <-]. rewrite map_size_insert.
    case_match; unfold id; rewrite ?Nat2Z.inj_succ; [apply Z.lt_le_incl, Hsz|apply Z.le_succ_l, Hsz].
  - intros cl' spec' rl. rewrite listenerAt_opened. case_decide as Hd.
    + destruct Hd as [-> ->]. intros [= <-]. exists host, user, pass, scheme.
      split; [done|]. unfold opened; simpl. by rewrite lookup_insert_eq.
    + intros Hrl. destruct (Ho _ _ _ Hrl) as (h & u & pw & sc & ? & ?).
      exists h, u, pw, sc. split; [done|]. unfold opened; simpl.
      rewrite lookup_insert_ne; [done|]. intros E. by eapply Hne.
  - intros cl1 s1 r1 cl2 s2 r2. rewrite !listenerAt_opened.
    case_decide as H1; case_decide as H2; [| | |by apply Hi].
    + intros _ _ _. destruct H1, H2; by subst.
    + intros [= <-] Hr E. by destruct (Hne _ _ _ Hr).
    + intros Hr [= <-] E. by destruct (Hne _ _ _ Hr).
  - intros k s. unfold opened at 1; simpl. rewrite lookup_insert. case_decide as Hk.
    + intros [= <-] _. exists cl, spec. eexists. rewrite listenerAt_opened, decide_True by done.
      split; [done|]. done.
    + intros Hks Hop. destruct (Hc k s Hks Hop) as (cl' & spec' & rl & Hrl & ?).
      exists cl', spec', rl. rewrite listenerAt_opened, decide_False; [done|].
      intros [-> ->]. congruence.
Qed.

Lemma listenerAt_shutdown cl m cl' spec :
  listenerAt (ShutdownClient cl m) cl' spec
  = if decide (cl' = cl) then None else listenerAt m cl' spec.
Proof.
  unfold ShutdownClient, listenerAt. destruct (rm_clients m !! cl) eqn:E; simpl.
  - rewrite lookup_delete. repeat case_decide; by simplify_eq.
  - case_decide; [|done]. subst. by rewrite E.
Qed.

Lemma ShutdownClient_inv cl m : listenersInv m -> listenersInv (ShutdownClient cl m).
Proof.
  intros Hinv.
  destruct (rm_clients m !! cl) as [ls|] eqn:Els; [|by unfold ShutdownClient; rewrite Els].
  assert (ShutdownClient cl m = m <| rm_servers ::= closeListeners ls |>
            <| rm_clients ::= delete cl |>) as Eq by (unfold ShutdownClient; by rewrite Els).
  destruct Hinv as [Hl Ho Hi Hc]. split.
  - rewrite Eq; simpl. intros cl' ls'. rewrite lookup_delete. case_decide; [done|apply Hl].
  - intros cl' spec rl. rewrite listenerAt_shutdown. case_decide as Hcl; [done|]. intros Hrl.
    destruct (Ho _ _ _ Hrl) as (h & u & pw & sc & ? & ?). exists h, u, pw, sc. split; [done|].
    rewrite Eq; simpl. rewrite lookup_closeListeners. rewrite decide_False; [done|].
    intros (spec' & rl' & Hl' & E')%Exists_listener. apply Hcl.
    apply (Hi cl' spec rl cl spec' rl'); [done| |done]. unfold listenerAt. by rewrite Els.
  - intros cl1 s1 r1 cl2 s2 r2. rewrite !listenerAt_shutdown.
    case_decide; [done|]. case_decide; [done|]. apply Hi.
  - intros k s. rewrite Eq at 1; simpl. rewrite lookup_closeListeners. case_decide as Hex.
    + intros (s0 & _ & ->)%fmap_Some. done.
    + intros Hk Hop. destruct (Hc k s Hk Hop) as (cl' & spec & rl & Hrl & ?).
      exists cl', spec, rl. rewrite listenerAt_shutdown, decide_False; [done|].
      intros ->. apply Hex, Exists_listener. unfold listenerAt in Hrl. rewrite Els in Hrl.
      by exists spec, rl.
Qed.

Lemma ManagerShutdown_closes m k s :
  listenersInv m -> rm_servers (ManagerShutdown m) !! k = Some s -> ps_closed s = true.
Proof.
  intros [_ _ _ Hc]. unfold ManagerShutdown; simpl.
  assert (forall (l : list (bytes * gmap bytes reverseListener)) s,
    foldr (fun kv => closeListeners kv.2) (rm_servers m) l !! k = Some s ->
    ps_closed s = true \/ (rm_servers m !! k = Some s /\
      Forall (fun kv => ~ exists spec rl, kv.2 !! spec = Some rl /\ rl_server rl = k) l)) as H.
  { induction l as [|kv l IH]; intros s0 Hs; [by right|]. cbn [foldr] in Hs.
    rewrite lookup_closeListeners in Hs. case_decide as Hex.
    - apply fmap_Some in Hs as (s1 & _ & ->). by left.
    - rewrite Exists_listener in Hex. destruct (IH _ Hs) as [?|[? ?]]; [by left|].
      right. split; [done|]. by constructor. }
  intros Hs. destruct (H _ _ Hs) as [?|[Hk Hall]]; [done|].
  destruct (ps_closed s) eqn:Hop; [done|].
  destruct (Hc k s Hk Hop) as (cl & spec & rl & Hrl & ?).
  unfold listenerAt in Hrl. destruct (rm_clients m !! cl) as [ls|] eqn:Els; [|done].
  rewrite Forall_forall in Hall. destruct (Hall (cl, ls)); [by apply elem_of_map_to_list|].
  by exists spec, rl.
Qed.

Inductive managerStep : ReverseListenerManager -> ReverseListenerManager -> Prop :=
| ms_listen p cl ch lid spec start :
    managerStep (p_manager p) (p_manager (HandleReverseListen cl ch lid spec start p))
| ms_client m cl : managerStep m (ShutdownClient cl m)
| ms_shutdown m : managerStep m (ManagerShutdown m).

Lemma managerStep_max m m' : managerStep m m' -> rm_maxPerClient m' = rm_maxPerClient m.
Proof.
  destruct 1 as [p cl ch lid spec start| |]; [|unfold ShutdownClient; by case_match|done].
  by destruct (HandleReverseListen_manager cl ch lid spec start p)
    as [->|[->|(? & ? & ? & ? & _ & _ & _ & _ & ->)]].
Qed.

Lemma no_clients_inv m :
  rm_clients m = ∅ -> (forall k s, rm_servers m !! k = Some s -> ps_closed s = true) ->
  listenersInv m.
Proof.
  intros He Hs.
  assert (forall cl spec, listenerAt m cl spec = None) as Hn.
  { intros. unfold listenerAt. by rewrite He, lookup_empty. }
  split.
  - intros cl ls. by rewrite He, lookup_empty.
  - intros cl spec rl. by rewrite Hn.
  - intros cl spec rl cl' spec' rl'. by rewrite Hn.
  - intros k s Hk Hop. by rewrite (Hs k s Hk) in Hop.
Qed.

Lemma new_manager_inv max :
  listenersInv ((NewReverseListenerManager max) <| rm_pool := true |>).
Proof. apply no_clients_inv; [done|]. intros k s. simpl. by rewrite lookup_empty. Qed.

Lemma managerStep_inv m m' :
  managerStep m m' -> 0 <= rm_maxPerClient m /\ listenersInv m ->
  0 <= rm_maxPerClient m' /\ listenersInv m'.
Proof.
  intros Hstep [Hm Hinv]. rewrite (managerStep_max _ _ Hstep). split; [done|].
  destruct Hstep as [p cl ch lid spec start|m cl|m].
  - destruct (HandleReverseListen_manager cl ch lid spec start p)
      as [->|[->|(? & ? & ? & ? & ? & ? & ? & _ & ->)]]; [done| |].
    + by apply touched_inv.
    + by apply opened_inv.
  - by apply ShutdownClient_inv.
  - pose proof (fun k s => ManagerShutdown_closes m k s Hinv) as Hcl.
    by apply no_clients_inv.
Qed.

(** C8: Reverse listeners, in every state the manager reaches: a client has at most
    [maxPerClient] listeners; each is served by its own open proxy server with the
    scheme, address and credentials its specification names; and no proxy server
    stays open without a listener (no leaked port). *)
Theorem listeners_invariant max m :
  rtc managerStep ((NewReverseListenerManager max) <| rm_pool := true |>) m ->
  (forall cl ls, rm_clients m !! cl = Some ls -> Z.of_nat (size ls) <= rm_maxPerClient m) /\
  (forall cl spec rl, listenerAt m cl spec = Some rl ->
     exists host user pass scheme,
       parseListenerSpec spec = Some (host, user, pass, scheme) /\
       rm_servers m !! rl_server rl = Some (newProxyServer scheme host user pass)) /\
  (forall k s, rm_servers m !! k = Some s -> ps_closed s = false ->
     exists cl spec rl, listenerAt m cl spec = Some rl /\ rl_server rl = k /\
       forall cl' spec' rl', listenerAt m cl' spec' = Some rl' -> rl_server rl' = k ->
         cl' = cl /\ spec' = spec).
Proof.
  intros H. apply (rtc_invariant _ _ managerStep_inv) in H as [_ [Hl Ho Hi Hc]].
  - split_and!; [done|done|]. intros k s Hk Hop.
    destruct (Hc k s Hk Hop) as (cl & spec & rl & Hrl & Hrk). exists cl, spec, rl.
    split_and!; [done|done|]. intros cl' spec' rl' H' E. eapply Hi; [done..|congruence].
  - split; [simpl; destruct (Z.leb_spec max 0); lia|].
    apply new_manager_inv.
Qed.

Definition witnessPool : serverPool := newServerPool (lit "t") Server.DefaultServerConfig 0.

Lemma listeners_invariant_witness :
  let m := p_manager (HandleReverseListen (lit "c") 1 (lit "id") (lit "http://h:1") None
             witnessPool) in
  rm_servers m !! 1%positive = Some (newProxyServer (lit "http") (lit "h:1") [] []) /\
  exists cl spec rl, listenerAt m cl spec = Some rl /\ rl_server rl = 1%positive.
Proof.
  intros m. split; [by vm_compute|].
  destruct (listeners_invariant 3 m) as (_ & _ & H).
  - apply rtc_once. apply (ms_listen witnessPool).
  - destruct (H 1%positive (newProxyServer (lit "http") (lit "h:1") [] []))
      as (cl & spec & rl & ? & ? & _); [by vm_compute|reflexivity|]. by exists cl, spec, rl.
Defined.

(** When the last channel of a client goes ([ShutdownClient]) exactly that
    client's listeners disappear and exactly their servers are closed; the
    shutdown of the manager closes every server. *)
Theorem shutdown_closes cl m :
  listenersInv m ->
  (forall cl' spec, listenerAt (ShutdownClient cl m) cl' spec
     = if decide (cl' = cl) then None else listenerAt m cl' spec) /\
  (forall k s, rm_servers m !! k = Some s -> ps_closed s = false ->
     exists s', rm_servers (ShutdownClient cl m) !! k = Some s' /\
       (ps_closed s' = true <->
        exists spec rl, listenerAt m cl spec = Some rl /\ rl_server rl = k)) /\
  (forall k s, rm_servers (ManagerShutdown m) !! k = Some s -> ps_closed s = true).
Proof.
  intros Hinv. split_and!; [apply listenerAt_shutdown| |].
  - intros k s Hk Hop. unfold ShutdownClient, listenerAt.
    destruct (rm_clients m !! cl) as [ls|] eqn:Els.
    + simpl. rewrite lookup_closeListeners. case_decide as Hex; rewrite Exists_listener in Hex.
      * rewrite Hk. simpl. eexists. split; [done|]. simpl. naive_solver.
      * exists s. rewrite Hop. naive_solver.
    + exists s. rewrite Hop. split; [done|]. split; [done|]. intros (? & ? & ? & _). done.
  - intros k s. by apply ManagerShutdown_closes.
Qed.

Lemma shutdown_closes_witness :
  let m := p_manager (HandleReverseListen (lit "c") 1 (lit "id") (lit "http://h:1") None
             witnessPool) in
  exists s, rm_servers (ManagerShutdown m) !! 1%positive = Some s /\ ps_closed s = true.
Proof.
  intros m. destruct (shutdown_closes (lit "c") m) as (_ & _ & H).
  - apply (managerStep_inv (p_manager witnessPool)); [apply (ms_listen witnessPool)|].
    split; [by vm_compute|]. apply (new_manager_inv 3).
  - exists ((newProxyServer (lit "http") (lit "h:1") [] []) <| ps_closed := true |>).
    split; [by vm_compute|]. apply (H 1%positive). by vm_compute.
Defined.
