(* ===== verification/ReverseServer.v ===== *)
(** Reverse connections on the server ([reverse_server.go]): a dial through a
    client, the competition of channels for it, its data and its end.

    [DialStream] is split where it blocks: [dialStart] up to the [select],
    [dialFinish] for the branch taken.  Reading from and writing to the buffered
    pipe of the [xshared] library are arguments of the steps. *)

From S2P Require Import Prelude Protocol IPStrategy Config HotPairTable Channels ServerState.

Definition newServerReverseConn (connID clientID target : bytes) : ServerReverseConn :=
  mkServerReverseConn connID target clientID 0 0 [] false false false false [] false false.

(** [settle]: only the first call takes effect. *)
Definition settle (ok : bool) (msg : bytes) (rc : ServerReverseConn) : ServerReverseConn :=
  if rc_settled rc then rc
  else rc <| rc_settled := true |> <| rc_ok := ok |> <| rc_errMsg := msg |>.

Definition isSettled (rc : ServerReverseConn) : bool := rc_settled rc.

Definition getReverseConn (connID : bytes) (p : serverPool) : option (rcid * ServerReverseConn) :=
  i ← p_revConns p !! connID; rc ← p_revHeap p !! i; Some (i, rc).

Definition removeReverseConn (connID : bytes) (p : serverPool) : serverPool :=
  match p_revConns p !! connID with
  | None => p
  | Some i =>
      updRev i (fun rc => (settle false (lit "connection closed") rc)
                            <| rc_pipeClosed := true |> <| rc_appClosed := true |>)
        (p <| p_revConns ::= delete connID |>)
  end.

(** A message on the send channel when it is known, else to all channels. *)
Definition reverseNotifyClose (rc : ServerReverseConn) (p : serverPool) : serverPool :=
  let msg := EncodeMessage MsgTCPClose (rc_connID rc) [] [] in
  if 0 <? rc_sendCh rc
  then (poolSend (rc_ownerClientID rc) (rc_sendCh rc) msg p).1
  else (poolBroadcast (rc_ownerClientID rc) msg p).1.

(** ** [DialStream] *)

(** The newest pair whose two channels are alive. *)
Definition readyPair (clientID : bytes) (ks : list bytes) (p : serverPool)
    : serverPool * option HotPairEntry :=
  let '(t, e) := Newest (poolNow p) ks clientID (p_hotPairs p) in
  let p := p <| p_hotPairs := t |> in
  match e with
  | Some e =>
      if channelAliveForClient clientID (he_ChA e) (p_net p)
         && channelAliveForClient clientID (he_ChB e) (p_net p)
      then (p, Some e) else (p, None)
  | None => (p, None)
  end.

(** [uuid] is [uuid.NewString()], [ks] the iteration order of the pair map.
    [None]: no channel of the client is available. *)
Definition dialStart (clientID target uuid : bytes) (ks : list bytes) (p : serverPool)
    : serverPool * option rcid :=
  if countActiveChannelsForClient clientID (p_net p) =? 0 then (p, None) else
  let '(p, entry) := readyPair clientID ks p in
  let connID := match entry with Some e => HotPairConnID (he_Key e) uuid | None => uuid end in
  let i := fresh (dom (p_revHeap p)) in
  let p := p <| p_revHeap ::= <[i := newServerReverseConn connID clientID target]> |>
             <| p_revConns ::= <[connID := i]> |> in
  let msg := EncodeMessage MsgTCPConnect connID (byte_of_Z IPStrategyDefault :: target) [] in
  let '(p, entry) :=
    match entry with
    | None => (p, None)
    | Some e =>
        let p := updRev i (fun rc => rc <| rc_sendCh := int32 (he_ChB e) |>
                   <| rc_recvCh := int32 (he_ChA e) |> <| rc_pairPreset := true |>) p in
        match poolSend clientID (he_ChB e) msg p with
        | (p, SendOK) => (p, Some e)
        | (p, NoChannel) => (p <| p_hotPairs ::= InvalidateChannel (he_ChB e) |>, None)
        end
    end in
  let '(p, sent) :=
    match entry with
    | Some _ => (p, SendOK)
    | None => poolBroadcast clientID msg p
    end in
  match sent with
  | NoChannel => (removeReverseConn connID p, None)
  | SendOK => (p <| p_go ::= cons (GoUpstreamPump i) |>, Some i)
  end.

(** What wakes the dialer up, and what it returns: the application end of the
    pipe, or an error. *)
Inductive dialEvent := DialResult | DialTimeout | DialCancelled (reason : bytes).
Inductive dialOutcome := DialApp (i : rcid) | DialFailed.

(** [None]: the event cannot happen ([DialResult] before the result is settled). *)
Definition dialFinish (i : rcid) (ev : dialEvent) (p : serverPool)
    : option (serverPool * dialOutcome) :=
  rc ← p_revHeap p !! i;
  let abandon msg :=
    let p := updRev i (settle false msg) p in
    Some (removeReverseConn (rc_connID rc) (reverseNotifyClose rc p), DialFailed) in
  match ev with
  | DialResult =>
      if negb (rc_settled rc) then None
      else if rc_ok rc then Some (p, DialApp i)
      else Some (removeReverseConn (rc_connID rc) p, DialFailed)
  | DialTimeout => abandon (lit "拨号超时")
  | DialCancelled reason => abandon reason
  end.

(** One iteration of [reverseUpstreamPump]; [None] is a read error. *)
Definition upstreamRead (i : rcid) (chunk : option bytes) (p : serverPool) : serverPool :=
  match p_revHeap p !! i with
  | None => p
  | Some rc =>
      match chunk with
      | None =>
          goBecomes (GoUpstreamPump i) []
            (removeReverseConn (rc_connID rc) (reverseNotifyClose rc p))
      | Some data =>
          if len data <=? 0 then p else
          let msg := EncodeMessage MsgTCPData (rc_connID rc) [] data in
          if 0 <? rc_sendCh rc then
            match poolSend (rc_ownerClientID rc) (rc_sendCh rc) msg p with
            | (p, SendOK) => p
            | (p, NoChannel) => (poolBroadcast (rc_ownerClientID rc) msg p).1
            end
          else (poolBroadcast (rc_ownerClientID rc) msg p).1
      end
  end.

(** ** Messages of a reverse connection *)

(** The reply that tells the client the server's receive channel. *)
Definition sendSelectDownlink (clientID connID : bytes) (to chID : Z) (p : serverPool)
    : serverPool :=
  (poolSend clientID to
     (EncodeMessage MsgSelectDownlink connID (PutUint32 (uint32 chID)) []) p).1.

(** [werr]: writing to the pipe fails. *)
Definition handleReverseMessage (clientID : bytes) (chID msgType : Z) (connID meta payload : bytes)
    (werr : bool) (p : serverPool) : serverPool :=
  match getReverseConn connID p with
  | None => p
  | Some (i, rc) =>
      if msgType =? MsgSelectUplink then
        if len meta <? 4 then p else
        let clientRecv := int32 (Uint32 meta) in
        if rc_sendCh rc =? 0 then
          let p := updRev i (fun rc => rc <| rc_sendCh := clientRecv |>
                     <| rc_recvCh := int32 chID |>) p in
          sendSelectDownlink clientID connID clientRecv chID p
        else if rc_pairPreset rc && negb (rc_repaired rc) then
          let p := updRev i (fun rc => rc <| rc_repaired := true |>
                     <| rc_sendCh := clientRecv |> <| rc_recvCh := int32 chID |>) p in
          sendSelectDownlink clientID connID clientRecv chID p
        else p
      else if msgType =? MsgConnStatus then
        match meta with
        | [] => p
        | b :: reason =>
            if Z_of_byte b =? StatusOK then updRev i (settle true []) p
            else updRev i (settle false reason) p
        end
      else if msgType =? MsgTCPData then
        if negb (rc_recvCh rc =? chID) then p
        else if werr then removeReverseConn connID (reverseNotifyClose rc p)
        else updRev i (fun rc => rc <| rc_delivered ::= fun l => l ++ [payload] |>) p
      else if msgType =? MsgTCPClose then
        removeReverseConn connID (reverseNotifyClose rc p)
      else p
  end.
