(* ===== verification/ServerPool.v ===== *)
(** Channels in the whole pool ([server_pool.go], [connection.go]): clean-up,
    closing, shutdown, statistics, the writer goroutine and the admission of a
    WebSocket.

    The lists over which the code ranges come from Go maps; the entries are
    handled independently, so the order chosen here ([map_to_list]) does not
    matter. *)

From S2P Require Import Prelude Protocol Config HotPairTable Channels ServerState ReverseListener ReverseServer.

(** ** [cleanupChannel] *)
Definition usesChannel (clientID : bytes) (chID : Z) (st : ServerConnState) : bool :=
  bool_decide (st_clientID st = clientID)
  && ((st_uplinkChID st =? chID) || (st_downlinkChID st =? chID)).

Definition connsUsing (clientID : bytes) (chID : Z) (p : serverPool) : list bytes :=
  omap (fun '(connID, i) =>
    match p_states p !! i with
    | Some st => if usesChannel clientID chID st then Some connID else None
    | None => None
    end) (map_to_list (p_conns p)).

Definition revUsesChannel (clientID : bytes) (chID : Z) (rc : ServerReverseConn) : bool :=
  bool_decide (rc_ownerClientID rc = clientID)
  && ((rc_sendCh rc =? int32 chID) || (rc_recvCh rc =? int32 chID)).

Definition revConnsUsing (clientID : bytes) (chID : Z) (p : serverPool) : list bytes :=
  omap (fun '(connID, i) =>
    match p_revHeap p !! i with
    | Some rc => if revUsesChannel clientID chID rc then Some connID else None
    | None => None
    end) (map_to_list (p_revConns p)).

Definition cleanupChannel (clientID : bytes) (chID : Z) (p : serverPool) : serverPool :=
  let '(net, wsConn, clientGone) := forgetChannel clientID chID (p_net p) in
  let p := p <| p_net := net |> in
  let p := if clientGone then p <| p_prebindArmed ::= delete clientID |> else p in
  let p := foldl (fun p connID => unregisterConn connID p) p (connsUsing clientID chID p) in
  let p := foldl (fun p connID => removeReverseConn connID p) p
             (revConnsUsing clientID chID p) in
  let p := p <| p_hotPairs ::=
             if clientGone then InvalidateClient clientID else InvalidateChannel chID |> in
  let p := if clientGone then p <| p_manager ::= ShutdownClient clientID |> else p in
  match wsConn with
  | Some w => if isActive (p_net p) w then p <| p_net ::= markClosed false w |> else p
  | None => p
  end.

(** [ServerWSConn.close] *)
Definition closeWS (w : wsid) (p : serverPool) : serverPool :=
  match n_heap (p_net p) !! w with
  | None => p
  | Some c =>
      if ws_closed c then p else
      cleanupChannel (ws_clientID c) (ws_chID c) (p <| p_net ::= markClosed true w |>)
  end.

(** The same call as two steps: it releases the lock, and writes the close frame,
    between marking the connection and cleaning up. *)
Definition closeBegin (w : wsid) (p : serverPool) : serverPool :=
  match n_heap (p_net p) !! w with
  | None => p
  | Some c =>
      if ws_closed c then p else
      p <| p_net ::= markClosed true w |> <| p_go ::= cons (GoCleanup (ws_clientID c) (ws_chID c)) |>
  end.
Definition closeEnd (clientID : bytes) (chID : Z) (p : serverPool) : serverPool :=
  cleanupChannel clientID chID (goBecomes (GoCleanup clientID chID) [] p).

(** [serverPool.Shutdown] *)
Definition Shutdown (p : serverPool) : serverPool :=
  let p := p <| p_manager ::= ManagerShutdown |> in
  foldl (fun p w => closeWS w p) p (omap id (n_wsConns (p_net p))).

Record ServerStats := mkServerStats {
  ActiveConnections : Z; ActiveChannels : Z; TotalConnections : Z;
  BytesSent : Z; BytesReceived : Z }.

Definition Stats (p : serverPool) : ServerStats :=
  let activeConns := foldl (fun n e =>
    match e with Some w => if isActive (p_net p) w then n + 1 else n | None => n end)
    0 (n_wsConns (p_net p)) in
  mkServerStats activeConns activeConns (Z.of_nat (size (p_conns p)))
    (n_bytesSent (p_net p)) (n_bytesReceived (p_net p)).

(** ** The writer goroutine [writeLoop] *)

(** When it returns, what is left in the queue leaves the counter. *)
Definition writerExit (w : wsid) (p : serverPool) : serverPool :=
  match n_heap (p_net p) !! w with
  | Some c => p <| p_net ::= writerDrain (length (ws_queue c)) w |>
  | None => p
  end.

Inductive writerEvent := WriterTask | WriterTick.

(** One turn of its loop; a failed write closes the connection and ends it. *)
Definition writerStep (w : wsid) (ev : writerEvent) (werr : bool) (p : serverPool)
    : option serverPool :=
  '(net, ok) ←
    match ev with
    | WriterTask => writerTask w werr (p_net p)
    | WriterTick => Some (writerPing w werr (p_net p))
    end;
  let p := p <| p_net := net |> in
  Some (if ok : bool then p else writerExit w (closeWS w p)).

(** ** [handleWebSocket] *)
Inductive upgradeResult := Refused (s : httpStatus) | UpgradeFailed | Upgraded (r : registerResult).

(** [upgrade] is the remote address of the upgraded connection, or [None] when
    the upgrade fails; the pool may have moved on meanwhile, so the second half
    runs on the state [p'] it then has. *)
Definition handleWebSocket (uuid : bytes) (r : httpRequest) (upgrade : option bytes)
    (p p' : serverPool) : serverPool * upgradeResult :=
  match admitRequest (p_config p) (p_token p) uuid r (p_net p) with
  | inl e => (p', Refused e)
  | inr (clientID, chID) =>
      match upgrade with
      | None => (p', UpgradeFailed)
      | Some remoteAddr =>
          let '(net, res) := registerChannel (p_config p') clientID chID remoteAddr (p_net p') in
          (p' <| p_net := net |>, Upgraded res)
      end
  end.
