(* ===== verification/Handlers.v ===== *)
(** The message handlers of the server pool ([handler.go]) and the dispatch
    ([serverPool.handleMessage], [ServerWSConn.readLoop]).

    A handler runs to its end as one step; the goroutines it starts
    ([connectTarget], the two forwarders) and its timer take steps of their own,
    and [connectTarget] is split at the points where it releases the lock.
    Outcomes of the network are arguments. *)

From S2P Require Import Prelude Protocol Config HotPairTable Channels ServerState ReverseListener ReverseServer ServerPool.

(** The 4-byte meta of [MsgSelectUplink] and [MsgSelectDownlink]. *)
Definition chIDBytes (chID : Z) : bytes := PutUint32 (uint32 chID).

(** Owner and address of the channel a message came in on. *)
Definition inbound (clientID : bytes) (chID : Z) (p : serverPool) : bytes * bytes :=
  match channelConn clientID chID p with
  | Some c => (ws_clientID c, ws_remoteAddr c)
  | None => ([], [])
  end.

Definition addConn (st : ServerConnState) (p : serverPool) : serverPool * stid :=
  let i := fresh (dom (p_states p)) in
  (p <| p_states ::= <[i := st]> |> <| p_conns ::= <[st_connID st := i]> |>, i).

(** ** TCP *)

(** The warm-up hot path: when the identifier carries the key of a stored pair
    whose first channel is the arrival channel and whose second is alive, the
    downlink is preset. *)
Definition promote (clientID : bytes) (chID : Z) (connID : bytes) (i : stid) (p : serverPool)
    : serverPool * bool :=
  match SplitHotPairConnID connID with
  | None => (p, false)
  | Some (key, _) =>
      let '(t, e) := Lookup (poolNow p) clientID key (p_hotPairs p) in
      let p := p <| p_hotPairs := t |> in
      match e with
      | Some e =>
          if (he_ChA e =? chID) && channelAliveForClient clientID (he_ChB e) (p_net p)
          then (updState i (fun st => st <| st_downlinkChID := he_ChB e |>) p, true)
          else (p, false)
      | None => (p, false)
      end
  end.

Definition handleTCPConnect (clientID : bytes) (chID : Z) (connID meta : bytes) (p : serverPool)
    : serverPool :=
  match meta with
  | [] => (sendDownlink connID MsgConnStatus [byte_of_Z StatusERR] [] p).1
  | b :: target =>
      let ipStrategy := Z_of_byte b in
      let '(inboundClientID, inboundAddr) := inbound clientID chID p in
      match p_conns p !! connID with
      | Some _ => p
      | None =>
          let st := mkServerConnState connID inboundClientID target None None chID 0
                      ipStrategy false inboundAddr false false [] in
          let '(p, i) := addConn st p in
          let '(p, promoted) := promote clientID chID connID i p in
          let p := if promoted : bool then p
                   else (sendDownlink connID MsgSelectUplink (chIDBytes chID) [] p).1 in
          p <| p_go ::= cons (GoConnectTarget i) |>
      end
  end.

(** [connectTarget], first critical section. *)
Definition connectStart (i : stid) (p : serverPool) : serverPool :=
  match p_states p !! i with
  | None => goBecomes (GoConnectTarget i) [] p
  | Some st =>
      goBecomes (GoConnectTarget i) (if st_closed st then [] else [GoDialing i]) p
  end.

(** [connectTarget], after [net.DialTimeout]. *)
Definition connectDialed (i : stid) (ok : bool) (p : serverPool) : serverPool :=
  match p_states p !! i with
  | None => goBecomes (GoDialing i) [] p
  | Some st =>
      if negb ok then
        let '(p, _) := sendDownlink (st_connID st) MsgConnStatus [byte_of_Z StatusERR] [] p in
        let '(p, _) := sendDownlink (st_connID st) MsgTCPClose [] [] p in
        goBecomes (GoDialing i) [] (p <| p_conns ::= delete (st_connID st) |>)
      else
        let '(p, k) := openSock p in
        if st_closed st then goBecomes (GoDialing i) [] (closeSock (Some k) p) else
        let pending := st_pendingData st in
        let p := updState i (fun st => st <| st_targetConn := Some k |>
                   <| st_connected := true |> <| st_pendingData := [] |>) p in
        let '(p, _) := sendDownlink (st_connID st) MsgConnStatus [byte_of_Z StatusOK] [] p in
        goBecomes (GoDialing i) [GoFlushPending i k pending] p
  end.

(** One turn of the loop over the pending data, or the start of the forwarder. *)
Definition connectFlush (i : stid) (k : sockid) (pending : list bytes) (werr : bool)
    (p : serverPool) : serverPool :=
  let g := GoFlushPending i k pending in
  match pending with
  | [] => goBecomes g [GoForwardTarget i] p
  | data :: rest =>
      match writeSock k [] data werr p with
      | Some p => goBecomes g [GoFlushPending i k rest] p
      | None =>
          goBecomes g []
            (match p_states p !! i with
             | Some st => unregisterConn (st_connID st) p
             | None => p
             end)
      end
  end.

Definition pendingSize (l : list bytes) : Z := foldr (fun d n => len d + n) 0 l.

Definition handleTCPData (chID : Z) (connID payload : bytes) (werr : bool) (p : serverPool)
    : serverPool :=
  match getConn connID p with
  | None => p
  | Some (i, st) =>
      if (0 <? st_uplinkChID st) && negb (chID =? st_uplinkChID st) then p else
      match st_targetConn st with
      | None =>
          if pendingDataMaxSize <? pendingSize (st_pendingData st) + len payload
          then unregisterConn connID p
          else updState i (fun st => st <| st_pendingData ::= fun l => l ++ [payload] |>) p
      | Some k =>
          match writeSock k [] payload werr p with
          | Some p => p
          | None => unregisterConn connID p
          end
      end
  end.

Definition handleSelectDownlink (clientID : bytes) (chID : Z) (connID meta : bytes)
    (p : serverPool) : serverPool :=
  let downlinkChID := if 4 <=? len meta then Uint32 meta else chID in
  match getConn connID p, channelConn clientID downlinkChID p with
  | Some (i, st), Some c =>
      if ws_closed c then p else
      if (0 <? st_uplinkChID st) && negb (chID =? st_uplinkChID st) then p else
      if negb (bool_decide (st_clientID st = [])) && negb (bool_decide (ws_clientID c = []))
         && negb (bool_decide (ws_clientID c = st_clientID st)) then p else
      if st_downlinkChID st =? 0
      then updState i (fun st => st <| st_downlinkChID := downlinkChID |>) p
      else p
  | _, _ => p
  end.

Definition handleTCPClose (chID : Z) (connID : bytes) (p : serverPool) : serverPool :=
  unregisterConn connID p.

(** ** Prebinding *)
Definition effectiveTTL (p : serverPool) : Z :=
  if p_prebindTTL p <=? 0 then prebindStateTTL else p_prebindTTL p.

Definition handleHotPairBegin (clientID : bytes) (p : serverPool) : serverPool :=
  p <| p_prebindArmed ::= <[clientID := poolNow p + effectiveTTL p]> |>.

Definition handlePrebindRequest (clientID : bytes) (chID : Z) (connID meta : bytes)
    (p : serverPool) : serverPool :=
  match meta with
  | [] => p
  | b :: _ =>
      let '(inboundClientID, inboundAddr) := inbound clientID chID p in
      match p_conns p !! connID with
      | Some _ => p
      | None =>
          let st := mkServerConnState connID inboundClientID [] None None chID 0
                      (Z_of_byte b) false inboundAddr true false [] in
          let '(p, _) := addConn st p in
          let '(p, _) := sendDownlink connID MsgSelectUplink (chIDBytes chID) [] p in
          let ttl :=
            match p_prebindArmed p !! inboundClientID with
            | Some armedUntil =>
                let rem := armedUntil - poolNow p in
                if 0 <? rem then rem else effectiveTTL p
            | None => effectiveTTL p
            end in
          p <| p_timers ::= cons (poolNow p + ttl, connID) |>
      end
  end.

(** The [n]th pending timer of [handlePrebindRequest] fires when it is due. *)
Definition timerFire (n : nat) (p : serverPool) : serverPool :=
  match p_timers p !! n with
  | Some (t, connID) =>
      if t <=? poolNow p then unregisterConn connID (p <| p_timers ::= delete n |>) else p
  | None => p
  end.

(** [forwardTargetToClient]: one read. The deferred calls run last in, first
    out: [unregisterConn], then [sendDownlink]. *)
Definition forwardTargetToClient (i : stid) (read : option bytes) (p : serverPool)
    : serverPool :=
  match p_states p !! i with
  | None => p
  | Some st =>
      match read with
      | None =>
          let p := unregisterConn (st_connID st) p in
          let '(p, _) := sendDownlink (st_connID st) MsgTCPClose [] [] p in
          goBecomes (GoForwardTarget i) [] p
      | Some buf =>
          if 0 <? len buf then (sendDownlink (st_connID st) MsgTCPData [] buf p).1 else p
      end
  end.

(** ** UDP *)
Definition handleUDPConnect (clientID : bytes) (chID : Z) (connID meta : bytes)
    (listenErr : bool) (p : serverPool) : serverPool :=
  match meta with
  | [] => (sendDownlink connID MsgConnStatus [byte_of_Z StatusERR] [] p).1
  | b :: target =>
      let '(inboundClientID, inboundAddr) := inbound clientID chID p in
      match p_conns p !! connID with
      | Some _ => p
      | None =>
          if listenErr
          then (sendDownlink connID MsgConnStatus [byte_of_Z StatusERR] [] p).1
          else
          let '(p, k) := openSock p in
          let st := mkServerConnState connID inboundClientID target None (Some k) chID 0
                      (Z_of_byte b) true inboundAddr true false [] in
          let '(p, i) := addConn st p in
          let '(p, _) := sendDownlink connID MsgSelectUplink (chIDBytes chID) [] p in
          p <| p_go ::= cons (GoForwardUDP i) |>
      end
  end.

(** [resolve] stands for [ResolveWithStrategy] followed by [net.ResolveUDPAddr]. *)
Definition handleUDPData (resolve : bytes -> Z -> option bytes) (chID : Z)
    (connID meta payload : bytes) (werr : bool) (p : serverPool) : serverPool :=
  match getConn connID p with
  | None => p
  | Some (_, st) =>
      match st_targetUDP st with
      | None => p
      | Some k =>
          if (0 <? st_uplinkChID st) && negb (chID =? st_uplinkChID st) then p else
          let targetAddr := if bool_decide (meta = []) then st_target st else meta in
          match resolve targetAddr (st_ipStrategy st) with
          | None => p
          | Some udpAddr => default p (writeSock k udpAddr payload werr p)
          end
      end
  end.

Definition handleUDPClose (chID : Z) (connID : bytes) (p : serverPool) : serverPool :=
  unregisterConn connID p.

(** [forwardUDPToClient]: one turn of its loop; [read] is the datagram and the
    address it came from, [None] an error or the read timeout. *)
Definition forwardUDPToClient (i : stid) (read : option (bytes * bytes)) (p : serverPool)
    : serverPool :=
  match p_states p !! i with
  | None => p
  | Some st =>
      let stop := goBecomes (GoForwardUDP i) [] (unregisterConn (st_connID st) p) in
      if negb (st_connected st) || bool_decide (st_targetUDP st = None) then stop else
      match read with
      | None => stop
      | Some (replyAddr, buf) =>
          if 0 <? len buf then (sendDownlink (st_connID st) MsgUDPData replyAddr buf p).1 else p
      end
  end.

(** ** Dispatch *)

(** The outcomes of the network that a message handler may need. *)
Record outcomes := mkOutcomes {
  o_writeErr : bool;
  o_listenErr : bool;
  o_proxyStart : option bytes;
  o_resolve : bytes -> Z -> option bytes }.

Definition handleMessage (clientID : bytes) (chID rawLen msgType : Z)
    (connID meta payload : bytes) (o : outcomes) (p : serverPool) : serverPool :=
  let p := p <| p_net ::= addReceivedBytes rawLen |> in
  match getReverseConn connID p with
  | Some (_, rc) =>
      if negb (bool_decide (rc_ownerClientID rc = clientID)) then p
      else handleReverseMessage clientID chID msgType connID meta payload (o_writeErr o) p
  | None =>
      if msgType =? MsgHotPairNotify
      then p <| p_hotPairs ::= HandleNotify (poolNow p) clientID payload |> else
      if msgType =? MsgReverseListen
      then HandleReverseListen clientID chID connID meta (o_proxyStart o) p else
      if msgType =? MsgTCPConnect then handleTCPConnect clientID chID connID meta p else
      if msgType =? MsgTCPData then handleTCPData chID connID payload (o_writeErr o) p else
      if msgType =? MsgSelectDownlink then handleSelectDownlink clientID chID connID meta p else
      if msgType =? MsgTCPClose then handleTCPClose chID connID p else
      if msgType =? MsgPrebindRequest then handlePrebindRequest clientID chID connID meta p else
      if msgType =? MsgHotPairBegin then handleHotPairBegin clientID p else
      if msgType =? MsgUDPConnect
      then handleUDPConnect clientID chID connID meta (o_listenErr o) p else
      if msgType =? MsgUDPData
      then handleUDPData (o_resolve o) chID connID meta payload (o_writeErr o) p else
      if msgType =? MsgUDPClose then handleUDPClose chID connID p
      else p
  end.

(** One iteration of [readLoop]: [None] is a read error. *)
Definition readLoopStep (w : wsid) (read : option (Z * bytes)) (o : outcomes) (p : serverPool)
    : serverPool :=
  match n_heap (p_net p) !! w with
  | None => p
  | Some c =>
      match read with
      | None => if ws_closed c then p else closeWS w p
      | Some (mt, msg) =>
          if negb (mt =? BinaryMessage) then p else
          match DecodeMessage msg with
          | Some (inr f) =>
              handleMessage (ws_clientID c) (ws_chID c) (len msg) (f_type f) (f_connID f)
                (f_meta f) (f_payload f) o p
          | _ => p
          end
      end
  end.
