(* ===== verification/ServerSystem.v ===== *)
(** The server as a transition system: the steps of its goroutines in any order,
    what no step ever does to a connection ([poolLe]), and the invariant of the
    connection map. *)

From S2P Require Import Prelude Protocol Config HotPairTable Channels ChannelQueue ChannelRegistry ServerState ReverseListener ReverseServer ServerPool Handlers.

(** ** What a step may change *)

(** A connection keeps its identity, owner and channels; the uplink never changes
    and the downlink is chosen once. *)
Definition stateLe (s s' : ServerConnState) : Prop :=
  st_connID s' = st_connID s /\ st_clientID s' = st_clientID s /\
  st_target s' = st_target s /\ st_uplinkChID s' = st_uplinkChID s /\
  st_isUDP s' = st_isUDP s /\ st_targetUDP s' = st_targetUDP s /\
  (st_downlinkChID s <> 0 -> st_downlinkChID s' = st_downlinkChID s) /\
  (st_closed s = true -> st_closed s' = true) /\
  (pendingSize (st_pendingData s) <= pendingDataMaxSize ->
   pendingSize (st_pendingData s') <= pendingDataMaxSize).

(** Sockets are written at the end and never reopened. *)
Definition sockLe (s s' : Socket) : Prop :=
  (exists k, sk_sent s' = sk_sent s ++ k) /\ (sk_closed s = true -> sk_closed s' = true) /\
  (sk_closed s = true -> sk_sent s' = sk_sent s).

(** The channels of a reverse connection are settled once a channel won, but for
    the single repair of a preset pair; its result is settled once; data arrives
    in order. *)
Definition revLe (r r' : ServerReverseConn) : Prop :=
  rc_connID r' = rc_connID r /\ rc_ownerClientID r' = rc_ownerClientID r /\
  rc_target r' = rc_target r /\
  (rc_settled r = true -> rc_settled r' = true /\ rc_ok r' = rc_ok r /\ rc_errMsg r' = rc_errMsg r) /\
  rc_pairPreset r' = rc_pairPreset r /\
  (rc_repaired r = true -> rc_repaired r' = true) /\
  (rc_sendCh r <> 0 -> rc_pairPreset r = false \/ rc_repaired r = true ->
   rc_sendCh r' = rc_sendCh r /\ rc_recvCh r' = rc_recvCh r) /\
  (exists k, rc_delivered r' = rc_delivered r ++ k) /\
  (rc_pipeClosed r = true -> rc_pipeClosed r' = true) /\
  (rc_appClosed r = true -> rc_appClosed r' = true).

(** Pointwise on what the first map holds; new entries may appear. *)
Definition mapLe {A} (R : A -> A -> Prop) (m m' : gmap positive A) : Prop :=
  forall i x, m !! i = Some x -> exists x', m' !! i = Some x' /\ R x x'.

(** Registered connections exist, under their own identifier, and are open. *)
Definition connsWf (p : serverPool) : Prop :=
  forall connID i, p_conns p !! connID = Some i ->
    exists st, p_states p !! i = Some st /\ st_connID st = connID /\ st_closed st = false /\
      pendingSize (st_pendingData st) <= pendingDataMaxSize.

Definition revWf (p : serverPool) : Prop :=
  forall connID i, p_revConns p !! connID = Some i ->
    exists rc, p_revHeap p !! i = Some rc /\ rc_connID rc = connID.

Record poolLe (p p' : serverPool) : Prop := {
  pl_config : p_config p' = p_config p;
  pl_net : rtc (netStep (p_config p)) (p_net p) (p_net p');
  pl_states : mapLe stateLe (p_states p) (p_states p');
  pl_socks : mapLe sockLe (p_socks p) (p_socks p');
  pl_rev : mapLe revLe (p_revHeap p) (p_revHeap p');
  pl_manager : rtc managerStep (p_manager p) (p_manager p');
  pl_wf : connsWf p -> connsWf p';
  pl_revwf : revWf p -> revWf p' }.

#[export] Instance stateLe_preorder : PreOrder stateLe.
Proof.
  split; [intros s; unfold stateLe; by split_and!|].
  intros a b c (?&?&?&?&?&?&?&?&?) (?&?&?&?&?&?&?&?&?). unfold stateLe.
  split_and!; try congruence; auto. intros Hd. rewrite <- H5 by done. apply H14. by rewrite H5.
Qed.

#[export] Instance sockLe_preorder : PreOrder sockLe.
Proof.
  split; [intros s; unfold sockLe; split_and!; [exists []; by rewrite app_nil_r|done|done]|].
  intros a b c ((k & Hk) & Hc & He) ((k' & Hk') & Hc' & He'). split_and!.
  - exists (k ++ k'). by rewrite Hk', Hk, app_assoc.
  - auto.
  - intros H. rewrite He', He; auto.
Qed.

#[export] Instance revLe_preorder : PreOrder revLe.
Proof.
  split.
  - intros r. unfold revLe. split_and!; try done. exists []. by rewrite app_nil_r.
  - intros a b c (?&?&?&Hs&Hp&Hr&Hc&(k&Hk)&Hpc&Hac) (?&?&?&Hs'&Hp'&Hr'&Hc'&(k'&Hk')&Hpc'&Hac').
    unfold revLe. split_and!; try congruence; auto.
    + intros H'. destruct (Hs H') as (E1 & E2 & E3). destruct (Hs' E1) as (? & ? & ?).
      split_and!; congruence.
    + intros Hne Hd. destruct (Hc Hne Hd) as [E1 E2].
      destruct Hc' as [E3 E4]; [congruence| |split; congruence].
      destruct Hd as [Hd|Hd]; [left; congruence|right; auto].
    + exists (k ++ k'). by rewrite Hk', Hk, app_assoc.
Qed.

Lemma mapLe_preorder {A} (R : A -> A -> Prop) : PreOrder R -> PreOrder (mapLe R).
Proof.
  intros [Hr Ht]. split.
  - intros m i x Hx. by exists x.
  - intros m1 m2 m3 H12 H23 i x Hx. destruct (H12 i x Hx) as (y & Hy & ?).
    destruct (H23 i y Hy) as (z & Hz & ?). exists z. split; [done|by eapply Ht].
Qed.
#[export] Existing Instance mapLe_preorder.

#[export] Instance poolLe_preorder : PreOrder poolLe.
Proof.
  split.
  - intros p. split; try done.
  - intros p1 p2 p3 [Hc Hn Hs Hk Hr Hm Hw Hrw] [Hc' Hn' Hs' Hk' Hr' Hm' Hw' Hrw'].
    rewrite Hc in *. split; [congruence| | | | | |auto|auto]; by etrans.
Qed.

(** ** Basic steps *)
Lemma mapLe_alter {A} (R : A -> A -> Prop) `{!PreOrder R} f i (m : gmap positive A) :
  (forall x, m !! i = Some x -> R x (f x)) -> mapLe R m (alter f i m).
Proof.
  intros Hf j x Hx. destruct (decide (i = j)) as [<-|].
  - rewrite lookup_alter_eq, Hx. eexists. split; [done|by apply Hf].
  - rewrite lookup_alter_ne by done. by exists x.
Qed.

Lemma mapLe_insert_fresh {A} (R : A -> A -> Prop) `{!PreOrder R} x (m : gmap positive A) :
  mapLe R m (<[fresh (dom m) := x]> m).
Proof.
  intros j y Hy. exists y. split; [|done]. rewrite lookup_insert_ne; [done|].
  intros <-. assert (m !! fresh (dom m) = None) by (apply not_elem_of_dom, is_fresh). congruence.
Qed.

(** A step that only concerns the channel layer and fields without invariant. *)
Lemma poolLe_net p p' :
  p_config p' = p_config p -> rtc (netStep (p_config p)) (p_net p) (p_net p') ->
  p_states p' = p_states p -> p_socks p' = p_socks p -> p_revHeap p' = p_revHeap p ->
  p_manager p' = p_manager p -> p_conns p' = p_conns p -> p_revConns p' = p_revConns p ->
  poolLe p p'.
Proof.
  intros Hc Hn Hs Hk Hr Hm Hw Hrw.
  split; rewrite ?Hs, ?Hk, ?Hr, ?Hm; try done; unfold connsWf, revWf; rewrite ?Hs, ?Hr, ?Hw, ?Hrw;
    done.
Qed.

Lemma poolSend_le cl ch d p : poolLe p (poolSend cl ch d p).1.
Proof.
  unfold poolSend. destruct (sendToChannel _ _ _ _ _) as [n r] eqn:E.
  apply poolLe_net; try done. apply rtc_once. simpl.
  change n with (n, r).1. rewrite <- E. constructor.
Qed.

Lemma poolBroadcast_le cl d p : poolLe p (poolBroadcast cl d p).1.
Proof.
  unfold poolBroadcast. destruct (broadcastWriteToClient _ _ _ _) as [n r] eqn:E.
  apply poolLe_net; try done. apply rtc_once. simpl.
  change n with (n, r).1. rewrite <- E. constructor.
Qed.

Lemma sendDownlink_le id mt m pl p : poolLe p (sendDownlink id mt m pl p).1.
Proof.
  unfold sendDownlink. destruct (getConn id p) as [[i st]|]; [|done].
  destruct (0 <? st_downlinkChID st).
  - pose proof (poolSend_le (st_clientID st) (st_downlinkChID st) (EncodeMessage mt id m pl) p).
    by destruct (poolSend _ _ _ _).
  - pose proof (poolBroadcast_le (st_clientID st) (EncodeMessage mt id m pl) p).
    by destruct (poolBroadcast _ _ _).
Qed.

(** The parts of the pool a downlink message leaves alone. *)
Lemma sendDownlink_frame id mt m pl p :
  let p' := (sendDownlink id mt m pl p).1 in
  p_states p' = p_states p /\ p_conns p' = p_conns p /\ p_socks p' = p_socks p /\
  p_go p' = p_go p /\ p_timers p' = p_timers p.
Proof.
  unfold sendDownlink, poolSend, poolBroadcast. destruct (getConn id p) as [[i st]|]; [|done].
  destruct (0 <? st_downlinkChID st).
  - by destruct (sendToChannel _ _ _ _ _).
  - by destruct (broadcastWriteToClient _ _ _ _).
Qed.

Lemma updState_le i f p :
  (forall st, p_states p !! i = Some st -> stateLe st (f st) /\ (st_closed (f st) = st_closed st)) ->
  poolLe p (updState i f p).
Proof.
  intros Hf. split; try done.
  - apply mapLe_alter; [typeclasses eauto|]. intros st Hst. by apply Hf.
  - intros Hw id j Hj. destruct (Hw id j Hj) as (st & Hst & Hid & Hcl & Hp).
    unfold updState; simpl. destruct (decide (i = j)) as [<-|].
    + rewrite lookup_alter_eq, Hst. simpl. destruct (Hf st Hst) as [(Hn&_&_&_&_&_&_&_&Hpn) Hce].
      exists (f st). split_and!; [done|congruence..|auto].
    + rewrite lookup_alter_ne by done. by exists st.
Qed.

Lemma updRev_le i f p :
  (forall rc, p_revHeap p !! i = Some rc -> revLe rc (f rc)) -> poolLe p (updRev i f p).
Proof.
  intros Hf. split; try done.
  - apply mapLe_alter; [typeclasses eauto|]. intros rc Hrc. by apply Hf.
  - intros Hw id j Hj. destruct (Hw id j Hj) as (rc & Hrc & Hid).
    unfold updRev; simpl. destruct (decide (i = j)) as [<-|].
    + rewrite lookup_alter_eq, Hrc. simpl. exists (f rc). split; [done|].
      destruct (Hf rc Hrc) as (-> & _). done.
    + rewrite lookup_alter_ne by done. by exists rc.
Qed.

Lemma closeSock_le k p : poolLe p (closeSock k p).
Proof.
  destruct k as [k|]; [|done]. split; try done.
  apply mapLe_alter; [typeclasses eauto|]. intros s _. split_and!; [|done|done].
  exists []. by rewrite app_nil_r.
Qed.

Lemma writeSock_le k a d werr p p' : writeSock k a d werr p = Some p' -> poolLe p p'.
Proof.
  unfold writeSock. destruct (p_socks p !! k) as [s|] eqn:E; [|done]. cbn [mbind option_bind].
  destruct (werr || sk_closed s) eqn:Ec; [done|]. intros [= <-]. split; try done.
  apply mapLe_alter; [typeclasses eauto|]. intros s' Hs'. simplify_eq.
  apply orb_false_iff in Ec as [_ Ec].
  split_and!; [by eexists|done|]. simpl. congruence.
Qed.

Lemma openSock_le p : poolLe p (openSock p).1.
Proof. split; try done. apply mapLe_insert_fresh. typeclasses eauto. Qed.

Lemma goBecomes_le g gs p : poolLe p (goBecomes g gs p).
Proof. by apply poolLe_net. Qed.

(** Removing a map entry. *)
Lemma connsWf_delete id p : connsWf p -> connsWf (p <| p_conns ::= delete id |>).
Proof. intros Hw id' i. simpl. rewrite lookup_delete. case_decide; [done|]. apply Hw. Qed.

Lemma delConn_le id p : poolLe p (p <| p_conns ::= delete id |>).
Proof. split; try done. apply connsWf_delete. Qed.

(** A new connection. *)
Lemma addConn_le st p :
  p_conns p !! st_connID st = None -> st_closed st = false -> st_pendingData st = [] ->
  poolLe p (addConn st p).1.
Proof.
  intros Hn Hc Hp. unfold addConn. split; try done.
  - apply mapLe_insert_fresh. typeclasses eauto.
  - intros Hw id i. simpl. rewrite lookup_insert. case_decide as Hd.
    + intros [= <-]. exists st. rewrite lookup_insert_eq. split_and!; [done|done|done|].
      rewrite Hp. by vm_compute.
    + intros Hi. destruct (Hw id i Hi) as (s & Hs & ?). exists s. split; [|done].
      rewrite lookup_insert_ne; [done|]. intros <-.
      assert (p_states p !! fresh (dom (p_states p)) = None)
        by (apply not_elem_of_dom, is_fresh). congruence.
Qed.

Lemma unregisterConn_le id p : poolLe p (unregisterConn id p).
Proof.
  unfold unregisterConn. destruct (p_conns p !! id) as [i|] eqn:Ei; [|done].
  simpl p_states. destruct (p_states p !! i) as [st|] eqn:Est; [|apply delConn_le].
  destruct (st_closed st) eqn:Ecl; [apply delConn_le|].
  assert (poolLe p (updState i (fun st => st <| st_closed := true |>)
    (p <| p_conns ::= delete id |>))) as H1.
  { split; try done.
    - apply mapLe_alter; [typeclasses eauto|]. intros s _. unfold stateLe; simpl. by split_and!.
    - intros Hw id' j. unfold updState; simpl. rewrite lookup_delete. case_decide; [done|].
      intros Hj. destruct (Hw id' j Hj) as (s & Hs & Hid & Hcl & Hp).
      rewrite lookup_alter_ne; [by exists s|]. intros <-.
      destruct (Hw id i Ei) as (s' & Hs' & Hid' & _). congruence. }
  destruct (st_connected st); simpl negb; cbv iota; [|done].
  etrans; [exact H1|]. etrans; [|apply closeSock_le]. etrans; [|apply closeSock_le].
  apply updState_le. intros s _. unfold stateLe; simpl. by split_and!.
Qed.

Lemma settle_le ok msg rc : revLe rc (settle ok msg rc).
Proof.
  unfold settle. destruct (rc_settled rc) eqn:E; [done|]. unfold revLe; simpl.
  split_and!; try done; [congruence|]. exists []. by rewrite app_nil_r.
Qed.

Lemma removeReverseConn_le id p : poolLe p (removeReverseConn id p).
Proof.
  unfold removeReverseConn. destruct (p_revConns p !! id) as [i|] eqn:Ei; [|done].
  etrans; [|apply updRev_le].
  - split; try done. intros Hw id' j. simpl. rewrite lookup_delete. case_decide; [done|]. apply Hw.
  - intros rc _. etrans; [apply (settle_le false (lit "connection closed"))|].
    unfold revLe; simpl. split_and!; try done. exists []. by rewrite app_nil_r.
Qed.

Lemma reverseNotifyClose_le rc p : poolLe p (reverseNotifyClose rc p).
Proof.
  unfold reverseNotifyClose. destruct (0 <? rc_sendCh rc);
    [apply poolSend_le|apply poolBroadcast_le].
Qed.

(** ** The operations of the pool *)

(** Steps that keep the parts a property speaks about are chained with
    [transitivity]. *)
Lemma foldl_le {A} (f : serverPool -> A -> serverPool) l :
  (forall p x, poolLe p (f p x)) -> forall p, poolLe p (foldl f p l).
Proof.
  intros Hf. induction l as [|x l IH]; intros p; simpl; [done|]. etrans; [apply Hf|apply IH].
Qed.

Lemma hotPairs_le t p : poolLe p (p <| p_hotPairs := t |>).
Proof. by apply poolLe_net. Qed.

Lemma manager_le f p : managerStep (p_manager p) (f (p_manager p)) ->
  poolLe p (p <| p_manager ::= f |>).
Proof. intros H. split; try done. by apply rtc_once. Qed.

Lemma netStep_le n p : netStep (p_config p) (p_net p) n -> poolLe p (p <| p_net := n |>).
Proof. intros H. apply poolLe_net; try done. by apply rtc_once. Qed.

Lemma markClosed_le b w p : poolLe p (p <| p_net ::= markClosed b w |>).
Proof. apply (netStep_le (markClosed b w (p_net p))). constructor. Qed.

Lemma cleanupChannel_le cl ch p : poolLe p (cleanupChannel cl ch p).
Proof.
  unfold cleanupChannel.
  destruct (forgetChannel cl ch (p_net p)) as [[net wsConn] gone] eqn:E.
  assert (poolLe p (p <| p_net := net |>)) as H1.
  { apply netStep_le. change net with (net, wsConn, gone).1.1. rewrite <- E. constructor. }
  set (p1 := p <| p_net := net |>) in *.
  set (p2 := if gone then p1 <| p_prebindArmed ::= delete cl |> else p1).
  assert (poolLe p1 p2) as H2 by (unfold p2; destruct gone; [by apply poolLe_net|done]).
  set (p3 := foldl _ p2 _).
  assert (poolLe p2 p3) as H3 by (apply foldl_le; intros; apply unregisterConn_le).
  set (p4 := foldl _ p3 _).
  assert (poolLe p3 p4) as H4 by (apply foldl_le; intros; apply removeReverseConn_le).
  set (p5 := p4 <| p_hotPairs ::= _ |>).
  assert (poolLe p4 p5) as H5 by by apply poolLe_net.
  set (p6 := if gone then _ else p5).
  assert (poolLe p5 p6) as H6.
  { unfold p6. destruct gone; [|done]. apply manager_le. constructor. }
  etrans; [exact H1|]. etrans; [exact H2|]. etrans; [exact H3|]. etrans; [exact H4|].
  etrans; [exact H5|]. etrans; [exact H6|].
  destruct wsConn as [w|]; [|done]. destruct (isActive _ w); [apply markClosed_le|done].
Qed.

Lemma closeWS_le w p : poolLe p (closeWS w p).
Proof.
  unfold closeWS. destruct (n_heap (p_net p) !! w) as [c|]; [|done].
  destruct (ws_closed c); [done|]. etrans; [apply (markClosed_le true w)|apply cleanupChannel_le].
Qed.

Lemma closeBegin_le w p : poolLe p (closeBegin w p).
Proof.
  unfold closeBegin. destruct (n_heap (p_net p) !! w) as [c|]; [|done].
  destruct (ws_closed c); [done|]. etrans; [apply (markClosed_le true w)|]. by apply poolLe_net.
Qed.

Lemma closeEnd_le cl ch p : poolLe p (closeEnd cl ch p).
Proof. unfold closeEnd. etrans; [apply goBecomes_le|apply cleanupChannel_le]. Qed.

Lemma Shutdown_le p : poolLe p (Shutdown p).
Proof.
  unfold Shutdown. etrans; [|apply foldl_le; intros; apply closeWS_le].
  apply manager_le. constructor.
Qed.

Lemma writerStep_le w ev werr p p' : writerStep w ev werr p = Some p' -> poolLe p p'.
Proof.
  unfold writerStep. intros H.
  match type of H with mbind _ ?x = _ => destruct x as [[n ok]|] eqn:E; [|done] end.
  cbn [mbind option_bind] in H. injection H as <-.
  assert (poolLe p (p <| p_net := n |>)) as H1.
  { apply netStep_le. destruct ev.
    - by eapply st_task.
    - injection E as E. change n with (n, ok).1. rewrite <- E. constructor. }
  destruct ok; [done|]. etrans; [exact H1|]. etrans; [apply (closeWS_le w)|].
  unfold writerExit. destruct (n_heap _ !! w) as [c|]; [|done]. apply netStep_le. constructor.
Qed.

Lemma managerReply_frame cl ch lid st r p :
  let p' := managerReply cl ch lid st r p in
  p_config p' = p_config p /\ rtc (netStep (p_config p)) (p_net p) (p_net p') /\
  p_states p' = p_states p /\ p_socks p' = p_socks p /\ p_revHeap p' = p_revHeap p /\
  p_conns p' = p_conns p /\ p_revConns p' = p_revConns p.
Proof.
  unfold managerReply. destruct (negb _); [done|].
  match goal with |- context [poolSend ?c ?h ?d p] =>
    pose proof (pl_net _ _ (poolSend_le c h d p)) end.
  unfold poolSend in *. by destruct (sendToChannel _ _ _ _ _).
Qed.

Lemma HandleReverseListen_le cl ch lid spec start p :
  poolLe p (HandleReverseListen cl ch lid spec start p).
Proof.
  assert (exists q st r, HandleReverseListen cl ch lid spec start p = managerReply cl ch lid st r q /\
    p_config q = p_config p /\ p_net q = p_net p /\ p_states q = p_states p /\
    p_socks q = p_socks p /\ p_revHeap q = p_revHeap p /\ p_conns q = p_conns p /\
    p_revConns q = p_revConns p) as (q & st & r & E & Hc & Hn & Hs & Hk & Hr & Hw & Hrw).
  { unfold HandleReverseListen. destruct (negb _); [by eexists _, _, _|].
    destruct (_ !! spec); [by eexists _, _, _|]. destruct (_ <=? _); [by eexists _, _, _|].
    destruct (parseListenerSpec spec) as [[[[h u] pw] sc]|]; [|by eexists _, _, _].
    destruct (_ || _); [|by eexists _, _, _]. destruct start; by eexists _, _, _. }
  pose proof (managerReply_frame cl ch lid st r q) as (Hc'&Hn'&Hs'&Hk'&Hr'&Hw'&Hrw').
  rewrite <- E in *.
  split; [congruence|by rewrite <- Hn, <- Hc|by rewrite Hs', Hs|by rewrite Hk', Hk
    |by rewrite Hr', Hr|apply rtc_once; constructor| |];
    unfold connsWf, revWf; rewrite ?Hs', ?Hs, ?Hr', ?Hr, ?Hw', ?Hw, ?Hrw', ?Hrw; done.
Qed.

(** ** Reverse connections *)
Definition addRev (rc : ServerReverseConn) (p : serverPool) : serverPool :=
  let i := fresh (dom (p_revHeap p)) in
  p <| p_revHeap ::= <[i := rc]> |> <| p_revConns ::= <[rc_connID rc := i]> |>.

Lemma addRev_le rc p : poolLe p (addRev rc p).
Proof.
  unfold addRev. split; try done.
  - apply mapLe_insert_fresh. typeclasses eauto.
  - intros Hw id i. simpl. rewrite lookup_insert. case_decide as Hd.
    + intros [= <-]. exists rc. by rewrite lookup_insert_eq.
    + intros Hi. destruct (Hw id i Hi) as (r & Hr & ?). exists r. split; [|done].
      rewrite lookup_insert_ne; [done|]. intros <-.
      assert (p_revHeap p !! fresh (dom (p_revHeap p)) = None)
        by (apply not_elem_of_dom, is_fresh). congruence.
Qed.

Lemma updRev_addRev f rc p :
  rc_connID (f rc) = rc_connID rc ->
  updRev (fresh (dom (p_revHeap p))) f (addRev rc p) = addRev (f rc) p.
Proof.
  intros Hid. unfold updRev, addRev; simpl. rewrite Hid. f_equal.
  apply map_eq. intros j. destruct (decide (fresh (dom (p_revHeap p)) = j)) as [<-|].
  - by rewrite lookup_alter_eq, !lookup_insert_eq.
  - by rewrite lookup_alter_ne, !lookup_insert_ne.
Qed.

Lemma readyPair_le cl ks p : poolLe p (readyPair cl ks p).1.
Proof.
  unfold readyPair. destruct (Newest _ _ _ _) as [t [e|]]; [|apply hotPairs_le].
  destruct (_ && _); apply hotPairs_le.
Qed.

Lemma go_le g p : poolLe p (p <| p_go ::= cons g |>).
Proof. by apply poolLe_net. Qed.

Lemma dialStart_le cl target uuid ks p : poolLe p (dialStart cl target uuid ks p).1.
Proof.
  unfold dialStart. destruct (_ =? 0); [done|].
  pose proof (readyPair_le cl ks p) as H0. destruct (readyPair cl ks p) as [p0 entry]. simpl in H0.
  etrans; [exact H0|]. clear H0.
  set (connID := match entry with Some e => _ | None => uuid end).
  set (msg := EncodeMessage _ _ _ _).
  match goal with |- context [p0 <| p_revHeap ::= ?f |> <| p_revConns ::= ?g |>] =>
    change (p0 <| p_revHeap ::= f |> <| p_revConns ::= g |>)
      with (addRev (newServerReverseConn connID cl target) p0) end.
  assert (forall p1 s (e : option HotPairEntry), poolLe p0 p1 ->
    poolLe p0 (let '(p, sent) := match e with Some _ => (p1, SendOK)
                                | None => poolBroadcast cl msg p1 end in
      match sent with
      | NoChannel => (removeReverseConn connID p, None)
      | SendOK => (p <| p_go ::= cons (GoUpstreamPump s) |>, Some s)
      end).1) as Hlast.
  { intros p1 s e H1. destruct e.
    - etrans; [exact H1|apply go_le].
    - pose proof (poolBroadcast_le cl msg p1) as H2.
      destruct (poolBroadcast cl msg p1) as [p2 []]; simpl in *;
        (etrans; [exact H1|]; etrans; [exact H2|]); [apply go_le|apply removeReverseConn_le]. }
  destruct entry as [e|]; [|apply (Hlast _ _ None), addRev_le].
  rewrite updRev_addRev by done.
  match goal with |- context [poolSend ?a ?b ?c ?q] =>
    pose proof (poolSend_le a b c q) as H2; assert (poolLe p0 q) as H1 by apply addRev_le;
    destruct (poolSend a b c q) as [p2 []]; simpl in H2 end.
  - apply (Hlast p2 _ (Some e)). by etrans.
  - apply (Hlast _ _ None). etrans; [exact H1|]. etrans; [exact H2|]. by apply poolLe_net.
Qed.

Lemma removeNotify_le rc p : poolLe p (removeReverseConn (rc_connID rc) (reverseNotifyClose rc p)).
Proof. etrans; [apply reverseNotifyClose_le|apply removeReverseConn_le]. Qed.

Lemma dialFinish_le i ev p p' o : dialFinish i ev p = Some (p', o) -> poolLe p p'.
Proof.
  unfold dialFinish. destruct (p_revHeap p !! i) as [rc|]; [|done]. cbn [mbind option_bind].
  assert (forall msg, poolLe p (removeReverseConn (rc_connID rc)
    (reverseNotifyClose rc (updRev i (settle false msg) p)))) as Hab.
  { intros msg. etrans; [apply updRev_le; intros; apply settle_le|apply removeNotify_le]. }
  destruct ev.
  - destruct (rc_settled rc); [|done]. destruct (rc_ok rc); intros [= <- <-]; [done|].
    apply removeReverseConn_le.
  - intros [= <- <-]. apply Hab.
  - intros [= <- <-]. apply Hab.
Qed.

Lemma upstreamRead_le i chunk p : poolLe p (upstreamRead i chunk p).
Proof.
  unfold upstreamRead. destruct (p_revHeap p !! i) as [rc|]; [|done].
  destruct chunk as [data|].
  - destruct (_ <=? 0); [done|]. destruct (0 <? rc_sendCh rc); [|apply poolBroadcast_le].
    match goal with |- context [poolSend ?a ?b ?c p] =>
      pose proof (poolSend_le a b c p) as H; destruct (poolSend a b c p) as [p2 []]; simpl in H end;
      [done|]. etrans; [exact H|apply poolBroadcast_le].
  - etrans; [apply removeNotify_le|apply goBecomes_le].
Qed.

Lemma handleReverseMessage_le cl ch mt id meta pl werr p :
  poolLe p (handleReverseMessage cl ch mt id meta pl werr p).
Proof.
  unfold handleReverseMessage, getReverseConn.
  destruct (p_revConns p !! id) as [i|] eqn:Ei; [|done]. cbn [mbind option_bind].
  destruct (p_revHeap p !! i) as [rc|] eqn:Erc; [|done]. cbn [mbind option_bind].
  destruct (mt =? MsgSelectUplink).
  { destruct (_ <? 4); [done|]. destruct (Z.eqb_spec (rc_sendCh rc) 0) as [Es|Es].
    - etrans; [apply updRev_le|apply poolSend_le]. intros r Hr. simplify_eq.
      unfold revLe; simpl. split_and!; try done. exists []. by rewrite app_nil_r.
    - destruct (rc_pairPreset rc) eqn:Ep; [|done]. destruct (rc_repaired rc) eqn:Er; [done|].
      etrans; [apply updRev_le|apply poolSend_le]. intros r Hr. simplify_eq.
      unfold revLe; simpl. split_and!; try done; [|exists []; by rewrite app_nil_r].
      intros _ [?|?]; congruence. }
  destruct (mt =? MsgConnStatus).
  { destruct meta as [|b reason]; [done|].
    destruct (_ =? StatusOK); apply updRev_le; intros; apply settle_le. }
  destruct (mt =? MsgTCPData).
  { destruct (negb _); [done|]. destruct werr.
    - etrans; [apply reverseNotifyClose_le|apply removeReverseConn_le].
    - apply updRev_le. intros r _. unfold revLe; simpl. split_and!; try done. by eexists. }
  destruct (mt =? MsgTCPClose); [|done].
  etrans; [apply reverseNotifyClose_le|apply removeReverseConn_le].
Qed.

(** ** Handlers *)
Lemma addConn_lookup st p : p_states (addConn st p).1 !! (addConn st p).2 = Some st.
Proof. unfold addConn; simpl. by rewrite lookup_insert_eq. Qed.

Lemma promote_le cl ch id i p st :
  p_states p !! i = Some st -> st_downlinkChID st = 0 -> poolLe p (promote cl ch id i p).1.
Proof.
  intros Hst Hd. unfold promote. destruct (SplitHotPairConnID id) as [[key ?]|]; [|done].
  destruct (Lookup _ _ _ _) as [t [e|]]; [|apply hotPairs_le].
  destruct (_ && _); [|apply hotPairs_le].
  etrans; [apply (hotPairs_le t)|]. apply updState_le. intros s Hs. simpl in Hs. simplify_eq.
  unfold stateLe; simpl. by split_and!.
Qed.

Lemma handleTCPConnect_le cl ch id meta p : poolLe p (handleTCPConnect cl ch id meta p).
Proof.
  unfold handleTCPConnect. destruct meta as [|b target]; [apply sendDownlink_le|].
  destruct (inbound cl ch p) as [icl iaddr]. destruct (p_conns p !! id) eqn:En; [done|].
  set (st := mkServerConnState _ _ _ _ _ _ _ _ _ _ _ _ _).
  pose proof (addConn_le st p En eq_refl eq_refl) as H1. pose proof (addConn_lookup st p) as H2.
  destruct (addConn st p) as [p1 i]. simpl in *.
  pose proof (promote_le cl ch id i p1 st H2 eq_refl) as H3.
  destruct (promote cl ch id i p1) as [p2 promoted]. simpl in *.
  etrans; [exact H1|]. etrans; [exact H3|]. etrans; [|apply go_le].
  destruct promoted; [done|apply sendDownlink_le].
Qed.

Lemma connectStart_le i p : poolLe p (connectStart i p).
Proof. unfold connectStart. destruct (p_states p !! i); apply goBecomes_le. Qed.

Lemma sendDownlink_le' id mt m pl p q r :
  sendDownlink id mt m pl p = (q, r) -> poolLe p q.
Proof. intros E. change q with (q, r).1. rewrite <- E. apply sendDownlink_le. Qed.

Lemma connectDialed_le i ok p : poolLe p (connectDialed i ok p).
Proof.
  unfold connectDialed. destruct (p_states p !! i) as [st|] eqn:Est; [|apply goBecomes_le].
  destruct ok; simpl negb; cbv iota.
  - pose proof (openSock_le p) as H1. assert (p_states (openSock p).1 = p_states p) as Hs by done.
    destruct (openSock p) as [p1 k]. simpl in *. etrans; [exact H1|].
    destruct (st_closed st) eqn:Ecl.
    { etrans; [apply (closeSock_le (Some k))|apply goBecomes_le]. }
    match goal with |- context [sendDownlink ?a ?b ?c ?d ?q] =>
      destruct (sendDownlink a b c d q) as [p2 r] eqn:E2 end.
    etrans; [|apply goBecomes_le]. etrans; [|by eapply sendDownlink_le'].
    apply updState_le. intros s _. unfold stateLe; simpl. by split_and!.

  - destruct (sendDownlink (st_connID st) MsgConnStatus _ _ p) as [p1 r1] eqn:E1.
    destruct (sendDownlink (st_connID st) MsgTCPClose _ _ p1) as [p2 r2] eqn:E2.
    etrans; [by eapply sendDownlink_le'|]. etrans; [by eapply sendDownlink_le'|].
    etrans; [apply (delConn_le (st_connID st))|apply goBecomes_le].
Qed.

Lemma connectFlush_le i k pending werr p : poolLe p (connectFlush i k pending werr p).
Proof.
  unfold connectFlush. destruct pending as [|d rest]; [apply goBecomes_le|].
  destruct (writeSock k [] d werr p) as [p1|] eqn:E.
  - etrans; [by eapply writeSock_le|apply goBecomes_le].
  - etrans; [|apply goBecomes_le].
    destruct (p_states p !! i) as [st|]; [apply unregisterConn_le|done].
Qed.

Lemma pendingSize_app l l' : pendingSize (l ++ l') = pendingSize l + pendingSize l'.
Proof. induction l as [|d l IH]; simpl; [done|rewrite IH; lia]. Qed.

Lemma handleTCPData_le ch id pl werr p : poolLe p (handleTCPData ch id pl werr p).
Proof.
  unfold handleTCPData, getConn.
  destruct (p_conns p !! id) as [i|]; [|done]. cbn [mbind option_bind].
  destruct (p_states p !! i) as [st|] eqn:Est; [|done]. cbn [mbind option_bind].
  destruct (_ && _); [done|]. destruct (st_targetConn st) as [k|].
  - destruct (writeSock k [] pl werr p) as [p1|] eqn:E;
      [by eapply writeSock_le|apply unregisterConn_le].
  - destruct (Z.ltb_spec pendingDataMaxSize (pendingSize (st_pendingData st) + len pl));
      [apply unregisterConn_le|].
    apply updState_le. intros s Hs. simplify_eq. unfold stateLe; simpl. split_and!; try done.
    intros _. rewrite pendingSize_app. simpl. lia.
Qed.

Lemma handleSelectDownlink_le cl ch id meta p : poolLe p (handleSelectDownlink cl ch id meta p).
Proof.
  unfold handleSelectDownlink, getConn.
  destruct (p_conns p !! id) as [i|]; [|done]. cbn [mbind option_bind].
  destruct (p_states p !! i) as [st|] eqn:Est; [|done]. cbn [mbind option_bind].
  destruct (channelConn _ _ _) as [c|]; [|done]. destruct (ws_closed c); [done|].
  destruct (_ && _); [done|]. destruct (_ && _); [done|].
  destruct (Z.eqb_spec (st_downlinkChID st) 0); [|done].
  apply updState_le. intros s Hs. simplify_eq. unfold stateLe; simpl. by split_and!.
Qed.

Lemma handlePrebindRequest_le cl ch id meta p : poolLe p (handlePrebindRequest cl ch id meta p).
Proof.
  unfold handlePrebindRequest. destruct meta as [|b meta]; [done|].
  destruct (inbound cl ch p) as [icl iaddr]. destruct (p_conns p !! id) eqn:En; [done|].
  set (st := mkServerConnState _ _ _ _ _ _ _ _ _ _ _ _ _).
  pose proof (addConn_le st p En eq_refl eq_refl) as H1.
  destruct (addConn st p) as [p1 i]. simpl in H1.
  destruct (sendDownlink id MsgSelectUplink _ _ p1) as [p2 r2] eqn:E2.
  etrans; [exact H1|]. etrans; [by eapply sendDownlink_le'|]. by apply poolLe_net.
Qed.

Lemma timerFire_le n p : poolLe p (timerFire n p).
Proof.
  unfold timerFire. destruct (p_timers p !! n) as [[t id]|]; [|done].
  destruct (t <=? poolNow p); [|done]. etrans; [|apply unregisterConn_le]. by apply poolLe_net.
Qed.

Lemma forwardTargetToClient_le i read p : poolLe p (forwardTargetToClient i read p).
Proof.
  unfold forwardTargetToClient. destruct (p_states p !! i) as [st|]; [|done].
  destruct read as [buf|].
  - destruct (0 <? len buf); [apply sendDownlink_le|done].
  - destruct (sendDownlink _ _ _ _ _) as [p1 r] eqn:E.
    etrans; [apply (unregisterConn_le (st_connID st))|].
    etrans; [by eapply sendDownlink_le'|apply goBecomes_le].
Qed.

Lemma handleUDPConnect_le cl ch id meta lerr p : poolLe p (handleUDPConnect cl ch id meta lerr p).
Proof.
  unfold handleUDPConnect. destruct meta as [|b target]; [apply sendDownlink_le|].
  destruct (inbound cl ch p) as [icl iaddr]. destruct (p_conns p !! id) eqn:En; [done|].
  destruct lerr; [apply sendDownlink_le|].
  pose proof (openSock_le p) as H0. assert (p_conns (openSock p).1 = p_conns p) as Hc by done.
  destruct (openSock p) as [p0 k]. cbn [fst] in *. rewrite <- Hc in En.
  set (st := mkServerConnState _ _ _ _ _ _ _ _ _ _ _ _ _).
  pose proof (addConn_le st p0 En eq_refl eq_refl) as H1.
  destruct (addConn st p0) as [p1 i]. simpl in H1.
  destruct (sendDownlink id MsgSelectUplink _ _ p1) as [p2 r2] eqn:E2.
  etrans; [exact H0|]. etrans; [exact H1|]. etrans; [by eapply sendDownlink_le'|]. apply go_le.
Qed.

Lemma handleUDPData_le res ch id meta pl werr p : poolLe p (handleUDPData res ch id meta pl werr p).
Proof.
  unfold handleUDPData. destruct (getConn id p) as [[i st]|]; [|done].
  destruct (st_targetUDP st) as [k|]; [|done]. destruct (_ && _); [done|].
  destruct (res _ _) as [addr|]; [|done].
  destruct (writeSock k addr pl werr p) as [p1|] eqn:E; [by eapply writeSock_le|done].
Qed.

Lemma forwardUDPToClient_le i read p : poolLe p (forwardUDPToClient i read p).
Proof.
  unfold forwardUDPToClient. destruct (p_states p !! i) as [st|]; [|done].
  assert (poolLe p (goBecomes (GoForwardUDP i) [] (unregisterConn (st_connID st) p))) as Hstop
    by (etrans; [apply unregisterConn_le|apply goBecomes_le]).
  destruct (_ || _); [done|]. destruct read as [[a buf]|]; [|done].
  destruct (0 <? len buf); [apply sendDownlink_le|done].
Qed.

Lemma handleMessage_le cl ch n mt id meta pl o p : poolLe p (handleMessage cl ch n mt id meta pl o p).
Proof.
  unfold handleMessage.
  etrans; [apply (netStep_le (addReceivedBytes n (p_net p)) p); constructor|].
  change (p <| p_net := addReceivedBytes n (p_net p) |>) with (p <| p_net ::= addReceivedBytes n |>).
  set (p1 := p <| p_net ::= addReceivedBytes n |>).
  destruct (getReverseConn id p1) as [[i rc]|].
  { destruct (negb _); [done|apply handleReverseMessage_le]. }
  repeat match goal with |- context [if ?b then _ else _] => destruct b end;
    auto using HandleReverseListen_le, handleTCPConnect_le, handleTCPData_le,
      handleSelectDownlink_le, unregisterConn_le, handlePrebindRequest_le,
      handleUDPConnect_le, handleUDPData_le; try done; by apply poolLe_net.
Qed.

Lemma readLoopStep_le w read o p : poolLe p (readLoopStep w read o p).
Proof.
  unfold readLoopStep. destruct (n_heap (p_net p) !! w) as [c|]; [|done].
  destruct read as [[mt msg]|].
  - destruct (negb _); [done|]. destruct (DecodeMessage msg) as [[e|f]|]; [done| |done].
    apply handleMessage_le.
  - destruct (ws_closed c); [done|apply closeWS_le].
Qed.

(** ** Runs of the server

    One constructor per goroutine of the server and per outside event. The first
    half of [handleWebSocket] reads an earlier state, so a registration may follow
    with any client and any number it can have chosen. *)
Inductive poolStep (p : serverPool) : serverPool -> Prop :=
| ps_read w read o : poolStep p (readLoopStep w read o p)
| ps_writer w ev werr p' : writerStep w ev werr p = Some p' -> poolStep p p'
| ps_register cl ch addr : cl <> [] -> 1 <= ch <= maxAllowedChID ->
    poolStep p (p <| p_net ::= fun n => (registerChannel (p_config p) cl ch addr n).1 |>)
| ps_closeBegin w : poolStep p (closeBegin w p)
| ps_closeEnd cl ch : GoCleanup cl ch ∈ p_go p -> poolStep p (closeEnd cl ch p)
| ps_connect i : GoConnectTarget i ∈ p_go p -> poolStep p (connectStart i p)
| ps_dialed i ok : GoDialing i ∈ p_go p -> poolStep p (connectDialed i ok p)
| ps_flush i k l werr : GoFlushPending i k l ∈ p_go p -> poolStep p (connectFlush i k l werr p)
| ps_forward i read : GoForwardTarget i ∈ p_go p -> poolStep p (forwardTargetToClient i read p)
| ps_forwardUDP i read : GoForwardUDP i ∈ p_go p -> poolStep p (forwardUDPToClient i read p)
| ps_upstream i chunk : GoUpstreamPump i ∈ p_go p -> poolStep p (upstreamRead i chunk p)
| ps_timer n : poolStep p (timerFire n p)
| ps_dial cl target uuid ks : poolStep p (dialStart cl target uuid ks p).1
| ps_dialEnd i ev p' o : dialFinish i ev p = Some (p', o) -> poolStep p p'
| ps_shutdown : poolStep p (Shutdown p)
| ps_wake : poolStep p (p <| p_net ::= cooldownWake |>)
| ps_time d : 0 <= d -> poolStep p (p <| p_net ::= fun n => n <| n_now ::= Z.add d |> |>).

Lemma poolStep_le p p' : poolStep p p' -> poolLe p p'.
Proof.
  destruct 1; eauto using closeBegin_le, closeEnd_le, readLoopStep_le, writerStep_le, connectStart_le, connectDialed_le,
    connectFlush_le, forwardTargetToClient_le, forwardUDPToClient_le, upstreamRead_le,
    timerFire_le, dialStart_le, dialFinish_le, Shutdown_le.
  - apply (netStep_le (registerChannel (p_config p) cl ch addr (p_net p)).1 p). constructor.
  - apply (netStep_le (cooldownWake (p_net p)) p). constructor.
  - apply (netStep_le ((p_net p) <| n_now ::= Z.add d |>) p). by constructor.
Qed.

Lemma poolSteps_le p p' : rtc poolStep p p' -> poolLe p p'.
Proof. induction 1; [done|]. etrans; [by apply poolStep_le|done]. Qed.

Lemma newServerPool_wf token cfg now : connsWf (newServerPool token cfg now) /\
  revWf (newServerPool token cfg now).
Proof. split; intros id i; simpl; by rewrite lookup_empty. Qed.

(** ** Properties *)

(** C2: Along every run of the server, whatever the interleaving, a connection keeps
    its identifier, owner, target and uplink channel, its downlink channel is
    chosen at most once, and a closed connection stays closed. *)
Theorem connection_monotone p p' i st :
  rtc poolStep p p' -> p_states p !! i = Some st ->
  exists st', p_states p' !! i = Some st' /\
    st_connID st' = st_connID st /\ st_clientID st' = st_clientID st /\
    st_target st' = st_target st /\ st_uplinkChID st' = st_uplinkChID st /\
    (st_downlinkChID st <> 0 -> st_downlinkChID st' = st_downlinkChID st) /\
    (st_closed st = true -> st_closed st' = true).
Proof.
  intros H%poolSteps_le Hst. destruct (pl_states _ _ H i st Hst) as (st' & Hst' & Hle).
  destruct Hle as (?&?&?&?&?&?&?&?&?). exists st'. by split_and!.
Qed.

(** C1: In every reachable state of the server: a registered identifier leads to an
    open connection of that identifier that buffers at most 1 MB for its target; a
    reverse identifier leads to a reverse connection of that identifier; and the
    queue accounting and the channel limits of the channel layer hold. *)
Theorem server_invariant token cfg now p :
  rtc poolStep (newServerPool token cfg now) p ->
  (forall connID i, p_conns p !! connID = Some i ->
     exists st, p_states p !! i = Some st /\ st_connID st = connID /\ st_closed st = false /\
       pendingSize (st_pendingData st) <= pendingDataMaxSize) /\
  (forall connID i, p_revConns p !! connID = Some i ->
     exists rc, p_revHeap p !! i = Some rc /\ rc_connID rc = connID) /\
  netInv (p_net p) /\ regInv cfg (p_net p) /\ listenersInv (p_manager p).
Proof.
  intros H%poolSteps_le. destruct (newServerPool_wf token cfg now) as [Hw Hr].
  split_and!; [by apply (pl_wf _ _ H)|by apply (pl_revwf _ _ H)| | |].
  - apply (reachable_netInv cfg now), (pl_net _ _ H).
  - apply (reachable_regInv cfg now), (pl_net _ _ H).
  - eapply (rtc_invariant _ _ managerStep_inv); [apply (pl_manager _ _ H)|].
    split; [|apply new_manager_inv]. simpl. destruct (Z.leb_spec (Server.MaxReverseListeners cfg) 0); lia.
Qed.


(** What is written to a target socket is never rewritten, and a closed socket
    receives nothing more. *)
Theorem socket_append_only p p' k s :
  rtc poolStep p p' -> p_socks p !! k = Some s ->
  exists s', p_socks p' !! k = Some s' /\ (exists l, sk_sent s' = sk_sent s ++ l) /\
    (sk_closed s = true -> sk_closed s' = true /\ sk_sent s' = sk_sent s).
Proof.
  intros H%poolSteps_le Hs. destruct (pl_socks _ _ H k s Hs) as (s' & Hs' & Hk & Hc & He).
  exists s'. split_and!; [done|done|]. auto.
Qed.

(** ** A run: client ["a"] connects on channel 1 and dials [h:80] *)
Definition noErrors : outcomes := mkOutcomes false false None (fun a _ => Some a).
Definition frameIn (t : Z) (connID meta payload : bytes) : option (Z * bytes) :=
  Some (BinaryMessage, EncodeMessage t connID meta payload).
Definition register (cl : bytes) (ch : Z) (addr : bytes) (p : serverPool) : serverPool :=
  p <| p_net ::= fun n => (registerChannel (p_config p) cl ch addr n).1 |>.

Definition run0 : serverPool := newServerPool (lit "t") Server.DefaultServerConfig 0.
Definition run1 : serverPool := register (lit "a") 1 (lit "addr") run0.
Definition run2 : serverPool :=
  readLoopStep 1 (frameIn MsgTCPConnect (lit "id") (byte_of_Z 0 :: lit "h:80") []) noErrors run1.
Definition run3 : serverPool := connectStart 1 run2.
Definition run4 : serverPool := connectDialed 1 true run3.

(** Its connection, before and after the dial. *)
Definition runState (connected : bool) (k : option sockid) : ServerConnState :=
  mkServerConnState (lit "id") (lit "a") (lit "h:80") k None 1 0 0 false (lit "addr")
    connected false [].

Ltac in_goroutines := apply (bool_decide_unpack _); vm_compute; exact I.

Lemma run2_steps : rtc poolStep run0 run2.
Proof.
  eapply rtc_l; [apply (ps_register run0 (lit "a") 1 (lit "addr")); [done|by vm_compute]|].
  apply rtc_once. apply (ps_read run1).
Qed.

Lemma run24_steps : rtc poolStep run2 run4.
Proof.
  eapply rtc_l; [apply (ps_connect run2 1); in_goroutines|].
  apply rtc_once. apply (ps_dialed run3 1 true). in_goroutines.
Qed.

Lemma run4_steps : rtc poolStep run0 run4.
Proof. etransitivity; [exact run2_steps|exact run24_steps]. Qed.

Lemma connection_monotone_witness :
  exists st', p_states run4 !! 1%positive = Some st' /\ st_uplinkChID st' = 1.
Proof.
  destruct (connection_monotone run2 run4 1 (runState false None) run24_steps)
    as (st' & Hs & _ & _ & _ & Hu & _); [vm_compute; reflexivity|].
  exists st'. split; [exact Hs|exact Hu].
Defined.

Lemma server_invariant_witness : netInv (p_net run4).
Proof.
  apply (server_invariant (lit "t") Server.DefaultServerConfig 0 run4).
  exact run4_steps.
Defined.

(** The server dials [h:80] through ["a"], which answers on channel 1. *)
Definition rev1 : serverPool := (dialStart (lit "a") (lit "h:80") (lit "u") [] run1).1.
Definition rev2 : serverPool :=
  readLoopStep 1 (frameIn MsgSelectUplink (lit "u") (chIDBytes 1) []) noErrors rev1.
Definition rev3 : serverPool :=
  readLoopStep 1 (frameIn MsgTCPData (lit "u") [] (lit "data")) noErrors rev2.

Lemma rev23_steps : rtc poolStep rev2 rev3.
Proof. apply rtc_once. apply (ps_read rev2). Qed.


Definition run5 : serverPool :=
  readLoopStep 1 (frameIn MsgTCPData (lit "id") [] (lit "x")) noErrors run4.

Lemma socket_append_only_witness :
  exists s', p_socks run5 !! 1%positive = Some s' /\ exists l, sk_sent s' = [] ++ l.
Proof.
  destruct (socket_append_only run4 run5 1 (mkSocket [] false)) as (s' & H & Hl & _).
  - apply rtc_once. apply (ps_read run4).
  - by vm_compute.
  - exists s'. split; [exact H|exact Hl].
Defined.
