(* ===== verification/HandlerSpecs.v ===== *)
(** What the handlers of the server achieve ([Handlers], [ServerPool]): the first
    arrival of a connection, the delivery of early data, the confinement of
    downlink data to its client, the isolation of reverse connections, clean-up;
    and the behaviours that the modelling showed to differ from what the code's
    comments intend. *)

From S2P Require Import Prelude Protocol Config HotPairTable Channels ChannelQueue ChannelRegistry ServerState ReverseListener ReverseServer ServerPool Handlers ServerSystem.

(** ** First arrival *)

(** How the downlink of a new connection is settled: preset from a stored pair,
    without any frame, or announced to all channels of its client. *)
Definition uplinkSettled (clientID : bytes) (chID : Z) (connID owner : bytes) (p p' : serverPool)
    (st : ServerConnState) : Prop :=
  (exists key suffix e, SplitHotPairConnID connID = Some (key, suffix) /\
     (Lookup (poolNow p) clientID key (p_hotPairs p)).2 = Some e /\ he_ChA e = chID /\
     channelAliveForClient clientID (he_ChB e) (p_net p) = true /\
     st_downlinkChID st = he_ChB e /\ p_net p' = p_net p) \/
  (st_downlinkChID st = 0 /\
   p_net p' = (broadcastWriteToClient owner BinaryMessage
                 (EncodeMessage MsgSelectUplink connID (chIDBytes chID) []) (p_net p)).1).

Lemma promote_spec cl ch id i p st :
  p_states p !! i = Some st ->
  let '(p', b) := promote cl ch id i p in
  p_conns p' = p_conns p /\ p_net p' = p_net p /\ p_go p' = p_go p /\
  if b : bool then
    exists key suffix e, SplitHotPairConnID id = Some (key, suffix) /\
      (Lookup (poolNow p) cl key (p_hotPairs p)).2 = Some e /\ he_ChA e = ch /\
      channelAliveForClient cl (he_ChB e) (p_net p) = true /\
      p_states p' !! i = Some (st <| st_downlinkChID := he_ChB e |>)
  else p_states p' = p_states p.
Proof.
  intros Hst. unfold promote. destruct (SplitHotPairConnID id) as [[key suf]|] eqn:Es; [|done].
  destruct (Lookup _ _ _ _) as [t [e|]] eqn:El; [|done].
  destruct (Z.eqb_spec (he_ChA e) ch); simpl andb; [|done].
  destruct (channelAliveForClient cl (he_ChB e) (p_net p)) eqn:Ea; [|done].
  split_and!; [done..|]. exists key, suf, e. rewrite El. split_and!; [done..|].
  unfold updState; simpl. by rewrite lookup_alter_eq, Hst.
Qed.

(** C6: The first channel that delivers a TCP connect request wins: it creates the
    connection, owned by the client of the arrival channel, with that channel as
    uplink, settles or announces the route, and starts exactly one dial; every
    later copy of the request changes nothing. *)
Theorem handleTCPConnect_first_wins clientID chID connID b target p :
  let p' := handleTCPConnect clientID chID connID (b :: target) p in
  match p_conns p !! connID with
  | Some _ => p' = p
  | None =>
      exists i st, p_states p !! i = None /\ p_conns p' = <[connID := i]> (p_conns p) /\
        p_states p' !! i = Some st /\ st_connID st = connID /\ st_target st = target /\
        st_ipStrategy st = Z_of_byte b /\ st_uplinkChID st = chID /\
        st_clientID st = (inbound clientID chID p).1 /\
        st_connected st = false /\ st_closed st = false /\ st_pendingData st = [] /\
        p_go p' = GoConnectTarget i :: p_go p /\
        uplinkSettled clientID chID connID (st_clientID st) p p' st
  end.
Proof.
  intros p'. unfold p', handleTCPConnect. clear p'.
  destruct (inbound clientID chID p) as [owner addr].
  destruct (p_conns p !! connID) eqn:En; [done|].
  set (st := mkServerConnState _ _ _ _ _ _ _ _ _ _ _ _ _).
  pose proof (addConn_lookup st p) as Hst.
  assert (p_states p !! (addConn st p).2 = None) as Hfresh by (apply not_elem_of_dom, is_fresh).
  assert (p_conns (addConn st p).1 = <[connID := (addConn st p).2]> (p_conns p)) as Hc by done.
  assert (p_net (addConn st p).1 = p_net p /\ p_go (addConn st p).1 = p_go p /\
    p_hotPairs (addConn st p).1 = p_hotPairs p) as (Hn & Hg & Hh) by done.
  destruct (addConn st p) as [p1 i]. cbn [fst snd] in *.
  pose proof (promote_spec clientID chID connID i p1 st Hst) as Hp.
  destruct (promote clientID chID connID i p1) as [p2 []]; destruct Hp as (Hc2 & Hn2 & Hg2 & Hp).
  - destruct Hp as (key & suf & e & ? & Hl & ? & Ha & Hs2).
    exists i, (st <| st_downlinkChID := he_ChB e |>). simpl p_states. simpl p_conns. simpl p_go.
    rewrite Hc2, Hg2, Hg, Hc. split_and!; [done..|left].
    unfold poolNow in Hl. rewrite Hn, Hh in Hl. rewrite Hn in Ha.
    exists key, suf, e. split_and!; try done. simpl. congruence.
  - pose proof (sendDownlink_frame connID MsgSelectUplink (chIDBytes chID) [] p2)
      as (Fs & Fc & _ & Fg & _).
    exists i, st. simpl p_states. simpl p_conns. simpl p_go.
    rewrite Fs, Fc, Fg, Hc2, Hg2, Hg, Hc, Hp. split_and!; [done..|right]. split; [done|].
    simpl p_net. unfold sendDownlink, getConn. rewrite Hc2, Hc, lookup_insert_eq.
    cbn [mbind option_bind]. rewrite Hp, Hst. cbn [mbind option_bind].
    unfold poolBroadcast. simpl st_downlinkChID. simpl st_clientID. cbv iota.
    replace (p_net p2) with (p_net p) by congruence.
    by destruct (broadcastWriteToClient _ _ _ _).
Qed.

(** ** Data that arrives before the target connection *)
Definition deliver (chID : Z) (connID : bytes) (ds : list bytes) (p : serverPool) : serverPool :=
  foldl (fun p d => handleTCPData chID connID d false p) p ds.

(** [connectTarget]'s loop over the pending data, without write errors. *)
Fixpoint flushAll (i : stid) (k : sockid) (l : list bytes) (p : serverPool) : serverPool :=
  let p := connectFlush i k l false p in
  match l with [] => p | _ :: rest => flushAll i k rest p end.

Lemma getConn_Some id p i st :
  getConn id p = Some (i, st) <-> p_conns p !! id = Some i /\ p_states p !! i = Some st.
Proof.
  unfold getConn. split.
  - destruct (p_conns p !! id) as [j|] eqn:E; [|done]. cbn [mbind option_bind].
    destruct (p_states p !! j) as [s|] eqn:E'; [|done]. cbn [mbind option_bind].
    by intros [= <- <-].
  - intros [-> H]. cbn [mbind option_bind]. by rewrite H.
Qed.

Lemma pendingSize_nonneg l : 0 <= pendingSize l.
Proof. induction l as [|d l IH]; simpl; [done|]. pose proof (len_nonneg d). lia. Qed.

Lemma handleTCPData_pending ch id d p i st :
  getConn id p = Some (i, st) -> st_uplinkChID st = ch -> st_targetConn st = None ->
  pendingSize (st_pendingData st) + len d <= pendingDataMaxSize ->
  handleTCPData ch id d false p
  = updState i (fun st => st <| st_pendingData ::= fun l => l ++ [d] |>) p.
Proof.
  intros Hg Hu Ht Hsz. unfold handleTCPData. rewrite Hg, Hu, Z.eqb_refl, andb_false_r, Ht.
  destruct (Z.ltb_spec pendingDataMaxSize (pendingSize (st_pendingData st) + len d)); [lia|done].
Qed.

Lemma deliver_pending ch id i ds : forall p st,
  getConn id p = Some (i, st) -> st_uplinkChID st = ch -> st_targetConn st = None ->
  pendingSize (st_pendingData st) + pendingSize ds <= pendingDataMaxSize ->
  let p' := deliver ch id ds p in
  getConn id p' = Some (i, st <| st_pendingData ::= fun l => l ++ ds |>) /\
  p_socks p' = p_socks p /\ p_go p' = p_go p /\ p_net p' = p_net p.
Proof.
  induction ds as [|d ds IH]; intros p st Hg Hu Ht Hsz; cbn [deliver foldl].
  - split; [|done]. rewrite Hg. destruct st; simpl. by rewrite app_nil_r.
  - pose proof (pendingSize_nonneg ds). simpl in Hsz.
    rewrite (handleTCPData_pending ch id d p i st) by (done || lia).
    set (p1 := updState i _ p). apply getConn_Some in Hg as [Hc Hs].
    destruct (IH p1 (st <| st_pendingData ::= fun l => l ++ [d] |>)) as (Hg' & Hr);
      [apply getConn_Some; split; [done|]; unfold p1, updState; simpl;
       by rewrite lookup_alter_eq, Hs|done|done|simpl; rewrite pendingSize_app; simpl; lia|].
    split; [|exact Hr]. unfold deliver in Hg'. rewrite Hg'. simpl. by rewrite <- app_assoc.
Qed.

Lemma elem_replaceFirst g gs l h : g ∈ l -> h ∈ gs -> h ∈ replaceFirst g gs l.
Proof.
  intros Hg Hh. induction l as [|x l IH]; [set_solver|]. cbn [replaceFirst].
  case_bool_decide; set_solver.
Qed.

Lemma flushAll_spec i k l : forall p sent,
  p_socks p !! k = Some (mkSocket sent false) -> GoFlushPending i k l ∈ p_go p ->
  let p' := flushAll i k l p in
  p_socks p' !! k = Some (mkSocket (sent ++ map (pair []) l) false) /\
  GoForwardTarget i ∈ p_go p' /\ p_states p' = p_states p /\ p_conns p' = p_conns p.
Proof.
  induction l as [|d l IH]; intros p sent Hk Hg; cbn [flushAll connectFlush].
  - simpl map. rewrite app_nil_r. split_and!; [done| |done|done].
    apply elem_replaceFirst; [done|set_solver].
  - unfold writeSock. rewrite Hk. cbn [mbind option_bind]. simpl.
    match goal with |- context [flushAll i k l ?q] =>
      destruct (IH q (sent ++ [([], d)])) as (H1 & H2 & H3 & H4) end.
    + simpl. by rewrite lookup_alter_eq, Hk.
    + simpl. apply elem_replaceFirst; [done|set_solver].
    + rewrite H1, H3, H4. split_and!; [|done|done|done]. by rewrite <- app_assoc.
Qed.

Lemma connectDialed_spec i id p st :
  getConn id p = Some (i, st) -> st_closed st = false -> st_connID st = id ->
  GoDialing i ∈ p_go p ->
  let p' := connectDialed i true p in
  let k := fresh (dom (p_socks p)) in
  p_socks p' !! k = Some (mkSocket [] false) /\
  GoFlushPending i k (st_pendingData st) ∈ p_go p' /\
  getConn id p' = Some (i, st <| st_targetConn := Some k |> <| st_connected := true |>
                              <| st_pendingData := [] |>).
Proof.
  intros Hg Hcl Hid Hgo. apply getConn_Some in Hg as [Hc Hs].
  unfold connectDialed. rewrite Hs. simpl negb. unfold openSock. cbv iota zeta beta.
  rewrite Hcl.
  match goal with |- context [sendDownlink ?a ?b ?c ?d ?q] =>
    pose proof (sendDownlink_frame a b c d q) as F; destruct (sendDownlink a b c d q) as [p2 r] end.
  destruct F as (Fs & Fc & Fk & Fg & _). simpl in *. split_and!.
  - rewrite Fk. by rewrite lookup_insert_eq.
  - rewrite Fg. apply elem_replaceFirst; [done|set_solver].
  - apply getConn_Some. simpl. rewrite Fc, Fs. split; [done|]. by rewrite lookup_alter_eq, Hs.
Qed.



(** ** Downlink data stays with its client *)

(** What every connection outside [ws] gains is at most back-pressure notices. *)
Definition onlyNotices (P : ServerWSConn -> Prop) (s s' : Net) : Prop :=
  forall w c, n_heap s !! w = Some c -> ~ P c ->
    exists c', n_heap s' !! w = Some c' /\ wsGrows backpressureTask c c'.

Lemma asyncWrite_other w mt d s w' c :
  n_heap s !! w' = Some c -> w' <> w ->
  exists c', n_heap (asyncWrite w mt d s).1 !! w' = Some c' /\ wsGrows backpressureTask c c'.
Proof.
  intros Hc Hne.
  assert (option_Forall2 (wsGrows backpressureTask) (n_heap s !! w')
    (n_heap (asyncWrite w mt d s).1 !! w')) as H.
  { destruct (asyncWrite_with_cases updateBackpressureState w mt d s)
      as [[E _]|[(c0 & s1 & H0 & Hcl & Hch & Hq & _)
        |(c0 & a & b & e & s1 & H0 & Hcl & Hch & Hq & _)]].
    - rewrite asyncWrite_eq, E. done.
    - by apply (asyncWrite_room w mt d s c0 H0 Hcl Hch Hq).
    - destruct (asyncWrite_fullq w mt d s c0 H0 Hcl Hch Hq) as (_ & _ & Hg).
      destruct (ng_heap _ _ _ Hg w') as [x y [_ Hxy]%wsGrows_False|]; by constructor. }
  rewrite Hc in H. inversion H as [? c' Hg E1 E2|]; subst. by exists c'.
Qed.

Lemma writeAll_notices (P : ServerWSConn -> Prop) mt d ws : forall s,
  (forall a b, P a -> wsGrows (fun _ => True) a b -> P b) ->
  (forall a b, P b -> wsGrows (fun _ => True) a b -> P a) ->
  (forall w c, w ∈ ws -> n_heap s !! w = Some c -> P c) ->
  onlyNotices P s (foldl (fun s w => (asyncWrite w mt d s).1) s ws).
Proof.
  induction ws as [|w ws IH]; intros s HP HP' Hws; simpl.
  { intros w c Hc _. exists c. by split. }
  intros w' c Hc Hn.
  assert (w' <> w) as Hne by (intros ->; apply Hn, (Hws w c); set_solver).
  destruct (asyncWrite_other w mt d s w' c Hc Hne) as (c1 & Hc1 & Hg1).
  assert (forall a b Q, wsGrows Q a b -> wsGrows (fun _ => True) a b) as Hweak.
  { intros a b Q (?&?&?&?&?&?&(k&?&_)&?). split_and!; try done. exists k. split; [done|].
    by apply Forall_true. }
  destruct (IH (asyncWrite w mt d s).1 HP HP') with (w := w') (c := c1) as (c2 & Hc2 & Hg2).
  - intros w2 c2 Hw2 Hc2.
    pose proof (netGrows_effects _ _ _ (asyncWrite_effects (fun _ => True) w mt d s
      (fun _ _ => I) I)) as Hg. pose proof (ng_heap _ _ _ Hg w2) as H2. rewrite Hc2 in H2.
    inversion H2 as [a b Hab E1 E2|]; subst. eapply HP; [|done]. eapply Hws; [|done]. set_solver.
  - exact Hc1.
  - intros H. apply Hn. eapply HP'; [exact H|]. by eapply Hweak.
  - exists c2. split; [done|]. by etrans.
Qed.

Lemma ownedBy_spec s cl w c :
  n_heap s !! w = Some c -> ownedBy s cl w = true -> ws_clientID c = cl.
Proof. unfold ownedBy. intros ->. by rewrite bool_decide_eq_true. Qed.

Lemma activeConns_owned s cl w c :
  cl <> [] -> w ∈ activeConns cl s -> n_heap s !! w = Some c -> ws_clientID c = cl.
Proof.
  intros Hne. unfold activeConns. rewrite list_elem_of_omap. intros ([w'|] & _ & H); [|done].
  destruct (negb (isActive s w')); [done|]. rewrite bool_decide_false in H by done. simpl in H.
  destruct (ownedBy s cl w') eqn:E; [|done]. injection H as ->. intros Hc.
  by eapply ownedBy_spec.
Qed.

Lemma broadcast_confined cl mt d s :
  cl <> [] ->
  onlyNotices (fun c => ws_clientID c = cl) s (broadcastWriteToClient cl mt d s).1.
Proof.
  intros Hne. unfold broadcastWriteToClient, broadcastWriteToClient_with.
  destruct (activeConns cl s) as [|w0 ws] eqn:E.
  { intros w c Hc _. exists c. by split. }
  apply writeAll_notices.
  - intros a b <- (_ & H & _). exact H.
  - intros a b <- (_ & H & _). congruence.
  - intros w c Hw Hc. rewrite <- E in Hw. by eapply activeConns_owned.
Qed.

Lemma send_confined cfg cl ch mt d s :
  regInv cfg s -> onlyNotices (fun c => ws_clientID c = cl) s (sendToChannel cl ch mt d s).1.
Proof.
  intros Hinv. unfold sendToChannel. destruct (lookupChannel s cl ch) as [w|] eqn:E;
    [|intros w c Hc _; by exists c]. destruct (negb _); [intros w' c Hc _; by exists c|].
  intros w' c Hc Hn. apply asyncWrite_other; [done|]. intros ->.
  destruct (ri_reg _ _ Hinv _ _ _ E) as (c' & ? & ? & _). congruence.
Qed.

(** C4: Client isolation of downlink data: in a reachable pool, what the
    server sends for a connection with a known owner reaches only channels of
    that client; every other channel gains at most back-pressure notices. *)
Theorem sendDownlink_confined cfg connID msgType meta payload p i st :
  regInv cfg (p_net p) -> getConn connID p = Some (i, st) -> st_clientID st <> [] ->
  forall w c, n_heap (p_net p) !! w = Some c -> ws_clientID c <> st_clientID st ->
    exists c', n_heap (p_net (sendDownlink connID msgType meta payload p).1) !! w = Some c' /\
      wsGrows backpressureTask c c'.
Proof.
  intros Hinv Hg Hne w c Hc Hcl. unfold sendDownlink. rewrite Hg.
  destruct (0 <? st_downlinkChID st); unfold poolSend, poolBroadcast.
  - pose proof (send_confined cfg (st_clientID st) (st_downlinkChID st) BinaryMessage
      (EncodeMessage msgType connID meta payload) _ Hinv w c Hc Hcl) as H.
    by destruct (sendToChannel _ _ _ _ _).
  - pose proof (broadcast_confined (st_clientID st) BinaryMessage
      (EncodeMessage msgType connID meta payload) _ Hne w c Hc Hcl) as H.
    by destruct (broadcastWriteToClient _ _ _ _).
Qed.

(** A second client, ["b"], on its own channel 1. *)
Definition two : serverPool := register (lit "b") 1 (lit "addrB") run4.

Lemma sendDownlink_confined_witness :
  exists c', n_heap (p_net (sendDownlink (lit "id") MsgTCPData [] (lit "secret") two).1)
    !! 2%positive = Some c' /\ ws_queue c' = [].
Proof.
  destruct (sendDownlink_confined Server.DefaultServerConfig (lit "id") MsgTCPData [] (lit "secret")
    two 1%positive (runState true (Some 1%positive))) with (w := 2%positive)
    (c := newServerWSConn (lit "b") 1 (lit "addrB")) as (c' & H & _).
  - apply (reachable_regInv Server.DefaultServerConfig 0).
    eapply rtc_r; [exact (pl_net _ _ (poolSteps_le _ _ run4_steps))|].
    apply (st_register Server.DefaultServerConfig (p_net run4) (lit "b") 1 (lit "addrB")).
  - vm_compute; reflexivity.
  - discriminate.
  - vm_compute; reflexivity.
  - discriminate.
  - exists c'. split; [exact H|]. vm_compute in H. injection H as <-. reflexivity.
Defined.

(** ** Reverse connections belong to one client *)

(** A message that carries the identifier of another client's reverse
    connection is counted and dropped, whatever its type. *)
Theorem reverse_isolated clientID chID rawLen msgType connID meta payload o p i rc :
  getReverseConn connID p = Some (i, rc) -> rc_ownerClientID rc <> clientID ->
  handleMessage clientID chID rawLen msgType connID meta payload o p
  = p <| p_net ::= addReceivedBytes rawLen |>.
Proof.
  intros Hg Hne. unfold handleMessage.
  assert (getReverseConn connID (p <| p_net ::= addReceivedBytes rawLen |>) = Some (i, rc)) as ->
    by exact Hg.
  by rewrite bool_decide_false.
Qed.

Lemma reverse_isolated_witness :
  handleMessage (lit "b") 1 9 MsgTCPClose (lit "u") [] [] noErrors rev1
  = rev1 <| p_net ::= addReceivedBytes 9 |>.
Proof.
  apply (reverse_isolated (lit "b") 1 9 MsgTCPClose (lit "u") [] [] noErrors rev1 1%positive
    (newServerReverseConn (lit "u") (lit "a") (lit "h:80"))); [vm_compute; reflexivity|discriminate].
Defined.

(** ** Clean-up of a channel *)
Lemma unregisterConn_conns id p : p_conns (unregisterConn id p) = delete id (p_conns p).
Proof.
  unfold unregisterConn. destruct (p_conns p !! id) as [i|] eqn:E.
  - simpl p_states. destruct (p_states p !! i) as [st|]; [|done].
    destruct (st_closed st); [done|]. destruct (negb _); [done|]. unfold closeSock.
    by destruct (st_targetUDP st), (st_targetConn st).
  - apply map_eq. intros j. rewrite lookup_delete. case_decide; [by subst|done].
Qed.

Lemma closeSock_frame k p :
  p_states (closeSock k p) = p_states p /\ p_net (closeSock k p) = p_net p /\
  p_hotPairs (closeSock k p) = p_hotPairs p /\ p_revConns (closeSock k p) = p_revConns p /\
  p_revHeap (closeSock k p) = p_revHeap p /\ p_manager (closeSock k p) = p_manager p.
Proof. by destruct k. Qed.

Lemma unregisterConn_frame id p :
  let p' := unregisterConn id p in
  p_net p' = p_net p /\ p_hotPairs p' = p_hotPairs p /\ p_revConns p' = p_revConns p /\
  p_revHeap p' = p_revHeap p /\ p_manager p' = p_manager p.
Proof.
  unfold unregisterConn. destruct (p_conns p !! id) as [i|]; [|done].
  simpl p_states. destruct (p_states p !! i) as [st|]; [|done].
  destruct (st_closed st); [done|]. destruct (negb _); [done|].
  match goal with |- context [closeSock ?a (closeSock ?b ?q)] =>
    pose proof (closeSock_frame a (closeSock b q)) as (_ & -> & -> & -> & -> & ->);
    pose proof (closeSock_frame b q) as (_ & -> & -> & -> & -> & ->) end. done.
Qed.

(** The fields by which a channel is recognised. *)
Definition route (st : ServerConnState) : bytes * Z * Z :=
  (st_clientID st, st_uplinkChID st, st_downlinkChID st).

Lemma usesChannel_route cl ch st st' :
  route st' = route st -> usesChannel cl ch st' = usesChannel cl ch st.
Proof. unfold route, usesChannel. by intros [= -> -> ->]. Qed.

Lemma alter_route (f : ServerConnState -> ServerConnState) (i j : stid)
    (m : gmap stid ServerConnState) :
  (forall st, route (f st) = route st) -> route <$> alter f i m !! j = route <$> m !! j.
Proof.
  intros Hf. destruct (decide (i = j)) as [<-|].
  - rewrite lookup_alter_eq. destruct (m !! i); simpl; [by rewrite Hf|done].
  - by rewrite lookup_alter_ne.
Qed.

Lemma unregisterConn_routes id p j :
  route <$> p_states (unregisterConn id p) !! j = route <$> p_states p !! j.
Proof.
  unfold unregisterConn. destruct (p_conns p !! id) as [i|]; [|done].
  simpl p_states. destruct (p_states p !! i) as [st|]; [|done].
  destruct (st_closed st); [done|]. destruct (negb _); [by apply alter_route|].
  match goal with |- context [closeSock ?a (closeSock ?b ?q)] =>
    pose proof (closeSock_frame a (closeSock b q)) as (-> & _);
    pose proof (closeSock_frame b q) as (-> & _) end.
  unfold updState; simpl. rewrite !alter_route by done. done.
Qed.

Lemma foldl_unregister ids : forall p,
  let p' := foldl (fun p id => unregisterConn id p) p ids in
  (forall id, p_conns p' !! id = if decide (id ∈ ids) then None else p_conns p !! id) /\
  (forall j, route <$> p_states p' !! j = route <$> p_states p !! j) /\
  p_net p' = p_net p /\ p_hotPairs p' = p_hotPairs p /\ p_revConns p' = p_revConns p /\
  p_revHeap p' = p_revHeap p /\ p_manager p' = p_manager p.
Proof.
  induction ids as [|id ids IH]; intros p; simpl; [by split_and!|].
  destruct (IH (unregisterConn id p)) as (Hc & Hs & Hn & Hh & Hr & Hrh & Hm).
  destruct (unregisterConn_frame id p) as (Fn & Fh & Fr & Frh & Fm).
  split_and!; [| |congruence..].
  - intros id'. rewrite Hc, unregisterConn_conns, lookup_delete.
    repeat case_decide; try done; set_solver.
  - intros j. by rewrite Hs, unregisterConn_routes.
Qed.

Lemma connsUsing_elem cl ch p id i st :
  p_conns p !! id = Some i -> p_states p !! i = Some st ->
  id ∈ connsUsing cl ch p <-> usesChannel cl ch st = true.
Proof.
  intros Hc Hs. unfold connsUsing. rewrite list_elem_of_omap. split.
  - intros ([id' i'] & Hin%elem_of_map_to_list & H).
    destruct (p_states p !! i') as [st'|] eqn:E; [|done].
    destruct (usesChannel cl ch st') eqn:Eu; [|done]. injection H as ->. congruence.
  - intros Hu. exists (id, i). rewrite elem_of_map_to_list, Hs, Hu. done.
Qed.

Lemma removeReverseConn_frame id p :
  let p' := removeReverseConn id p in
  p_revConns p' = delete id (p_revConns p) /\
  (forall j, (fun rc => (rc_ownerClientID rc, rc_sendCh rc, rc_recvCh rc)) <$> p_revHeap p' !! j
             = (fun rc => (rc_ownerClientID rc, rc_sendCh rc, rc_recvCh rc)) <$> p_revHeap p !! j) /\
  p_net p' = p_net p /\ p_hotPairs p' = p_hotPairs p /\ p_conns p' = p_conns p /\
  p_states p' = p_states p /\ p_manager p' = p_manager p.
Proof.
  unfold removeReverseConn. destruct (p_revConns p !! id) as [i|] eqn:E.
  - split_and!; try done. intros j. unfold updRev; simpl.
    destruct (decide (i = j)) as [<-|]; [|by rewrite lookup_alter_ne].
    rewrite lookup_alter_eq. destruct (p_revHeap p !! i) as [rc|]; [|done]. simpl.
    unfold settle. by destruct (rc_settled rc).
  - split_and!; try done. apply map_eq. intros j. rewrite lookup_delete. case_decide; by subst.
Qed.

Lemma foldl_removeRev ids : forall p,
  let p' := foldl (fun p id => removeReverseConn id p) p ids in
  (forall id, p_revConns p' !! id = if decide (id ∈ ids) then None else p_revConns p !! id) /\
  (forall j, (fun rc => (rc_ownerClientID rc, rc_sendCh rc, rc_recvCh rc)) <$> p_revHeap p' !! j
             = (fun rc => (rc_ownerClientID rc, rc_sendCh rc, rc_recvCh rc)) <$> p_revHeap p !! j) /\
  p_net p' = p_net p /\ p_hotPairs p' = p_hotPairs p /\ p_conns p' = p_conns p /\
  p_states p' = p_states p /\ p_manager p' = p_manager p.
Proof.
  induction ids as [|id ids IH]; intros p; simpl; [by split_and!|].
  destruct (IH (removeReverseConn id p)) as (Hc & Hs & Hn & Hh & Hr & Hrh & Hm).
  destruct (removeReverseConn_frame id p) as (Fc & Fs & Fn & Fh & Fr & Frh & Fm).
  split_and!; [| |congruence..].
  - intros id'. rewrite Hc, Fc, lookup_delete. repeat case_decide; try done; set_solver.
  - intros j. by rewrite Hs, Fs.
Qed.

Lemma revConnsUsing_elem cl ch p id i rc :
  p_revConns p !! id = Some i -> p_revHeap p !! i = Some rc ->
  id ∈ revConnsUsing cl ch p <-> revUsesChannel cl ch rc = true.
Proof.
  intros Hc Hs. unfold revConnsUsing. rewrite list_elem_of_omap. split.
  - intros ([id' i'] & Hin%elem_of_map_to_list & H).
    destruct (p_revHeap p !! i') as [st'|] eqn:E; [|done].
    destruct (revUsesChannel cl ch st') eqn:Eu; [|done]. injection H as ->. congruence.
  - intros Hu. exists (id, i). rewrite elem_of_map_to_list, Hs, Hu. done.
Qed.

(** The last part of the clean-up concerns the hot pairs, the listeners and the
    connection itself. *)
Definition cleanupEnd (cl : bytes) (ch : Z) (wsConn : option wsid) (gone : bool) (p : serverPool)
    : serverPool :=
  let p := p <| p_hotPairs ::= if gone then InvalidateClient cl else InvalidateChannel ch |> in
  let p := if gone then p <| p_manager ::= ShutdownClient cl |> else p in
  match wsConn with
  | Some w => if isActive (p_net p) w then p <| p_net ::= markClosed false w |> else p
  | None => p
  end.

Lemma cleanupEnd_frame cl ch wsConn gone p :
  let p' := cleanupEnd cl ch wsConn gone p in
  p_conns p' = p_conns p /\ p_states p' = p_states p /\ p_revConns p' = p_revConns p /\
  p_revHeap p' = p_revHeap p /\ n_clientChConns (p_net p') = n_clientChConns (p_net p) /\
  p_hotPairs p' = (if gone then InvalidateClient cl else InvalidateChannel ch) (p_hotPairs p) /\
  (forall w, wsConn = Some w -> isActive (p_net p') w = false).
Proof.
  assert (forall w q, isActive (markClosed false w (p_net q)) w = false) as Hclosed.
  { intros w q. unfold isActive, markClosed. rewrite updWS_lookup. case_decide; [|done].
    by destruct (n_heap (p_net q) !! w). }
  unfold cleanupEnd. destruct gone; (destruct wsConn as [w|]; [|by split_and!]);
    simpl p_net; destruct (isActive (p_net p) w) eqn:Ea; (split_and!; [done..|]);
    intros w' [= <-]; [apply (Hclosed w p)|done|apply (Hclosed w p)|done].
Qed.

Lemma stored_after_cleanup cl ch (gone : bool) t key e :
  stored ((if gone then InvalidateClient cl else InvalidateChannel ch) t) cl key = Some e ->
  refsChannel ch e = false.
Proof.
  destruct gone.
  - unfold stored, InvalidateClient. by rewrite lookup_delete_eq.
  - rewrite stored_InvalidateChannel. unfold stored. intros H.
    repeat case_match; simplify_eq; done.
Qed.

Lemma cleanupChannel_parts cl ch p :
  let '(net, wsConn, gone) := forgetChannel cl ch (p_net p) in
  exists armed,
  let p1 := p <| p_net := net |> <| p_prebindArmed := armed |> in
  let p2 := foldl (fun p id => unregisterConn id p) p1 (connsUsing cl ch p) in
  let p3 := foldl (fun p id => removeReverseConn id p) p2 (revConnsUsing cl ch p) in
  cleanupChannel cl ch p = cleanupEnd cl ch wsConn gone p3.
Proof.
  unfold cleanupChannel. destruct (forgetChannel cl ch (p_net p)) as [[net wsConn] gone].
  exists (if gone then delete cl (p_prebindArmed p) else p_prebindArmed p).
  unfold cleanupEnd. cbv zeta.
  replace (if gone then (p <| p_net := net |>) <| p_prebindArmed ::= delete cl |>
           else p <| p_net := net |>)
    with (p <| p_net := net |> <| p_prebindArmed :=
            if gone then delete cl (p_prebindArmed p) else p_prebindArmed p |>)
    by (destruct gone; by destruct p).
  set (p1 := p <| p_net := net |> <| p_prebindArmed := _ |>).
  change (connsUsing cl ch p1) with (connsUsing cl ch p).
  destruct (foldl_unregister (connsUsing cl ch p) p1) as (_ & _ & _ & _ & Hr & Hrh & _).
  set (p2 := foldl _ p1 _) in *.
  assert (revConnsUsing cl ch p2 = revConnsUsing cl ch p) as ->
    by (unfold revConnsUsing; by rewrite Hr, Hrh).
  by destruct gone.
Qed.

(** C5: Cleaning up a channel: the channel is gone from the client's map and its
    connection is closed; exactly the connections and reverse connections of this
    client that used it are unregistered; and the client keeps no hot pair that
    names it. *)
Theorem cleanupChannel_spec cl ch p :
  let p' := cleanupChannel cl ch p in
  (forall cl' ch', lookupChannel (p_net p') cl' ch'
     = if decide (cl' = cl /\ ch' = ch) then None else lookupChannel (p_net p) cl' ch') /\
  (forall w, lookupChannel (p_net p) cl ch = Some w -> isActive (p_net p') w = false) /\
  (forall id i st, p_conns p !! id = Some i -> p_states p !! i = Some st ->
     p_conns p' !! id = if usesChannel cl ch st then None else Some i) /\
  (forall id i rc, p_revConns p !! id = Some i -> p_revHeap p !! i = Some rc ->
     p_revConns p' !! id = if revUsesChannel cl ch rc then None else Some i) /\
  (forall key e, stored (p_hotPairs p') cl key = Some e -> refsChannel ch e = false).
Proof.
  intros p'. pose proof (cleanupChannel_parts cl ch p) as Hparts.
  pose proof (fun cl' ch' => lookupChannel_forget cl ch (p_net p) cl' ch') as Hforget.
  assert (Hstored : (forgetChannel cl ch (p_net p)).1.2 = lookupChannel (p_net p) cl ch).
  { unfold forgetChannel, lookupChannel. by destruct (n_clientChConns (p_net p) !! cl). }
  destruct (forgetChannel cl ch (p_net p)) as [[net wsConn] gone]. cbn [fst snd] in *.
  destruct Hparts as (armed & Hp). fold p' in Hp.
  set (p1 := p <| p_net := net |> <| p_prebindArmed := armed |>) in *.
  destruct (foldl_unregister (connsUsing cl ch p) p1) as (Uc & _ & Un & _ & Ur & _).
  set (p2 := foldl (fun p id => unregisterConn id p) p1 _) in *.
  destruct (foldl_removeRev (revConnsUsing cl ch p) p2) as (Rr & _ & Rn & _ & Rc & _).
  set (p3 := foldl (fun p id => removeReverseConn id p) p2 _) in *.
  destruct (cleanupEnd_frame cl ch wsConn gone p3) as (Ec & _ & Er & _ & Ech & Eh & Ew).
  cbv zeta in Hp. rewrite <- Hp in *. split_and!.
  - intros cl' ch'. rewrite <- Hforget. unfold lookupChannel. by rewrite Ech, Rn, Un.
  - intros w Hw. apply Ew. congruence.
  - intros id i st Hc Hs. rewrite Ec, Rc, Uc. change (p_conns p1) with (p_conns p).
    pose proof (connsUsing_elem cl ch p id i st Hc Hs) as He.
    destruct (usesChannel cl ch st); [rewrite decide_True by tauto|rewrite decide_False]; try done.
    intros H. by apply He in H.
  - intros id i rc Hc Hs. rewrite Er, Rr, Ur. change (p_revConns p1) with (p_revConns p).
    pose proof (revConnsUsing_elem cl ch p id i rc Hc Hs) as He.
    destruct (revUsesChannel cl ch rc); [rewrite decide_True by tauto|rewrite decide_False]; try done.
    intros H. by apply He in H.
  - intros key e. rewrite Eh. apply stored_after_cleanup.
Qed.

(** ** Where the code does not do what its comments say *)

(** When the target ends the connection, no message goes out: the deferred
    [unregisterConn] runs before the deferred [sendDownlink], which then finds no
    connection (the comment in [forwardTargetToClient] claims the reverse order
    and that [MsgTCPClose] reaches the client). *)
Lemma forward_close_unannounced i p :
  connsWf p -> p_net (forwardTargetToClient i None p) = p_net p.
Proof.
  intros Hw. unfold forwardTargetToClient. destruct (p_states p !! i) as [st|]; [|done].
  unfold sendDownlink, getConn. rewrite unregisterConn_conns, lookup_delete_eq.
  cbn [mbind option_bind]. unfold goBecomes; simpl. apply unregisterConn_frame.
Qed.

(** A payload that arrives while the pending data is being flushed overtakes it:
    the target receives ["late"] before ["early"]. *)
Lemma late_data_overtakes :
  let p1 := deliver 1 (lit "id") [lit "early"] run3 in
  let p2 := connectDialed 1 true p1 in
  let p3 := handleTCPData 1 (lit "id") (lit "late") false p2 in
  let p4 := flushAll 1 1 [lit "early"] p3 in
  sk_sent <$> (p_socks p4 !! 1%positive) = Some [([], lit "late"); ([], lit "early")].
Proof. by vm_compute. Qed.

(** A request read from a channel that was cleaned up meanwhile registers a
    connection without owner, and what its target sends is then broadcast to the
    channels of all clients: ["b"] receives data of ["a"]'s connection. *)
Definition orphan : serverPool :=
  let p := register (lit "b") 1 (lit "addrB") run1 in
  let p := closeWS 1 p in
  let p := readLoopStep 1 (frameIn MsgTCPConnect (lit "id") (byte_of_Z 0 :: lit "h:80") [])
             noErrors p in
  let p := connectDialed 1 true (connectStart 1 p) in
  forwardTargetToClient 1 (Some (lit "secret")) (flushAll 1 1 [] p).

Lemma orphan_data_leaks :
  (fun c => (ws_clientID c, last (ws_queue c))) <$> (n_heap (p_net orphan) !! 2%positive)
  = Some (lit "b", Some (mkWriteTask BinaryMessage
                           (EncodeMessage MsgTCPData (lit "id") [] (lit "secret")) 16)).
Proof. by vm_compute. Qed.

(** A reconnect that takes over the number of a connection which is being closed
    is undone by the end of that [close]: the clean-up does not check which
    connection is registered, and closes the new one. *)
Lemma cleanup_kills_successor :
  let p1 := closeBegin 1 run1 in
  let p2 := register (lit "a") 1 (lit "again") p1 in
  let p3 := closeEnd (lit "a") 1 p2 in
  lookupChannel (p_net p2) (lit "a") 1 = Some 2%positive /\ isActive (p_net p2) 2 = true /\
  lookupChannel (p_net p3) (lit "a") 1 = None /\ isActive (p_net p3) 2 = false.
Proof. by vm_compute. Qed.

(** Any client can close any connection whose identifier it knows: the handler
    of [MsgTCPClose] looks at neither the client nor the channel. *)
Lemma close_any_client clientID chID rawLen connID meta payload o p :
  getReverseConn connID p = None ->
  p_conns (handleMessage clientID chID rawLen MsgTCPClose connID meta payload o p) !! connID = None.
Proof.
  intros Hr. unfold handleMessage.
  assert (getReverseConn connID (p <| p_net ::= addReceivedBytes rawLen |>) = None) as ->
    by exact Hr.
  cbn [Z.eqb]. simpl. unfold handleTCPClose. by rewrite unregisterConn_conns, lookup_delete_eq.
Qed.
