(* ===== verification/Outcome.v ===== *)
(** Effects of the client's operations: a state monad whose computations return,
    block forever, or panic (which ends the process). *)

From S2P Require Import Prelude.

Inductive outcome (A : Type) : Type :=
| Ret (a : A)
| Blocked            (* the goroutine waits for something that never comes *)
| Panicked.
Arguments Ret {A} a.
Arguments Blocked {A}.
Arguments Panicked {A}.

Definition M (S A : Type) : Type := S -> S * outcome A.

Definition ret {S A} (a : A) : M S A := fun s => (s, Ret a).
Definition bind {S A B} (m : M S A) (k : A -> M S B) : M S B := fun s =>
  match m s with
  | (s, Ret a) => k a s
  | (s, Blocked) => (s, Blocked)
  | (s, Panicked) => (s, Panicked)
  end.
Definition get {S A} (f : S -> A) : M S A := fun s => (s, Ret (f s)).
Definition modify {S} (f : S -> S) : M S unit := fun s => (f s, Ret tt).
Definition block {S A} : M S A := fun s => (s, Blocked).
Definition panic {S A} : M S A := fun s => (s, Panicked).
Definition done_ {S} : M S unit := ret tt.

(** The state after a computation, whatever its outcome. *)
Definition exec {S A} (m : M S A) (s : S) : S := (m s).1.

(** A computation on a part of the state. *)
Definition zoom {S T A} (rd : S -> T) (wr : T -> S -> S) (m : M T A) : M S A := fun s =>
  let '(t, o) := m (rd s) in (wr t s, o).

Fixpoint forEach {S A} (l : list A) (f : A -> M S unit) : M S unit :=
  match l with
  | [] => ret tt
  | x :: l => bind (f x) (fun _ => forEach l f)
  end.

Declare Scope outcome_scope.
Delimit Scope outcome_scope with outcome.
Notation "'let!' x := m 'in' k" := (bind m (fun x => k))
  (at level 200, x pattern, m at level 100, k at level 200, right associativity) : outcome_scope.
Notation "'do!' m 'in' k" := (bind m (fun _ => k))
  (at level 200, m at level 100, k at level 200, right associativity) : outcome_scope.
#[global] Open Scope outcome_scope.

(** ** Invariants of computations *)

(** [m] leads from states with [I] to states with [I], unless it panics. *)
Definition keeps {S A} (I : S -> Prop) (m : M S A) : Prop :=
  forall s, I s -> match m s with (_, Panicked) => True | (s', _) => I s' end.

Lemma keeps_ret_at {S A} (I : S -> Prop) (m : M S A) s s' a :
  keeps I m -> I s -> m s = (s', Ret a) -> I s'.
Proof. intros Hm Hs E. specialize (Hm s Hs). by rewrite E in Hm. Qed.

Section Keeps.
Context {S : Type} (I : S -> Prop).

Lemma keeps_ret {A} (a : A) : keeps I (ret a).
Proof. by intros s Hs. Qed.
Lemma keeps_get {A} (f : S -> A) : keeps I (get f).
Proof. by intros s Hs. Qed.
Lemma keeps_block {A} : keeps I (@block S A).
Proof. by intros s Hs. Qed.
Lemma keeps_panic {A} : keeps I (@panic S A).
Proof. by intros s Hs. Qed.
Lemma keeps_modify f : (forall s, I s -> I (f s)) -> keeps I (modify f).
Proof. intros Hf s Hs. by apply Hf. Qed.
Lemma keeps_bind {A B} (m : M S A) (k : A -> M S B) :
  keeps I m -> (forall a, keeps I (k a)) -> keeps I (bind m k).
Proof.
  intros Hm Hk s Hs. unfold bind. specialize (Hm s Hs).
  destruct (m s) as [s' [a| |]]; [by apply Hk|done|done].
Qed.
(** The continuation may use what was just read. *)
Lemma keeps_get_bind {A B} (f : S -> A) (k : A -> M S B) :
  (forall s, I s -> match k (f s) s with (_, Panicked) => True | (s', _) => I s' end) ->
  keeps I (bind (get f) k).
Proof. intros Hk s Hs. by apply Hk. Qed.
Lemma keeps_forEach {A} (l : list A) (f : A -> M S unit) :
  (forall x, x ∈ l -> keeps I (f x)) -> keeps I (forEach l f).
Proof.
  induction l as [|x l IH]; intros Hf; [apply keeps_ret|]. cbn. apply keeps_bind.
  - apply Hf. left.
  - intros _. apply IH. intros y Hy. apply Hf. by right.
Qed.
End Keeps.
#[export] Hint Resolve keeps_ret keeps_get keeps_block keeps_panic : xt.

Lemma keeps_zoom {S T A} (I : S -> Prop) (J : T -> Prop) rd wr (m : M T A) :
  (forall s, I s -> J (rd s)) -> (forall s t, I s -> J t -> I (wr t s)) ->
  keeps J m -> keeps I (zoom rd wr m).
Proof.
  intros Hrd Hwr Hm s Hs. specialize (Hm (rd s) (Hrd s Hs)). unfold zoom in *.
  destruct (m (rd s)) as [t []]; [by apply Hwr|by apply Hwr|done].
Qed.

Lemma bind_ret {S A B} (m : M S A) (k : A -> M S B) s s' a :
  m s = (s', Ret a) -> bind m k s = k a s'.
Proof. unfold bind. by intros ->. Qed.

Lemma bind_ext {S A B} (m n : M S A) (k l : A -> M S B) s :
  m s = n s -> (forall a s', m s = (s', Ret a) -> k a s' = l a s') -> bind m k s = bind n l s.
Proof. intros E Hk. unfold bind. rewrite <- E. destruct (m s) as [s' []]; [by apply Hk|done|done]. Qed.

(** Every step of a computation is related to the state it started from. *)
Definition moves {S A} (R : relation S) (m : M S A) : Prop := forall s, R s (exec m s).

Section Moves.
Context {S : Type} (R : relation S) `{!PreOrder R}.

Lemma moves_ret {A} (a : A) : moves R (ret a).
Proof. by intros s. Qed.
Lemma moves_get {A} (f : S -> A) : moves R (get f).
Proof. by intros s. Qed.
Lemma moves_block {A} : moves R (@block S A).
Proof. by intros s. Qed.
Lemma moves_panic {A} : moves R (@panic S A).
Proof. by intros s. Qed.
Lemma moves_bind {A B} (m : M S A) (k : A -> M S B) :
  moves R m -> (forall a, moves R (k a)) -> moves R (bind m k).
Proof.
  intros Hm Hk s. unfold exec, bind. specialize (Hm s). unfold exec in Hm.
  destruct (m s) as [s' [a| |]]; cbn in *; [etrans; [exact Hm|apply Hk]|done|done].
Qed.
Lemma moves_get_bind {A B} (f : S -> A) (k : A -> M S B) :
  (forall s, R s (exec (k (f s)) s)) -> moves R (bind (get f) k).
Proof. intros Hk s. apply Hk. Qed.
Lemma moves_forEach {A} (l : list A) (f : A -> M S unit) :
  (forall x, moves R (f x)) -> moves R (forEach l f).
Proof.
  intros Hf. induction l as [|x l IH]; [apply moves_ret|]. cbn. by apply moves_bind.
Qed.
End Moves.
