(* ===== verification/ClientNet.v ===== *)
(** The client's channel layer ([pool.go]): write queues, the global queue
    counter, the write workers, back-pressure, sessions and shutdown.

    A Go channel [chan writeJob] is an object of [cn_queues]: its buffer and
    whether it is closed; [cn_writeQueues] and the workers hold pointers to it,
    since every session of a channel has a queue of its own. A WebSocket is what was
    written to it.

    A write may block. What the other goroutines do meanwhile is a list of
    [netEvent]; the lists, one per blocking call, are the field [cn_schedule], so
    that the schedule is part of the state. When a list ends, nothing happens any
    more while the goroutine waits: its timer fires, or, without one, it waits
    forever. *)

From S2P Require Import Prelude Outcome Protocol Config Channels.
Import Config.Client.

Abbreviation qid := positive.
Abbreviation sockid := positive.
Abbreviation wkid := positive.

(** ** State *)
Record writeJob := mkWriteJob { wj_msgType : Z; wj_data : bytes; wj_size : Z }.

Record jobQueue := mkJobQueue { jq_jobs : list writeJob; jq_closed : bool }.
#[export] Instance jobQueue_eta : Eta jobQueue := fun q => mkJobQueue (jq_jobs q) (jq_closed q).

Record clientSock := mkClientSock { cs_wire : list (Z * bytes); cs_closed : bool }.
#[export] Instance clientSock_eta : Eta clientSock := fun c =>
  mkClientSock (cs_wire c) (cs_closed c).

(** The local variables of a running [writeWorker]. *)
Record writeWorker := mkWriteWorker {
  wk_conn : sockid; wk_queue : qid; wk_pending : option writeJob }.
#[export] Instance writeWorker_eta : Eta writeWorker := fun w =>
  mkWriteWorker (wk_conn w) (wk_queue w) (wk_pending w).

(** What wakes a worker up. *)
Inductive wakeup := WakeJob | WakeTick | WakeDone.

Inductive netEvent :=
| NeWorker (k : wkid) (ev : wakeup) (werr : bool)   (* one turn; [werr]: a write fails *)
| NeBackpressure (state : Z)                        (* the server's notice *)
| NeTime (d : Z)                                    (* time passes *)
| NeOpen (idx : nat)                                (* a session begins *)
| NeClose (idx : nat)                               (* a session ends *)
| NeReconnect                                       (* [reconnectLoop] *)
| NeCancel                                          (* [cancel]; a [select] takes [ctx.Done()] *)
| NeShutdown.                                       (* all of [shutdown] at once *)

Record ClientNet := mkClientNet {
  cn_queues : gmap qid jobQueue;
  cn_writeQueues : list (option qid);
  cn_socks : gmap sockid clientSock;
  cn_wsConns : list (option sockid);
  cn_workers : gmap wkid writeWorker;
  cn_globalQueueBytes : Z;
  cn_globalQueueLimit : Z;
  cn_bytesSent : Z;
  cn_bytesReceived : Z;
  cn_backpressureState : Z;
  cn_resumeCh : bool;                (* capacity 1 *)
  cn_chReadyCh : list Z;
  cn_chInvalidCh : list Z;
  cn_readyChannels : Z;
  cn_reconnectCh : bool;             (* capacity 1 *)
  cn_done : bool;                    (* the context is cancelled *)
  cn_now : Z;
  cn_schedule : list (list netEvent) }.

#[export] Instance ClientNet_eta : Eta ClientNet := fun s =>
  mkClientNet (cn_queues s) (cn_writeQueues s) (cn_socks s) (cn_wsConns s) (cn_workers s)
    (cn_globalQueueBytes s) (cn_globalQueueLimit s) (cn_bytesSent s) (cn_bytesReceived s)
    (cn_backpressureState s) (cn_resumeCh s) (cn_chReadyCh s) (cn_chInvalidCh s)
    (cn_readyChannels s) (cn_reconnectCh s) (cn_done s) (cn_now s) (cn_schedule s).

Definition writeQueueSize : Z := 16384.
Definition notifyChCap : Z := 64.

(** The queues that [newClientPool] makes. *)
Definition initialQueues (n : nat) : gmap qid jobQueue :=
  list_to_map (map (fun i => (Pos.of_succ_nat i, mkJobQueue [] false)) (seq 0 n)).

(** The network part of [newClientPool]. *)
Definition newClientNet (cfg : Config) (schedule : list (list netEvent)) : ClientNet :=
  let n := Z.to_nat (Connections cfg) in
  mkClientNet (initialQueues n) (map (fun i => Some (Pos.of_succ_nat i)) (seq 0 n))
    ∅ (replicate n None) ∅ 0 (queueLimit cfg) 0 0 BackpressureNormal false [] [] 0 false
    false 0 schedule.

Definition updQueue (q : qid) (f : jobQueue -> jobQueue) (s : ClientNet) : ClientNet :=
  s <| cn_queues ::= alter f q |>.
Definition updSock (c : sockid) (f : clientSock -> clientSock) (s : ClientNet) : ClientNet :=
  s <| cn_socks ::= alter f c |>.

Definition caddSentBytes (n : Z) (s : ClientNet) : ClientNet :=
  if 0 <? n then s <| cn_bytesSent ::= fun b => uint64 (b + n) |> else s.
Definition caddReceivedBytes (n : Z) (s : ClientNet) : ClientNet :=
  if 0 <? n then s <| cn_bytesReceived ::= fun b => uint64 (b + n) |> else s.

(** ** The global counter *)
Definition reserveQueueBytes (size : Z) (s : ClientNet) : ClientNet * bool :=
  if size <=? 0 then (s, true) else
  if cn_globalQueueLimit s <? cn_globalQueueBytes s + size then (s, false)
  else (s <| cn_globalQueueBytes ::= Z.add size |>, true).

Definition releaseQueueBytes (size : Z) (s : ClientNet) : ClientNet :=
  if size <=? 0 then s else
  let next := cn_globalQueueBytes s - size in
  s <| cn_globalQueueBytes := if next <? 0 then 0 else next |>.

(** ** Sockets *)

(** [conn.WriteMessage]; it fails on a closed socket. *)
Definition sockWrite (c : sockid) (msgType : Z) (data : bytes) (werr : bool) (s : ClientNet)
    : ClientNet * bool :=
  match cn_socks s !! c with
  | Some k => if cs_closed k || werr then (s, false)
              else (updSock c (fun k => k <| cs_wire ::= fun l => l ++ [(msgType, data)] |>) s, true)
  | None => (s, false)
  end.

Definition sockClose (c : sockid) (s : ClientNet) : ClientNet :=
  updSock c (fun k => k <| cs_closed := true |>) s.

(** ** The write worker *)

(** Its deferred function: the bytes of what is left in the queue are released. *)
Fixpoint drainJobs (jobs : list writeJob) (s : ClientNet) : ClientNet :=
  match jobs with
  | [] => s
  | j :: jobs => drainJobs jobs (releaseQueueBytes (wj_size j) s)
  end.

Definition queueJobs (q : qid) (s : ClientNet) : list writeJob :=
  match cn_queues s !! q with Some q => jq_jobs q | None => [] end.

Definition workerExit (k : wkid) (w : writeWorker) (s : ClientNet) : ClientNet :=
  let s := drainJobs (queueJobs (wk_queue w) s) s in
  (updQueue (wk_queue w) (fun q => q <| jq_jobs := [] |>) s) <| cn_workers ::= delete k |>.

(** [case j, ok := <-queue]. *)
Inductive recvResult := RecvJob (j : writeJob) | RecvClosed | RecvEmpty.

Definition queueRecv (q : qid) (s : ClientNet) : ClientNet * recvResult :=
  match cn_queues s !! q with
  | Some (mkJobQueue (j :: jobs) _) => (updQueue q (fun q => q <| jq_jobs := jobs |>) s, RecvJob j)
  | Some (mkJobQueue [] true) => (s, RecvClosed)
  | _ => (s, RecvEmpty)
  end.

(** A queued job that can be merged behind a data frame of [connID]. *)
Definition mergeable (connID : bytes) (maxAgg total : Z) (j : writeJob) : option bytes :=
  if negb (wj_msgType j =? BinaryMessage) then None else
  match DecodeMessage (wj_data j) with
  | Some (inr f) =>
      if negb (f_type f =? MsgTCPData) || negb (bool_decide (f_connID f = connID))
         || negb (len (f_meta f) =? 0) then None
      else if maxAgg <? total + len (f_payload f) then None
      else Some (f_payload f)
  | _ => None
  end.

(** The loop [AggLoop] over the buffer [jobs] of the queue: the parts taken, the job
    it stopped at, and what stays in the queue. Every job it looks at is released. *)
Fixpoint aggLoop (connID : bytes) (maxAgg total : Z) (jobs : list writeJob)
    : list bytes * option writeJob * list writeJob :=
  match jobs with
  | [] => ([], None, [])
  | j :: jobs =>
      match mergeable connID maxAgg total j with
      | None => ([], Some j, jobs)
      | Some pl =>
          let '(parts, pending, rest) := aggLoop connID maxAgg (total + len pl) jobs in
          (pl :: parts, pending, rest)
      end
  end.

(** The write of one frame; a failure closes the socket and ends the worker. *)
Definition workerWrite (k : wkid) (w : writeWorker) (msgType : Z) (data : bytes) (werr : bool)
    (s : ClientNet) : ClientNet :=
  match sockWrite (wk_conn w) msgType data werr s with
  | (s, true) => (caddSentBytes (len data) s) <| cn_workers ::= <[k := w]> |>
  | (s, false) => workerExit k w (sockClose (wk_conn w) s)
  end.

(** A job that was taken and released: written as it is, or merged with the data
    frames of its connection that follow. *)
Definition workerJob (cfg : Config) (k : wkid) (w : writeWorker) (job : writeJob) (werr : bool)
    (s : ClientNet) : ClientNet :=
  let raw := workerWrite k w (wj_msgType job) (wj_data job) werr s in
  if negb (wj_msgType job =? BinaryMessage) then raw else
  match DecodeMessage (wj_data job) with
  | Some (inr f) =>
      if negb (f_type f =? MsgTCPData) then raw else
      let maxAgg := ReadBufferSize cfg * 4 in
      let jobs := queueJobs (wk_queue w) s in
      let '(parts, pending, rest) := aggLoop (f_connID f) maxAgg (len (f_payload f)) jobs in
      let s := drainJobs (take (length jobs - length rest) jobs) s in
      let s := updQueue (wk_queue w) (fun q => q <| jq_jobs := rest |>) s in
      let merged := f_payload f ++ concat parts in
      let encoded := EncodeMessage MsgTCPData (f_connID f) (f_meta f) merged in
      workerWrite k (w <| wk_pending := pending |>) BinaryMessage encoded werr s
  | _ => raw
  end.

(** One turn of the loop of [writeWorker]. [werr]: the write of this turn fails. *)
Definition workerTurn (cfg : Config) (k : wkid) (ev : wakeup) (werr : bool) (s : ClientNet)
    : ClientNet :=
  match cn_workers s !! k with
  | None => s
  | Some w =>
      match wk_pending w with
      | Some job => workerJob cfg k (w <| wk_pending := None |>) job werr s
      | None =>
          match ev with
          | WakeDone => if cn_done s then workerExit k w s else s
          | WakeJob =>
              match queueRecv (wk_queue w) s with
              | (s, RecvClosed) => workerExit k w s
              | (s, RecvEmpty) => s
              | (s, RecvJob job) => workerJob cfg k w job werr (releaseQueueBytes (wj_size job) s)
              end
          | WakeTick =>
              match sockWrite (wk_conn w) PingMessage [] werr s with
              | (s, true) => s
              | (s, false) => workerExit k w (sockClose (wk_conn w) s)
              end
          end
      end
  end.

(** ** Sessions, as far as the network goes ([dialAndServe]) *)
Definition pushCap (cap : Z) (x : Z) (l : list Z) : list Z := if len l <? cap then l ++ [x] else l.

(** After a successful dial: a fresh socket and queue, a worker, the count, the
    notice. *)
Definition sessionOpen (idx : nat) (s : ClientNet) : ClientNet :=
  if bool_decide (idx < length (cn_wsConns s))%nat then
    let c := fresh (dom (cn_socks s)) in
    let q := fresh (dom (cn_queues s)) in
    let k := fresh (dom (cn_workers s)) in
    s <| cn_socks ::= <[c := mkClientSock [] false]> |>
      <| cn_queues ::= <[q := mkJobQueue [] false]> |>
      <| cn_wsConns ::= <[idx := Some c]> |>
      <| cn_writeQueues ::= <[idx := Some q]> |>
      <| cn_workers ::= <[k := mkWriteWorker c q None]> |>
      <| cn_readyChannels ::= fun n => int32 (n + 1) |>
      <| cn_chReadyCh ::= pushCap notifyChCap (Z.of_nat idx + 1) |>
  else s.

(** After [handleChannel] returned. *)
Definition sessionClose (idx : nat) (s : ClientNet) : ClientNet :=
  match cn_wsConns s !! idx with
  | Some (Some c) =>
      (sockClose c s) <| cn_wsConns ::= <[idx := None]> |>
        <| cn_readyChannels ::= fun n => int32 (n - 1) |>
        <| cn_chInvalidCh ::= pushCap notifyChCap (Z.of_nat idx + 1) |>
  | _ => s
  end.

(** [reconnectLoop] on a signal: every socket is closed under its reader. *)
Definition closeSocks (l : list (option sockid)) (s : ClientNet) : ClientNet :=
  foldl (fun s c => sockClose c s) s (omap id l).
Definition reconnectAll (s : ClientNet) : ClientNet :=
  if cn_reconnectCh s then closeSocks (cn_wsConns s) (s <| cn_reconnectCh := false |>) else s.
Definition Reconnect (s : ClientNet) : ClientNet := s <| cn_reconnectCh := true |>.

(** [shutdown]: the context, the queues, the sockets with a close frame. Waiting for
    the dialling goroutines is left out. *)
Definition closeFrame : bytes := PutUint16 1000.

Definition shutdown (s : ClientNet) : ClientNet :=
  let s := s <| cn_done := true |> in
  let s := foldl (fun s q => updQueue q (fun q => q <| jq_closed := true |>) s) s
             (omap id (cn_writeQueues s)) in
  let s := s <| cn_writeQueues ::= map (fun _ => None) |> in
  let s := foldl (fun s c => sockClose c (sockWrite c CloseMessage closeFrame false s).1) s
             (omap id (cn_wsConns s)) in
  s <| cn_wsConns ::= map (fun _ => None) |>.

(** ** Back-pressure notices *)
Definition handleBackpressure (state : Z) (s : ClientNet) : ClientNet :=
  let oldState := cn_backpressureState s in
  let s := s <| cn_backpressureState := state |> in
  if oldState =? state then s
  else if state =? BackpressureNormal then s <| cn_resumeCh := true |> else s.

(** ** What happens while a goroutine waits *)
Definition netApply (cfg : Config) (e : netEvent) (s : ClientNet) : ClientNet :=
  match e with
  | NeWorker k ev werr => workerTurn cfg k ev werr s
  | NeBackpressure state => handleBackpressure state s
  | NeTime d => s <| cn_now ::= fun t => t + Z.max 0 d |>
  | NeOpen idx => sessionOpen idx s
  | NeClose idx => sessionClose idx s
  | NeReconnect => reconnectAll (Reconnect s)
  | NeCancel => s <| cn_done := true |>
  | NeShutdown => shutdown s
  end.

Definition popSchedule : M ClientNet (list netEvent) := fun s =>
  match cn_schedule s with
  | [] => (s, Ret [])
  | evs :: rest => (s <| cn_schedule := rest |>, Ret evs)
  end.

(** ** Waiting for the end of a pause *)

(** The head of the loop of [waitForBackpressure]: return, or go on to [select]. *)
Definition waitCheck (deadline : Z) (s : ClientNet) : option ClientNet :=
  if negb (cn_backpressureState s =? BackpressurePause) then Some s
  else if deadline <? cn_now s then Some (s <| cn_backpressureState := BackpressureSlowDown |>)
  else None.

(** Its [select]; a signal leads back to the head. *)
Fixpoint waitSelect (cfg : Config) (deadline : Z) (evs : list netEvent) (s : ClientNet)
    : ClientNet * outcome bool :=
  let resumed := cn_resumeCh s in
  let s := s <| cn_resumeCh := false |> in
  match (if resumed then waitCheck deadline s else None) with
  | Some s => (s, Ret true)
  | None =>
      if cn_done s then (s, Ret false) else
      match evs with
      | [] => (s, Blocked)
      | e :: evs => waitSelect cfg deadline evs (netApply cfg e s)
      end
  end.

Definition waitForBackpressure (cfg : Config) : M ClientNet bool := fun s =>
  let deadline := cn_now s + 3 * Second in
  match waitCheck deadline s with
  | Some s => (s, Ret true)
  | None => (let! evs := popSchedule in waitSelect cfg deadline evs) s
  end.

Definition getBackpressureDelay (s : ClientNet) : Z :=
  if cn_backpressureState s =? BackpressureSlowDown then 10 * Millisecond
  else if cn_backpressureState s =? BackpressurePause then -1
  else 0.

(** [time.Sleep] *)
Definition sleep (cfg : Config) (d : Z) : M ClientNet unit :=
  let! evs := popSchedule in
  modify (fun s => foldl (fun s e => netApply cfg e s) (s <| cn_now ::= Z.add d |>) evs).

(** ** [asyncWriteDirect] *)
Inductive writeError := ErrChannelID | ErrClosing | ErrQueueLimit | ErrNoChannel | ErrCongested.

Definition chIndex (chID : Z) (s : ClientNet) : option nat :=
  let idx := chID - 1 in
  if (idx <? 0) || (len (cn_writeQueues s) <=? idx) then None else Some (Z.to_nat idx).

(** [queue <- job] without waiting: [None] when the buffer is full. Sending on a
    closed channel panics. *)
Definition trySend (q : qid) (job : writeJob) (s : ClientNet) : option (ClientNet * outcome unit) :=
  match cn_queues s !! q with
  | Some jq =>
      if jq_closed jq then Some (s, Panicked)
      else if len (jq_jobs jq) <? writeQueueSize
      then Some (updQueue q (fun jq => jq <| jq_jobs ::= fun l => l ++ [job] |>) s, Ret tt)
      else None
  | None => None
  end.

(** The second [select], with the timer: it fires when the events end. *)
Fixpoint sendWait (cfg : Config) (q : qid) (job : writeJob) (evs : list netEvent) (s : ClientNet)
    : ClientNet * outcome (option writeError) :=
  match evs with
  | [] => (releaseQueueBytes (wj_size job) s, Ret (Some ErrCongested))
  | e :: evs =>
      let s := netApply cfg e s in
      let closing := (releaseQueueBytes (wj_size job) s, Ret (Some ErrClosing)) in
      if (match e with NeCancel => true | _ => false end) then closing else
      match trySend q job s with
      | Some (s, Ret _) => (s, Ret None)
      | Some (s, Blocked) => (s, Blocked)
      | Some (s, Panicked) => (s, Panicked)
      | None => if cn_done s then closing else sendWait cfg q job evs s
      end
  end.

Definition enqueue (cfg : Config) (idx : nat) (msgType : Z) (data : bytes)
    : M ClientNet (option writeError) := fun s =>
  let size := len data in
  match reserveQueueBytes size s with
  | (s, false) => (s, Ret (Some ErrQueueLimit))
  | (s, true) =>
      match cn_writeQueues s !! idx with
      | Some (Some q) =>
          let job := mkWriteJob msgType data size in
          match trySend q job s with
          | Some (s, Ret _) => (s, Ret None)
          | Some (s, Blocked) => (s, Blocked)
          | Some (s, Panicked) => (s, Panicked)
          | None => (let! evs := popSchedule in sendWait cfg q job evs) s
          end
      | _ => (releaseQueueBytes size s, Ret (Some ErrNoChannel))
      end
  end.

Definition asyncWriteDirect (cfg : Config) (chID msgType : Z) (data : bytes)
    : M ClientNet (option writeError) := fun s =>
  match chIndex chID s with
  | None => (s, Ret (Some ErrChannelID))
  | Some idx =>
      let delay := getBackpressureDelay s in
      (if delay <? 0 then
         let! ok := waitForBackpressure cfg in
         if ok : bool then enqueue cfg idx msgType data else ret (Some ErrClosing)
       else if 0 <? delay then
         do! sleep cfg delay in enqueue cfg idx msgType data
       else enqueue cfg idx msgType data) s
  end.

(** ** Broadcast and queries *)
Definition liveIdxs (s : ClientNet) : list nat :=
  omap (fun '(i, c) => match c with Some _ => Some i | None => None end)
    (imap pair (cn_wsConns s)).

(** The loop of [broadcastWrite]: the number of successes. *)
Fixpoint broadcastLoop (cfg : Config) (idxs : list nat) (msgType : Z) (data : bytes) (n : Z)
    : M ClientNet Z :=
  match idxs with
  | [] => ret n
  | i :: idxs =>
      let! err := asyncWriteDirect cfg (Z.of_nat i + 1) msgType data in
      broadcastLoop cfg idxs msgType data (match err with None => n + 1 | Some _ => n end)
  end.

Definition broadcastWrite (cfg : Config) (msgType : Z) (data : bytes) : M ClientNet Z :=
  let! idxs := get liveIdxs in broadcastLoop cfg idxs msgType data 0.

Definition availableChannels (s : ClientNet) : list Z :=
  omap (fun i => match cn_writeQueues s !! i with
                 | Some (Some _) => Some (Z.of_nat i + 1)
                 | _ => None
                 end) (liveIdxs s).

(** [writeControlDirect]: past the queue. *)
Definition writeControlDirect (chID msgType : Z) (data : bytes) (werr : bool) (s : ClientNet)
    : ClientNet * bool :=
  match chIndex chID s with
  | None => (s, false)
  | Some idx =>
      match cn_wsConns s !! idx with
      | Some (Some c) => sockWrite c msgType data werr s
      | _ => (s, false)
      end
  end.

(** [Stats], its network part. *)
Definition activeChannels (s : ClientNet) : Z := len (liveIdxs s).
