(* ===== verification/ClientNetInv.v ===== *)
(** The invariant of the client's channel layer: the global counter is the sum of
    the sizes of all queued jobs plus the reservations in flight, and every
    operation keeps it, also while others run during its waits. *)

From S2P Require Import Prelude Outcome Protocol Config Channels ClientNet.
Import Config.Client.

(** ** Sums of sizes *)
Fixpoint sizes (jobs : list writeJob) : Z :=
  match jobs with [] => 0 | j :: jobs => wj_size j + sizes jobs end.
Definition queueSize (q : jobQueue) : Z := sizes (jq_jobs q).
Definition queuedBytes (s : ClientNet) : Z := mapSum queueSize (cn_queues s).

Definition jobOK (j : writeJob) : Prop := wj_size j = len (wj_data j).

Lemma sizes_app l k : sizes (l ++ k) = sizes l + sizes k.
Proof. induction l as [|j l IH]; cbn in *; lia. Qed.

Lemma sizes_nonneg l : Forall jobOK l -> 0 <= sizes l.
Proof.
  induction 1 as [|j l Hj _ IH]; [done|]. cbn. unfold jobOK in Hj.
  pose proof (len_nonneg (wj_data j)). lia.
Qed.

(** ** The invariant; [r] bytes are reserved for writes in progress *)
Record netWf (r : Z) (s : ClientNet) : Prop := {
  nw_bytes : cn_globalQueueBytes s = queuedBytes s + r;
  nw_reserved : 0 <= r;
  nw_limit : cn_globalQueueBytes s <= cn_globalQueueLimit s;
  nw_jobs : forall q jq, cn_queues s !! q = Some jq ->
    Forall jobOK (jq_jobs jq) /\ len (jq_jobs jq) <= writeQueueSize;
  nw_queues : forall i q, cn_writeQueues s !! i = Some (Some q) -> is_Some (cn_queues s !! q);
  nw_workers : forall k w, cn_workers s !! k = Some w ->
    is_Some (cn_queues s !! wk_queue w) /\ is_Some (cn_socks s !! wk_conn w);
  nw_conns : forall i c, cn_wsConns s !! i = Some (Some c) -> is_Some (cn_socks s !! c);
  nw_length : length (cn_wsConns s) = length (cn_writeQueues s) }.

Section Wf.
Implicit Types (s : ClientNet) (q : qid).

Lemma queueSize_nonneg r s q jq : netWf r s -> cn_queues s !! q = Some jq -> 0 <= queueSize jq.
Proof. intros Hs Hq. by apply sizes_nonneg, (nw_jobs _ _ Hs q). Qed.

Lemma queuedBytes_nonneg r s : netWf r s -> 0 <= queuedBytes s.
Proof. intros Hs. apply mapSum_nonneg. intros q jq Hq. by apply (queueSize_nonneg r s q). Qed.

Lemma queued_le r s q jq :
  netWf r s -> cn_queues s !! q = Some jq -> queueSize jq + r <= cn_globalQueueBytes s.
Proof.
  intros Hs Hq. rewrite (nw_bytes _ _ Hs).
  pose proof (mapSum_le queueSize (cn_queues s) q jq
    (fun k x Hk => queueSize_nonneg r s k x Hs Hk) Hq). unfold queuedBytes. lia.
Qed.

(** Only the counter of states with the same queues, workers and sockets matters. *)
Lemma netWf_same r r' s s' :
  netWf r s -> cn_queues s' = cn_queues s -> cn_writeQueues s' = cn_writeQueues s ->
  cn_workers s' = cn_workers s -> cn_wsConns s' = cn_wsConns s -> cn_socks s' = cn_socks s ->
  cn_globalQueueLimit s' = cn_globalQueueLimit s ->
  cn_globalQueueBytes s' = cn_globalQueueBytes s - r + r' -> 0 <= r' ->
  cn_globalQueueBytes s' <= cn_globalQueueLimit s -> netWf r' s'.
Proof.
  intros [Hb Hr Hl Hj Hq Hw Hc Hn] Eq Ew Ek Ec Es El Eb Hr' Hl'.
  split; unfold queuedBytes in *; rewrite ?Eq, ?Ew, ?Ek, ?Ec, ?Es, ?El, ?Eb; try done; lia.
Qed.

Lemma release_eq size s :
  size <= cn_globalQueueBytes s ->
  releaseQueueBytes size s = s \/ (0 < size
    /\ releaseQueueBytes size s = s <| cn_globalQueueBytes := cn_globalQueueBytes s - size |>).
Proof.
  intros Hle. unfold releaseQueueBytes. destruct (Z.leb_spec size 0); [by left|right].
  split; [done|]. destruct (Z.ltb_spec (cn_globalQueueBytes s - size) 0); [lia|done].
Qed.

Lemma release_inv r size s : 0 <= size -> netWf (r + size) s -> 0 <= r -> netWf r (releaseQueueBytes size s).
Proof.
  intros Hz Hs Hr. assert (size <= cn_globalQueueBytes s) as Hle.
  { rewrite (nw_bytes _ _ Hs). pose proof (queuedBytes_nonneg _ _ Hs). lia. }
  pose proof (nw_limit _ _ Hs) as Hl. unfold releaseQueueBytes.
  destruct (Z.leb_spec size 0).
  - by replace r with (r + size) by lia.
  - destruct (Z.ltb_spec (cn_globalQueueBytes s - size) 0); [lia|].
    apply (netWf_same (r + size) _ s); try done; cbn; lia.
Qed.

Lemma reserve_inv r size s s' ok :
  0 <= size -> netWf r s -> reserveQueueBytes size s = (s', ok) ->
  if ok : bool then netWf (r + size) s' else s' = s.
Proof.
  intros Hz Hs. unfold reserveQueueBytes. destruct (Z.leb_spec size 0).
  - intros [= <- <-]. by replace (r + size) with r by lia.
  - destruct (Z.ltb_spec (cn_globalQueueLimit s) (cn_globalQueueBytes s + size)); intros [= <- <-]; [done|].
    pose proof (nw_reserved _ _ Hs).
    apply (netWf_same r _ s); try done; cbn; lia.
Qed.

(** A queue is replaced; its bytes move between queue and reservation. *)
Lemma updQueue_inv r q f s jq :
  netWf r s -> cn_queues s !! q = Some jq ->
  Forall jobOK (jq_jobs (f jq)) -> len (jq_jobs (f jq)) <= writeQueueSize ->
  0 <= r + queueSize jq - queueSize (f jq) ->
  netWf (r + queueSize jq - queueSize (f jq)) (updQueue q f s).
Proof.
  intros [Hb Hr Hl Hj Hq Hw Hc Hn] Eq Hok Hcap Hz. unfold updQueue.
  assert (forall q', is_Some (cn_queues s !! q') -> is_Some (alter f q (cn_queues s) !! q')) as Hsome.
  { intros q'. by rewrite lookup_alter_is_Some. }
  split; cbn; try done; unfold queuedBytes in *; cbn.
  - rewrite (mapSum_alter _ _ _ _ _ Eq). lia.
  - intros q' jq' Hq'. destruct (decide (q' = q)) as [->|Hne].
    + rewrite lookup_alter_eq, Eq in Hq'. injection Hq' as <-. done.
    + rewrite lookup_alter_ne in Hq' by done. by apply (Hj q').
  - intros i q' Hi. by apply Hsome, (Hq i).
  - intros k w Hk. destruct (Hw k w Hk). split; [by apply Hsome|done].
Qed.

Lemma updSock_inv r c f s : netWf r s -> netWf r (updSock c f s).
Proof.
  intros [Hb Hr Hl Hj Hq Hw Hc Hn].
  split; cbn; try done.
  - intros k w Hk. rewrite lookup_alter_is_Some. by apply (Hw k).
  - intros i c' Hi. rewrite lookup_alter_is_Some. by apply (Hc i).
Qed.

Lemma sockWrite_inv r c mt d werr s : netWf r s -> netWf r (sockWrite c mt d werr s).1.
Proof.
  intros Hs. unfold sockWrite. destruct (cn_socks s !! c); [|done].
  destruct (_ || _); [done|]. by apply updSock_inv.
Qed.

Lemma sockClose_inv r c s : netWf r s -> netWf r (sockClose c s).
Proof. apply updSock_inv. Qed.

Lemma workers_delete_inv r k s : netWf r s -> netWf r (s <| cn_workers ::= delete k |>).
Proof.
  intros [Hb Hr Hl Hj Hq Hw Hc Hn]. split; cbn; try done.
  intros k' w [_ Hk]%lookup_delete_Some. by apply (Hw k').
Qed.

Lemma workers_insert_inv r k w s :
  netWf r s -> is_Some (cn_queues s !! wk_queue w) -> is_Some (cn_socks s !! wk_conn w) ->
  netWf r (s <| cn_workers ::= <[k := w]> |>).
Proof.
  intros [Hb Hr Hl Hj Hq Hw Hc Hn] H1 H2. split; cbn; try done.
  intros k' w' [[-> <-]|[_ Hk]]%lookup_insert_Some; [done|]. by apply (Hw k').
Qed.

(** ** Draining *)
Lemma release_set size s :
  0 <= size <= cn_globalQueueBytes s ->
  releaseQueueBytes size s = s <| cn_globalQueueBytes := cn_globalQueueBytes s - size |>.
Proof.
  intros Hz. unfold releaseQueueBytes. destruct (Z.leb_spec size 0).
  - assert (size = 0) as -> by lia. rewrite Z.sub_0_r. by destruct s.
  - destruct (Z.ltb_spec (cn_globalQueueBytes s - size) 0); [lia|done].
Qed.

Lemma drainJobs_set jobs : forall s, Forall jobOK jobs -> sizes jobs <= cn_globalQueueBytes s ->
  drainJobs jobs s = s <| cn_globalQueueBytes := cn_globalQueueBytes s - sizes jobs |>.
Proof.
  induction jobs as [|j jobs IH]; intros s Hok Hle; cbn [drainJobs].
  - cbn. rewrite Z.sub_0_r. by destruct s.
  - apply Forall_cons in Hok as [Hj Hok]. pose proof (sizes_nonneg _ Hok).
    unfold jobOK in Hj. pose proof (len_nonneg (wj_data j)). cbn in Hle.
    rewrite release_set by lia. rewrite IH; [|done|cbn; lia]. cbn. f_equal. lia.
Qed.

(** Jobs leave a queue and the counter together. *)
Lemma take_jobs_inv r q s jq taken rest :
  netWf r s -> cn_queues s !! q = Some jq -> jq_jobs jq = taken ++ rest ->
  netWf r (updQueue q (fun jq => jq <| jq_jobs := rest |>) (drainJobs taken s)).
Proof.
  intros Hs Hq E. destruct (nw_jobs _ _ Hs q jq Hq) as [Hok Hcap]. rewrite E in Hok, Hcap.
  apply Forall_app in Hok as [Ht Hrest]. pose proof (sizes_nonneg _ Ht) as Hpos.
  pose proof (queued_le _ _ _ _ Hs Hq) as Hle. unfold queueSize in Hle. rewrite E, sizes_app in Hle.
  pose proof (sizes_nonneg _ Hrest). pose proof (nw_reserved _ _ Hs).
  rewrite drainJobs_set by (done || lia). set (s1 := s <| cn_globalQueueBytes := _ |>).
  assert (netWf (r + sizes taken) (updQueue q (fun jq => jq <| jq_jobs := rest |>) s)) as Hu.
  { replace (r + sizes taken) with (r + queueSize jq - queueSize (jq <| jq_jobs := rest |>))
      by (unfold queueSize; cbn; rewrite E, sizes_app; lia).
    apply updQueue_inv; [done|done|done|cbn; len_lia|].
    unfold queueSize. cbn. rewrite E, sizes_app. lia. }
  pose proof (nw_limit _ _ Hs).
  apply (netWf_same _ r _ _ Hu); try done; unfold s1; cbn; lia.
Qed.

Lemma workerExit_inv r k w s :
  netWf r s -> is_Some (cn_queues s !! wk_queue w) -> netWf r (workerExit k w s).
Proof.
  intros Hs [jq Hq]. unfold workerExit, queueJobs. rewrite Hq.
  apply workers_delete_inv. eapply take_jobs_inv; [done|done|]. by rewrite app_nil_r.
Qed.

(** ** The worker *)
Lemma updQueue_sub s q f jq :
  cn_queues s !! q = Some jq -> forall q', is_Some (cn_queues (updQueue q f s) !! q') <-> is_Some (cn_queues s !! q').
Proof. intros Hq q'. unfold updQueue. cbn. apply lookup_alter_is_Some. Qed.

Lemma sockWrite_same c mt d werr s :
  cn_queues (sockWrite c mt d werr s).1 = cn_queues s
  /\ forall c', is_Some (cn_socks (sockWrite c mt d werr s).1 !! c') <-> is_Some (cn_socks s !! c').
Proof.
  unfold sockWrite. destruct (cn_socks s !! c); [|done]. destruct (_ || _); [done|].
  split; [done|]. intros c'. cbn. apply lookup_alter_is_Some.
Qed.

Lemma release_same size s :
  cn_queues (releaseQueueBytes size s) = cn_queues s /\ cn_socks (releaseQueueBytes size s) = cn_socks s
  /\ cn_writeQueues (releaseQueueBytes size s) = cn_writeQueues s.
Proof. unfold releaseQueueBytes. by destruct (_ <=? _). Qed.

Lemma drainJobs_same jobs : forall s,
  cn_queues (drainJobs jobs s) = cn_queues s /\ cn_socks (drainJobs jobs s) = cn_socks s.
Proof.
  induction jobs as [|j jobs IH]; intros s; [done|]. cbn.
  destruct (IH (releaseQueueBytes (wj_size j) s)) as [-> ->].
  by destruct (release_same (wj_size j) s) as (-> & -> & _).
Qed.

Lemma workerWrite_inv r k w mt d werr s :
  netWf r s -> is_Some (cn_queues s !! wk_queue w) -> is_Some (cn_socks s !! wk_conn w) ->
  netWf r (workerWrite k w mt d werr s).
Proof.
  intros Hs Hq Hc. unfold workerWrite. pose proof (sockWrite_inv r (wk_conn w) mt d werr s Hs) as Hw.
  destruct (sockWrite_same (wk_conn w) mt d werr s) as [Eq Es].
  destruct (sockWrite (wk_conn w) mt d werr s) as [s1 []]; cbn in *.
  - apply workers_insert_inv; unfold caddSentBytes; destruct (0 <? len d); cbn;
      rewrite ?Eq, ?Es; try done.
    pose proof (nw_reserved _ _ Hw). pose proof (nw_limit _ _ Hw).
    apply (netWf_same r _ s1); try done; cbn; lia.
  - apply workerExit_inv; [by apply sockClose_inv|]. cbn. by rewrite Eq.
Qed.

Lemma aggLoop_split connID maxAgg jobs : forall total parts pending rest,
  aggLoop connID maxAgg total jobs = (parts, pending, rest) ->
  exists taken, jobs = taken ++ rest /\ (length jobs - length rest)%nat = length taken.
Proof.
  induction jobs as [|j jobs IH]; intros total parts pending rest; cbn [aggLoop].
  - intros [= <- <- <-]. by exists [].
  - destruct (mergeable connID maxAgg total j) as [pl|].
    + destruct (aggLoop connID maxAgg (total + len pl) jobs) as [[ps pd] rs] eqn:E.
      intros [= <- <- <-]. destruct (IH _ _ _ _ E) as (taken & -> & _).
      exists (j :: taken). split; [done|]. cbn. rewrite length_app. lia.
    + intros [= <- <- <-]. exists [j]. split; [done|]. cbn. lia.
Qed.

Lemma workerJob_inv cfg r k w job werr s :
  netWf r s -> is_Some (cn_queues s !! wk_queue w) -> is_Some (cn_socks s !! wk_conn w) ->
  netWf r (workerJob cfg k w job werr s).
Proof.
  intros Hs Hq Hc. unfold workerJob. destruct (negb _); [by apply workerWrite_inv|].
  destruct (DecodeMessage (wj_data job)) as [[e|f]|]; [by apply workerWrite_inv| |by apply workerWrite_inv].
  destruct (negb _); [by apply workerWrite_inv|].
  destruct Hq as [jq Hq]. unfold queueJobs. rewrite Hq.
  destruct (aggLoop _ _ _ (jq_jobs jq)) as [[parts pending] rest] eqn:E.
  destruct (aggLoop_split _ _ _ _ _ _ _ E) as (taken & Ej & El).
  rewrite El, Ej, take_app_length.
  apply workerWrite_inv.
  - by eapply take_jobs_inv.
  - cbn. rewrite lookup_alter_is_Some. destruct (drainJobs_same taken s) as [-> _]. by rewrite Hq.
  - cbn. by destruct (drainJobs_same taken s) as [_ ->].
Qed.

Lemma queueRecv_inv r q s s' res :
  netWf r s -> queueRecv q s = (s', res) ->
  match res with
  | RecvJob j => 0 <= wj_size j /\ netWf (r + wj_size j) s' /\ cn_socks s' = cn_socks s
                 /\ is_Some (cn_queues s' !! q)
  | _ => s' = s
  end.
Proof.
  intros Hs. unfold queueRecv. destruct (cn_queues s !! q) as [[[|j jobs] c]|] eqn:Hq;
    [destruct c; by intros [= <- <-]| |by intros [= <- <-]].
  intros [= <- <-]. destruct (nw_jobs _ _ Hs q _ Hq) as [Hok Hcap]. cbn in Hok, Hcap.
  apply Forall_cons in Hok as [Hj Hok]. unfold jobOK in Hj. pose proof (len_nonneg (wj_data j)).
  pose proof (nw_reserved _ _ Hs).
  split; [lia|]. split; [|split; [done|]].
  - replace (r + wj_size j)
      with (r + queueSize (mkJobQueue (j :: jobs) c)
            - queueSize (mkJobQueue jobs c))
      by (unfold queueSize; cbn; lia).
    apply (updQueue_inv r q (fun jq => mkJobQueue jobs (jq_closed jq)) s _ Hs Hq);
      [done|cbn; len_lia|unfold queueSize; cbn; lia].
  - cbn. rewrite lookup_alter_is_Some. by rewrite Hq.
Qed.

Lemma workerTurn_inv cfg r k ev werr s : netWf r s -> netWf r (workerTurn cfg k ev werr s).
Proof.
  intros Hs. unfold workerTurn. destruct (cn_workers s !! k) as [w|] eqn:Hk; [|done].
  destruct (nw_workers _ _ Hs k w Hk) as [Hq Hc].
  destruct (wk_pending w) as [job|]; [by apply workerJob_inv|]. destruct ev.
  - destruct (queueRecv (wk_queue w) s) as [s1 res] eqn:E.
    pose proof (queueRecv_inv r _ _ _ _ Hs E) as H1. destruct res as [j| |].
    + destruct H1 as (Hz & H1 & Es & Hq1).
      destruct (release_same (wj_size j) s1) as (Eq' & Es' & _).
      apply workerJob_inv; [|by rewrite Eq'|by rewrite Es', Es].
      apply release_inv; [done|done|apply (nw_reserved _ _ Hs)].
    + subst. by apply workerExit_inv.
    + by subst.
  - pose proof (sockWrite_inv r (wk_conn w) PingMessage [] werr s Hs) as H1.
    destruct (sockWrite_same (wk_conn w) PingMessage [] werr s) as [Eq _].
    destruct (sockWrite _ _ _ _ s) as [s1 []]; [done|]. cbn in *.
    apply workerExit_inv; [by apply sockClose_inv|]. cbn. by rewrite Eq.
  - destruct (cn_done s); [by apply workerExit_inv|done].
Qed.

(** ** Sessions, shutdown, notices *)
Lemma fresh_none {A} (m : gmap positive A) : m !! fresh (dom m) = None.
Proof. apply not_elem_of_dom, is_fresh. Qed.

Lemma sessionOpen_inv r idx s : netWf r s -> netWf r (sessionOpen idx s).
Proof.
  intros [Hb Hr Hl Hj Hq Hw Hc Hn]. unfold sessionOpen. case_bool_decide as Hi; [|by split].
  split; cbn; unfold queuedBytes in *; cbn.
  - rewrite mapSum_insert by apply fresh_none. rewrite Hb. unfold queueSize. cbn. lia.
  - done.
  - done.
  - intros q jq [[_ <-]|[_ H]]%lookup_insert_Some; [split; [done|unfold writeQueueSize, len; cbn; lia]|].
    by apply (Hj q).
  - intros i q Hiq. rewrite lookup_insert_is_Some'.
    apply list_lookup_insert_Some in Hiq as [(-> & [= <-] & _)|[_ Hiq]]; [by left|right].
    by apply (Hq i).
  - intros k w [[_ <-]|[_ H]]%lookup_insert_Some; rewrite !lookup_insert_is_Some'; [cbn; auto|].
    destruct (Hw k w H). auto.
  - intros i c Hic. rewrite lookup_insert_is_Some'.
    apply list_lookup_insert_Some in Hic as [(-> & [= <-] & _)|[_ Hic]]; [by left|right].
    by apply (Hc i).
  - by rewrite !length_insert.
Qed.

Lemma sessionClose_inv r idx s : netWf r s -> netWf r (sessionClose idx s).
Proof.
  intros Hs. unfold sessionClose. destruct (cn_wsConns s !! idx) as [[c|]|] eqn:E; [|done|done].
  destruct (sockClose_inv r c s Hs) as [Hb Hr Hl Hj Hq Hw Hc Hn].
  split; cbn in *; try done.
  - intros i c' Hic. apply list_lookup_insert_Some in Hic as [(_ & ? & _)|[_ Hic]]; [done|].
    by apply (Hc i).
  - by rewrite length_insert.
Qed.

Lemma foldl_inv {A} (I : ClientNet -> Prop) (f : ClientNet -> A -> ClientNet) l : forall s,
  (forall s x, I s -> I (f s x)) -> I s -> I (foldl f s l).
Proof. induction l as [|x l IH]; intros s Hf Hs; [done|]. apply IH; auto. Qed.

Lemma closeQueue_inv r q s : netWf r s -> netWf r (updQueue q (fun jq => jq <| jq_closed := true |>) s).
Proof.
  intros Hs. destruct (cn_queues s !! q) as [jq|] eqn:Hq.
  - destruct (nw_jobs _ _ Hs q jq Hq). pose proof (nw_reserved _ _ Hs).
    replace r with (r + queueSize jq - queueSize (jq <| jq_closed := true |>)) at 1
      by (unfold queueSize; cbn; lia).
    apply updQueue_inv; try done. unfold queueSize. cbn. lia.
  - unfold updQueue. apply (netWf_same r _ s); try done; cbn; rewrite ?alter_none by done; try done.
    + lia.
    + apply Hs.
    + apply Hs.
Qed.

Lemma shutdown_inv r s : netWf r s -> netWf r (shutdown s).
Proof.
  intros Hs. unfold shutdown.
  set (s1 := s <| cn_done := true |>). assert (netWf r s1) as H1 by (destruct Hs; by split).
  set (s2 := foldl _ s1 _). assert (netWf r s2) as H2
    by (apply foldl_inv; [intros; by apply closeQueue_inv|done]).
  set (s3 := s2 <| cn_writeQueues ::= _ |>).
  assert (netWf r s3) as H3.
  { destruct H2 as [Hb Hr Hl Hj Hq Hw Hc Hn]. split; cbn; try done.
    - intros i q. intros (x & Hx & _)%list_lookup_fmap_Some. discriminate Hx.
    - by rewrite length_map. }
  set (s4 := foldl _ s3 _). assert (netWf r s4) as H4.
  { apply foldl_inv; [|done]. intros. by apply sockClose_inv, sockWrite_inv. }
  destruct H4 as [Hb Hr Hl Hj Hq Hw Hc Hn]. split; cbn; try done.
  - intros i c. intros (x & Hx & _)%list_lookup_fmap_Some. discriminate Hx.
  - by rewrite length_map.
Qed.

Lemma handleBackpressure_inv r st s : netWf r s -> netWf r (handleBackpressure st s).
Proof.
  intros [Hb Hr Hl Hj Hq Hw Hc Hn]. unfold handleBackpressure.
  destruct (_ =? st); [by split|]. destruct (st =? _); by split.
Qed.

Lemma netApply_inv cfg r e s : netWf r s -> netWf r (netApply cfg e s).
Proof.
  intros Hs. destruct e; cbn [netApply].
  - by apply workerTurn_inv.
  - by apply handleBackpressure_inv.
  - destruct Hs; by split.
  - by apply sessionOpen_inv.
  - by apply sessionClose_inv.
  - unfold reconnectAll. destruct (cn_reconnectCh (Reconnect s)); [|destruct Hs; by split].
    unfold closeSocks. apply foldl_inv; [intros; by apply sockClose_inv|destruct Hs; by split].
  - destruct Hs; by split.
  - by apply shutdown_inv.
Qed.

(** ** Waits *)

(** What the other goroutines keep, and the writer's own bookkeeping, a waiting
    writer keeps. *)
Section Waits.
Context (cfg : Config) (I : ClientNet -> Prop)
  (Hevent : forall e s, I s -> I (netApply cfg e s))
  (Hresume : forall s, I s -> I (s <| cn_resumeCh := false |>))
  (Hslow : forall s, I s -> I (s <| cn_backpressureState := BackpressureSlowDown |>))
  (Htime : forall d s, I s -> I (s <| cn_now ::= Z.add d |>))
  (Hpop : forall l s, I s -> I (s <| cn_schedule := l |>)).

Lemma keeps_popSchedule : keeps I popSchedule.
Proof. intros s Hs. unfold popSchedule. destruct (cn_schedule s); [done|]. by apply Hpop. Qed.

Lemma keeps_waitCheck d s s' : I s -> waitCheck d s = Some s' -> I s'.
Proof.
  intros Hs. unfold waitCheck. destruct (negb _); [by intros [= <-]|].
  destruct (_ <? _); [|done]. intros [= <-]. by apply Hslow.
Qed.

Lemma keeps_waitSelect d evs : keeps I (waitSelect cfg d evs).
Proof.
  induction evs as [|e evs IH]; intros s Hs; cbn [waitSelect].
  all: pose proof (Hresume s Hs) as H1; set (s1 := s <| cn_resumeCh := false |>) in *.
  all: destruct (if cn_resumeCh s then waitCheck d s1 else None) as [s2|] eqn:E;
    [destruct (cn_resumeCh s); [by apply (keeps_waitCheck d s1)|done]|].
  all: destruct (cn_done s1); [done|].
  - done.
  - apply IH. by apply Hevent.
Qed.

Lemma keeps_waitForBackpressure : keeps I (waitForBackpressure cfg).
Proof.
  intros s Hs. unfold waitForBackpressure.
  destruct (waitCheck _ s) as [s1|] eqn:E; [by apply (keeps_waitCheck _ _ _ Hs E)|].
  apply (keeps_bind I); [apply keeps_popSchedule|intros evs; apply keeps_waitSelect|done].
Qed.

Lemma keeps_sleep d : keeps I (sleep cfg d).
Proof.
  apply keeps_bind; [apply keeps_popSchedule|]. intros evs. apply keeps_modify. intros s Hs.
  apply foldl_inv; [intros; by apply Hevent|by apply Htime].
Qed.

(** Around what [enqueue] keeps. *)
Lemma keeps_asyncWriteDirect chID mt d :
  (forall idx, keeps I (enqueue cfg idx mt d)) -> keeps I (asyncWriteDirect cfg chID mt d).
Proof.
  intros He s Hs. unfold asyncWriteDirect. destruct (chIndex chID s) as [idx|]; [|done].
  destruct (_ <? 0); [|destruct (0 <? _); [|by apply He]].
  - apply (keeps_bind I); [apply keeps_waitForBackpressure| |done]. intros []; [apply He|apply keeps_ret].
  - apply (keeps_bind I); [apply keeps_sleep|intros _; apply He|done].
Qed.

Lemma keeps_broadcastWrite mt d :
  (forall idx, keeps I (enqueue cfg idx mt d)) -> keeps I (broadcastWrite cfg mt d).
Proof.
  intros He. apply keeps_bind; [apply keeps_get|]. intros idxs. generalize 0.
  induction idxs as [|i idxs IH]; intros n; cbn [broadcastLoop]; [apply keeps_ret|].
  apply keeps_bind; [by apply keeps_asyncWriteDirect|]. intros err. apply IH.
Qed.
End Waits.

(** ** Writes *)
Lemma popSchedule_keeps r : keeps (netWf r) popSchedule.
Proof. apply keeps_popSchedule. intros l s []. by split. Qed.

Lemma trySend_inv r q job s s' o :
  jobOK job -> netWf (r + wj_size job) s -> 0 <= r -> trySend q job s = Some (s', o) ->
  o = Panicked \/ (o = Ret tt /\ netWf r s').
Proof.
  intros Hj Hs Hr. unfold trySend. destruct (cn_queues s !! q) as [jq|] eqn:Hq; [|done].
  destruct (jq_closed jq); [intros [= <- <-]; by left|].
  destruct (Z.ltb_spec (len (jq_jobs jq)) writeQueueSize) as [Hlt|]; [|done]. intros [= <- <-].
  right. split; [done|]. destruct (nw_jobs _ _ Hs q jq Hq) as [Hok Hcap].
  set (f := fun jq => jq <| jq_jobs ::= fun l => l ++ [job] |>).
  assert (queueSize (f jq) = queueSize jq + wj_size job) as Ef
    by (unfold queueSize, f; cbn; rewrite sizes_app; cbn; lia).
  replace r with (r + wj_size job + queueSize jq - queueSize (f jq)) by lia.
  apply (updQueue_inv (r + wj_size job) q f s jq); [done|done| | |rewrite Ef; pose proof (len_nonneg (wj_data job)); lia].
  - cbn. apply Forall_app. by split; [|apply Forall_singleton].
  - cbn. len_lia.
Qed.

Lemma sendWait_inv cfg r q job evs : jobOK job -> 0 <= r -> forall s, netWf (r + wj_size job) s ->
  match sendWait cfg q job evs s with (_, Panicked) => True | (s', _) => netWf r s' end.
Proof.
  intros Hj Hr. assert (0 <= wj_size job) as Hz by (rewrite Hj; apply len_nonneg).
  induction evs as [|e evs IH]; intros s Hs; cbn [sendWait]; [by apply release_inv|].
  apply (netApply_inv cfg _ e) in Hs. set (s1 := netApply cfg e s) in *.
  assert (netWf r (releaseQueueBytes (wj_size job) s1)) by (by apply release_inv).
  destruct (match e with NeCancel => true | _ => false end); [done|].
  destruct (trySend q job s1) as [[s2 o]|] eqn:E.
  - by destruct (trySend_inv r q job s1 s2 o Hj Hs Hr E) as [->|[-> ?]].
  - destruct (cn_done s1); [done|]. by apply IH.
Qed.

Lemma enqueue_keeps cfg r idx mt d : keeps (netWf r) (enqueue cfg idx mt d).
Proof.
  intros s Hs. unfold enqueue. pose proof (len_nonneg d) as Hz. pose proof (nw_reserved _ _ Hs) as Hr.
  destruct (reserveQueueBytes (len d) s) as [s1 []] eqn:E;
    pose proof (reserve_inv _ _ _ _ _ Hz Hs E) as H1; cbn in H1; [|by subst].
  destruct (cn_writeQueues s1 !! idx) as [[q|]|]; [|by apply release_inv..].
  set (job := mkWriteJob mt d (len d)). assert (jobOK job) as Hj by done.
  destruct (trySend q job s1) as [[s2 o]|] eqn:Et.
  - by destruct (trySend_inv r q job s1 s2 o Hj H1 Hr Et) as [->|[-> ?]].
  - pose proof (popSchedule_keeps (r + len d) s1 H1) as Hp. unfold bind.
    destruct (popSchedule s1) as [s2 [evs| |]] eqn:Ep; [|by unfold popSchedule in Ep; destruct (cn_schedule s1)..].
    by apply sendWait_inv.
Qed.

Ltac netWf_client := intros; try (by apply netApply_inv); try apply enqueue_keeps;
  match goal with H : netWf _ _ |- _ => destruct H; by split end.

(** Every write keeps the invariant, whatever happens while it waits. *)
Lemma asyncWriteDirect_keeps cfg r chID mt d : keeps (netWf r) (asyncWriteDirect cfg chID mt d).
Proof.
  apply keeps_asyncWriteDirect; netWf_client.
Qed.

Lemma broadcastWrite_keeps cfg r mt d : keeps (netWf r) (broadcastWrite cfg mt d).
Proof.
  apply keeps_broadcastWrite; netWf_client.
Qed.
End Wf.
