(* ===== verification/ClientNetSpecs.v ===== *)
(** What the client's channel layer achieves: the accounting of every run, the byte
    streams that the merging worker preserves, the result of a write, the waits,
    and two defects of the queues. *)

From S2P Require Import Prelude Outcome Protocol Config Channels ClientNet ClientNetInv.
Import Config.Client.

(** ** Runs *)

(** What a goroutine of the client does to the network: an event, or a whole write,
    during which the events of the schedule happen. *)
Inductive cnetStep (cfg : Config) : ClientNet -> ClientNet -> Prop :=
| cnet_event e s : cnetStep cfg s (netApply cfg e s)
| cnet_write chID mt d s s' o :
    asyncWriteDirect cfg chID mt d s = (s', o) -> o <> Panicked -> cnetStep cfg s s'
| cnet_broadcast mt d s s' o :
    broadcastWrite cfg mt d s = (s', o) -> o <> Panicked -> cnetStep cfg s s'
| cnet_control chID mt d werr s : cnetStep cfg s (writeControlDirect chID mt d werr s).1.

Lemma keeps_at {A} (I : ClientNet -> Prop) (m : M ClientNet A) s s' o :
  keeps I m -> I s -> m s = (s', o) -> o <> Panicked -> I s'.
Proof. intros Hm Hs E Ho. specialize (Hm s Hs). rewrite E in Hm. by destruct o. Qed.

Lemma cnetStep_inv cfg r s s' : cnetStep cfg s s' -> netWf r s -> netWf r s'.
Proof.
  intros [] Hs.
  - by apply netApply_inv.
  - by eapply keeps_at; [apply asyncWriteDirect_keeps|..].
  - by eapply keeps_at; [apply broadcastWrite_keeps|..].
  - unfold writeControlDirect. destruct (chIndex chID s0); [|done].
    destruct (cn_wsConns s0 !! n) as [[c|]|]; [|done|done]. by apply sockWrite_inv.
Qed.

Lemma queuedBytes_zero (m : gmap qid jobQueue) : (forall q jq, m !! q = Some jq -> jq_jobs jq = []) ->
  mapSum queueSize m = 0.
Proof.
  induction m as [|q jq m Hq IH] using map_ind; intros H; [apply mapSum_empty|].
  rewrite mapSum_insert by done. rewrite IH.
  - unfold queueSize. rewrite (H q jq); [done|]. apply lookup_insert_eq.
  - intros q' jq' Hq'. apply (H q'). rewrite lookup_insert_ne; [done|congruence].
Qed.

Lemma initialQueues_lookup n q jq :
  initialQueues n !! q = Some jq -> jq = mkJobQueue [] false.
Proof.
  unfold initialQueues. intros H%elem_of_list_to_map_2.
  apply list_elem_of_In, in_map_iff in H as (i & [= _ <-] & _). done.
Qed.

Lemma initialQueues_some n i : (i < n)%nat -> is_Some (initialQueues n !! Pos.of_succ_nat i).
Proof.
  intros Hi. exists (mkJobQueue [] false). unfold initialQueues. apply elem_of_list_to_map_1.
  - rewrite <- list_fmap_compose. apply NoDup_fmap_2; [|apply NoDup_seq].
    intros x y. cbn. lia.
  - apply list_elem_of_In, in_map_iff. exists i. split; [done|]. apply in_seq. lia.
Qed.

Lemma newClientNet_inv cfg sched : netWf 0 (newClientNet cfg sched).
Proof.
  split; cbn; try done.
  - unfold queuedBytes. cbn. rewrite queuedBytes_zero; [done|].
    intros q jq Hq. by rewrite (initialQueues_lookup _ _ _ Hq).
  - unfold queueLimit, DefaultBackpressureLimitBytes. destruct (Z.leb_spec (BackpressureLimitBytes cfg) 0);
      [vm_compute; congruence|lia].
  - intros q jq Hq. rewrite (initialQueues_lookup _ _ _ Hq). split; [done|]. vm_compute. congruence.
  - intros i q (j & Hi & Hj)%list_lookup_fmap_Some. injection Hi as ->.
    apply lookup_seq in Hj as [-> Hj]. by apply initialQueues_some.
  - intros i c [Hc _]%lookup_replicate. done.
  - by rewrite length_replicate, length_map, length_seq.
Qed.

(** C14: in every run of the client's channel layer the global counter is exactly
    the number of bytes in its write queues, within the limit, and no queue exceeds
    its capacity. *)
Theorem client_queue_accounting cfg sched s :
  rtc (cnetStep cfg) (newClientNet cfg sched) s ->
  cn_globalQueueBytes s = queuedBytes s
  /\ 0 <= cn_globalQueueBytes s <= cn_globalQueueLimit s
  /\ forall q jq, cn_queues s !! q = Some jq -> len (jq_jobs jq) <= writeQueueSize.
Proof.
  intros Hr. assert (netWf 0 s) as Hs.
  { apply (rtc_invariant (cnetStep cfg) (netWf 0)) with (newClientNet cfg sched); [|done|apply newClientNet_inv].
    intros x y Hxy Hx. by apply (cnetStep_inv cfg 0 x). }
  pose proof (queuedBytes_nonneg _ _ Hs). pose proof (nw_bytes _ _ Hs). pose proof (nw_limit _ _ Hs).
  split; [lia|]. split; [lia|]. intros q jq Hq. by apply (nw_jobs _ _ Hs q).
Qed.

(** Two channels; the first write waits in a pause until the server lifts it, the
    second one finds the worker of its channel at work. *)
Definition cfg2 : Config := DefaultConfig <| Connections := 2 |>.

Definition net0 : ClientNet := newClientNet cfg2
  [[NeTime (1 * Second); NeBackpressure BackpressureNormal]].
Definition net1 : ClientNet :=
  foldl (fun s e => netApply cfg2 e s) net0 [NeOpen 0; NeOpen 1; NeBackpressure BackpressurePause].
Definition dataFrame (id : string) (payload : string) : bytes :=
  EncodeMessage MsgTCPData (lit id) [] (lit payload).
Definition net2 : ClientNet := exec (asyncWriteDirect cfg2 1 BinaryMessage (dataFrame "a" "hello")) net1.

Lemma net2_run : rtc (cnetStep cfg2) net0 net2.
Proof.
  transitivity net1.
  { unfold net1. cbn [foldl]. do 3 (eapply rtc_l; [apply cnet_event|]). apply rtc_refl. }
  apply rtc_once.
  refine (cnet_write cfg2 1 BinaryMessage (dataFrame "a" "hello") net1 net2
    (asyncWriteDirect cfg2 1 BinaryMessage (dataFrame "a" "hello") net1).2 _ _).
  - apply surjective_pairing.
  - vm_compute. discriminate.
Qed.

Lemma client_queue_accounting_witness :
  cn_globalQueueBytes net2 = 14 /\ cn_now net2 = 1 * Second
  /\ cn_globalQueueBytes net2 = queuedBytes net2.
Proof.
  destruct (client_queue_accounting cfg2 [[NeTime (1 * Second); NeBackpressure BackpressureNormal]]
    net2 net2_run) as (H & _ & _).
  split; [vm_compute; reflexivity|]. split; [vm_compute; reflexivity|exact H].
Defined.

(** ** The result of a write *)

(** C17: outside back-pressure, with room in the queue, a write returns at once: a bad
    channel number, an exceeded limit or a missing queue is an error that changes
    nothing; otherwise the job is last in the channel's queue and counted. *)
Theorem asyncWriteDirect_now cfg r chID mt d s :
  netWf r s -> cn_backpressureState s = BackpressureNormal ->
  (forall idx q jq, chIndex chID s = Some idx -> cn_writeQueues s !! idx = Some (Some q) ->
     cn_queues s !! q = Some jq -> jq_closed jq = false /\ len (jq_jobs jq) < writeQueueSize) ->
  asyncWriteDirect cfg chID mt d s =
    match chIndex chID s with
    | None => (s, Ret (Some ErrChannelID))
    | Some idx =>
        if (0 <? len d) && (cn_globalQueueLimit s <? cn_globalQueueBytes s + len d)
        then (s, Ret (Some ErrQueueLimit))
        else match cn_writeQueues s !! idx with
             | Some (Some q) =>
                 (updQueue q (fun jq => jq <| jq_jobs ::= fun l => l ++ [mkWriteJob mt d (len d)] |>)
                    (s <| cn_globalQueueBytes ::= Z.add (len d) |>), Ret None)
             | _ => (s, Ret (Some ErrNoChannel))
             end
    end.
Proof.
  intros Hs Hb Hroom. unfold asyncWriteDirect. destruct (chIndex chID s) as [idx|] eqn:Ei; [|done].
  assert (getBackpressureDelay s = 0) as -> by (unfold getBackpressureDelay; by rewrite Hb).
  change (0 <? 0) with false. cbv iota. unfold enqueue, reserveQueueBytes.
  pose proof (len_nonneg d) as Hd. pose proof (queuedBytes_nonneg _ _ Hs) as Hq0.
  pose proof (nw_bytes _ _ Hs) as Hbytes. pose proof (nw_reserved _ _ Hs) as Hr.
  set (s1 := s <| cn_globalQueueBytes ::= Z.add (len d) |>).
  assert (forall q, cn_writeQueues s !! idx = Some (Some q) ->
    trySend q (mkWriteJob mt d (len d)) s1
    = Some (updQueue q (fun jq => jq <| jq_jobs ::= fun l => l ++ [mkWriteJob mt d (len d)] |>) s1, Ret tt))
    as Hsend.
  { intros q Hq. destruct (nw_queues _ _ Hs idx q Hq) as [jq Hjq].
    destruct (Hroom idx q jq eq_refl Hq Hjq) as [Hc Hl].
    unfold trySend. cbn. rewrite Hjq, Hc. by rewrite (proj2 (Z.ltb_lt _ _) Hl). }
  assert (len d <=? 0 = true -> s1 = s) as H0.
  { intros Hz. unfold s1. assert (len d = 0) as -> by lia. by destruct s. }
  assert (releaseQueueBytes (len d) s1 = s) as Hrel.
  { unfold releaseQueueBytes. destruct (Z.leb_spec (len d) 0); [apply H0; lia|].
    unfold s1. cbn. destruct (Z.ltb_spec (len d + cn_globalQueueBytes s - len d) 0); [lia|].
    destruct s. cbn. f_equal. lia. }
  destruct (Z.leb_spec (len d) 0) as [Hz|Hz]; cbn [andb].
  - rewrite (proj2 (Z.ltb_ge 0 (len d))) by lia. cbn [andb].
    fold s1. rewrite (H0 ltac:(lia)) in *.
    destruct (cn_writeQueues s !! idx) as [[q|]|] eqn:Eq; [by rewrite Hsend|by rewrite Hrel..].
  - rewrite (proj2 (Z.ltb_lt 0 (len d))) by lia. cbn [andb].
    destruct (Z.ltb_spec (cn_globalQueueLimit s) (cn_globalQueueBytes s + len d)); [done|].
    fold s1. change (cn_writeQueues s1) with (cn_writeQueues s).
    destruct (cn_writeQueues s !! idx) as [[q|]|] eqn:Eq; [by rewrite Hsend|by rewrite Hrel..].
Qed.

Lemma asyncWriteDirect_now_witness :
  (asyncWriteDirect cfg2 9 BinaryMessage (lit "x") net2).2 = Ret (Some ErrChannelID)
  /\ (asyncWriteDirect cfg2 1 BinaryMessage (lit "x") net2).2 = Ret None
  /\ cn_globalQueueBytes (exec (asyncWriteDirect cfg2 1 BinaryMessage (lit "x")) net2) = 15.
Proof.
  assert (netWf 0 net2) as Hs.
  { refine (rtc_invariant (cnetStep cfg2) (netWf 0) _ net0 net2 net2_run (newClientNet_inv cfg2 _)).
    intros x y Hxy Hx. by apply (cnetStep_inv cfg2 0 x). }
  assert (cn_backpressureState net2 = BackpressureNormal) as Hb by (vm_compute; reflexivity).
  assert (forall chID, chID = 1 \/ chID = 9 ->
    forall idx q jq, chIndex chID net2 = Some idx -> cn_writeQueues net2 !! idx = Some (Some q) ->
    cn_queues net2 !! q = Some jq -> jq_closed jq = false /\ len (jq_jobs jq) < writeQueueSize) as Hroom.
  { intros chID [-> | ->] idx q jq Hi Hq Hjq; vm_compute in Hi; [|discriminate].
    injection Hi as <-. vm_compute in Hq. injection Hq as <-. vm_compute in Hjq. injection Hjq as <-.
    vm_compute. auto. }
  unfold exec. rewrite (asyncWriteDirect_now cfg2 0 9 BinaryMessage (lit "x") net2 Hs Hb (Hroom 9 (or_intror eq_refl))).
  rewrite (asyncWriteDirect_now cfg2 0 1 BinaryMessage (lit "x") net2 Hs Hb (Hroom 1 (or_introl eq_refl))).
  split; [vm_compute; reflexivity|]. split; vm_compute; reflexivity.
Defined.

(** ** The merging worker *)

(** The meaning of a sequence of frames: the bytes of every connection and the other
    frames, in order; pings carry nothing. *)
Inductive atom := AByte (connID : bytes) (b : byte) | AFrame (msgType : Z) (data : bytes).

Definition meaning1 (mt : Z) (d : bytes) : list atom :=
  if mt =? PingMessage then [] else
  if mt =? BinaryMessage then
    match DecodeMessage d with
    | Some (inr f) => if f_type f =? MsgTCPData then map (AByte (f_connID f)) (f_payload f)
                      else [AFrame mt d]
    | _ => [AFrame mt d]
    end
  else [AFrame mt d].

Fixpoint meaning (l : list (Z * bytes)) : list atom :=
  match l with
  | [] => []
  | (mt, d) :: l => meaning1 mt d ++ meaning l
  end.

Definition jobFrame (j : writeJob) : Z * bytes := (wj_msgType j, wj_data j).

Lemma meaning_app l k : meaning (l ++ k) = meaning l ++ meaning k.
Proof. induction l as [|[mt d] l IH]; [done|]. cbn. by rewrite IH, app_assoc. Qed.

(** The data frames of this client carry no meta. *)
Definition plain (j : writeJob) : Prop :=
  forall f, wj_msgType j = BinaryMessage -> DecodeMessage (wj_data j) = Some (inr f) ->
    f_type f = MsgTCPData -> f_meta f = [].

Lemma meaning1_data mt d f :
  mt = BinaryMessage -> DecodeMessage d = Some (inr f) -> f_type f = MsgTCPData ->
  meaning1 mt d = map (AByte (f_connID f)) (f_payload f).
Proof. intros -> Hd Ht. unfold meaning1. cbn [Z.eqb]. rewrite Hd, Ht. done. Qed.

Lemma mergeable_data connID maxAgg total j pl :
  mergeable connID maxAgg total j = Some pl ->
  total + len pl <= maxAgg
  /\ meaning1 (wj_msgType j) (wj_data j) = map (AByte connID) pl.
Proof.
  unfold mergeable. destruct (Z.eqb_spec (wj_msgType j) BinaryMessage) as [Hm|]; cbn [negb]; [|done].
  destruct (DecodeMessage (wj_data j)) as [[e|f]|] eqn:Hd; [done| |done].
  destruct (Z.eqb_spec (f_type f) MsgTCPData) as [Ht|]; cbn [negb orb]; [|done].
  case_bool_decide as Hc; cbn [negb orb]; [|done]. destruct (len (f_meta f) =? 0); cbn [negb orb]; [|done].
  destruct (Z.ltb_spec maxAgg (total + len (f_payload f))); [done|]. intros [= <-].
  split; [lia|]. rewrite (meaning1_data _ _ f Hm Hd Ht). by rewrite Hc.
Qed.

(** Merging takes consecutive bytes of one connection. *)
Lemma aggLoop_meaning connID maxAgg jobs : forall total parts pending rest,
  aggLoop connID maxAgg total jobs = (parts, pending, rest) ->
  meaning (map jobFrame jobs)
  = map (AByte connID) (concat parts)
    ++ meaning (map jobFrame (match pending with Some j => [j] | None => [] end))
    ++ meaning (map jobFrame rest)
  /\ (parts = [] \/ total + len (concat parts) <= maxAgg).
Proof.
  induction jobs as [|j jobs IH]; intros total parts pending rest; cbn [aggLoop].
  - intros [= <- <- <-]. split; [done|by left].
  - destruct (mergeable connID maxAgg total j) as [pl|] eqn:Em.
    + destruct (aggLoop connID maxAgg (total + len pl) jobs) as [[ps pd] rs] eqn:E.
      intros [= <- <- <-]. destruct (IH _ _ _ _ E) as [H1 H2].
      destruct (mergeable_data _ _ _ _ _ Em) as [Hle Hj]. cbn [map meaning concat]. unfold jobFrame at 1.
      rewrite Hj, H1, map_app, !app_assoc. split; [done|]. right.
      destruct H2 as [->|H2]; [rewrite app_nil_r; lia|]. len_lia.
    + intros [= <- <- <-]. split; [|by left]. cbn. by rewrite app_nil_r.
Qed.

(** All that a worker was given and has not lost: what its socket received, the job
    it holds, its queue. *)
Definition stream (s : ClientNet) (w : writeWorker) : list atom :=
  meaning (match cn_socks s !! wk_conn w with Some c => cs_wire c | None => [] end)
  ++ meaning (map jobFrame (match wk_pending w with Some j => [j] | None => [] end))
  ++ meaning (map jobFrame (queueJobs (wk_queue w) s)).

Lemma sockWrite_ok c mt d werr s s' :
  sockWrite c mt d werr s = (s', true) ->
  cn_queues s' = cn_queues s
  /\ exists k, cn_socks s !! c = Some k /\ cs_closed k = false
     /\ cn_socks s' !! c = Some (k <| cs_wire ::= fun l => l ++ [(mt, d)] |>).
Proof.
  unfold sockWrite. destruct (cn_socks s !! c) as [k|] eqn:E; [|done].
  destruct (cs_closed k) eqn:Ec; cbn [orb]; [done|]. destruct werr; [done|]. intros [= <-].
  split; [done|]. exists k. split; [done|]. split; [done|].
  unfold updSock. cbn. by rewrite lookup_alter_eq, E.
Qed.

(** A write that succeeds leaves the worker in place with the frame on its socket. *)
Lemma workerWrite_ok k w mt d werr s w' :
  cn_workers (workerWrite k w mt d werr s) !! k = Some w' ->
  w' = w /\ stream (workerWrite k w mt d werr s) w'
    = meaning (match cn_socks s !! wk_conn w with Some c => cs_wire c | None => [] end)
      ++ meaning1 mt d
      ++ meaning (map jobFrame (match wk_pending w with Some j => [j] | None => [] end))
      ++ meaning (map jobFrame (queueJobs (wk_queue w) s)).
Proof.
  unfold workerWrite. destruct (sockWrite (wk_conn w) mt d werr s) as [s1 []] eqn:E.
  - destruct (sockWrite_ok _ _ _ _ _ _ E) as (Eq & c & Hc & _ & Hc').
    unfold caddSentBytes. cbn [cn_workers upd setter]. intros Hw.
    assert (w' = w) as ->.
    { destruct (0 <? len d); cbn in Hw; rewrite lookup_insert_eq in Hw; congruence. }
    split; [done|]. unfold stream, queueJobs.
    destruct (0 <? len d); cbn; rewrite Hc, Hc', Eq; cbn; rewrite meaning_app; cbn;
      by rewrite app_nil_r, <- app_assoc.
  - unfold workerExit. cbn. by rewrite lookup_delete_eq.
Qed.

Lemma workerJob_stream cfg k w job werr s w' :
  ReadBufferSize cfg * 4 < 2 ^ 32 -> wk_pending w = None -> plain job ->
  cn_workers (workerJob cfg k w job werr s) !! k = Some w' ->
  wk_conn w' = wk_conn w /\ wk_queue w' = wk_queue w
  /\ stream (workerJob cfg k w job werr s) w'
  = meaning (match cn_socks s !! wk_conn w with Some c => cs_wire c | None => [] end)
    ++ meaning1 (wj_msgType job) (wj_data job)
    ++ meaning (map jobFrame (queueJobs (wk_queue w) s)).
Proof.
  intros Hbuf Hp Hplain. unfold workerJob.
  set (raw := workerWrite k w (wj_msgType job) (wj_data job) werr s).
  assert (cn_workers raw !! k = Some w' -> wk_conn w' = wk_conn w /\ wk_queue w' = wk_queue w
    /\ stream raw w'
    = meaning (match cn_socks s !! wk_conn w with Some c => cs_wire c | None => [] end)
      ++ meaning1 (wj_msgType job) (wj_data job)
      ++ meaning (map jobFrame (queueJobs (wk_queue w) s))) as Hraw.
  { intros Hw. destruct (workerWrite_ok _ _ _ _ _ _ _ Hw) as [-> Hst]. split; [done|]. split; [done|].
    unfold raw. rewrite Hst, Hp. done. }
  destruct (Z.eqb_spec (wj_msgType job) BinaryMessage) as [Hm|]; cbn [negb]; [|done].
  destruct (DecodeMessage (wj_data job)) as [[e|f]|] eqn:Hd; [done| |done].
  destruct (Z.eqb_spec (f_type f) MsgTCPData) as [Ht|]; cbn [negb]; [|done].
  pose proof (Hplain f Hm Hd Ht) as Hmeta. destruct (DecodeMessage_bounds _ _ Hd) as (_ & Hid & _ & Hpl).
  destruct (aggLoop _ _ _ (queueJobs (wk_queue w) s)) as [[parts pending] rest] eqn:E.
  destruct (aggLoop_meaning _ _ _ _ _ _ _ E) as [Hmean Hlen].
  destruct (aggLoop_split _ _ _ _ _ _ _ E) as (taken & Ej & El).
  rewrite El, Ej, take_app_length. intros Hw.
  destruct (workerWrite_ok _ _ _ _ _ _ _ Hw) as [-> Hst]. split; [done|]. split; [done|].
  rewrite Hst. cbn [wk_conn wk_pending wk_queue upd setter].
  change (cn_socks (updQueue ?q ?g ?z)) with (cn_socks z).
  destruct (drainJobs_same taken s) as [Eq Es]. rewrite Es. f_equal.
  rewrite (meaning1_data BinaryMessage _ (mkFrame MsgTCPData (f_connID f) (f_meta f) (f_payload f ++ concat parts)));
    [|done| |done].
  2:{ apply DecodeMessage_EncodeMessage; [done|done|rewrite Hmeta; done|].
      destruct Hlen as [->|Hlen]; [cbn; by rewrite app_nil_r|]. len_lia. }
  rewrite (meaning1_data _ _ f Hm Hd Ht). cbn [f_connID f_payload]. rewrite map_app, <- app_assoc. f_equal.
  rewrite <- Ej, Hmean. do 2 f_equal. unfold queueJobs in *. unfold updQueue. cbn. rewrite Eq.
  destruct (cn_queues s !! wk_queue w) as [jq|] eqn:Hq.
  - by rewrite lookup_alter_eq, Hq.
  - rewrite lookup_alter_eq, Hq. cbn. by destruct taken, rest.
Qed.

(** C16: merging data frames changes nothing that is sent: as long as its writes
    succeed, a turn of the worker preserves, in order, the bytes of every connection
    and every other frame, over what it has written, holds and still has to read. *)
Theorem worker_preserves_streams cfg k ev werr s w w' :
  ReadBufferSize cfg * 4 < 2 ^ 32 -> cn_workers s !! k = Some w ->
  (forall j, wk_pending w = Some j \/ j ∈ queueJobs (wk_queue w) s -> plain j) ->
  cn_workers (workerTurn cfg k ev werr s) !! k = Some w' ->
  stream (workerTurn cfg k ev werr s) w' = stream s w.
Proof.
  intros Hbuf Hw Hplain. unfold workerTurn. rewrite Hw.
  destruct (wk_pending w) as [job|] eqn:Hp.
  - intros Hw'. destruct (workerJob_stream cfg k (w <| wk_pending := None |>) job werr s w') as (_ & _ & ->);
      [done|done|by apply Hplain; left|done|].
    unfold stream. rewrite Hp. cbn. by rewrite app_nil_r.
  - destruct ev.
    + unfold queueRecv. unfold queueJobs in Hplain.
      destruct (cn_queues s !! wk_queue w) as [[[|j jobs] c]|] eqn:Hq.
      * destruct c; [unfold workerExit; cbn; by rewrite lookup_delete_eq|].
        rewrite Hw. intros [= <-]. done.
      * set (s1 := releaseQueueBytes _ _). intros Hw'.
        destruct (workerJob_stream cfg k w j werr s1 w') as (_ & _ & ->);
          [done|done|apply Hplain; right; left|done|].
        unfold stream. rewrite Hp. unfold queueJobs.
        destruct (release_same (wj_size j) (updQueue (wk_queue w) (fun jq => jq <| jq_jobs := jobs |>) s))
          as (E1 & E2 & _). fold s1 in E1, E2. rewrite E1, E2.
        unfold updQueue. cbn. by rewrite lookup_alter_eq, Hq.
      * rewrite Hw. intros [= <-]. done.
    + destruct (sockWrite (wk_conn w) PingMessage [] werr s) as [s1 []] eqn:E;
        [|unfold workerExit; cbn; by rewrite lookup_delete_eq].
      destruct (sockWrite_ok _ _ _ _ _ _ E) as (Eq & c & Hc & _ & Hc').
      assert (cn_workers s1 = cn_workers s) as Ew.
      { unfold sockWrite in E. rewrite Hc in E. destruct (_ || _); [done|]. by injection E as <-. }
      rewrite Ew, Hw. intros [= <-]. unfold stream, queueJobs. rewrite Hc, Hc', Eq, Hp. cbn.
      rewrite meaning_app. cbn. by rewrite app_nil_r.
    + destruct (cn_done s); [unfold workerExit; cbn; by rewrite lookup_delete_eq|].
      rewrite Hw. intros [= <-]. done.
Qed.

(** Two data frames of one connection, one of another, and a ping: the worker writes
    the first two as one frame and keeps the third. *)
Definition net3 : ClientNet :=
  foldl (fun s d => exec (asyncWriteDirect cfg2 1 BinaryMessage d) s) net2
    [dataFrame "a" " world"; dataFrame "b" "other"].

Definition demoWorker : wkid := 1%positive.
Abbreviation demoTurn := (workerTurn cfg2 demoWorker WakeJob false net3).

Definition plainb (j : writeJob) : bool :=
  if wj_msgType j =? BinaryMessage then
    match DecodeMessage (wj_data j) with
    | Some (inr f) => negb (f_type f =? MsgTCPData) || (len (f_meta f) =? 0)
    | _ => true
    end
  else true.

Lemma plainb_plain j : plainb j = true -> plain j.
Proof.
  unfold plainb, plain. intros H f Hm Hd Ht. rewrite Hm, Hd, Ht in H. cbn in H.
  destruct (f_meta f); [done|]. apply Z.eqb_eq in H. len_lia.
Qed.

Definition demoOf (s : ClientNet) : writeWorker :=
  default (mkWriteWorker 1 1 None) (cn_workers s !! demoWorker).
Definition wireOf (s : ClientNet) : list (Z * bytes) :=
  match cn_socks s !! wk_conn (demoOf s) with Some c => cs_wire c | None => [] end.

Lemma demoOf_some s : isSome (cn_workers s !! demoWorker) = true ->
  cn_workers s !! demoWorker = Some (demoOf s).
Proof. unfold demoOf. by destruct (cn_workers s !! demoWorker). Qed.

Lemma worker_preserves_streams_witness :
  stream demoTurn (demoOf demoTurn) = stream net3 (demoOf net3)
  /\ wireOf demoTurn = [(BinaryMessage, dataFrame "a" "hello world")].
Proof.
  split; [|vm_compute; reflexivity].
  apply (worker_preserves_streams cfg2 demoWorker WakeJob false net3 (demoOf net3) (demoOf demoTurn)).
  - vm_compute. reflexivity.
  - apply demoOf_some. vm_compute. reflexivity.
  - assert (isSome (wk_pending (demoOf net3)) = false) as Hp by (vm_compute; reflexivity).
    assert (forallb plainb (queueJobs (wk_queue (demoOf net3)) net3) = true) as Hall
      by (vm_compute; reflexivity).
    intros j [Hj|Hj]; [rewrite Hj in Hp; discriminate Hp|]. apply plainb_plain.
    exact (proj1 (forallb_forall _ _) Hall j (proj1 (list_elem_of_In _ _) Hj)).
  - apply demoOf_some. vm_compute. reflexivity.
Defined.
