(* ===== verification/ClientNetWaits.v ===== *)
(** The waits of the client's channel layer: when a paused write goes on, why its
    deadline is not one, and a queue that nobody reads any more. *)

From S2P Require Import Prelude Outcome Protocol Config Channels ClientNet ClientNetInv ClientNetSpecs.
Import Config.Client.

Fixpoint sumZ (l : list Z) : Z := match l with [] => 0 | x :: l => x + sumZ l end.

(** ** Pauses *)

(** The fields a waiting writer looks at. Only notices and the shutdown touch them. *)
Definition signals (s : ClientNet) : Z * bool * bool :=
  (cn_backpressureState s, cn_resumeCh s, cn_done s).

Section Signals.
Implicit Types s : ClientNet.

Lemma signals_eq s b r d : signals s = (b, r, d) ->
  cn_backpressureState s = b /\ cn_resumeCh s = r /\ cn_done s = d.
Proof. by intros [= -> -> ->]. Qed.

Lemma release_signals size s : signals (releaseQueueBytes size s) = signals s.
Proof. unfold releaseQueueBytes. by destruct (_ <=? _). Qed.

Lemma drainJobs_signals jobs : forall s, signals (drainJobs jobs s) = signals s.
Proof. induction jobs as [|j jobs IH]; intros s; [done|]. cbn. by rewrite IH, release_signals. Qed.

Lemma sockWrite_signals c mt d werr s : signals (sockWrite c mt d werr s).1 = signals s.
Proof. unfold sockWrite. destruct (cn_socks s !! c); [|done]. by destruct (_ || _). Qed.

Lemma workerExit_signals k w s : signals (workerExit k w s) = signals s.
Proof. apply (drainJobs_signals (queueJobs (wk_queue w) s) s). Qed.

Lemma workerWrite_signals k w mt d werr s : signals (workerWrite k w mt d werr s) = signals s.
Proof.
  unfold workerWrite. pose proof (sockWrite_signals (wk_conn w) mt d werr s) as H.
  destruct (sockWrite _ _ _ _ s) as [s1 []]; cbn in H; rewrite <- H.
  - unfold caddSentBytes. by destruct (0 <? len d).
  - apply (workerExit_signals k w (sockClose (wk_conn w) s1)).
Qed.

Lemma workerJob_signals cfg k w job werr s : signals (workerJob cfg k w job werr s) = signals s.
Proof.
  unfold workerJob. destruct (negb _); [apply workerWrite_signals|].
  destruct (DecodeMessage _) as [[|]|]; [apply workerWrite_signals| |apply workerWrite_signals].
  destruct (negb _); [apply workerWrite_signals|].
  destruct (aggLoop _ _ _ _) as [[parts pending] rest]. rewrite workerWrite_signals.
  apply (drainJobs_signals _ s).
Qed.

Lemma workerTurn_signals cfg k ev werr s : signals (workerTurn cfg k ev werr s) = signals s.
Proof.
  unfold workerTurn. destruct (cn_workers s !! k) as [w|]; [|done].
  destruct (wk_pending w); [apply workerJob_signals|]. destruct ev.
  - unfold queueRecv. destruct (cn_queues s !! wk_queue w) as [[[|j jobs] c]|]; [|..|done].
    + destruct c; [apply workerExit_signals|done].
    + by rewrite workerJob_signals, release_signals.
  - pose proof (sockWrite_signals (wk_conn w) PingMessage [] werr s) as H.
    destruct (sockWrite _ _ _ _ s) as [s1 []]; [done|]. rewrite <- H.
    apply (workerExit_signals k w (sockClose (wk_conn w) s1)).
  - destruct (cn_done s); [apply workerExit_signals|done].
Qed.

Lemma foldl_signals {A} (f : ClientNet -> A -> ClientNet) l : forall s,
  (forall s x, signals (f s x) = signals s) -> signals (foldl f s l) = signals s.
Proof. induction l as [|x l IH]; intros s Hf; [done|]. cbn. by rewrite IH, Hf. Qed.

Lemma shutdown_signals s :
  signals (shutdown s) = (cn_backpressureState s, cn_resumeCh s, true).
Proof.
  change (signals (shutdown s) = signals (s <| cn_done := true |>)). unfold shutdown.
  set (s1 := s <| cn_done := true |>). set (s2 := foldl _ s1 _).
  set (s3 := s2 <| cn_writeQueues ::= _ |>).
  match goal with |- signals (?s4 <| cn_wsConns ::= _ |>) = _ => change (signals s4 = signals s1) end.
  rewrite foldl_signals.
  - apply (foldl_signals (fun s q => updQueue q _ s)). done.
  - intros z c. apply (sockWrite_signals c CloseMessage closeFrame false z).
Qed.

(** Notices and the shutdown apart, nothing changes the signals. *)
Lemma netApply_signals cfg e s :
  (forall st, e <> NeBackpressure st) -> e <> NeCancel -> e <> NeShutdown -> signals (netApply cfg e s) = signals s.
Proof.
  intros Hb Hc Hd. destruct e; cbn [netApply]; try done.
  - apply workerTurn_signals.
  - by destruct (Hb state).
  - unfold sessionOpen. by case_bool_decide.
  - unfold sessionClose. by destruct (cn_wsConns s !! idx) as [[c|]|].
  - unfold reconnectAll. cbn. unfold closeSocks. by rewrite foldl_signals.
Qed.

(** A state that went back to normal has left a signal. *)
Definition unresumed (s : ClientNet) : Prop :=
  cn_backpressureState s = BackpressureNormal -> cn_resumeCh s = true.

Lemma netApply_unresumed cfg e s : unresumed s -> unresumed (netApply cfg e s).
Proof.
  intros Hs. assert ((forall st, e <> NeBackpressure st) -> e <> NeCancel -> e <> NeShutdown ->
    unresumed (netApply cfg e s)) as Hsame.
  { intros H1 Hc H2. unfold unresumed. by destruct (signals_eq _ _ _ _ (netApply_signals cfg e s H1 Hc H2))
      as (-> & -> & _). }
  destruct e as [| st | | | | | |]; try (by apply Hsame).
  - cbn. unfold handleBackpressure, unresumed in *.
    destruct (Z.eqb_spec (cn_backpressureState s) st) as [E|]; [by subst|].
    by destruct (Z.eqb_spec st BackpressureNormal).
  - done.
  - cbn [netApply]. unfold unresumed. by destruct (signals_eq _ _ _ _ (shutdown_signals s)) as (-> & -> & _).
Qed.
End Signals.

(** The notice that ends a pause, or the shutdown. *)
Definition wakes (e : netEvent) : bool :=
  match e with
  | NeBackpressure st => st =? BackpressureNormal
  | NeCancel | NeShutdown => true
  | _ => false
  end.

Lemma wakes_ends cfg e s : wakes e = true -> unresumed s ->
  cn_done (netApply cfg e s) = true
  \/ (cn_backpressureState (netApply cfg e s) = BackpressureNormal /\ cn_resumeCh (netApply cfg e s) = true).
Proof.
  destruct e as [| st | | | | | |]; cbn [wakes]; try done.
  - intros ->%Z.eqb_eq Hs. right. cbn. unfold handleBackpressure.
    destruct (Z.eqb_spec (cn_backpressureState s) BackpressureNormal) as [E|]; [|done].
    split; [done|]. by apply Hs.
  - intros _ _. by left.
  - intros _ _. left. apply (signals_eq _ _ _ _ (shutdown_signals s)).
Qed.

Definition waitOutcome (evs : list netEvent) (r : ClientNet * outcome bool) : Prop :=
  match r with
  | (s, Ret true) => cn_backpressureState s <> BackpressurePause
  | (s, Ret false) => cn_done s = true
  | (_, Blocked) => forall e, e ∈ evs -> wakes e = false
  | (_, Panicked) => False
  end.

Lemma waitCheck_some d s s' : waitCheck d s = Some s' -> cn_backpressureState s' <> BackpressurePause.
Proof.
  unfold waitCheck. destruct (Z.eqb_spec (cn_backpressureState s) BackpressurePause); cbn [negb];
    [|by intros [= <-]].
  destruct (_ <? _); [|done]. intros [= <-]. done.
Qed.

Lemma waitCheck_none d s : waitCheck d s = None -> cn_backpressureState s = BackpressurePause.
Proof.
  unfold waitCheck. by destruct (Z.eqb_spec (cn_backpressureState s) BackpressurePause).
Qed.

Lemma waitSelect_ends cfg d evs s :
  cn_done s = true \/ (cn_backpressureState s = BackpressureNormal /\ cn_resumeCh s = true) ->
  exists s' b, waitSelect cfg d evs s = (s', Ret b).
Proof.
  set (s1 := s <| cn_resumeCh := false |>). intros H.
  assert ((exists s2, (if cn_resumeCh s then waitCheck d s1 else None) = Some s2)
    \/ ((if cn_resumeCh s then waitCheck d s1 else None) = None /\ cn_done s1 = true)) as [[s2 E]|[E Hd]].
  { destruct H as [Hd|[HN ->]].
    - destruct (if cn_resumeCh s then waitCheck d s1 else None); [left; eauto|by right].
    - left. exists s1. unfold waitCheck. cbn. by rewrite HN. }
  - destruct evs; cbn [waitSelect]; fold s1; rewrite E; eauto.
  - destruct evs; cbn [waitSelect]; fold s1; rewrite E, Hd; eauto.
Qed.

Lemma waitSelect_spec cfg d evs : forall s, unresumed s -> waitOutcome evs (waitSelect cfg d evs s).
Proof.
  induction evs as [|e evs IH]; intros s Hs; cbn [waitSelect].
  all: set (s1 := s <| cn_resumeCh := false |>).
  all: destruct (if cn_resumeCh s then waitCheck d s1 else None) as [s2|] eqn:E;
    [destruct (cn_resumeCh s); [by apply (waitCheck_some d s1)|done]|].
  all: destruct (cn_done s1) eqn:Hd; [done|].
  1: intros ? []%not_elem_of_nil.
  assert (unresumed s1) as H1.
  { unfold unresumed, s1 in *. cbn. intros HN. specialize (Hs HN). rewrite Hs in E.
    apply waitCheck_none in E. cbn in E. rewrite HN in E. discriminate E. }
  pose proof (IH _ (netApply_unresumed cfg e s1 H1)) as Hw. unfold waitOutcome in *.
  destruct (waitSelect cfg d evs (netApply cfg e s1)) as [s2 [[]| |]] eqn:Ew; try done.
  intros e' [->|He']%elem_of_cons; [|by apply Hw].
  destruct (wakes e) eqn:Hwk; [|done]. exfalso.
  destruct (waitSelect_ends cfg d evs _ (wakes_ends cfg e s1 Hwk H1)) as (s3 & b & E3).
  rewrite E3 in Ew. discriminate Ew.
Qed.



(** the deadline of a pause is none: as long as nothing but time passes, a paused
    write waits, beyond its three seconds too. *)
Theorem pause_outlasts_deadline cfg s ds rest :
  cn_backpressureState s = BackpressurePause -> cn_resumeCh s = false -> cn_done s = false ->
  cn_schedule s = map NeTime ds :: rest ->
  exists s', waitForBackpressure cfg s = (s', Blocked)
    /\ cn_now s' = cn_now s + sumZ (map (Z.max 0) ds).
Proof.
  intros Hb Hr Hd Es. unfold waitForBackpressure, waitCheck. rewrite Hb.
  change (negb _) with false. cbv iota. destruct (Z.ltb_spec (cn_now s + 3 * Second) (cn_now s)) as [|_];
    [assert (0 < Second) by done; lia|].
  unfold bind, popSchedule. rewrite Es. set (s1 := s <| cn_schedule := rest |>).
  generalize (cn_now s + 3 * Second) as d. intros d.
  change (cn_now s) with (cn_now s1). assert (cn_resumeCh s1 = false /\ cn_done s1 = false) as [Hr1 Hd1] by done.
  clearbody s1. clear - Hr1 Hd1. revert s1 Hr1 Hd1.
  induction ds as [|x ds IH]; intros s1 Hr Hd; cbn [map waitSelect]; rewrite Hr;
    change (cn_done (s1 <| cn_resumeCh := false |>)) with (cn_done s1); rewrite Hd.
  - eexists. split; [done|]. cbn. lia.
  - destruct (IH (netApply cfg (NeTime x) (s1 <| cn_resumeCh := false |>))) as (s' & E & En);
      [done|exact Hd|].
    exists s'. split; [exact E|]. rewrite En. cbn. lia.
Qed.

Lemma pause_outlasts_deadline_witness :
  exists s', waitForBackpressure cfg2 (net1 <| cn_schedule := [[NeTime (10 * Second)]] |>) = (s', Blocked)
    /\ cn_now s' = 10 * Second.
Proof.
  destruct (pause_outlasts_deadline cfg2 (net1 <| cn_schedule := [[NeTime (10 * Second)]] |>)
    [10 * Second] []) as (s' & E & En); [vm_compute; reflexivity..|].
  exists s'. split; [exact E|]. rewrite En. vm_compute. reflexivity.
Defined.

(** ** Queues that nobody reads *)

(** No worker reads [q], and no channel has it: its bytes stay counted. *)
Definition orphan (q : qid) (jq : jobQueue) (s : ClientNet) : Prop :=
  cn_queues s !! q = Some jq
  /\ (forall k w, cn_workers s !! k = Some w -> wk_queue w <> q)
  /\ (forall i, cn_writeQueues s !! i <> Some (Some q)).

Section Orphan.
Context (cfg : Config) (q : qid) (jq : jobQueue).
Abbreviation I := (orphan q jq).

Lemma orphan_same s s' :
  I s -> cn_queues s' = cn_queues s -> cn_workers s' = cn_workers s ->
  cn_writeQueues s' = cn_writeQueues s -> I s'.
Proof. unfold orphan. by intros H -> -> ->. Qed.

Lemma orphan_updQueue q' f s : q' <> q -> I s -> I (updQueue q' f s).
Proof.
  intros Hne (Hq & Hw & Hi). unfold updQueue. split; [|done]. cbn. by rewrite lookup_alter_ne.
Qed.

Lemma orphan_release size s : I s -> I (releaseQueueBytes size s).
Proof. intros Hs. unfold releaseQueueBytes. destruct (_ <=? _); [done|]. by apply (orphan_same s). Qed.

Lemma orphan_drain jobs : forall s, I s -> I (drainJobs jobs s).
Proof. induction jobs as [|j jobs IH]; intros s Hs; [done|]. by apply IH, orphan_release. Qed.

Lemma orphan_sockWrite c mt d werr s : I s -> I (sockWrite c mt d werr s).1.
Proof.
  intros Hs. unfold sockWrite. destruct (cn_socks s !! c); [|done].
  destruct (_ || _); [done|]. by apply (orphan_same s).
Qed.

Lemma orphan_workerExit k w s : wk_queue w <> q -> I s -> I (workerExit k w s).
Proof.
  intros Hne Hs. unfold workerExit.
  destruct (orphan_updQueue (wk_queue w) (fun q => q <| jq_jobs := [] |>) _ Hne
    (orphan_drain (queueJobs (wk_queue w) s) s Hs)) as (Hq & Hw & Hi).
  split; [exact Hq|]. split; [|exact Hi]. intros k' w'. cbn. intros [_ Hk]%lookup_delete_Some. by apply (Hw k').
Qed.

Lemma orphan_workerWrite k w mt d werr s : wk_queue w <> q -> I s -> I (workerWrite k w mt d werr s).
Proof.
  intros Hne Hs. unfold workerWrite. pose proof (orphan_sockWrite (wk_conn w) mt d werr s Hs) as H1.
  destruct (sockWrite _ _ _ _ s) as [s1 []]; cbn in H1.
  - assert (I (caddSentBytes (len d) s1)) as (Hq & Hw & Hi).
    { unfold caddSentBytes. destruct (0 <? len d); [|done]. by apply (orphan_same s1). }
    split; [exact Hq|]. split; [|exact Hi].
    intros k' w'. cbn. intros [[_ <-]|[_ Hk]]%lookup_insert_Some; [done|by apply (Hw k')].
  - apply orphan_workerExit; [done|]. by apply (orphan_same s1).
Qed.

Lemma orphan_workerJob k w job werr s : wk_queue w <> q -> I s -> I (workerJob cfg k w job werr s).
Proof.
  intros Hne Hs. unfold workerJob. destruct (negb _); [by apply orphan_workerWrite|].
  destruct (DecodeMessage _) as [[|]|]; [by apply orphan_workerWrite| |by apply orphan_workerWrite].
  destruct (negb _); [by apply orphan_workerWrite|].
  destruct (aggLoop _ _ _ _) as [[parts pending] rest].
  by apply orphan_workerWrite, orphan_updQueue, orphan_drain.
Qed.

Lemma orphan_workerTurn k ev werr s : I s -> I (workerTurn cfg k ev werr s).
Proof.
  intros Hs. unfold workerTurn. destruct (cn_workers s !! k) as [w|] eqn:Hk; [|done].
  assert (wk_queue w <> q) as Hne by (destruct Hs as (_ & Hw & _); by apply (Hw k)).
  destruct (wk_pending w); [by apply orphan_workerJob|]. destruct ev.
  - unfold queueRecv. destruct (cn_queues s !! wk_queue w) as [[[|j jobs] c]|]; [|..|done].
    + destruct c; [by apply orphan_workerExit|done].
    + by apply orphan_workerJob, orphan_release, orphan_updQueue.
  - pose proof (orphan_sockWrite (wk_conn w) PingMessage [] werr s Hs) as H1.
    destruct (sockWrite _ _ _ _ s) as [s1 []]; cbn in H1; [done|].
    apply orphan_workerExit; [done|]. by apply (orphan_same s1).
  - destruct (cn_done s); [by apply orphan_workerExit|done].
Qed.

Lemma orphan_shutdown s : I s -> I (shutdown s).
Proof.
  intros Hs. unfold shutdown. set (s1 := s <| cn_done := true |>).
  assert (I (foldl (fun s q => updQueue q (fun q => q <| jq_closed := true |>) s) s1
    (omap id (cn_writeQueues s1)))) as H2.
  { assert (forall q', q' ∈ omap id (cn_writeQueues s1) -> q' <> q) as Hne.
    { intros q' Hq' ->. apply list_elem_of_omap in Hq' as (x & Hx & Ex).
      unfold id in Ex. subst x. apply list_elem_of_lookup_1 in Hx as [i Hi].
      destruct Hs as (_ & _ & Hw). by apply (Hw i). }
    revert Hne. assert (I s1) as H1 by (by apply (orphan_same s)). revert H1. generalize s1 at 1 3 as z.
    induction (omap id (cn_writeQueues s1)) as [|q' l IH]; intros z Hz Hne; [done|]. cbn. apply IH.
    - apply orphan_updQueue; [apply Hne; left|done].
    - intros q'' Hq''. apply Hne. by right. }
  set (s2 := foldl _ s1 _) in *. set (s3 := s2 <| cn_writeQueues ::= _ |>).
  assert (I s3) as H3.
  { destruct H2 as (Hq & Hw & _). split; [exact Hq|]. split; [exact Hw|].
    intros i (x & Hx & _)%list_lookup_fmap_Some. discriminate Hx. }
  assert (I (foldl (fun s c => sockClose c (sockWrite c CloseMessage closeFrame false s).1) s3
    (omap id (cn_wsConns s3)))) as H4.
  { apply foldl_inv; [|done]. intros z c Hz. apply (orphan_same (sockWrite c CloseMessage closeFrame false z).1);
      [by apply orphan_sockWrite|done..]. }
  exact H4.
Qed.

Lemma orphan_netApply e s : I s -> I (netApply cfg e s).
Proof.
  intros Hs. destruct e; cbn [netApply].
  - by apply orphan_workerTurn.
  - unfold handleBackpressure. destruct (_ =? state); [|destruct (state =? _)]; by apply (orphan_same s).
  - by apply (orphan_same s).
  - destruct Hs as (Hq & Hw & Hi). unfold sessionOpen. case_bool_decide; [|done].
    assert (fresh (dom (cn_queues s)) <> q) as Hne.
    { intros E. pose proof (fresh_none (cn_queues s)) as Hf. rewrite E in Hf. congruence. }
    split; [|split]; cbn.
    + by rewrite lookup_insert_ne.
    + intros k w [[_ <-]|[_ Hk]]%lookup_insert_Some; [done|by apply (Hw k)].
    + intros i. intros [(_ & E & _)|[_ Hk]]%list_lookup_insert_Some; [congruence|by apply (Hi i)].
  - unfold sessionClose. destruct (cn_wsConns s !! idx) as [[c|]|]; [by apply (orphan_same s)|done..].
  - unfold reconnectAll. cbn. unfold closeSocks.
    apply foldl_inv; [intros z c Hz; by apply (orphan_same z)|by apply (orphan_same s)].
  - by apply (orphan_same s).
  - by apply orphan_shutdown.
Qed.

Lemma orphan_trySend q' job s s' o : q' <> q -> I s -> trySend q' job s = Some (s', o) -> I s'.
Proof.
  intros Hne Hs. unfold trySend. destruct (cn_queues s !! q'); [|done].
  destruct (jq_closed _); [by intros [= <- _]|]. destruct (_ <? _); [|done].
  intros [= <- _]. by apply orphan_updQueue.
Qed.

Lemma orphan_sendWait q' job evs : q' <> q -> forall s, I s -> I (sendWait cfg q' job evs s).1.
Proof.
  intros Hne. induction evs as [|e evs IH]; intros s Hs; cbn [sendWait]; [by apply orphan_release|].
  apply (orphan_netApply e) in Hs. set (s1 := netApply cfg e s) in *.
  destruct (match e with NeCancel => true | _ => false end); [by apply orphan_release|].
  destruct (trySend q' job s1) as [[s2 []]|] eqn:E; try by apply (orphan_trySend q' job s1 s2 _ Hne Hs E).
  destruct (cn_done s1); [by apply orphan_release|by apply IH].
Qed.

Lemma orphan_enqueue idx mt d : keeps I (enqueue cfg idx mt d).
Proof.
  intros s Hs. cut (I (enqueue cfg idx mt d s).1);
    [by destruct (enqueue cfg idx mt d s) as [? []]|]. unfold enqueue, reserveQueueBytes.
  assert (forall z, I z -> I (match cn_writeQueues z !! idx with
    | Some (Some q') =>
        match trySend q' (mkWriteJob mt d (len d)) z with
        | Some (z, Ret _) => (z, Ret None)
        | Some (z, Blocked) => (z, Blocked)
        | Some (z, Panicked) => (z, Panicked)
        | None => (let! evs := popSchedule in sendWait cfg q' (mkWriteJob mt d (len d)) evs) z
        end
    | _ => (releaseQueueBytes (len d) z, Ret (Some ErrNoChannel))
    end).1) as Hgo.
  { intros z Hz. destruct (cn_writeQueues z !! idx) as [[q'|]|] eqn:Eq; [|by apply orphan_release..].
    assert (q' <> q) as Hne by (destruct Hz as (_ & _ & Hi); intros ->; by apply (Hi idx)).
    destruct (trySend q' _ z) as [[s2 []]|] eqn:E; try by apply (orphan_trySend q' _ z s2 _ Hne Hz E).
    unfold bind, popSchedule. destruct (cn_schedule z); by apply orphan_sendWait. }
  destruct (len d <=? 0); [by apply Hgo|]. destruct (_ <? _); [done|]. apply Hgo.
  by apply (orphan_same s).
Qed.

Lemma orphan_step s s' : cnetStep cfg s s' -> I s -> I s'.
Proof.
  intros [] Hs.
  - by apply orphan_netApply.
  - eapply keeps_at; [apply keeps_asyncWriteDirect|exact Hs|exact H|exact H0];
      intros; try (by apply orphan_netApply); try (by eapply orphan_same); apply orphan_enqueue.
  - eapply keeps_at; [apply keeps_broadcastWrite|exact Hs|exact H|exact H0];
      intros; try (by apply orphan_netApply); try (by eapply orphan_same); apply orphan_enqueue.
  - unfold writeControlDirect. destruct (chIndex chID s0); [|done].
    destruct (cn_wsConns s0 !! n) as [[c|]|]; [|done|done]. by apply orphan_sockWrite.
Qed.
End Orphan.

(** the bytes of a queue that no worker reads and no channel uses are counted for
    ever: whatever happens later, the queue keeps its jobs and the global counter is
    at least their size. *)
Theorem orphan_queue_leaks cfg sched s s' q jq :
  rtc (cnetStep cfg) (newClientNet cfg sched) s -> orphan q jq s -> rtc (cnetStep cfg) s s' ->
  cn_queues s' !! q = Some jq /\ queueSize jq <= cn_globalQueueBytes s'.
Proof.
  intros H0 Ho Hr. assert (netWf 0 s') as Hs.
  { apply (rtc_invariant (cnetStep cfg) (netWf 0)) with (newClientNet cfg sched);
      [|by transitivity s|apply newClientNet_inv].
    intros x y Hxy Hx. by apply (cnetStep_inv cfg 0 x). }
  destruct (rtc_invariant (cnetStep cfg) (orphan q jq) (orphan_step cfg q jq) s s' Hr Ho) as (Hq & _).
  split; [done|]. pose proof (queued_le _ _ _ _ Hs Hq). lia.
Qed.

(** A ping fails, the session ends; a write is still accepted, then the channel gets
    a new session with a queue of its own. *)
Definition lost0 : ClientNet := newClientNet cfg2 [].
Definition lostEvents (evs : list netEvent) (s : ClientNet) : ClientNet :=
  foldl (fun s e => netApply cfg2 e s) s evs.
Definition lost1 : ClientNet := lostEvents [NeOpen 0; NeWorker 1 WakeTick true; NeClose 0] lost0.
Definition lost2 : ClientNet * outcome (option writeError) :=
  asyncWriteDirect cfg2 1 BinaryMessage (dataFrame "a" "hello") lost1.
Definition lost3 : ClientNet := lostEvents [NeOpen 0] lost2.1.
Definition lostQueue : qid := 3.

Lemma lostEvents_run evs : forall s, rtc (cnetStep cfg2) s (lostEvents evs s).
Proof. induction evs as [|e evs IH]; intros s; [apply rtc_refl|]. eapply rtc_l; [apply cnet_event|apply IH]. Qed.

Lemma lost_run : rtc (cnetStep cfg2) lost0 lost3.
Proof.
  transitivity lost1; [apply lostEvents_run|]. transitivity lost2.1; [|apply lostEvents_run].
  apply rtc_once. refine (cnet_write cfg2 1 BinaryMessage (dataFrame "a" "hello") lost1 lost2.1 lost2.2 _ _).
  - unfold lost2. apply surjective_pairing.
  - vm_compute. discriminate.
Qed.

Definition queueAt (q : qid) (s : ClientNet) : jobQueue :=
  default (mkJobQueue [] false) (cn_queues s !! q).
Definition orphanb (q : qid) (s : ClientNet) : bool :=
  isSome (cn_queues s !! q)
  && bool_decide (map_Forall (fun _ w => wk_queue w <> q) (cn_workers s))
  && forallb (fun o => negb (bool_decide (o = Some q))) (cn_writeQueues s).

Lemma orphanb_ok q s : orphanb q s = true -> orphan q (queueAt q s) s.
Proof.
  unfold orphanb, queueAt. intros [[Hq Hw%bool_decide_eq_true]%andb_true_iff Hi]%andb_true_iff.
  split; [by destruct (cn_queues s !! q)|]. split; [exact Hw|].
  intros i Hx%list_elem_of_lookup_2. rewrite forallb_forall in Hi.
  specialize (Hi _ (proj1 (list_elem_of_In _ _) Hx)). by rewrite bool_decide_true in Hi.
Qed.

Lemma orphan_queue_leaks_witness :
  lost2.2 = Ret None /\ queueSize (queueAt lostQueue lost3) = 14
  /\ (forall s', rtc (cnetStep cfg2) lost3 s' ->
       queueSize (queueAt lostQueue lost3) <= cn_globalQueueBytes s').
Proof.
  split; [vm_compute; reflexivity|]. split; [vm_compute; reflexivity|].
  intros s' Hr. apply (orphan_queue_leaks cfg2 [] lost3 s' lostQueue (queueAt lostQueue lost3) lost_run);
    [|exact Hr]. apply orphanb_ok. vm_compute. reflexivity.
Defined.

(** ** Shutdown *)

Definition closedQueue (q : qid) (s : ClientNet) : Prop :=
  exists jq, cn_queues s !! q = Some jq /\ jq_closed jq = true.

Lemma closeQueues_closes q l : forall s,
  q ∈ l -> is_Some (cn_queues s !! q) ->
  closedQueue q (foldl (fun s q => updQueue q (fun q => q <| jq_closed := true |>) s) s l).
Proof.
  set (close := fun s q => _).
  assert (forall l s, closedQueue q s -> closedQueue q (foldl close s l)) as Hkeep.
  { clear l. induction l as [|q' l IH]; intros s (jq & Hq & Hc); [by exists jq|]. cbn. apply IH.
    unfold closedQueue, close, updQueue. cbn. destruct (decide (q' = q)) as [->|Hne].
    - rewrite lookup_alter_eq, Hq. cbn. by eexists.
    - rewrite lookup_alter_ne by done. by exists jq. }
  induction l as [|q' l IH]; intros s Hin [jq Hq]; [by apply not_elem_of_nil in Hin|]. cbn.
  destruct (decide (q' = q)) as [->|Hne].
  - apply Hkeep. unfold closedQueue, close, updQueue. cbn. rewrite lookup_alter_eq, Hq. by eexists.
  - apply elem_of_cons in Hin as [->|Hin]; [done|]. apply IH; [done|].
    unfold close, updQueue. cbn. rewrite lookup_alter_ne by done. by exists jq.
Qed.

Lemma closeSocks_queues l : forall s,
  cn_queues (foldl (fun s c => sockClose c (sockWrite c CloseMessage closeFrame false s).1) s l) = cn_queues s.
Proof.
  induction l as [|c l IH]; intros s; [done|]. cbn [foldl]. rewrite IH. unfold sockWrite, sockClose, updSock.
  destruct (cn_socks s !! c) as [k|]; [|done]. by destruct (_ || _).
Qed.

Lemma shutdown_closes_queue s idx q :
  cn_writeQueues s !! idx = Some (Some q) -> is_Some (cn_queues s !! q) -> closedQueue q (shutdown s).
Proof.
  intros Hi Hq. unfold shutdown, closedQueue.
  match goal with |- context [cn_queues (?s4 <| cn_wsConns ::= _ |>)] =>
    change (cn_queues (s4 <| cn_wsConns ::= map (fun _ => None) |>)) with (cn_queues s4) end.
  rewrite closeSocks_queues. apply closeQueues_closes; [|done]. cbn.
  apply list_elem_of_omap. exists (Some q). split; [|done]. by apply (list_elem_of_lookup_2 _ idx).
Qed.

(** the shutdown closes the write queues while writers may still hold one: a write
    that found its queue full, and goes on after the shutdown, sends on a closed
    channel and panics. *)
Theorem shutdown_panics_writer cfg s idx q jq mt d rest :
  cn_writeQueues s !! idx = Some (Some q) -> cn_queues s !! q = Some jq ->
  jq_closed jq = false -> writeQueueSize <= len (jq_jobs jq) ->
  cn_globalQueueBytes s + len d <= cn_globalQueueLimit s ->
  cn_schedule s = [NeShutdown] :: rest ->
  (enqueue cfg idx mt d s).2 = Panicked.
Proof.
  intros Hi Hq Hc Hfull Hroom Hsch. unfold enqueue.
  assert (exists g, reserveQueueBytes (len d) s = (s <| cn_globalQueueBytes := g |>, true)) as [g ->].
  { unfold reserveQueueBytes. destruct (_ <=? 0); [exists (cn_globalQueueBytes s); by destruct s|].
    rewrite (proj2 (Z.ltb_ge _ _)) by lia. by eexists. }
  cbn. rewrite Hi. unfold trySend at 1. cbn. rewrite Hq, Hc, (proj2 (Z.ltb_ge _ _)) by lia.
  unfold bind, popSchedule. cbn. rewrite Hsch. cbn [sendWait netApply].
  match goal with |- context [shutdown ?s1] =>
    destruct (shutdown_closes_queue s1 idx q) as (jq' & Hq' & Hc'); [done|by exists jq|] end.
  unfold trySend. by rewrite Hq', Hc'.
Qed.

(** A full queue, seen from a writer. *)
Definition fullNet : ClientNet :=
  updQueue 1 (fun _ => mkJobQueue (repeat (mkWriteJob BinaryMessage [] 0) (Z.to_nat writeQueueSize)) false)
    (newClientNet cfg2 [[NeShutdown]]).
Lemma fullNet_queue :
  cn_queues fullNet !! 1%positive
  = Some (mkJobQueue (repeat (mkWriteJob BinaryMessage [] 0) (Z.to_nat writeQueueSize)) false).
Proof.
  unfold fullNet, updQueue. generalize (repeat (mkWriteJob BinaryMessage [] 0) (Z.to_nat writeQueueSize)).
  intros l. reflexivity.
Qed.

Lemma shutdown_panics_writer_witness :
  (enqueue cfg2 0 BinaryMessage (dataFrame "a" "hello") fullNet).2 = Panicked.
Proof.
  eapply (shutdown_panics_writer cfg2 fullNet 0 1 _ BinaryMessage (dataFrame "a" "hello") []).
  - reflexivity.
  - apply fullNet_queue.
  - reflexivity.
  - cbn [jq_jobs]. unfold len. rewrite repeat_length. vm_compute. discriminate.
  - vm_compute. discriminate.
  - reflexivity.
Defined.
