(* ===== verification/PairWarmer.v ===== *)
(** The client's hot-pair warmer ([pair_warmer.go]): pairs of channels that are
    negotiated in advance, their life from Ready over Draining to Closed, the
    queue with its primary, the periodic rematch, and the notifications to the
    server.

    Pairs are pointers (keys of [w_heap]); [w_pairs] is the queue, [w_primary] a
    pointer into it. The client pool is used through the interface
    [WarmerPool]. *)

From S2P Require Import Prelude Protocol.

(** ** The client pool as the warmer uses it *)
Class WarmerPool (P : Type) := {
  wp_available : P -> list Z;                      (* availableChannels *)
  wp_write : Z -> bytes -> P -> P * bool;          (* asyncWriteDirect; false: error *)
  wp_addPrebind : bytes -> P -> P;                 (* pool.conns[connID] = temporary state *)
  wp_delPrebind : bytes -> P -> P;                 (* closed = true; delete *)
  wp_strategy : P -> Z }.                          (* pool.config.IPStrategy *)

(** ** Data *)
Definition PairStateReady : Z := 0.
Definition PairStateDraining : Z := 1.
Definition PairStateClosed : Z := 2.

Abbreviation pid := positive.

Record HotChannelPair := mkHotChannelPair {
  hc_ID : bytes; hc_PrebindID : bytes; hc_UplinkChID : Z; hc_DownlinkChID : Z;
  hc_state : Z; hc_refs : Z }.
#[export] Instance HotChannelPair_eta : Eta HotChannelPair := fun c =>
  mkHotChannelPair (hc_ID c) (hc_PrebindID c) (hc_UplinkChID c) (hc_DownlinkChID c)
    (hc_state c) (hc_refs c).

Record prebindResult := mkPrebindResult {
  pr_connID : bytes; pr_uplinkChID : Z; pr_downlinkChID : Z; pr_err : bool }.

Record Warmer (P : Type) := mkWarmer {
  w_pool : P;
  w_heap : gmap pid HotChannelPair;
  w_pairs : list pid;
  w_primary : option pid;
  w_PairCount : Z;
  w_done : bool;                                   (* the context is cancelled *)
  w_results : list prebindResult;                  (* prebindResultCh, capacity 8 *)
  w_notifyPending : gmap bytes HotPairInfo;
  w_notifyTimer : bool }.                          (* the timer is armed *)
Arguments mkWarmer {P} _ _ _ _ _ _ _ _ _.
Arguments w_pool {P} _.
Arguments w_heap {P} _.
Arguments w_pairs {P} _.
Arguments w_primary {P} _.
Arguments w_PairCount {P} _.
Arguments w_done {P} _.
Arguments w_results {P} _.
Arguments w_notifyPending {P} _.
Arguments w_notifyTimer {P} _.
#[export] Instance Warmer_eta {P} : Eta (Warmer P) := fun w =>
  mkWarmer (w_pool w) (w_heap w) (w_pairs w) (w_primary w) (w_PairCount w) (w_done w)
    (w_results w) (w_notifyPending w) (w_notifyTimer w).

(** What other goroutines do, and what the wait of [BuildPair] can see. *)
Inductive warmerEvent (P : Type) :=
| EvAcquire                            (* a dial takes a pair *)
| EvRelease (i : pid)                  (* a session ends *)
| EvInvalidate (chID : Z)              (* the pool lost a channel *)
| EvResult (res : prebindResult)       (* handleChannel delivers a result *)
| EvFlush                              (* the notification timer *)
| EvCancel                             (* the context is cancelled *)
| EvPool (pool : P).                   (* the pool changes *)
Arguments EvAcquire {P}.
Arguments EvRelease {P} _.
Arguments EvInvalidate {P} _.
Arguments EvResult {P} _.
Arguments EvFlush {P}.
Arguments EvCancel {P}.
Arguments EvPool {P} _.

Inductive waitEvent (P : Type) :=
| WOther (e : warmerEvent P)
| WReceive                             (* a result is taken from the channel *)
| WTimeout
| WDone.                               (* the cancelled context is seen *)
Arguments WOther {P} _.
Arguments WReceive {P}.
Arguments WTimeout {P}.
Arguments WDone {P}.

(** One call of [BuildPair]: the fresh identifier and what happens meanwhile. *)
Record buildRun (P : Type) := mkBuildRun { br_uuid : bytes; br_events : list (waitEvent P) }.
Arguments mkBuildRun {P} _ _.
Arguments br_uuid {P} _.
Arguments br_events {P} _.

Definition newPair (prebindID : bytes) (up down : Z) : HotChannelPair :=
  mkHotChannelPair [] prebindID up down PairStateReady 0.

(** [pairChannelsEqual] (its callers pass no [nil]). *)
Definition pairChannelsEqual (a b : HotChannelPair) : bool :=
  (hc_UplinkChID a =? hc_UplinkChID b) && (hc_DownlinkChID a =? hc_DownlinkChID b).

(** The queue without the first occurrence of [i]. *)
Fixpoint removeFirst (i : pid) (l : list pid) : list pid :=
  match l with
  | [] => []
  | j :: l => if bool_decide (j = i) then l else j :: removeFirst i l
  end.

Section Warmer.
Context {P : Type} `{!WarmerPool P}.
Implicit Types (w : Warmer P) (i : pid).

(** ** Access *)
Definition pairState w i : Z := match w_heap w !! i with Some p => hc_state p | None => PairStateClosed end.
Definition isReady w i : bool := pairState w i =? PairStateReady.
Definition refsOf w i : Z := match w_heap w !! i with Some p => hc_refs p | None => 0 end.
Definition updPair i (f : HotChannelPair -> HotChannelPair) w : Warmer P :=
  w <| w_heap ::= alter f i |>.
Definition setState i (s : Z) w : Warmer P := updPair i (fun p => p <| hc_state := s |>) w.

Definition readyCount w : Z := len (filter (fun i => isReady w i = true) (w_pairs w)).

Definition NewPairWarmer (pool : P) (pairCount : Z) : Warmer P :=
  mkWarmer pool ∅ [] None pairCount false [] ∅ false.

(** ** References *)

(** The first Ready pair, the primary before the queue, gains a reference. (The
    second look at the state after the increment always succeeds here: nothing
    runs between the two.) *)
Definition AcquirePrimary w : Warmer P * option pid :=
  let acquire i := (updPair i (fun p => p <| hc_refs ::= Z.add 1 |>) w, Some i) in
  let scan := list_find (fun i => Some i <> w_primary w /\ isReady w i = true) (w_pairs w) in
  match w_primary w with
  | Some i =>
      if isReady w i then acquire i
      else match scan with Some (_, j) => acquire j | None => (w, None) end
  | None => match scan with Some (_, j) => acquire j | None => (w, None) end
  end.

Definition ensurePrimaryLocked w : Warmer P :=
  match w_primary w with
  | Some i => if isReady w i then w
              else w <| w_primary := snd <$> list_find (fun j => isReady w j = true) (w_pairs w) |>
  | None => w <| w_primary := snd <$> list_find (fun j => isReady w j = true) (w_pairs w) |>
  end.

Definition clearPrimary i w : Warmer P :=
  if bool_decide (w_primary w = Some i) then w <| w_primary := None |> else w.

Definition removePair i w : Warmer P :=
  clearPrimary i (w <| w_pairs ::= filter (fun j => j <> i) |>).

Definition ReleasePair i w : Warmer P :=
  let w := updPair i (fun p => p <| hc_refs ::= fun r => r - 1 |>) w in
  if (refsOf w i <=? 0) && (pairState w i =? PairStateDraining)
     && negb (pairState w i =? PairStateClosed)
  then ensurePrimaryLocked (removePair i (setState i PairStateClosed w))
  else w.

(** ** Invalidation *)
Definition usesCh (chID : Z) (p : HotChannelPair) : bool :=
  (hc_UplinkChID p =? chID) || (hc_DownlinkChID p =? chID).

(** The loop over the queue; the result is what stays in it. *)
Fixpoint invalidateLoop (chID : Z) (l : list pid) w : Warmer P * list pid :=
  match l with
  | [] => (w, [])
  | i :: l =>
      match w_heap w !! i with
      | None => let '(w, k) := invalidateLoop chID l w in (w, i :: k)
      | Some p =>
          if hc_state p =? PairStateClosed
          then let '(w, k) := invalidateLoop chID l w in (w, i :: k) else
          if usesCh chID p then
            let w := if negb (hc_state p =? PairStateDraining)
                     then setState i PairStateDraining w else w in
            if refsOf w i <=? 0
            then invalidateLoop chID l (clearPrimary i (setState i PairStateClosed w))
            else let '(w, k) := invalidateLoop chID l w in (w, i :: k)
          else let '(w, k) := invalidateLoop chID l w in (w, i :: k)
      end
  end.

Definition InvalidateChannel (chID : Z) w : Warmer P :=
  let '(w, kept) := invalidateLoop chID (w_pairs w) w in
  ensurePrimaryLocked (w <| w_pairs := kept |>).

Definition discardCandidatePair i w : Warmer P :=
  if refsOf w i <=? 0
  then ensurePrimaryLocked (removePair i (setState i PairStateClosed w))
  else setState i PairStateDraining w.

Definition invalidatePair i w : Warmer P :=
  if negb (isReady w i) then w else
  let w := setState i PairStateDraining w in
  if refsOf w i <=? 0
  then ensurePrimaryLocked (removePair i (setState i PairStateClosed w))
  else w.

(** [pruneIdleDrainingPairs] ranges over the slice while [removePair] shifts the
    same backing array: [arr] is the array, [m] the current length of the slice.
    Removing index [k] moves the cells up to [m] one to the left and leaves the
    last one as it was. *)
Definition shiftOut (k m : nat) (arr : list pid) : list pid :=
  take k arr ++ take (m - 1 - k) (drop (S k) arr) ++ drop (m - 1) arr.

(** [removePair]'s loop on the array. *)
Fixpoint removeAll (fuel k : nat) i (arr : list pid) (m : nat) : list pid * nat :=
  match fuel with
  | O => (arr, m)
  | S fuel =>
      if (k <? m)%nat then
        if bool_decide (arr !! k = Some i)
        then removeAll fuel k i (shiftOut k m arr) (m - 1)
        else removeAll fuel (S k) i arr m
      else (arr, m)
  end.

Fixpoint pruneLoop (fuel j : nat) (arr : list pid) (m : nat) (pruned : bool) w
    : Warmer P * bool :=
  match fuel with
  | O => (w <| w_pairs := take m arr |>, pruned)
  | S fuel =>
      match arr !! j with
      | None => (w <| w_pairs := take m arr |>, pruned)
      | Some i =>
          if (pairState w i =? PairStateDraining) && (refsOf w i <=? 0) then
            let w := setState i PairStateClosed w in
            let '(arr, m) := removeAll (length arr) 0 i arr m in
            pruneLoop fuel (S j) arr m true (clearPrimary i w)
          else pruneLoop fuel (S j) arr m pruned w
      end
  end.

Definition pruneIdleDrainingPairs w : Warmer P :=
  let arr := w_pairs w in
  let '(w, pruned) := pruneLoop (length arr) 0 arr (length arr) false w in
  if pruned then ensurePrimaryLocked w else w.

(** Both channels of the pair are available. *)
Definition chAvailable w (chID : Z) : bool := bool_decide (chID ∈ wp_available (w_pool w)).

(** The check of [tryRefresh] and [validatePrimaryChannels]: a primary with a dead
    channel is invalidated. *)
Definition checkPrimary w : Warmer P :=
  match w_primary w with
  | None => w
  | Some i =>
      match w_heap w !! i with
      | None => w
      | Some p =>
          if negb (hc_state p =? PairStateReady) then w else
          let uplinkValid := chAvailable w (hc_UplinkChID p) in
          let downlinkValid := chAvailable w (hc_DownlinkChID p) in
          let w := if negb uplinkValid then InvalidateChannel (hc_UplinkChID p) w else w in
          if negb downlinkValid then InvalidateChannel (hc_DownlinkChID p) w else w
      end
  end.

(** [validatePrimaryChannels]: additionally tells whether nothing was wrong. *)
Definition validatePrimaryChannels (primary : option pid) w : Warmer P * bool :=
  match primary ≫= (fun i => w_heap w !! i) with
  | None => (w, true)
  | Some p =>
      if negb (hc_state p =? PairStateReady) then (w, true) else
      let uplinkValid := chAvailable w (hc_UplinkChID p) in
      let downlinkValid := chAvailable w (hc_DownlinkChID p) in
      if negb uplinkValid || negb downlinkValid then
        let w := if negb uplinkValid then InvalidateChannel (hc_UplinkChID p) w else w in
        (if negb downlinkValid then InvalidateChannel (hc_DownlinkChID p) w else w, false)
      else (w, true)
  end.

(** ** Notifications *)
Definition lookupReady (key : bytes) w : option pid :=
  snd <$> list_find (fun i => (match w_heap w !! i with Some p => hc_PrebindID p | None => [] end) = key
                              /\ isReady w i = true) (w_pairs w).

Definition LookupReady (key : bytes) w : option pid :=
  if bool_decide (key = []) then None else lookupReady key w.

Definition pairInfo (p : HotChannelPair) : HotPairInfo :=
  mkHotPairInfo (hc_PrebindID p) (hc_UplinkChID p) (hc_DownlinkChID p).

Definition queueHotPairNotify i w : Warmer P :=
  match w_heap w !! i with
  | None => w
  | Some p =>
      if bool_decide (hc_PrebindID p = []) then w else
      w <| w_notifyPending ::= <[hc_PrebindID p := pairInfo p]> |> <| w_notifyTimer := true |>
  end.

(** The first channel that takes the frame. *)
Fixpoint firstWrite (chs : list Z) (msg : bytes) (p : P) : P * bool :=
  match chs with
  | [] => (p, false)
  | ch :: chs =>
      let '(p, ok) := wp_write ch msg p in
      if ok : bool then (p, true) else firstWrite chs msg p
  end.

Definition readyPending w : gmap bytes HotPairInfo :=
  filter (fun '(key, _) => is_Some (lookupReady key w)) (w_notifyPending w).

Definition notifyMessage (pending : list HotPairInfo) : bytes :=
  EncodeMessage MsgHotPairNotify [] [] (EncodeHotPairNotify pending).

(** [flushHotPairNotify], the timer function. *)
Definition flushHotPairNotify w : Warmer P :=
  let w := w <| w_notifyTimer := false |> in
  if bool_decide (w_notifyPending w = ∅) then w else
  let w := w <| w_notifyPending := readyPending w |> in
  let pending := map snd (map_to_list (w_notifyPending w)) in
  if bool_decide (pending = []) then w else
  let '(pool, ok) := firstWrite (wp_available (w_pool w)) (notifyMessage pending) (w_pool w) in
  let w := w <| w_pool := pool |> in
  if ok : bool
  then w <| w_notifyPending ::= fun m => foldl (fun m e => delete (hp_Key e) m) m pending |>
  else w.

Definition heartbeatHotPairNotify w : Warmer P :=
  foldl (fun w i => queueHotPairNotify i w) w
    (filter (fun i => isReady w i = true) (w_pairs w)).

(** ** Building a pair *)
Definition deletePrebindState (connID : bytes) w : Warmer P :=
  w <| w_pool ::= wp_delPrebind connID |>.

(** Writes the frame to every channel; the number of successes. *)
Definition writeEach (chs : list Z) (msg : bytes) (p : P) : P * Z :=
  foldl (fun '(p, sent) ch =>
    let '(p, ok) := wp_write ch msg p in (p, if ok : bool then sent + 1 else sent)) (p, 0) chs.

(** [BuildPair] up to the wait; [None] is an error. *)
Definition buildBegin (uuid : bytes) (available : list Z) w : Warmer P * option bytes :=
  if w_done w then (w, None) else
  if len available <? 2 then (w, None) else
  let connID := hotPairKeyPrefix ++ uuid in
  let pool := wp_addPrebind connID (w_pool w) in
  let msg := EncodeMessage MsgPrebindRequest connID
               (byte_of_Z (wp_strategy pool) :: PrebindTarget) [] in
  let '(pool, _) := writeEach available (EncodeMessage MsgHotPairBegin [] [] []) pool in
  let '(pool, sent) := writeEach available msg pool in
  let w := w <| w_pool := pool |> in
  if sent =? 0 then (deletePrebindState connID w, None) else (w, Some connID).

(** [HandlePrebindResult]: a full buffer drops the result. *)
Definition HandlePrebindResult (res : prebindResult) w : Warmer P :=
  if len (w_results w) <? 8 then w <| w_results ::= fun l => l ++ [res] |> else w.

(** What the other goroutines do to the warmer. A holder only releases what it
    acquired. *)
Definition applyEvent (e : warmerEvent P) w : Warmer P :=
  match e with
  | EvAcquire => (AcquirePrimary w).1
  | EvRelease i => if 0 <? refsOf w i then ReleasePair i w else w
  | EvInvalidate chID => InvalidateChannel chID w
  | EvResult res => HandlePrebindResult res w
  | EvFlush => if w_notifyTimer w then flushHotPairNotify w else w
  | EvCancel => w <| w_done := true |>
  | EvPool pool => w <| w_pool := pool |>
  end.

Definition completePair (res : prebindResult) w : Warmer P * option pid :=
  let connID := pr_connID res in
  if pr_err res then (deletePrebindState connID w, None) else
  if w_done w then (deletePrebindState connID w, None) else
  let i := fresh (dom (w_heap w)) in
  let primary := match w_primary w with
                 | Some j => if isReady w j then Some j else Some i
                 | None => Some i
                 end in
  let w := w <| w_heap ::= <[i := newPair connID (pr_uplinkChID res) (pr_downlinkChID res)]> |>
             <| w_pairs ::= fun l => l ++ [i] |> <| w_primary := primary |> in
  (deletePrebindState connID (queueHotPairNotify i w), Some i).

(** The wait of [BuildPair]; when the events end, the timer fires. *)
Fixpoint buildWait (connID : bytes) (evs : list (waitEvent P)) w : Warmer P * option pid :=
  match evs with
  | [] | WTimeout :: _ => (deletePrebindState connID w, None)
  | WDone :: evs =>
      if w_done w then (deletePrebindState connID w, None) else buildWait connID evs w
  | WOther e :: evs => buildWait connID evs (applyEvent e w)
  | WReceive :: evs =>
      match w_results w with
      | [] => buildWait connID evs w
      | res :: rest =>
          let w := w <| w_results := rest |> in
          if bool_decide (pr_connID res = connID) then completePair res w
          else buildWait connID evs w
      end
  end.

Definition BuildPair (r : buildRun P) (available : list Z) w : Warmer P * option pid :=
  match buildBegin (br_uuid r) available w with
  | (w, None) => (w, None)
  | (w, Some connID) => buildWait connID (br_events r) w
  end.

(** [fmt.Sprintf("%02d", k)] for [k] below 10. *)
Definition slotID (k : Z) : bytes := [byte_of_Z 48; byte_of_Z (48 + k)].

Definition assignPairSlot i w : Warmer P :=
  let used := omap (fun j =>
    match w_heap w !! j with
    | Some p => if bool_decide (j <> i) && negb (bool_decide (hc_ID p = [])) then Some (hc_ID p) else None
    | None => None
    end) (w_pairs w) in
  let id := match list_find (fun k => slotID k ∉ used) [1; 2; 3; 4; 5; 6; 7; 8] with
            | Some (_, k) => slotID k
            | None => lit "ff"
            end in
  updPair i (fun p => p <| hc_ID := id |>) w.

(** The loop of [tryBuildPairs]; [runs] are the calls of [BuildPair]. *)
Fixpoint buildLoop (runs : list (buildRun P)) (available : list Z) (ready : Z) w : Warmer P :=
  match runs with
  | [] => w
  | r :: runs =>
      if ready <? w_PairCount w then
        match BuildPair r available w with
        | (w, None) => w
        | (w, Some i) => buildLoop runs available (ready + 1) (assignPairSlot i w)
        end
      else w
  end.

Definition tryBuildPairs (runs : list (buildRun P)) w : Warmer P :=
  if w_PairCount w <=? readyCount w then w else
  let available := wp_available (w_pool w) in
  if len available <? 2 then w else buildLoop runs available (readyCount w) w.

Definition tryRefresh (runs : list (buildRun P)) w : Warmer P :=
  tryBuildPairs runs (checkPrimary (ensurePrimaryLocked w)).

(** ** The periodic rematch *)

(** A Ready pair other than the candidate [i] with its channels. *)
Definition readyMatch i (c : HotChannelPair) w j : bool :=
  bool_decide (j <> i) && isReady w j &&
  match w_heap w !! j with Some p => pairChannelsEqual c p | None => false end.

(** (match at the head, match elsewhere) *)
Definition findReadyMatchLocked i w : option pid * option pid :=
  match w_heap w !! i with
  | None => (None, None)
  | Some c =>
      let spare := snd <$> list_find (fun j => readyMatch i c w j = true) (w_pairs w) in
      match w_primary w with
      | Some h =>
          if bool_decide (h ∈ w_pairs w) && readyMatch i c w h then (Some h, None)
          else (None, spare)
      | None => (None, spare)
      end
  end.

Definition promoteToHead i w : Warmer P :=
  if bool_decide (i ∈ w_pairs w)
  then w <| w_pairs ::= fun l => i :: removeFirst i l |> <| w_primary := Some i |>
  else w.

Definition replaceHeadWithCandidate i (oldHead : option pid) w : Warmer P :=
  if bool_decide (i ∈ w_pairs w) then
    let w := w <| w_pairs ::= removeFirst i |> in
    match oldHead with
    | Some h =>
        if bool_decide (h <> i) && isReady w h
        then w <| w_pairs ::= fun l => i :: h :: removeFirst h l |> <| w_primary := Some i |>
        else w <| w_pairs ::= cons i |> <| w_primary := Some i |>
    | None => w <| w_pairs ::= cons i |> <| w_primary := Some i |>
    end
  else w.

(** The loop of [deduplicatePairs]; the second result is what stays queued. *)
Fixpoint dedupLoop (seen : gset (Z * Z)) (l : list pid) w : Warmer P * list pid :=
  match l with
  | [] => (w, [])
  | i :: l =>
      match w_heap w !! i with
      | None => let '(w, k) := dedupLoop seen l w in (w, i :: k)
      | Some p =>
          if negb (hc_state p =? PairStateReady)
          then let '(w, k) := dedupLoop seen l w in (w, i :: k) else
          let key := (hc_UplinkChID p, hc_DownlinkChID p) in
          if bool_decide (key ∈ seen) then
            let w := setState i PairStateDraining w in
            if 0 <? hc_refs p
            then let '(w, k) := dedupLoop seen l w in (w, i :: k)
            else dedupLoop seen l (clearPrimary i (setState i PairStateClosed w))
          else let '(w, k) := dedupLoop ({[key]} ∪ seen) l w in (w, i :: k)
      end
  end.

Definition deduplicatePairs w : Warmer P :=
  let '(w, kept) := dedupLoop ∅ (w_pairs w) w in
  ensurePrimaryLocked (w <| w_pairs := kept |>).

(** The pairs are chosen first, then each is looked at (its channels never
    change). *)
Definition healthCheckSpares w : Warmer P :=
  let available := wp_available (w_pool w) in
  let spares := filter (fun i => Some i <> w_primary w /\ isReady w i = true) (w_pairs w) in
  foldl (fun w i =>
    match w_heap w !! i with
    | None => w
    | Some p =>
        if negb (bool_decide (hc_UplinkChID p ∈ available))
        then InvalidateChannel (hc_UplinkChID p) w
        else if negb (bool_decide (hc_DownlinkChID p ∈ available))
        then InvalidateChannel (hc_DownlinkChID p) w
        else w
    end) w spares.

(** The loop of [trimExcessPairs]; each turn that goes on has one Ready pair
    less. *)
Fixpoint trimLoop (fuel : nat) w : Warmer P :=
  match fuel with
  | O => w
  | S fuel =>
      if readyCount w <=? w_PairCount w then w else
      match last (filter (fun i => isReady w i = true) (w_pairs w)) with
      | None => w
      | Some i =>
          let w := setState i PairStateDraining w in
          if 0 <? refsOf w i then w
          else trimLoop fuel (removePair i (setState i PairStateClosed w))
      end
  end.

Definition trimExcessPairs w : Warmer P :=
  if w_PairCount w <=? 0 then w
  else ensurePrimaryLocked (trimLoop (S (length (w_pairs w))) w).

(** Step 2 of [periodicRefresh]: the candidate [i] against the queue. *)
Definition refreshDecision i w : Warmer P :=
  match findReadyMatchLocked i w with
  | (Some _, _) => discardCandidatePair i w
  | (None, Some j) => discardCandidatePair i (promoteToHead j w)
  | (None, None) =>
      if bool_decide (w_primary w = Some i) then assignPairSlot i w
      else replaceHeadWithCandidate i (w_primary w) (assignPairSlot i w)
  end.

(** [race]: the call of [BuildPair] for the candidate; [runs]: those that fill
    up. *)
Definition periodicRefresh (race : buildRun P) (runs : list (buildRun P)) w : Warmer P :=
  let w := pruneIdleDrainingPairs (heartbeatHotPairNotify w) in
  let available := wp_available (w_pool w) in
  let w := if 2 <=? len available then
             match BuildPair race available w with
             | (w, Some i) => refreshDecision i w
             | (w, None) => w
             end
           else w in
  deduplicatePairs (tryBuildPairs runs (trimExcessPairs
    (healthCheckSpares (deduplicatePairs w)))).

(** One turn of [Run]. *)
Inductive runEvent :=
| RunReady (runs : list (buildRun P))                      (* chReadyCh *)
| RunInvalid (runs : list (buildRun P))                    (* chInvalidCh *)
| RunTick (race : buildRun P) (runs : list (buildRun P)).  (* the ticker *)

Definition runTurn (e : runEvent) w : Warmer P :=
  if w_done w then w else
  match e with
  | RunReady runs => tryBuildPairs runs w
  | RunInvalid runs => tryRefresh runs w
  | RunTick race runs => heartbeatHotPairNotify (periodicRefresh race runs w)
  end.
End Warmer.
