(* ===== verification/PairWarmerInv.v ===== *)
(** The invariant of the hot-pair warmer, kept by every locked region in any
    interleaving, and the fact that the turns of [Run] are sequences of such
    regions. *)

From S2P Require Import Prelude Protocol PairWarmer.

(** ** The invariant *)

(** A pair that is queued is Ready, or Draining and in use; any other pair is
    Closed and unused. *)
Definition pairOK (l : list pid) (i : pid) (p : HotChannelPair) : Prop :=
  0 <= hc_refs p
  /\ (((i ∈ l) /\ (hc_state p = PairStateReady \/ (hc_state p = PairStateDraining /\ 0 < hc_refs p)))
      \/ ((i ∉ l) /\ hc_state p = PairStateClosed /\ hc_refs p = 0)).

Record pairsInv (h : gmap pid HotChannelPair) (l : list pid) (pr : option pid) : Prop := {
  pi_nodup : NoDup l;
  pi_dom : forall i, i ∈ l -> is_Some (h !! i);
  pi_pair : forall i p, h !! i = Some p -> pairOK l i p;
  pi_primary : forall i, pr = Some i -> i ∈ l }.

(** What a sweep over the queue does with a pair. *)
Inductive action := Keep | Drain | Close.

#[export] Instance action_eq_dec : EqDecision action.
Proof. solve_decision. Defined.

Definition actOn (a : action) (p : HotChannelPair) : HotChannelPair :=
  match a with
  | Keep => p
  | Drain => p <| hc_state := PairStateDraining |>
  | Close => p <| hc_state := PairStateClosed |>
  end.

Definition isClose (a : action) : bool := match a with Close => true | _ => false end.

Section Inv.
Context {P : Type} `{!WarmerPool P}.
Implicit Types (w : Warmer P) (i : pid).

Definition readyListed w i : Prop := (i ∈ w_pairs w) /\ isReady w i = true.

(** Without a primary no pair is Ready. *)
Record warmerInv w : Prop := {
  wi_pairs : pairsInv (w_heap w) (w_pairs w) (w_primary w);
  wi_elect : w_primary w = None -> forall i, i ∈ w_pairs w -> isReady w i = false }.

(** ** Locked regions *)
Inductive warmerStep : Warmer P -> Warmer P -> Prop :=
| ws_event e w : warmerStep w (applyEvent e w)
| ws_receive w : warmerStep w (w <| w_results ::= tail |>)
| ws_pool pool w : warmerStep w (w <| w_pool := pool |>)
| ws_complete res w : warmerStep w (completePair res w).1
| ws_slot i w : warmerStep w (assignPairSlot i w)
| ws_queue i w : warmerStep w (queueHotPairNotify i w)
| ws_ensure w : warmerStep w (ensurePrimaryLocked w)
| ws_prune w : warmerStep w (pruneIdleDrainingPairs w)
| ws_discard i w : warmerStep w (discardCandidatePair i w)
| ws_invalidatePair i w : warmerStep w (invalidatePair i w)
| ws_promote i w : warmerStep w (promoteToHead i w)
| ws_replace i h w : warmerStep w (replaceHeadWithCandidate i h w)
| ws_dedup w : warmerStep w (deduplicatePairs w)
| ws_trim w : warmerStep w (trimExcessPairs w).

(** ** Changing one pair *)
Definition onlyAt i (h h' : gmap pid HotChannelPair) : Prop :=
  forall j, j <> i -> h' !! j = h !! j.

Lemma onlyAt_alter i f h : onlyAt i h (alter f i h).
Proof. intros j Hj. by rewrite lookup_alter_ne. Qed.

Lemma onlyAt_trans i h h' h'' : onlyAt i h h' -> onlyAt i h' h'' -> onlyAt i h h''.
Proof. intros H1 H2 j Hj. by rewrite H2, H1. Qed.

(** The pair at [i] stays where it is. *)
Lemma pairsInv_keep i h h' l pr p p' :
  pairsInv h l pr -> onlyAt i h h' -> h !! i = Some p -> h' !! i = Some p' ->
  pairOK l i p' -> pairsInv h' l pr.
Proof.
  intros [Hn Hd Hp Hpr] Ho Hi Hi' Hok. split; try done.
  - intros j Hj. destruct (decide (j = i)) as [->|]; [by eauto|]. rewrite Ho by done. by apply Hd.
  - intros j q Hj. destruct (decide (j = i)) as [->|Hne]; [congruence|].
    rewrite Ho in Hj by done. by apply Hp.
Qed.

(** An unused pair is closed and taken out of the queue. *)
Lemma pairsInv_close i h h' l l' pr p p' :
  pairsInv h l pr -> onlyAt i h h' -> h !! i = Some p -> h' !! i = Some p' ->
  hc_refs p' = 0 -> hc_state p' = PairStateClosed ->
  NoDup l' -> (forall j, (j ∈ l') <-> (j ∈ l) /\ j <> i) ->
  pairsInv h' l' (if bool_decide (pr = Some i) then None else pr).
Proof.
  intros [Hn Hd Hp Hpr] Ho Hi Hi' Hr Hs Hn' Hl'. split; [done| | |].
  - intros j [Hj Hne]%Hl'. rewrite Ho by done. by apply Hd.
  - intros j q Hj. destruct (decide (j = i)) as [->|Hne].
    + assert (q = p') as -> by congruence.
      unfold pairOK. rewrite Hr, Hs. split; [lia|]. right. split; [|split; [done|lia]].
      intros [_ ?]%Hl'. done.
    + rewrite Ho in Hj by done. destruct (Hp _ _ Hj) as [H0 H1]. split; [done|].
      destruct H1 as [[? ?]|[? ?]]; [left|right]; (split; [|done]); rewrite Hl'; tauto.
  - intros j. case_bool_decide as Hb; [done|]. intros ->. apply Hl'. split; [by apply Hpr|].
    congruence.
Qed.

Lemma filter_ne_mid i (pre l : list pid) :
  NoDup (pre ++ i :: l) -> filter (fun j => j <> i) (pre ++ i :: l) = pre ++ l.
Proof.
  intros (Hpre & Hd & [Hi _]%NoDup_cons)%NoDup_app.
  assert (forall k : list pid, i ∉ k -> filter (fun j => j <> i) k = k) as Hid.
  { intros k Hk. induction k as [|j k IH]; [done|]. apply not_elem_of_cons in Hk as [? ?].
    rewrite filter_cons_True by done. f_equal. by apply IH. }
  rewrite filter_app, filter_cons_False by naive_solver.
  rewrite !Hid; [done|done|]. intros H. apply (Hd i H). by left.
Qed.

(** ** Election *)
Lemma pairsInv_none h l pr : pairsInv h l pr -> pairsInv h l None.
Proof. intros [? ? ? _]. by split. Qed.

Lemma ensurePrimaryLocked_same w :
  w_heap (ensurePrimaryLocked w) = w_heap w /\ w_pairs (ensurePrimaryLocked w) = w_pairs w.
Proof. unfold ensurePrimaryLocked. destruct (w_primary w); [|done]. by destruct (isReady _ _). Qed.

(** The primary after an election. *)
Definition elected w : option pid :=
  match w_primary w with
  | Some i => if isReady w i then Some i
              else snd <$> list_find (fun j => isReady w j = true) (w_pairs w)
  | None => snd <$> list_find (fun j => isReady w j = true) (w_pairs w)
  end.

Lemma ensurePrimaryLocked_primary w : w_primary (ensurePrimaryLocked w) = elected w.
Proof.
  unfold ensurePrimaryLocked, elected. destruct (w_primary w) eqn:E; [|done].
  by destruct (isReady _ _).
Qed.

Lemma first_ready w j :
  snd <$> list_find (fun j => isReady w j = true) (w_pairs w) = Some j -> readyListed w j.
Proof.
  intros ([k j'] & Hf & Hj)%fmap_Some. cbn in Hj. subst j'.
  apply list_find_Some in Hf as (Hl & Hr & _).
  split; [|done]. by eapply list_elem_of_lookup_2.
Qed.

Lemma elected_ready w i :
  pairsInv (w_heap w) (w_pairs w) (w_primary w) -> elected w = Some i -> readyListed w i.
Proof.
  intros Hw. unfold elected. destruct (w_primary w) as [j|] eqn:E.
  - destruct (isReady w j) eqn:R; [|apply first_ready]. intros [= <-]. split; [|done].
    by apply (pi_primary _ _ _ Hw).
  - apply first_ready.
Qed.

Lemma elected_none w : elected w = None -> forall i, i ∈ w_pairs w -> isReady w i = false.
Proof.
  assert (snd <$> list_find (fun j => isReady w j = true) (w_pairs w) = None ->
    forall i, i ∈ w_pairs w -> isReady w i = false) as H.
  { intros H%fmap_None i Hi. apply list_find_None in H. rewrite list.Forall_forall in H.
    apply not_true_is_false. by apply H. }
  unfold elected. destruct (w_primary w) as [j|]; [|done]. by destruct (isReady w j).
Qed.

Lemma ensurePrimaryLocked_inv w :
  pairsInv (w_heap w) (w_pairs w) (w_primary w) -> warmerInv (ensurePrimaryLocked w).
Proof.
  intros Hw. pose proof (ensurePrimaryLocked_same w) as [Eh El].
  split; rewrite ?Eh, ?El, ensurePrimaryLocked_primary.
  - destruct Hw as [Hn Hd Hp Hpr] eqn:E. split; try done. intros i Hi.
    by apply (elected_ready w i Hw) in Hi as [? _].
  - intros Hnone i Hi. unfold isReady, pairState. rewrite Eh.
    by apply (elected_none w Hnone).
Qed.

(** Regions that leave pairs, queue and primary alone. *)
Lemma warmerInv_same w w' :
  w_heap w' = w_heap w -> w_pairs w' = w_pairs w -> w_primary w' = w_primary w ->
  warmerInv w -> warmerInv w'.
Proof.
  intros Eh El Ep [H1 H2]. split; rewrite ?Eh, ?El, ?Ep; [done|].
  intros Hn i Hi. unfold isReady, pairState. rewrite Eh. by apply H2.
Qed.

(** ** Closing an unused pair *)

(** [w] is [w0] with another state of the pair [i]. *)
Record touched i w0 w : Prop := {
  to_only : onlyAt i (w_heap w0) (w_heap w);
  to_refs : w_heap w !! i = (fun p => p <| hc_state := pairState w i |>) <$> w_heap w0 !! i;
  to_pairs : w_pairs w = w_pairs w0;
  to_primary : w_primary w = w_primary w0 }.

Lemma touched_refl i w : touched i w w.
Proof.
  split; [done| |done|done]. unfold pairState. destruct (w_heap w !! i) as [p|]; [|done].
  by destruct p.
Qed.

Lemma lookup_setState i s w :
  w_heap (setState i s w) !! i = (fun p => p <| hc_state := s |>) <$> w_heap w !! i.
Proof. unfold setState, updPair. cbn. by rewrite lookup_alter_eq. Qed.

Lemma lookup_setState_ne i j s w : j <> i -> w_heap (setState i s w) !! j = w_heap w !! j.
Proof. intros ?. unfold setState, updPair. cbn. by rewrite lookup_alter_ne. Qed.

Lemma touched_setState i s w0 w : touched i w0 w -> touched i w0 (setState i s w).
Proof.
  intros [H1 H2 H3 H4]. split; [|unfold pairState; rewrite lookup_setState, H2|done|done].
  - intros j Hj. by rewrite lookup_setState_ne, H1.
  - destruct (w_heap w0 !! i) as [p|]; [|done]. cbn. by destruct p.
Qed.

Lemma refsOf_touched i w0 w : touched i w0 w -> refsOf w i = refsOf w0 i.
Proof. intros H. unfold refsOf. rewrite (to_refs _ _ _ H). by destruct (w_heap w0 !! i). Qed.

Definition inv3 w : Prop := pairsInv (w_heap w) (w_pairs w) (w_primary w).

Lemma pairState_setState i s w : is_Some (w_heap w !! i) -> pairState (setState i s w) i = s.
Proof. intros [p Hp]. unfold pairState. by rewrite lookup_setState, Hp. Qed.

Lemma touched_keep i w0 w :
  inv3 w0 -> touched i w0 w ->
  (forall p, w_heap w0 !! i = Some p ->
     pairOK (w_pairs w0) i (p <| hc_state := pairState w i |>)) -> inv3 w.
Proof.
  intros H0 Ht Hok. unfold inv3. rewrite (to_pairs _ _ _ Ht), (to_primary _ _ _ Ht).
  pose proof (to_refs _ _ _ Ht) as Hi. destruct (w_heap w0 !! i) as [p|] eqn:E.
  - exact (pairsInv_keep i _ _ _ _ _ _ H0 (to_only _ _ _ Ht) E Hi (Hok p eq_refl)).
  - replace (w_heap w) with (w_heap w0); [done|]. apply map_eq. intros j.
    destruct (decide (j = i)) as [->|]; [by rewrite E, Hi|]. symmetry. by apply (to_only _ _ _ Ht).
Qed.

Lemma elem_filter_ne i j (l : list pid) : (j ∈ filter (fun j => j <> i) l) <-> (j ∈ l) /\ j <> i.
Proof. rewrite list_elem_of_filter. tauto. Qed.

Lemma removePair_same i w :
  w_heap (removePair i w) = w_heap w
  /\ w_pairs (removePair i w) = filter (fun j => j <> i) (w_pairs w)
  /\ w_primary (removePair i w) = (if bool_decide (w_primary w = Some i) then None else w_primary w).
Proof. unfold removePair, clearPrimary. cbn. by case_bool_decide. Qed.

Lemma filter_all {A} (Q : A -> Prop) `{!∀ x, Decision (Q x)} (l : list A) :
  (forall x, x ∈ l -> Q x) -> filter Q l = l.
Proof.
  induction l as [|x l IH]; intros Hq; [done|].
  rewrite filter_cons_True by (apply Hq; left). f_equal. apply IH. intros y Hy. apply Hq. by right.
Qed.

Lemma closeOut_inv i w0 w :
  inv3 w0 -> touched i w0 w -> refsOf w0 i <= 0 ->
  inv3 (removePair i (setState i PairStateClosed w)).
Proof.
  intros H0 Ht Hr. apply (touched_setState i PairStateClosed) in Ht.
  set (w1 := setState _ _ w) in *. unfold inv3.
  destruct (removePair_same i w1) as (-> & -> & ->).
  rewrite (to_pairs _ _ _ Ht), (to_primary _ _ _ Ht).
  pose proof (to_refs _ _ _ Ht) as Hi. unfold refsOf in Hr.
  destruct (w_heap w0 !! i) as [p|] eqn:E.
  - refine (pairsInv_close i _ _ _ _ _ _ _ H0 (to_only _ _ _ Ht) E Hi _ _ _ _).
    + cbn. destruct (pi_pair _ _ _ H0 _ _ E) as [? _]. lia.
    + unfold w1. rewrite pairState_setState; [done|]. unfold w1 in Hi.
      rewrite lookup_setState in Hi. destruct (w_heap w !! i); [eauto|done].
    + apply NoDup_filter, H0.
    + intros j. apply elem_filter_ne.
  - replace (w_heap w1) with (w_heap w0).
    2:{ apply map_eq. intros j. destruct (decide (j = i)) as [->|]; [by rewrite E, Hi|].
        symmetry. by apply (to_only _ _ _ Ht). }
    assert (i ∉ w_pairs w0) as Hn by (intros Hin; destruct (pi_dom _ _ _ H0 _ Hin); congruence).
    assert (filter (fun j => j <> i) (w_pairs w0) = w_pairs w0) as ->.
    { apply filter_all. intros j Hj ->. done. }
    rewrite bool_decide_false; [done|]. intros Hp. by apply Hn, H0.
Qed.

(** ** Sweeps over the queue *)

(** [w'] and [k] are [w] and its queue [l] after the actions [act]. *)
Record swept (act : pid -> action) (l : list pid) w w' (k : list pid) : Prop := {
  sw_in : forall j, j ∈ l -> w_heap w' !! j = actOn (act j) <$> w_heap w !! j;
  sw_out : forall j, j ∉ l -> w_heap w' !! j = w_heap w !! j;
  sw_kept : k = filter (fun j => isClose (act j) = false) l;
  sw_primary : w_primary w'
    = match w_primary w with
      | Some j => if bool_decide (j ∈ l) && isClose (act j) then None else Some j
      | None => None
      end;
  sw_rest : w_pool w' = w_pool w /\ w_PairCount w' = w_PairCount w /\ w_pairs w' = w_pairs w
            /\ w_results w' = w_results w /\ w_notifyPending w' = w_notifyPending w
            /\ w_notifyTimer w' = w_notifyTimer w /\ w_done w' = w_done w }.

Lemma swept_nil act w : swept act [] w w [].
Proof. split; try done; [by intros ? ?%not_elem_of_nil|by destruct (w_primary w)]. Qed.

(** One turn of a sweep that performs [act i] on the head [i]. *)
Lemma swept_cons act act' i l w w1 w' k :
  i ∉ l -> swept act [i] w w1 (if isClose (act i) then [] else [i]) ->
  (forall j, j ∈ l -> act' j = act j) -> swept act' l w1 w' k ->
  swept act (i :: l) w w' (if isClose (act i) then k else i :: k).
Proof.
  intros Hi H1 Hact H2. split.
  - intros j [->|Hj]%elem_of_cons.
    + rewrite (sw_out _ _ _ _ _ H2) by done. apply (sw_in _ _ _ _ _ H1). by left.
    + rewrite (sw_in _ _ _ _ _ H2), (sw_out _ _ _ _ _ H1), Hact by set_solver. done.
  - intros j [? ?]%not_elem_of_cons.
    by rewrite (sw_out _ _ _ _ _ H2), (sw_out _ _ _ _ _ H1) by set_solver.
  - rewrite filter_cons, (sw_kept _ _ _ _ _ H2).
    assert (filter (fun j => isClose (act' j) = false) l
            = filter (fun j => isClose (act j) = false) l) as ->.
    { clear -Hact. induction l as [|j l IH]; [done|].
      rewrite !filter_cons, Hact, IH by set_solver. done. }
    destruct (isClose (act i)); by case_decide.
  - rewrite (sw_primary _ _ _ _ _ H2), (sw_primary _ _ _ _ _ H1).
    destruct (w_primary w) as [j|]; [|done].
    destruct (decide (j = i)) as [->|Hne].
    + rewrite (bool_decide_true (i ∈ [i])), (bool_decide_true (i ∈ i :: l)) by set_solver.
      destruct (isClose (act i)); cbn; [done|]. by rewrite bool_decide_false by done.
    + rewrite (bool_decide_false (j ∈ [i])) by set_solver. cbn.
      rewrite (bool_decide_ext (j ∈ i :: l) (j ∈ l)) by set_solver.
      case_bool_decide; [|done]. by rewrite Hact.
  - destruct (sw_rest _ _ _ _ _ H1) as (? & ? & ? & ? & ? & ? & ?).
    destruct (sw_rest _ _ _ _ _ H2) as (? & ? & ? & ? & ? & ? & ?).
    repeat split; congruence.
Qed.

Lemma swept_keep1 act i w : act i = Keep -> swept act [i] w w [i].
Proof.
  intros Ha. split; try done.
  - intros j ->%list_elem_of_singleton. rewrite Ha. by destruct (w_heap w !! i).
  - by rewrite filter_cons, Ha.
  - destruct (w_primary w) as [j|]; [|done]. case_bool_decide as Hj; [|done].
    apply list_elem_of_singleton in Hj as ->. by rewrite Ha.
Qed.

Lemma swept_drain1 act i w : act i = Drain -> swept act [i] w (setState i PairStateDraining w) [i].
Proof.
  intros Ha. split; try done.
  - intros j ->%list_elem_of_singleton. by rewrite lookup_setState, Ha.
  - intros j Hj. apply lookup_setState_ne. set_solver.
  - by rewrite filter_cons, Ha.
  - cbn. destruct (w_primary w) as [j|]; [|done]. case_bool_decide as Hj; [|done].
    apply list_elem_of_singleton in Hj as ->. by rewrite Ha.
Qed.

Lemma swept_drained1 act i w p :
  act i = Drain -> w_heap w !! i = Some p -> hc_state p = PairStateDraining -> swept act [i] w w [i].
Proof.
  intros Ha Hi Hs. split; try done.
  - intros j ->%list_elem_of_singleton. rewrite Ha, Hi. cbn. rewrite <- Hs. by destruct p.
  - by rewrite filter_cons, Ha.
  - destruct (w_primary w) as [j|]; [|done]. case_bool_decide as Hj; [|done].
    apply list_elem_of_singleton in Hj as ->. by rewrite Ha.
Qed.

Lemma clearPrimary_primary i w :
  w_primary (clearPrimary i w) = if bool_decide (w_primary w = Some i) then None else w_primary w.
Proof. unfold clearPrimary. by case_bool_decide. Qed.

Lemma swept_close1 act i w w1 :
  act i = Close -> w1 = w \/ w1 = setState i PairStateDraining w ->
  swept act [i] w (clearPrimary i (setState i PairStateClosed w1)) [].
Proof.
  intros Ha Hw1. split.
  - intros j ->%list_elem_of_singleton. rewrite Ha. unfold clearPrimary.
    assert (w_heap (setState i PairStateClosed w1) !! i = actOn Close <$> w_heap w !! i) as <-.
    { rewrite lookup_setState. destruct Hw1 as [->| ->]; [done|]. rewrite lookup_setState.
      by destruct (w_heap w !! i). }
    by case_bool_decide.
  - intros j Hj. assert (j <> i) by set_solver.
    assert (w_heap (setState i PairStateClosed w1) !! j = w_heap w !! j) as <-.
    { rewrite lookup_setState_ne by done. destruct Hw1 as [->| ->]; [done|].
      by apply lookup_setState_ne. }
    unfold clearPrimary. by case_bool_decide.
  - by rewrite filter_cons, Ha.
  - assert (w_primary (setState i PairStateClosed w1) = w_primary w) as Hp
      by (by destruct Hw1 as [->| ->]).
    rewrite clearPrimary_primary, Hp. destruct (w_primary w) as [j|] eqn:E; [|done].
    destruct (decide (j = i)) as [->|Hne].
    + by rewrite !bool_decide_true, Ha by set_solver.
    + by rewrite !bool_decide_false by set_solver.
  - unfold clearPrimary. destruct Hw1 as [->| ->]; by case_bool_decide.
Qed.

(** ** [InvalidateChannel] as a sweep *)
Definition invAct (chID : Z) (h : gmap pid HotChannelPair) i : action :=
  match h !! i with
  | Some p => if (hc_state p =? PairStateClosed) || negb (usesCh chID p) then Keep
              else if hc_refs p <=? 0 then Close else Drain
  | None => Keep
  end.

Lemma invalidateLoop_swept chID l : forall w h,
  NoDup l -> (forall j, j ∈ l -> w_heap w !! j = h !! j) ->
  let '(w', k) := invalidateLoop chID l w in swept (invAct chID h) l w w' k.
Proof.
  induction l as [|i l IH]; intros w h Hnd Hh; [apply swept_nil|].
  apply NoDup_cons in Hnd as [Hi Hnd]. cbn [invalidateLoop].
  assert (forall w1, swept (invAct chID h) [i] w w1 (if isClose (invAct chID h i) then [] else [i]) ->
    let '(w', k) := invalidateLoop chID l w1 in
    swept (invAct chID h) (i :: l) w w' (if isClose (invAct chID h i) then k else i :: k)) as Hgo.
  { intros w1 H1. specialize (IH w1 h Hnd). destruct (invalidateLoop chID l w1) as [w' k].
    eapply swept_cons; [done|done|done|]. apply IH. intros j Hj.
    rewrite (sw_out _ _ _ _ _ H1) by set_solver. apply Hh. by right. }
  assert (Hai := Hh i (list_elem_of_here _ _)).
  unfold invAct in Hgo at 2 4. rewrite <- Hai in Hgo.
  assert (Hact : invAct chID h i = match w_heap w !! i with
    | Some p => if (hc_state p =? PairStateClosed) || negb (usesCh chID p) then Keep
                else if hc_refs p <=? 0 then Close else Drain
    | None => Keep end) by (unfold invAct; by rewrite Hai).
  destruct (w_heap w !! i) as [p|] eqn:E.
  2:{ specialize (Hgo w (swept_keep1 _ _ _ Hact)). by destruct (invalidateLoop chID l w). }
  destruct (hc_state p =? PairStateClosed); cbn [orb] in *.
  { specialize (Hgo w (swept_keep1 _ _ _ Hact)). by destruct (invalidateLoop chID l w). }
  destruct (usesCh chID p); cbn [negb] in *.
  2:{ specialize (Hgo w (swept_keep1 _ _ _ Hact)). by destruct (invalidateLoop chID l w). }
  assert (refsOf (if negb (hc_state p =? PairStateDraining)
                  then setState i PairStateDraining w else w) i = hc_refs p) as ->.
  { unfold refsOf. destruct (hc_state p =? PairStateDraining); cbn [negb]; [by rewrite E|].
    by rewrite lookup_setState, E. }
  destruct (hc_refs p <=? 0) eqn:Er; rewrite ?Hact in Hgo.
  - apply Hgo, swept_close1; [done|]. destruct (hc_state p =? PairStateDraining); auto.
  - specialize (Hgo (if negb (hc_state p =? PairStateDraining)
                     then setState i PairStateDraining w else w)).
    destruct (invalidateLoop chID l _) as [w' k]. apply Hgo. cbn.
    destruct (Z.eqb_spec (hc_state p) PairStateDraining) as [Hs|_]; cbn [negb].
    + by eapply swept_drained1.
    + by apply swept_drain1.
Qed.

(** ** [deduplicatePairs] as a sweep *)
Definition dedupKey (p : HotChannelPair) : Z * Z := (hc_UplinkChID p, hc_DownlinkChID p).

Definition dedupAct1 (seen : gset (Z * Z)) (p : HotChannelPair) : action :=
  if (hc_state p =? PairStateReady) && bool_decide (dedupKey p ∈ seen)
  then if 0 <? hc_refs p then Drain else Close
  else Keep.

Definition dedupSeen (seen : gset (Z * Z)) (p : HotChannelPair) : gset (Z * Z) :=
  if hc_state p =? PairStateReady then {[dedupKey p]} ∪ seen else seen.

(** What happens to [j] when the rest of the queue is [l]. *)
Fixpoint dedupAct (seen : gset (Z * Z)) (h : gmap pid HotChannelPair) (l : list pid) (j : pid)
    : action :=
  match l with
  | [] => Keep
  | i :: l =>
      match h !! i with
      | None => if bool_decide (j = i) then Keep else dedupAct seen h l j
      | Some p => if bool_decide (j = i) then dedupAct1 seen p
                  else dedupAct (dedupSeen seen p) h l j
      end
  end.

Lemma dedupLoop_swept l : forall seen w h,
  NoDup l -> (forall j, j ∈ l -> w_heap w !! j = h !! j) ->
  let '(w', k) := dedupLoop seen l w in swept (dedupAct seen h l) l w w' k.
Proof.
  induction l as [|i l IH]; intros seen w h Hnd Hh; [apply swept_nil|].
  apply NoDup_cons in Hnd as [Hi Hnd]. cbn [dedupLoop].
  set (act := dedupAct seen h (i :: l)).
  assert (forall w1 seen', swept act [i] w w1 (if isClose (act i) then [] else [i]) ->
    (forall j, j <> i -> act j = dedupAct seen' h l j) ->
    let '(w', k) := dedupLoop seen' l w1 in
    swept act (i :: l) w w' (if isClose (act i) then k else i :: k)) as Hgo.
  { intros w1 seen' H1 Ha. specialize (IH seen' w1 h Hnd).
    destruct (dedupLoop seen' l w1) as [w' k].
    eapply swept_cons; [done|done| |].
    2:{ apply IH. intros j Hj. rewrite (sw_out _ _ _ _ _ H1) by set_solver. apply Hh. by right. }
    intros j Hj. symmetry. apply Ha. set_solver. }
  rewrite (Hh i (list_elem_of_here _ _)).
  assert (Hact : forall j, act j = match h !! i with
    | None => if bool_decide (j = i) then Keep else dedupAct seen h l j
    | Some p => if bool_decide (j = i) then dedupAct1 seen p
                else dedupAct (dedupSeen seen p) h l j end) by done.
  clearbody act. assert (Hai := Hact i).
  destruct (h !! i) as [p|].
  2:{ specialize (Hgo w seen). destruct (dedupLoop seen l w) as [w' k].
      rewrite Hai, bool_decide_true in Hgo by done. apply Hgo.
      - apply swept_keep1. by rewrite Hai, bool_decide_true.
      - intros j Hj. by rewrite Hact, bool_decide_false. }
  rewrite bool_decide_true in Hai by done.
  assert (forall seen', seen' = dedupSeen seen p ->
    forall j, j <> i -> act j = dedupAct seen' h l j) as Hse.
  { intros ? -> j Hj. by rewrite Hact, bool_decide_false. }
  unfold dedupAct1 in Hai. unfold dedupSeen in Hse. fold (dedupKey p).
  destruct (hc_state p =? PairStateReady); cbn [negb andb] in *.
  2:{ specialize (Hgo w seen). destruct (dedupLoop seen l w) as [w' k].
      rewrite Hai in Hgo. apply Hgo; [by apply swept_keep1|by apply Hse]. }
  case_bool_decide as Hk.
  2:{ specialize (Hgo w ({[dedupKey p]} ∪ seen)). destruct (dedupLoop _ l w) as [w' k].
      rewrite Hai in Hgo. apply Hgo; [by apply swept_keep1|by apply Hse]. }
  assert (seen = {[dedupKey p]} ∪ seen) as Hs by set_solver.
  destruct (0 <? hc_refs p).
  - specialize (Hgo (setState i PairStateDraining w) seen).
    destruct (dedupLoop seen l _) as [w' k]. rewrite Hai in Hgo.
    apply Hgo; [by apply swept_drain1|by apply Hse].
  - specialize (Hgo (clearPrimary i (setState i PairStateClosed (setState i PairStateDraining w))) seen).
    destruct (dedupLoop seen l _) as [w' k]. rewrite Hai in Hgo.
    apply Hgo; [apply swept_close1; auto|by apply Hse].
Qed.

(** ** Sweeps keep the invariant *)
Lemma swept_inv act w w' k :
  inv3 w -> swept act (w_pairs w) w w' k ->
  (forall j p, j ∈ w_pairs w -> w_heap w !! j = Some p ->
     match act j with Keep => True | Drain => 0 < hc_refs p | Close => hc_refs p <= 0 end) ->
  pairsInv (w_heap w') k (w_primary w').
Proof.
  intros [Hn Hd Hp Hpr] Hs Hact. rewrite (sw_kept _ _ _ _ _ Hs).
  assert (Hk : forall j, (j ∈ filter (fun j => isClose (act j) = false) (w_pairs w))
    <-> isClose (act j) = false /\ (j ∈ w_pairs w)) by (intros; by rewrite list_elem_of_filter).
  split.
  - by apply NoDup_filter.
  - intros j [_ Hj]%Hk. rewrite (sw_in _ _ _ _ _ Hs) by done. apply fmap_is_Some. by apply Hd.
  - intros j q Hj. destruct (decide (j ∈ w_pairs w)) as [Hin|Hin].
    + rewrite (sw_in _ _ _ _ _ Hs) in Hj by done.
      apply fmap_Some in Hj as (p & Hj & ->). specialize (Hact j p Hin Hj).
      destruct (Hp j p Hj) as [H0 [[_ Hl]|[? _]]]; [|done]. unfold pairOK. rewrite Hk.
      destruct (act j); cbn; (split; [done|]).
      * left. auto.
      * left. auto.
      * right. split; [intros [? _]; done|split; [done|lia]].
    + rewrite (sw_out _ _ _ _ _ Hs) in Hj by done.
      destruct (Hp j q Hj) as [H0 [[? _]|[_ ?]]]; [done|]. split; [done|]. right.
      rewrite Hk. split; [tauto|done].
  - intros j. rewrite (sw_primary _ _ _ _ _ Hs). destruct (w_primary w) as [j'|]; [|done].
    destruct (isClose (act j')) eqn:Ec.
    + rewrite bool_decide_true by (by apply Hpr). done.
    + rewrite andb_false_r. intros [= ->]. apply Hk. split; [done|]. by apply Hpr.
Qed.

Lemma InvalidateChannel_inv chID w : warmerInv w -> warmerInv (InvalidateChannel chID w).
Proof.
  intros [Hw _]. unfold InvalidateChannel.
  pose proof (invalidateLoop_swept chID (w_pairs w) w (w_heap w) (pi_nodup _ _ _ Hw)
    (fun _ _ => eq_refl)) as Hs.
  destruct (invalidateLoop chID (w_pairs w) w) as [w' k]. apply ensurePrimaryLocked_inv.
  apply (swept_inv _ _ _ _ Hw Hs). intros j p _ Hj. unfold invAct. rewrite Hj.
  destruct (_ || _); [done|]. destruct (Z.leb_spec (hc_refs p) 0); lia.
Qed.

Lemma dedupAct_refs h l j p : forall seen, h !! j = Some p ->
  match dedupAct seen h l j with Keep => True | Drain => 0 < hc_refs p | Close => hc_refs p <= 0 end.
Proof.
  induction l as [|i l IH]; intros seen Hj; [done|]. cbn [dedupAct].
  case_bool_decide as Hd; [subst i; rewrite Hj|destruct (h !! i); by apply IH].
  unfold dedupAct1. destruct (_ && _); [|done]. destruct (Z.ltb_spec 0 (hc_refs p)); lia.
Qed.

Lemma deduplicatePairs_inv w : warmerInv w -> warmerInv (deduplicatePairs w).
Proof.
  intros [Hw _]. unfold deduplicatePairs.
  pose proof (dedupLoop_swept (w_pairs w) ∅ w (w_heap w) (pi_nodup _ _ _ Hw)
    (fun _ _ => eq_refl)) as Hs.
  destruct (dedupLoop ∅ (w_pairs w) w) as [w' k]. apply ensurePrimaryLocked_inv.
  apply (swept_inv _ _ _ _ Hw Hs). intros j p _ Hj. by apply dedupAct_refs.
Qed.

(** ** The other regions *)

Lemma lookup_updPair i f w : w_heap (updPair i f w) !! i = f <$> w_heap w !! i.
Proof. unfold updPair. cbn. by rewrite lookup_alter_eq. Qed.

Lemma isReady_true w i :
  isReady w i = true <-> exists p, w_heap w !! i = Some p /\ hc_state p = PairStateReady.
Proof.
  unfold isReady, pairState. destruct (w_heap w !! i) as [p|]; [|by split; [|intros (? & [=] & _)]].
  rewrite Z.eqb_eq. naive_solver.
Qed.

Lemma ready_listed w i p :
  inv3 w -> w_heap w !! i = Some p -> hc_state p = PairStateReady -> i ∈ w_pairs w.
Proof.
  intros Hw Hi Hs. destruct (pi_pair _ _ _ Hw _ _ Hi) as [_ [[? _]|(_ & Hc & _)]]; [done|].
  rewrite Hs in Hc. done.
Qed.

(** An update that keeps the state, and the count non-negative. *)
Lemma updPair_inv i f w p :
  warmerInv w -> w_heap w !! i = Some p -> hc_state (f p) = hc_state p ->
  pairOK (w_pairs w) i (f p) -> warmerInv (updPair i f w).
Proof.
  intros [Hw He] Hi Hs Hok. split.
  - refine (pairsInv_keep i _ _ _ _ _ _ Hw (onlyAt_alter i f _) Hi _ Hok).
    by rewrite lookup_alter_eq, Hi.
  - intros Hn j Hj. specialize (He Hn j Hj). unfold isReady, pairState in *.
    destruct (decide (j = i)) as [->|Hne].
    + rewrite lookup_updPair, Hi in *. cbn in *. by rewrite Hs.
    + unfold updPair. cbn. by rewrite lookup_alter_ne.
Qed.

Lemma updPair_none i f w : w_heap w !! i = None -> updPair i f w = w.
Proof.
  intros Hi. unfold updPair. destruct w. cbn in *. f_equal. apply map_eq. intros j.
  destruct (decide (j = i)) as [->|]; [by rewrite lookup_alter_eq, Hi|by rewrite lookup_alter_ne].
Qed.

Lemma AcquirePrimary_cases w :
  (AcquirePrimary w = (w, None) /\ (forall i, readyListed w i -> False)
     /\ (forall i, w_primary w = Some i -> isReady w i = false))
  \/ exists i, isReady w i = true
       /\ AcquirePrimary w = (updPair i (fun p => p <| hc_refs ::= Z.add 1 |>) w, Some i)
       /\ (forall j, w_primary w = Some j -> isReady w j = true -> i = j).
Proof.
  unfold AcquirePrimary.
  set (scan := list_find _ (w_pairs w)).
  assert (scan = None -> forall i, readyListed w i -> w_primary w = Some i) as Hnone.
  { intros Hs i [Hi Hr]. apply list_find_None in Hs. rewrite list.Forall_forall in Hs.
    specialize (Hs i Hi). cbn in Hs. apply dec_stable. intros Hne. apply Hs. auto. }
  assert (forall k j, scan = Some (k, j) -> isReady w j = true) as Hsome.
  { intros k j Hs. apply list_find_Some in Hs. tauto. }
  assert ((forall j, w_primary w = Some j -> isReady w j = false) ->
    let r := match scan with
      | Some (_, j) => (updPair j (fun p => p <| hc_refs ::= Z.add 1 |>) w, Some j)
      | None => (w, None) end in
    (r = (w, None) /\ (forall i, readyListed w i -> False)
       /\ (forall i, w_primary w = Some i -> isReady w i = false))
    \/ exists i, isReady w i = true
       /\ r = (updPair i (fun p => p <| hc_refs ::= Z.add 1 |>) w, Some i)
       /\ (forall j, w_primary w = Some j -> isReady w j = true -> i = j)) as Hscan.
  { intros Hp. destruct scan as [[k j]|] eqn:E; [right|left].
    - exists j. split; [by eapply Hsome|]. split; [done|]. intros j' Hj' Hr.
      rewrite Hp in Hr; done.
    - split; [done|]. split; [|done]. intros i Hi. pose proof (Hnone eq_refl i Hi) as Hpi.
      destruct Hi as [_ Hr]. by rewrite (Hp i Hpi) in Hr. }
  destruct (w_primary w) as [i|]; [|by apply Hscan].
  destruct (isReady w i) eqn:Hr.
  - right. exists i. split; [done|]. split; [done|]. congruence.
  - apply Hscan. congruence.
Qed.

Lemma AcquirePrimary_inv w : warmerInv w -> warmerInv (AcquirePrimary w).1.
Proof.
  intros Hw. destruct (AcquirePrimary_cases w) as [(-> & _)|(i & Hr & -> & _)]; [done|].
  apply isReady_true in Hr as (p & Hi & Hs). eapply updPair_inv; [done|done|done|].
  destruct (pi_pair _ _ _ (wi_pairs _ Hw) _ _ Hi) as [H0 [[Hl _]|(_ & Hc & _)]].
  - split; cbn; [lia|]. left. auto.
  - rewrite Hs in Hc. done.
Qed.

Lemma refsOf_updPair i f w p :
  w_heap w !! i = Some p -> refsOf (updPair i f w) i = hc_refs (f p).
Proof. intros Hi. unfold refsOf. by rewrite lookup_updPair, Hi. Qed.

Lemma pairState_updPair i f w p :
  w_heap w !! i = Some p -> pairState (updPair i f w) i = hc_state (f p).
Proof. intros Hi. unfold pairState. by rewrite lookup_updPair, Hi. Qed.

Lemma pairState_removePair i j w : pairState (removePair i w) j = pairState w j.
Proof. unfold pairState. by destruct (removePair_same i w) as (-> & _). Qed.

Lemma ReleasePair_inv i w : warmerInv w -> 0 < refsOf w i -> warmerInv (ReleasePair i w).
Proof.
  intros Hw Hr. unfold refsOf in Hr. destruct (w_heap w !! i) as [p|] eqn:Hi; [|lia].
  destruct (pi_pair _ _ _ (wi_pairs _ Hw) _ _ Hi) as [H0 [[Hl Hs]|(_ & _ & ?)]]; [|lia].
  unfold ReleasePair. set (f := fun p => p <| hc_refs ::= fun r => r - 1 |>).
  rewrite (refsOf_updPair _ _ _ _ Hi), (pairState_updPair _ _ _ _ Hi). unfold f at 1 2 3. cbn.
  destruct (Z.leb_spec (hc_refs p - 1) 0) as [Hz|Hz]; cbn [andb].
  - destruct Hs as [Hs|[Hs _]]; rewrite Hs; cbn -[updPair removePair setState].
    + eapply updPair_inv; [done|done|done|]. split; cbn; [lia|]. left. auto.
    + apply ensurePrimaryLocked_inv. set (w1 := setState i PairStateClosed _).
      destruct (removePair_same i w1) as (-> & -> & ->).
      refine (pairsInv_close i _ _ _ _ _ _ _ (wi_pairs _ Hw) _ Hi _ _ _ _ _).
      * eapply onlyAt_trans; apply onlyAt_alter.
      * unfold w1. by rewrite lookup_setState, lookup_updPair, Hi.
      * cbn. lia.
      * done.
      * apply NoDup_filter, Hw.
      * intros j. apply elem_filter_ne.
  - eapply updPair_inv; [done|done|done|]. split; cbn; [lia|]. left.
    split; [done|]. destruct Hs as [Hs|[Hs _]]; [left|right; split]; [done|done|lia].
Qed.

Lemma closeOut_elected i w0 w :
  warmerInv w0 -> touched i w0 w -> refsOf w0 i <= 0 ->
  warmerInv (ensurePrimaryLocked (removePair i (setState i PairStateClosed w))).
Proof. intros Hw Ht Hr. apply ensurePrimaryLocked_inv. by eapply closeOut_inv; [apply Hw|..]. Qed.

(** A used pair may be drained. *)
Lemma drain_inv i w : warmerInv w -> 0 < refsOf w i -> warmerInv (setState i PairStateDraining w).
Proof.
  intros Hw Hr. unfold refsOf in Hr. destruct (w_heap w !! i) as [p|] eqn:Hi; [|lia].
  destruct (pi_pair _ _ _ (wi_pairs _ Hw) _ _ Hi) as [H0 [[Hl Hs]|(_ & _ & ?)]]; [|lia].
  split.
  - apply (touched_keep i w); [apply Hw|apply touched_setState, touched_refl|].
    intros q Hq. assert (q = p) as -> by congruence. rewrite pairState_setState by (by rewrite Hi).
    split; cbn; [lia|]. left. split; [done|]. right. auto.
  - intros Hn j Hj. pose proof (wi_elect _ Hw Hn j Hj) as He. unfold isReady, pairState in *.
    destruct (decide (j = i)) as [->|Hne].
    + by rewrite lookup_setState, Hi.
    + by rewrite lookup_setState_ne.
Qed.

Lemma discardCandidatePair_inv i w : warmerInv w -> warmerInv (discardCandidatePair i w).
Proof.
  intros Hw. unfold discardCandidatePair. destruct (Z.leb_spec (refsOf w i) 0).
  - by apply (closeOut_elected i w w); [|apply touched_refl|].
  - apply drain_inv; [done|lia].
Qed.

Lemma invalidatePair_inv i w : warmerInv w -> warmerInv (invalidatePair i w).
Proof.
  intros Hw. unfold invalidatePair. destruct (isReady w i); cbn [negb]; [|done].
  rewrite (refsOf_touched i w) by apply touched_setState, touched_refl.
  destruct (Z.leb_spec (refsOf w i) 0).
  - by apply (closeOut_elected i w); [|apply touched_setState, touched_refl|].
  - apply drain_inv; [done|lia].
Qed.

(** No queued pair is Draining and unused, so there is nothing to prune. *)
Lemma pruneIdleDrainingPairs_noop w : warmerInv w -> pruneIdleDrainingPairs w = w.
Proof.
  intros Hw. unfold pruneIdleDrainingPairs.
  assert (forall fuel j, pruneLoop fuel j (w_pairs w) (length (w_pairs w)) false w = (w, false)) as H.
  { assert (w <| w_pairs := take (length (w_pairs w)) (w_pairs w) |> = w) as Hid
      by (destruct w; cbn; by rewrite firstn_all).
    induction fuel as [|fuel IH]; intros j; cbn [pruneLoop]; [by rewrite Hid|].
    destruct (w_pairs w !! j) as [i|] eqn:Hj; [|by rewrite Hid].
    apply list_elem_of_lookup_2 in Hj. destruct (pi_dom _ _ _ (wi_pairs _ Hw) _ Hj) as [p Hi].
    unfold pairState, refsOf. rewrite Hi.
    destruct (pi_pair _ _ _ (wi_pairs _ Hw) _ _ Hi) as [_ [[_ [->|[-> Hr]]]|[? _]]]; [|..|done].
    - apply IH.
    - destruct (Z.leb_spec (hc_refs p) 0); [lia|]. rewrite andb_false_r. apply IH. }
  by rewrite H.
Qed.

Lemma trimLoop_inv fuel : forall w, inv3 w -> inv3 (trimLoop fuel w).
Proof.
  induction fuel as [|fuel IH]; intros w Hw; cbn [trimLoop]; [done|].
  destruct (_ <=? _); [done|]. destruct (last _) as [i|] eqn:El; [|done].
  rewrite (refsOf_touched i w) by apply touched_setState, touched_refl.
  destruct (Z.ltb_spec 0 (refsOf w i)) as [Hr|Hr].
  - apply (touched_keep i w); [done|apply touched_setState, touched_refl|].
    intros p Hi. unfold refsOf in Hr. rewrite Hi in Hr.
    rewrite pairState_setState by (by rewrite Hi).
    destruct (pi_pair _ _ _ Hw _ _ Hi) as [H0 [[Hl Hs]|(_ & _ & ?)]]; [|lia].
    split; cbn; [lia|]. left. split; [done|]. right. auto.
  - apply IH. apply (closeOut_inv i w); [done|apply touched_setState, touched_refl|lia].
Qed.

Lemma trimExcessPairs_inv w : warmerInv w -> warmerInv (trimExcessPairs w).
Proof.
  intros Hw. unfold trimExcessPairs. destruct (_ <=? _); [done|].
  apply ensurePrimaryLocked_inv, trimLoop_inv, Hw.
Qed.

(** ** Reordering the queue *)
Lemma removeFirst_perm i l : i ∈ l -> l ≡ₚ i :: removeFirst i l.
Proof.
  induction l as [|j l IH]; [by intros ?%not_elem_of_nil|]. cbn.
  case_bool_decide as Hj; [by subst|]. intros [->|Hi]%elem_of_cons; [done|].
  rewrite (IH Hi) at 1. apply Permutation_swap.
Qed.

Lemma removeFirst_elem i j l : j <> i -> (j ∈ removeFirst i l) <-> (j ∈ l).
Proof.
  intros Hne. induction l as [|j' l IH]; [done|]. cbn. case_bool_decide as Hj.
  - subst. set_solver.
  - set_solver.
Qed.

Lemma pairsInv_perm h l l' pr i : pairsInv h l pr -> l' ≡ₚ l -> i ∈ l -> pairsInv h l' (Some i).
Proof.
  intros [Hn Hd Hp _] He Hi. split.
  - by rewrite He.
  - intros j. rewrite He. apply Hd.
  - intros j p Hj. unfold pairOK. rewrite He. by apply Hp.
  - intros j [= <-]. by rewrite He.
Qed.

Lemma promoteToHead_inv i w : warmerInv w -> warmerInv (promoteToHead i w).
Proof.
  intros Hw. unfold promoteToHead. case_bool_decide as Hi; [|done]. split; [|done]. cbn.
  eapply pairsInv_perm; [apply Hw| |done]. symmetry. by apply removeFirst_perm.
Qed.

Lemma replaceHeadWithCandidate_inv i h w :
  warmerInv w -> warmerInv (replaceHeadWithCandidate i h w).
Proof.
  intros Hw. unfold replaceHeadWithCandidate. case_bool_decide as Hi; [|done].
  pose proof (removeFirst_perm i _ Hi) as Hp.
  destruct h as [h|]; [case_bool_decide as Hh; [destruct (isReady _ h) eqn:Hr|]|]; cbn;
    (split; [|done]); cbn; (eapply pairsInv_perm; [apply Hw| |done]); try by symmetry.
  apply isReady_true in Hr as (p & Hl & Hs).
  pose proof (ready_listed _ _ _ (wi_pairs _ Hw) Hl Hs) as Hin.
  rewrite <- (removeFirst_perm h (removeFirst i (w_pairs w))); [by symmetry|].
  by apply removeFirst_elem.
Qed.

(** ** A new pair *)
Lemma completePair_inv res w : warmerInv w -> warmerInv (completePair res w).1.
Proof.
  intros Hw. unfold completePair.
  destruct (pr_err res); [by apply (warmerInv_same w)|].
  destruct (w_done w); [by apply (warmerInv_same w)|]. cbn.
  set (i := fresh (dom (w_heap w))). set (q := newPair _ _ _).
  assert (w_heap w !! i = None) as Hf by (apply not_elem_of_dom, is_fresh).
  assert (i ∉ w_pairs w) as Hni.
  { intros Hin. destruct (pi_dom _ _ _ (wi_pairs _ Hw) _ Hin). congruence. }
  match goal with |- warmerInv (deletePrebindState _ (queueHotPairNotify i ?w1)) => set (w1' := w1) end.
  apply (warmerInv_same w1').
  1-3: unfold queueHotPairNotify; destruct (w_heap w1' !! i) as [p|]; [|done]; by case_bool_decide.
  destruct Hw as [[Hn Hd Hp Hpr] He]. split; cbn.
  - split.
    + apply NoDup_app. split; [done|]. split; [|apply NoDup_singleton].
      intros j Hj ->%list_elem_of_singleton. done.
    + intros j [Hj| ->%list_elem_of_singleton]%elem_of_app; [|by rewrite lookup_insert_eq; eauto].
      rewrite lookup_insert_ne by (intros ->; done). by apply Hd.
    + intros j p Hj. destruct (decide (j = i)) as [->|Hne].
      * rewrite lookup_insert_eq in Hj. injection Hj as <-. split; [done|]. left. set_solver.
      * rewrite lookup_insert_ne in Hj by done. destruct (Hp j p Hj) as [H0 H1].
        split; [done|]. set_solver.
    + intros j. destruct (w_primary w) as [j'|]; [destruct (isReady w j')|]; intros [= <-];
        [apply elem_of_app; left; by apply Hpr|set_solver|set_solver].
  - destruct (w_primary w) as [j'|]; [by destruct (isReady w j')|done].
Qed.

Lemma assignPairSlot_inv i w : warmerInv w -> warmerInv (assignPairSlot i w).
Proof.
  intros Hw. unfold assignPairSlot. set (f := fun p : HotChannelPair => _).
  destruct (w_heap w !! i) as [p|] eqn:Hi; [|by rewrite updPair_none].
  eapply updPair_inv; [done|done|done|]. exact (pi_pair _ _ _ (wi_pairs _ Hw) _ _ Hi).
Qed.

Lemma flushHotPairNotify_same w :
  w_heap (flushHotPairNotify w) = w_heap w /\ w_pairs (flushHotPairNotify w) = w_pairs w
  /\ w_primary (flushHotPairNotify w) = w_primary w.
Proof.
  unfold flushHotPairNotify. case_bool_decide; [done|]. case_bool_decide; [done|].
  destruct (firstWrite _ _ _) as [pool []]; done.
Qed.

Lemma queueHotPairNotify_same i w :
  w_heap (queueHotPairNotify i w) = w_heap w /\ w_pairs (queueHotPairNotify i w) = w_pairs w
  /\ w_primary (queueHotPairNotify i w) = w_primary w.
Proof. unfold queueHotPairNotify. destruct (w_heap w !! i); [|done]. by case_bool_decide. Qed.

Lemma applyEvent_inv e w : warmerInv w -> warmerInv (applyEvent e w).
Proof.
  intros Hw. destruct e as [|i|chID|res| | |pool]; cbn [applyEvent].
  - by apply AcquirePrimary_inv.
  - destruct (Z.ltb_spec 0 (refsOf w i)); [by apply ReleasePair_inv|done].
  - by apply InvalidateChannel_inv.
  - unfold HandlePrebindResult. destruct (_ <? _); [by apply (warmerInv_same w)|done].
  - destruct (w_notifyTimer w); [|done].
    destruct (flushHotPairNotify_same w) as (? & ? & ?). by apply (warmerInv_same w).
  - by apply (warmerInv_same w).
  - by apply (warmerInv_same w).
Qed.

Lemma warmerStep_inv w w' : warmerStep w w' -> warmerInv w -> warmerInv w'.
Proof.
  intros [] Hw.
  - by apply applyEvent_inv.
  - by apply (warmerInv_same w0).
  - by apply (warmerInv_same w0).
  - by apply completePair_inv.
  - by apply assignPairSlot_inv.
  - destruct (queueHotPairNotify_same i w0) as (? & ? & ?). by apply (warmerInv_same w0).
  - apply ensurePrimaryLocked_inv, Hw.
  - by rewrite pruneIdleDrainingPairs_noop.
  - by apply discardCandidatePair_inv.
  - by apply invalidatePair_inv.
  - by apply promoteToHead_inv.
  - by apply replaceHeadWithCandidate_inv.
  - by apply deduplicatePairs_inv.
  - by apply trimExcessPairs_inv.
Qed.

Lemma NewPairWarmer_inv pool n : warmerInv (NewPairWarmer pool n).
Proof.
  split; [|by intros _ i ?%not_elem_of_nil]. split; cbn; [constructor| | |done].
  - by intros i ?%not_elem_of_nil.
  - intros i p Hi. by rewrite lookup_empty in Hi.
Qed.
End Inv.
