(* ===== verification/PairWarmerSpecs.v ===== *)
(** What the hot-pair warmer achieves: the invariant of every run, the turns of
    [Run] as sequences of locked regions, and the behaviour of acquiring,
    releasing, invalidating, rematching, deduplicating, trimming and notifying. *)

From S2P Require Import Prelude Protocol HotPairTable PairWarmer PairWarmerInv.

(** ** A small pool for the examples: the open channels, what each was sent, and
    the temporary states. *)
Record demoPool := mkDemoPool {
  dp_open : list Z; dp_sent : list (Z * bytes); dp_prebind : list bytes }.

#[export] Instance demoPool_warmer : WarmerPool demoPool := {
  wp_available := dp_open;
  wp_write ch msg p :=
    if bool_decide (ch ∈ dp_open p)
    then (mkDemoPool (dp_open p) (dp_sent p ++ [(ch, msg)]) (dp_prebind p), true) else (p, false);
  wp_addPrebind id p := mkDemoPool (dp_open p) (dp_sent p) (id :: dp_prebind p);
  wp_delPrebind id p := mkDemoPool (dp_open p) (dp_sent p) (filter (fun j => j <> id) (dp_prebind p));
  wp_strategy _ := 0 }.

Definition demo0 : Warmer demoPool := NewPairWarmer (mkDemoPool [1; 2; 3] [] []) 2.

(** One call of [BuildPair] that is answered with the channels [up] and [down]. *)
Definition demoRace (uuid : string) (up down : Z) : buildRun demoPool :=
  mkBuildRun (lit uuid)
    [WOther (EvResult (mkPrebindResult (hotPairKeyPrefix ++ lit uuid) up down false)); WReceive].

(** Two pairs, the first one taken by a dial. *)
Definition demo2 : Warmer demoPool :=
  runTurn (RunReady [demoRace "a" 1 2; demoRace "b" 2 3]) demo0.
Definition demo3 : Warmer demoPool := applyEvent EvAcquire demo2.

Section Specs.
Context {P : Type} `{!WarmerPool P}.
Implicit Types (w : Warmer P) (i : pid).

(** ** Runs *)
Lemma rtc_warmer_inv w w' : rtc warmerStep w w' -> warmerInv w -> warmerInv w'.
Proof. induction 1; [done|]. eauto using warmerStep_inv. Qed.

Lemma step_pool f w : rtc warmerStep w (w <| w_pool ::= f |>).
Proof. apply rtc_once. exact (ws_pool (f (w_pool w)) w). Qed.

Lemma step_delete c w w' : rtc warmerStep w w' -> rtc warmerStep w (deletePrebindState c w').
Proof. intros H. etrans; [exact H|]. apply step_pool. Qed.

Lemma completePair_steps res w : rtc warmerStep w (completePair res w).1.
Proof. apply rtc_once, ws_complete. Qed.

Lemma buildWait_steps c evs : forall w, rtc warmerStep w (buildWait c evs w).1.
Proof.
  induction evs as [|ev evs IH]; intros w; cbn [buildWait]; [by apply step_delete|].
  destruct ev as [e| | |].
  - eapply rtc_l; [apply ws_event|apply IH].
  - destruct (w_results w) as [|res rest] eqn:Er; [apply IH|].
    assert (warmerStep w (w <| w_results := rest |>)) as Hs
      by (pose proof (ws_receive w) as Hr; destruct w; cbn in *; by subst).
    eapply rtc_l; [exact Hs|]. case_bool_decide; [apply completePair_steps|apply IH].
  - by apply step_delete.
  - destruct (w_done w); [by apply step_delete|apply IH].
Qed.

Lemma buildBegin_steps u av w : rtc warmerStep w (buildBegin u av w).1.
Proof.
  unfold buildBegin. destruct (w_done w); [done|]. destruct (_ <? 2); [done|].
  destruct (writeEach av _ _) as [p1 s1]. destruct (writeEach av _ p1) as [p2 s2].
  assert (rtc warmerStep w (w <| w_pool := p2 |>)) by (apply rtc_once, ws_pool).
  destruct (s2 =? 0); [by apply step_delete|done].
Qed.

Lemma BuildPair_steps r av w : rtc warmerStep w (BuildPair r av w).1.
Proof.
  unfold BuildPair. pose proof (buildBegin_steps (br_uuid r) av w) as H.
  destruct (buildBegin _ _ w) as [w1 [c|]]; [|done].
  etrans; [exact H|]. apply buildWait_steps.
Qed.

Lemma buildLoop_steps runs av : forall n w, rtc warmerStep w (buildLoop runs av n w).
Proof.
  induction runs as [|r runs IH]; intros n w; cbn [buildLoop]; [done|].
  destruct (_ <? _); [|done]. pose proof (BuildPair_steps r av w) as H.
  destruct (BuildPair r av w) as [w1 [i|]]; [|done].
  etrans; [exact H|]. eapply rtc_l; [apply ws_slot|apply IH].
Qed.

Lemma tryBuildPairs_steps runs w : rtc warmerStep w (tryBuildPairs runs w).
Proof.
  unfold tryBuildPairs. destruct (_ <=? _); [done|]. destruct (_ <? _); [done|].
  apply buildLoop_steps.
Qed.

Lemma invalidate_steps c w w' :
  rtc warmerStep w w' -> rtc warmerStep w (InvalidateChannel c w').
Proof. intros H. etrans; [exact H|]. apply rtc_once. exact (ws_event (EvInvalidate c) w'). Qed.

Lemma checkPrimary_steps w : rtc warmerStep w (checkPrimary w).
Proof.
  unfold checkPrimary. destruct (w_primary w) as [i|]; [|done].
  destruct (w_heap w !! i) as [p|]; [|done]. destruct (negb (_ =? _)); [done|].
  destruct (chAvailable w (hc_UplinkChID p)), (chAvailable w (hc_DownlinkChID p));
    cbn; repeat apply invalidate_steps; done.
Qed.

Lemma heartbeat_steps w : rtc warmerStep w (heartbeatHotPairNotify w).
Proof.
  unfold heartbeatHotPairNotify. generalize (filter (fun i => isReady w i = true) (w_pairs w)).
  intros l. revert w. induction l as [|i l IH]; intros w; [done|].
  eapply rtc_l; [apply ws_queue|apply IH].
Qed.

Lemma healthCheckSpares_steps w : rtc warmerStep w (healthCheckSpares w).
Proof.
  unfold healthCheckSpares. generalize (wp_available (w_pool w)). intros av.
  generalize (filter (fun i => Some i <> w_primary w /\ isReady w i = true) (w_pairs w)).
  intros l. revert w. induction l as [|i l IH]; intros w; [done|]. cbn [foldl].
  etrans; [|apply IH]. destruct (w_heap w !! i) as [p|]; [|done].
  destruct (negb _); [by apply invalidate_steps|]. destruct (negb _); [|done].
  by apply invalidate_steps.
Qed.

Lemma refreshDecision_steps i w : rtc warmerStep w (refreshDecision i w).
Proof.
  unfold refreshDecision. destruct (findReadyMatchLocked i w) as [[h|] [j|]].
  - apply rtc_once, ws_discard.
  - apply rtc_once, ws_discard.
  - eapply rtc_l; [apply ws_promote|]. apply rtc_once, ws_discard.
  - case_bool_decide; [apply rtc_once, ws_slot|].
    eapply rtc_l; [apply ws_slot|]. apply rtc_once, ws_replace.
Qed.

Lemma periodicRefresh_steps race runs w : rtc warmerStep w (periodicRefresh race runs w).
Proof.
  unfold periodicRefresh.
  set (w1 := pruneIdleDrainingPairs _). assert (rtc warmerStep w w1) as H1.
  { etrans; [apply heartbeat_steps|]. apply rtc_once, ws_prune. }
  match goal with |- context [tryBuildPairs runs (trimExcessPairs (healthCheckSpares
    (deduplicatePairs ?x)))] => set (w2 := x) end.
  assert (rtc warmerStep w w2) as H2.
  { unfold w2. destruct (2 <=? _); [|done].
    pose proof (BuildPair_steps race (wp_available (w_pool w1)) w1) as Hb.
    destruct (BuildPair race _ w1) as [w3 [i|]]; [|by etrans].
    etrans; [exact H1|]. etrans; [exact Hb|]. apply refreshDecision_steps. }
  etrans; [exact H2|]. eapply rtc_l; [apply ws_dedup|].
  etrans; [apply healthCheckSpares_steps|]. eapply rtc_l; [apply ws_trim|].
  etrans; [apply tryBuildPairs_steps|]. apply rtc_once, ws_dedup.
Qed.

(** One turn of [Run], with whatever the other goroutines do while it waits, is a
    sequence of the locked regions of [warmerStep]. *)
Lemma runTurn_steps e w : rtc warmerStep w (runTurn e w).
Proof.
  unfold runTurn. destruct (w_done w); [done|]. destruct e as [runs|runs|race runs].
  - apply tryBuildPairs_steps.
  - unfold tryRefresh. eapply rtc_l; [apply ws_ensure|].
    etrans; [apply checkPrimary_steps|]. apply tryBuildPairs_steps.
  - etrans; [apply periodicRefresh_steps|]. apply heartbeat_steps.
Qed.
End Specs.


Lemma demo2_steps : rtc warmerStep demo0 demo2.
Proof. apply runTurn_steps. Qed.

Lemma demo3_steps : rtc warmerStep demo0 demo3.
Proof.
  etrans; [apply demo2_steps|]. apply rtc_once, ws_event.
Qed.

Lemma demo2_inv : warmerInv demo2.
Proof. eapply rtc_warmer_inv; [apply demo2_steps|apply NewPairWarmer_inv]. Qed.

Lemma demo3_inv : warmerInv demo3.
Proof. eapply rtc_warmer_inv; [apply demo3_steps|apply NewPairWarmer_inv]. Qed.


(** ** Acquiring *)

(** a dial gets a Ready pair whenever there is one, the primary before the
    others, and the only change is one more reference to it. *)
Theorem AcquirePrimary_spec {P} `{!WarmerPool P} (w : Warmer P) :
  warmerInv w ->
  match AcquirePrimary w with
  | (w', Some i) =>
      isReady w i = true /\ (i ∈ w_pairs w)
      /\ (forall j, w_primary w = Some j -> isReady w j = true -> i = j)
      /\ w' = updPair i (fun p => p <| hc_refs ::= Z.add 1 |>) w
  | (w', None) => w' = w /\ forall i, isReady w i = false
  end.
Proof.
  intros Hw. destruct (AcquirePrimary_cases w) as [(-> & Hn & _)|(i & Hr & -> & Hp)].
  - split; [done|]. intros i. destruct (isReady w i) eqn:Hr; [|done]. exfalso. apply (Hn i).
    split; [|done]. apply isReady_true in Hr as (p & Hi & Hs). by apply (ready_listed _ _ _ (wi_pairs _ Hw) Hi).
  - split; [done|]. split; [|done].
    apply isReady_true in Hr as (p & Hi & Hs). by apply (ready_listed _ _ _ (wi_pairs _ Hw) Hi).
Qed.

Lemma AcquirePrimary_spec_witness :
  match AcquirePrimary demo2 with
  | (w', Some i) =>
      isReady demo2 i = true /\ (i ∈ w_pairs demo2)
      /\ (forall j, w_primary demo2 = Some j -> isReady demo2 j = true -> i = j)
      /\ w' = updPair i (fun p => p <| hc_refs ::= Z.add 1 |>) demo2
  | (w', None) => w' = demo2 /\ forall i, isReady demo2 i = false
  end.
Proof. exact (AcquirePrimary_spec demo2 demo2_inv). Defined.

(** ** Releasing *)
Definition lastDraining {P} `{!WarmerPool P} (w : Warmer P) (i : pid) : bool :=
  (pairState w i =? PairStateDraining) && (refsOf w i =? 1).

(** releasing drops one reference; exactly the last release of a Draining pair
    closes it and takes it out of the queue, and no other pair changes. *)
Theorem ReleasePair_spec {P} `{!WarmerPool P} (w : Warmer P) (i : pid) :
  warmerInv w -> 0 < refsOf w i ->
  let w' := ReleasePair i w in
  refsOf w' i = refsOf w i - 1
  /\ pairState w' i = (if lastDraining w i then PairStateClosed else pairState w i)
  /\ w_pairs w' = (if lastDraining w i then filter (fun j => j <> i) (w_pairs w) else w_pairs w)
  /\ (forall j, j <> i -> w_heap w' !! j = w_heap w !! j).
Proof.
  intros Hw Hr. cbn. unfold ReleasePair, lastDraining. set (f := fun p => p <| hc_refs ::= _ |>).
  assert (exists p, w_heap w !! i = Some p) as [p Hi]
    by (unfold refsOf in Hr; destruct (w_heap w !! i); [eauto|lia]).
  rewrite (refsOf_updPair _ _ _ _ Hi), (pairState_updPair _ _ _ _ Hi).
  assert (refsOf w i = hc_refs p) as Ep by (unfold refsOf; by rewrite Hi).
  assert (pairState w i = hc_state p) as Es by (unfold pairState; by rewrite Hi).
  rewrite Ep in *. rewrite Es. unfold f at 1 2 3. cbn -[updPair removePair setState].
  assert ((hc_refs p - 1 <=? 0) = (hc_refs p =? 1)) as -> by lia.
  destruct (Z.eqb_spec (hc_state p) PairStateDraining) as [Hd|Hd].
  - rewrite Hd, andb_true_r. cbn [andb]. destruct (hc_refs p =? 1); cbn [andb negb].
    + set (w1 := setState i PairStateClosed _).
      destruct (ensurePrimaryLocked_same (removePair i w1)) as [Eh El].
      destruct (removePair_same i w1) as (Eh' & El' & _).
      unfold refsOf, pairState. rewrite !Eh, !El, !Eh', El'. unfold w1.
      rewrite lookup_setState, lookup_updPair, Hi.
      split; [done|]. split; [done|]. split; [done|]. intros j Hj.
      rewrite lookup_setState_ne by done. by apply onlyAt_alter.
    + rewrite (refsOf_updPair _ _ _ _ Hi), (pairState_updPair _ _ _ _ Hi).
      split; [done|]. split; [done|]. split; [done|]. intros j Hj. by apply onlyAt_alter.
  - rewrite andb_false_r. cbn [andb].
    rewrite (refsOf_updPair _ _ _ _ Hi), (pairState_updPair _ _ _ _ Hi).
    split; [done|]. split; [done|]. split; [done|]. intros j Hj. by apply onlyAt_alter.
Qed.

(** The pair in use is drained by the loss of channel 2; its release closes it. *)
Lemma ReleasePair_spec_witness :
  let w := InvalidateChannel 2 demo3 in
  pairState w 1%positive = PairStateDraining
  /\ refsOf (ReleasePair 1%positive w) 1%positive = 0
  /\ pairState (ReleasePair 1%positive w) 1%positive = PairStateClosed
  /\ w_pairs (ReleasePair 1%positive w) = [].
Proof.
  assert (warmerInv (InvalidateChannel 2 demo3)) as Hw by apply InvalidateChannel_inv, demo3_inv.
  destruct (ReleasePair_spec _ 1%positive Hw eq_refl) as (H1 & H2 & H3 & _).
  split; [vm_compute; reflexivity|]. split; [exact H1|]. split; [exact H2|]. exact H3.
Defined.

(** ** Invalidating *)

(** What the loss of a channel does to a pair. *)
Definition invalidated (chID : Z) (p : HotChannelPair) : HotChannelPair :=
  if usesCh chID p && negb (hc_state p =? PairStateClosed)
  then p <| hc_state := if hc_refs p <=? 0 then PairStateClosed else PairStateDraining |>
  else p.

Lemma actOn_invAct chID h i p :
  h !! i = Some p -> actOn (invAct chID h i) p = invalidated chID p.
Proof.
  intros Hi. unfold invAct, invalidated. rewrite Hi.
  destruct (hc_state p =? PairStateClosed), (usesCh chID p); cbn [orb andb negb]; try done.
  by destruct (hc_refs p <=? 0).
Qed.

Lemma filter_ext_in {A} (Q R : A -> Prop) `{!∀ x, Decision (Q x)} `{!∀ x, Decision (R x)} (l : list A) :
  (forall x, x ∈ l -> Q x <-> R x) -> filter Q l = filter R l.
Proof.
  induction l as [|x l IH]; intros Hqr; [done|].
  rewrite !filter_cons, IH by (intros; apply Hqr; by right).
  assert (Hx := Hqr x (list_elem_of_here _ _)). by repeat case_decide; try tauto.
Qed.

Section Invalidate.
Context {P : Type} `{!WarmerPool P}.
Implicit Types (w : Warmer P) (i : pid).

(** The primary after an election is Ready, and there is one if any pair is. *)
Lemma ensurePrimaryLocked_ready w :
  inv3 w ->
  match w_primary (ensurePrimaryLocked w) with
  | Some i => isReady (ensurePrimaryLocked w) i = true
  | None => forall i, isReady (ensurePrimaryLocked w) i = false
  end.
Proof.
  intros Hw. rewrite ensurePrimaryLocked_primary.
  assert (forall i, isReady (ensurePrimaryLocked w) i = isReady w i) as Er.
  { intros i. unfold isReady, pairState. by destruct (ensurePrimaryLocked_same w) as [-> _]. }
  destruct (elected w) as [i|] eqn:He; [rewrite Er; by apply (elected_ready w)|].
  intros i. rewrite Er. destruct (isReady w i) eqn:Hr; [|done]. rewrite <- Hr.
  apply (elected_none _ He). apply isReady_true in Hr as (q & Hq & Hr).
  by apply (ready_listed w i q Hw).
Qed.

(** The queue after the sweep, before the election. *)
Lemma InvalidateChannel_core chID w :
  warmerInv w -> exists w2,
    InvalidateChannel chID w = ensurePrimaryLocked w2 /\ inv3 w2
    /\ (forall i, w_heap w2 !! i = invalidated chID <$> w_heap w !! i)
    /\ w_pairs w2 = filter (fun j => isClose (invAct chID (w_heap w) j) = false) (w_pairs w)
    /\ (forall i, w_primary w = Some i -> isClose (invAct chID (w_heap w) i) = false ->
          w_primary w2 = Some i).
Proof.
  intros [Hw _]. unfold InvalidateChannel.
  pose proof (invalidateLoop_swept chID (w_pairs w) w (w_heap w) (pi_nodup _ _ _ Hw)
    (fun _ _ => eq_refl)) as Hs.
  destruct (invalidateLoop chID (w_pairs w) w) as [w' k].
  exists (w' <| w_pairs := k |>). split; [done|]. split.
  { apply (swept_inv _ _ _ _ Hw Hs). intros j p _ Hj. unfold invAct. rewrite Hj.
    destruct (_ || _); [done|]. destruct (Z.leb_spec (hc_refs p) 0); lia. }
  split; [|split; [apply (sw_kept _ _ _ _ _ Hs)|]].
  - intros i. cbn. destruct (decide (i ∈ w_pairs w)) as [Hi|Hi].
    + rewrite (sw_in _ _ _ _ _ Hs) by done. destruct (w_heap w !! i) as [p|] eqn:Hp; [|done].
      cbn. f_equal. by apply actOn_invAct.
    + rewrite (sw_out _ _ _ _ _ Hs) by done. destruct (w_heap w !! i) as [p|] eqn:Hp; [|done].
      destruct (pi_pair _ _ _ Hw _ _ Hp) as [_ [[? _]|(_ & Hc & _)]]; [done|].
      cbn. unfold invalidated. by rewrite Hc, andb_false_r.
  - intros i Hi Hc. cbn. by rewrite (sw_primary _ _ _ _ _ Hs), Hi, Hc, andb_false_r.
Qed.

Lemma invalidated_closed chID w i :
  warmerInv w -> i ∈ w_pairs w ->
  isClose (invAct chID (w_heap w) i) = false
  <-> match invalidated chID <$> w_heap w !! i with
      | Some q => hc_state q
      | None => PairStateClosed
      end <> PairStateClosed.
Proof.
  intros [Hw _] Hi. destruct (pi_dom _ _ _ Hw _ Hi) as [p Hp].
  unfold invAct, invalidated. rewrite Hp. cbn.
  destruct (pi_pair _ _ _ Hw _ _ Hp) as [_ [[_ [Hc|[Hc _]]]|[? _]]]; [..|done];
    rewrite Hc; cbn; destruct (usesCh chID p); cbn; rewrite ?Hc; try done;
    by destruct (hc_refs p <=? 0).
Qed.

Lemma invalidated_not_ready chID p :
  usesCh chID (invalidated chID p) = true -> hc_state (invalidated chID p) <> PairStateReady.
Proof.
  intros Hu. assert (usesCh chID p = true) as Hu'
    by (revert Hu; unfold invalidated; by destruct (_ && _)).
  unfold invalidated. rewrite Hu'. destruct (Z.eqb_spec (hc_state p) PairStateClosed) as [Hc|];
    cbn; [by rewrite Hc|]. by destruct (hc_refs p <=? 0).
Qed.
End Invalidate.

(** C35: losing a channel closes and dequeues every idle pair that uses it, drains
    the pairs in use, changes no other pair, and leaves a Ready primary if any
    pair is still Ready: the old one if it survived. *)
Theorem InvalidateChannel_warmer_spec {P} `{!WarmerPool P} chID (w : Warmer P) :
  warmerInv w ->
  let w' := InvalidateChannel chID w in
  (forall i, w_heap w' !! i = invalidated chID <$> w_heap w !! i)
  /\ w_pairs w' = filter (fun i => pairState w' i <> PairStateClosed) (w_pairs w)
  /\ (forall i p, w_heap w' !! i = Some p -> usesCh chID p = true -> isReady w' i = false)
  /\ (forall i, w_primary w = Some i -> isReady w' i = true -> w_primary w' = Some i)
  /\ match w_primary w' with
     | Some i => isReady w' i = true
     | None => forall i, isReady w' i = false
     end.
Proof.
  intros Hw. cbn. destruct (InvalidateChannel_core chID w Hw) as (w2 & -> & Hw2 & Hh & Hl & Hp).
  destruct (ensurePrimaryLocked_same w2) as [Eh El].
  split; [intros i; by rewrite Eh|]. split; [|split; [|split]].
  - rewrite El, Hl. apply filter_ext_in. intros i Hi. unfold pairState. rewrite Eh, Hh.
    by apply invalidated_closed.
  - intros i p. unfold isReady, pairState. rewrite Eh, Hh. intros Hi Hu. rewrite Hi.
    apply fmap_Some in Hi as (q & _ & ->). apply Z.eqb_neq. by apply invalidated_not_ready.
  - intros i Hi Hr. rewrite ensurePrimaryLocked_primary. unfold elected.
    assert (isReady w2 i = true) as Hr2
      by (revert Hr; unfold isReady, pairState; by rewrite Eh).
    rewrite (Hp i Hi), Hr2; [done|]. apply invalidated_closed; [done|by apply Hw|].
    unfold isReady, pairState in Hr2. rewrite Hh in Hr2.
    destruct (invalidated chID <$> w_heap w !! i); [|done].
    apply Z.eqb_eq in Hr2 as ->. done.
  - by apply ensurePrimaryLocked_ready.
Qed.

Lemma InvalidateChannel_warmer_spec_witness :
  let w' := InvalidateChannel 1 demo2 in
  w_pairs w' = [2%positive] /\ w_primary w' = Some 2%positive
  /\ w_heap w' !! 1%positive = invalidated 1 <$> w_heap demo2 !! 1%positive
  /\ pairState w' 1%positive = PairStateClosed.
Proof.
  destruct (InvalidateChannel_warmer_spec 1 demo2 demo2_inv) as (H1 & H2 & H3 & H4 & H5).
  split; [vm_compute; reflexivity|]. split; [vm_compute; reflexivity|].
  split; [exact (H1 1%positive)|vm_compute; reflexivity].
Defined.

(** ** The life of a pair *)
Section Life.
Context {P : Type} `{!WarmerPool P}.
Implicit Types (w : Warmer P) (i : pid).

(** The key and the channels stay; the state only moves from Ready over Draining
    to Closed. *)
Definition pairLe (p q : HotChannelPair) : Prop :=
  hc_PrebindID q = hc_PrebindID p /\ hc_UplinkChID q = hc_UplinkChID p
  /\ hc_DownlinkChID q = hc_DownlinkChID p /\ hc_state p <= hc_state q.

Definition pairsLe w w' : Prop :=
  forall i p, w_heap w !! i = Some p -> exists q, w_heap w' !! i = Some q /\ pairLe p q.

#[local] Instance pairsLe_preorder : PreOrder pairsLe.
Proof.
  split; [intros w i p Hi; exists p; by repeat split|].
  intros w1 w2 w3 H12 H23 i p Hp. destruct (H12 i p Hp) as (q & Hq & H1).
  destruct (H23 i q Hq) as (r & Hr & H2). exists r. split; [done|].
  unfold pairLe in *. intuition (congruence || lia).
Qed.

Lemma pairsLe_heap w w' : w_heap w' = w_heap w -> pairsLe w w'.
Proof. intros E i p Hp. exists p. rewrite E. by repeat split. Qed.

Lemma pairsLe_updPair i f w :
  (forall p, w_heap w !! i = Some p -> pairLe p (f p)) -> pairsLe w (updPair i f w).
Proof.
  intros Hf j p Hj. destruct (decide (j = i)) as [->|Hne].
  - exists (f p). rewrite lookup_updPair, Hj. auto.
  - exists p. unfold updPair. cbn. rewrite lookup_alter_ne by done. by repeat split.
Qed.

(** A pair in a heap that satisfies the invariant has one of the three states. *)
Lemma state_range w i p : inv3 w -> w_heap w !! i = Some p -> 0 <= hc_state p <= 2.
Proof.
  intros Hw Hi. destruct (pi_pair _ _ _ Hw _ _ Hi) as [_ [[_ [->|[-> _]]]|(_ & -> & _)]];
    unfold PairStateReady, PairStateDraining, PairStateClosed; lia.
Qed.

Lemma state_used w i p :
  inv3 w -> w_heap w !! i = Some p -> 0 < hc_refs p -> hc_state p <= PairStateDraining.
Proof.
  intros Hw Hi Hr. destruct (pi_pair _ _ _ Hw _ _ Hi) as [_ [[_ [->|[-> _]]]|(_ & _ & ?)]];
    unfold PairStateReady, PairStateDraining in *; lia.
Qed.

Lemma pairsLe_close i w : inv3 w -> pairsLe w (setState i PairStateClosed w).
Proof. intros Hw. apply pairsLe_updPair. intros p Hi. repeat split. cbn. by apply (state_range w i p). Qed.

Lemma pairsLe_drain i w : inv3 w -> 0 < refsOf w i -> pairsLe w (setState i PairStateDraining w).
Proof.
  intros Hw Hr. apply pairsLe_updPair. intros p Hi. repeat split. cbn.
  apply (state_used w i p Hw Hi). unfold refsOf in Hr. by rewrite Hi in Hr.
Qed.

Lemma pairsLe_remove i w : pairsLe w (removePair i w).
Proof. apply pairsLe_heap, removePair_same. Qed.

Lemma pairsLe_ensure w : pairsLe w (ensurePrimaryLocked w).
Proof. apply pairsLe_heap, ensurePrimaryLocked_same. Qed.

(** Draining an idle pair and closing it at once. *)
Lemma pairsLe_touched_close i w w1 :
  inv3 w -> touched i w w1 -> pairsLe w (removePair i (setState i PairStateClosed w1)).
Proof.
  intros Hw Ht%(touched_setState i PairStateClosed).
  etrans; [|apply pairsLe_remove]. intros j p Hj. destruct (decide (j = i)) as [->|Hne].
  - rewrite (to_refs _ _ _ Ht), Hj. eexists. split; [done|]. repeat split. cbn.
    assert (pairState (setState i PairStateClosed w1) i = PairStateClosed) as ->.
    { apply pairState_setState. pose proof (to_refs _ _ _ Ht) as H. rewrite lookup_setState, Hj in H.
      destruct (w_heap w1 !! i); [eauto|done]. }
    by apply (state_range w i p).
  - exists p. rewrite (to_only _ _ _ Ht) by done. by repeat split.
Qed.

Lemma pairsLe_swept act w w' k :
  inv3 w -> swept act (w_pairs w) w w' k ->
  (forall j p, w_heap w !! j = Some p ->
     match act j with Keep => True | Drain => 0 < hc_refs p | Close => hc_refs p <= 0 end) ->
  pairsLe w w'.
Proof.
  intros Hw Hs Hact j p Hj. destruct (decide (j ∈ w_pairs w)) as [Hin|Hin].
  - rewrite (sw_in _ _ _ _ _ Hs), Hj by done. eexists. split; [done|].
    specialize (Hact j p Hj). destruct (act j); repeat split; cbn; [done| |].
    + by apply (state_used w j p).
    + by apply (state_range w j p).
  - exists p. rewrite (sw_out _ _ _ _ _ Hs) by done. by repeat split.
Qed.

Lemma pairsLe_trimLoop fuel : forall w, inv3 w -> pairsLe w (trimLoop fuel w).
Proof.
  induction fuel as [|fuel IH]; intros w Hw; cbn [trimLoop]; [done|].
  destruct (_ <=? _); [done|]. destruct (last _) as [i|]; [|done].
  rewrite (refsOf_touched i w) by apply touched_setState, touched_refl.
  destruct (Z.ltb_spec 0 (refsOf w i)) as [Hr|Hr]; [by apply pairsLe_drain|].
  etrans; [apply (pairsLe_touched_close i w (setState i PairStateDraining w) Hw),
    touched_setState, touched_refl|].
  apply IH. apply (closeOut_inv i w); [done|apply touched_setState, touched_refl|lia].
Qed.

Lemma pairsLe_sweeps w :
  warmerInv w -> (forall chID, pairsLe w (InvalidateChannel chID w)) /\ pairsLe w (deduplicatePairs w).
Proof.
  intros [Hw _]. split; [intros chID; unfold InvalidateChannel|unfold deduplicatePairs].
  - pose proof (invalidateLoop_swept chID (w_pairs w) w (w_heap w) (pi_nodup _ _ _ Hw)
      (fun _ _ => eq_refl)) as Hs.
    destruct (invalidateLoop chID (w_pairs w) w) as [w' k].
    etrans; [|apply pairsLe_ensure]. etrans; [|by apply pairsLe_heap].
    apply (pairsLe_swept _ _ _ _ Hw Hs). intros j p Hj. unfold invAct. rewrite Hj.
    destruct (_ || _); [done|]. destruct (Z.leb_spec (hc_refs p) 0); lia.
  - pose proof (dedupLoop_swept (w_pairs w) ∅ w (w_heap w) (pi_nodup _ _ _ Hw)
      (fun _ _ => eq_refl)) as Hs.
    destruct (dedupLoop ∅ (w_pairs w) w) as [w' k].
    etrans; [|apply pairsLe_ensure]. etrans; [|by apply pairsLe_heap].
    apply (pairsLe_swept _ _ _ _ Hw Hs). intros j p Hj. by apply dedupAct_refs.
Qed.

Lemma pairsLe_discard i w : inv3 w -> pairsLe w (discardCandidatePair i w).
Proof.
  intros Hw. unfold discardCandidatePair. destruct (Z.leb_spec (refsOf w i) 0).
  - etrans; [|apply pairsLe_ensure]. apply (pairsLe_touched_close i w w Hw), touched_refl.
  - by apply pairsLe_drain.
Qed.

Lemma pairsLe_invalidatePair i w : inv3 w -> pairsLe w (invalidatePair i w).
Proof.
  intros Hw. unfold invalidatePair. destruct (isReady w i); cbn [negb]; [|done].
  rewrite (refsOf_touched i w) by apply touched_setState, touched_refl.
  destruct (Z.leb_spec (refsOf w i) 0).
  - etrans; [|apply pairsLe_ensure]. apply (pairsLe_touched_close i w _ Hw), touched_setState, touched_refl.
  - by apply pairsLe_drain.
Qed.

Lemma pairsLe_complete res w : pairsLe w (completePair res w).1.
Proof.
  unfold completePair. destruct (pr_err res); [by apply pairsLe_heap|].
  destruct (w_done w); [by apply pairsLe_heap|]. cbn.
  match goal with |- pairsLe w (deletePrebindState _ (queueHotPairNotify ?i ?w1)) => set (w1' := w1) end.
  etrans; [|apply pairsLe_heap, (queueHotPairNotify_same _ w1')].
  intros i p Hi. exists p. unfold w1'. cbn. rewrite lookup_insert_ne; [by repeat split|].
  intros <-. apply (is_fresh (dom (w_heap w))), elem_of_dom. eauto.
Qed.

Lemma pairsLe_release i w : inv3 w -> pairsLe w (ReleasePair i w).
Proof.
  intros Hw. unfold ReleasePair. set (f := fun p => p <| hc_refs ::= _ |>).
  assert (pairsLe w (updPair i f w)) as H1 by (apply pairsLe_updPair; by repeat split).
  destruct (_ && _); [|done].
  etrans; [|apply pairsLe_ensure]. etrans; [|apply pairsLe_remove].
  etrans; [exact H1|]. apply pairsLe_updPair. intros p Hp. repeat split. cbn.
  unfold updPair in Hp. cbn in Hp. rewrite lookup_alter_eq in Hp.
  apply fmap_Some in Hp as (q & Hq & ->). by apply (state_range w i q).
Qed.

Lemma pairsLe_event e w : warmerInv w -> pairsLe w (applyEvent e w).
Proof.
  intros Hw. destruct e as [|i|chID|res| | |pool]; cbn [applyEvent]; try by apply pairsLe_heap.
  - destruct (AcquirePrimary_cases w) as [(-> & _)|(i & _ & -> & _)]; [done|].
    apply pairsLe_updPair. by repeat split.
  - destruct (0 <? refsOf w i); [by apply pairsLe_release, Hw|done].
  - by apply pairsLe_sweeps.
  - apply pairsLe_heap. unfold HandlePrebindResult. by case_match.
  - destruct (w_notifyTimer w); [apply pairsLe_heap, flushHotPairNotify_same|done].
Qed.

Lemma pairsLe_step w w' : warmerStep w w' -> warmerInv w -> pairsLe w w'.
Proof.
  intros [] Hw; try by apply pairsLe_heap.
  - by apply pairsLe_event.
  - apply pairsLe_complete.
  - apply pairsLe_updPair. by repeat split.
  - apply pairsLe_heap, queueHotPairNotify_same.
  - apply pairsLe_ensure.
  - by rewrite pruneIdleDrainingPairs_noop.
  - apply pairsLe_discard, Hw.
  - apply pairsLe_invalidatePair, Hw.
  - apply pairsLe_heap. unfold promoteToHead. by case_bool_decide.
  - apply pairsLe_heap. unfold replaceHeadWithCandidate. case_bool_decide; [|done].
    destruct h as [h|]; [destruct (_ && _)|]; done.
  - by apply pairsLe_sweeps.
  - unfold trimExcessPairs. destruct (_ <=? _); [done|].
    etrans; [|apply pairsLe_ensure]. apply pairsLe_trimLoop, Hw.
Qed.

Lemma pairsLe_steps w w' : rtc warmerStep w w' -> warmerInv w -> pairsLe w w'.
Proof.
  induction 1 as [w|w1 w2 w3 Hs Hr IH]; intros Hw; [done|].
  etrans; [by apply pairsLe_step|]. apply IH. by eapply warmerStep_inv.
Qed.
End Life.

(** C36: over any run a pair keeps its key and its two channels, its state only
    moves from Ready over Draining to Closed, and as long as someone holds it, it
    is not closed. *)
Theorem pair_lifecycle {P} `{!WarmerPool P} (w w' : Warmer P) i p :
  warmerInv w -> rtc warmerStep w w' -> w_heap w !! i = Some p ->
  exists q, w_heap w' !! i = Some q /\ pairLe p q
    /\ (0 < hc_refs q -> hc_state q <> PairStateClosed /\ (i ∈ w_pairs w')).
Proof.
  intros Hw Hr Hi.
  pose proof (rtc_warmer_inv _ _ Hr Hw) as Hw'. pose proof (pairsLe_steps _ _ Hr Hw) as Hle.
  destruct (Hle i p Hi) as (q & Hq & Hl). exists q. split; [done|]. split; [done|]. intros Hp.
  destruct (pi_pair _ _ _ (wi_pairs _ Hw') _ _ Hq) as [_ [[? [->|[-> _]]]|(_ & _ & ?)]];
    [by split|by split|lia].
Qed.

Lemma pair_lifecycle_witness :
  exists q, w_heap demo3 !! 1%positive = Some q
    /\ pairLe ((newPair (hotPairKeyPrefix ++ lit "a") 1 2) <| hc_ID := slotID 1 |>) q
    /\ (0 < hc_refs q -> hc_state q <> PairStateClosed /\ (1%positive ∈ w_pairs demo3)).
Proof.
  apply (pair_lifecycle demo2 demo3 1%positive); [exact demo2_inv| |vm_compute; reflexivity].
  apply rtc_once, ws_event.
Defined.

(** ** The rematch *)
Section Rematch.
Context {P : Type} `{!WarmerPool P}.
Implicit Types (w : Warmer P) (i : pid).

(** [j] is another Ready pair with the channels of [p], the pair [i]. *)
Definition rivals w i p j : Prop :=
  j <> i /\ exists q, w_heap w !! j = Some q /\ hc_state q = PairStateReady
    /\ pairChannelsEqual p q = true.

Lemma findReady_cases w i p :
  warmerInv w -> w_heap w !! i = Some p ->
  (exists h, findReadyMatchLocked i w = (Some h, None) /\ w_primary w = Some h /\ rivals w i p h)
  \/ ((forall h, w_primary w = Some h -> rivals w i p h -> False)
      /\ ((exists j, findReadyMatchLocked i w = (None, Some j) /\ rivals w i p j)
          \/ (findReadyMatchLocked i w = (None, None) /\ forall j, rivals w i p j -> False))).
Proof.
  intros Hw Hi. unfold findReadyMatchLocked. rewrite Hi.
  assert (forall j, readyMatch i p w j = true <-> rivals w i p j) as Hm.
  { intros j. unfold readyMatch, rivals. rewrite !andb_true_iff, bool_decide_eq_true, isReady_true.
    destruct (w_heap w !! j) as [q|]; naive_solver. }
  assert ((exists j, snd <$> list_find (fun j => readyMatch i p w j = true) (w_pairs w) = Some j
             /\ rivals w i p j)
          \/ (snd <$> list_find (fun j => readyMatch i p w j = true) (w_pairs w) = None
              /\ forall j, rivals w i p j -> False)) as Hf.
  { destruct (list_find _ _) as [[k j]|] eqn:E; [left|right].
    - apply list_find_Some in E as (_ & Hj & _). exists j. split; [done|]. by apply Hm.
    - split; [done|]. intros j Hj. apply list_find_None in E. rewrite list.Forall_forall in E.
      apply (E j); [|by apply Hm]. destruct Hj as (_ & q & Hq & Hs & _).
      by apply (ready_listed w j q (wi_pairs _ Hw)). }
  destruct (w_primary w) as [h|] eqn:Hp.
  - rewrite (bool_decide_true (h ∈ w_pairs w)) by (by apply (pi_primary _ _ _ (wi_pairs _ Hw))).
    cbn [andb]. destruct (readyMatch i p w h) eqn:E.
    + left. exists h. rewrite <- Hm. auto.
    + right. split.
      * intros h' [= <-] Hr. apply Hm in Hr. congruence.
      * destruct Hf as [(j & -> & Hr)|[-> Hr]]; [left; eauto|right; auto].
  - right. split; [done|]. destruct Hf as [(j & -> & Hr)|[-> Hr]]; [left; eauto|right; auto].
Qed.

Lemma discard_spec w i h :
  warmerInv w -> h <> i -> isReady w i = true -> isReady w h = true -> w_primary w = Some h ->
  let w' := discardCandidatePair i w in
  w_primary w' = Some h /\ isReady w' i = false
  /\ (forall j, j <> i -> w_heap w' !! j = w_heap w !! j)
  /\ (w_pairs w' = w_pairs w \/ w_pairs w' = filter (fun j => j <> i) (w_pairs w)).
Proof.
  intros Hw Hne Hi Hh Hp. cbn. apply isReady_true in Hi as (p & Hi & _).
  unfold discardCandidatePair. destruct (refsOf w i <=? 0).
  - set (w1 := setState i PairStateClosed w).
    destruct (ensurePrimaryLocked_same (removePair i w1)) as [Eh El].
    destruct (removePair_same i w1) as (Eh' & El' & Ep').
    assert (isReady (removePair i w1) h = true) as Hh'.
    { revert Hh. unfold isReady, pairState. rewrite Eh'. unfold w1. by rewrite lookup_setState_ne. }
    split; [|split; [|split]].
    + rewrite ensurePrimaryLocked_primary. unfold elected. rewrite Ep'. unfold w1 at 1 2. cbn.
      rewrite Hp, bool_decide_false by congruence. by rewrite Hh'.
    + unfold isReady, pairState. rewrite Eh, Eh'. unfold w1. by rewrite lookup_setState, Hi.
    + intros j Hj. rewrite Eh, Eh'. by apply lookup_setState_ne.
    + right. by rewrite El, El'.
  - split; [done|]. split; [|split; [|by left]].
    + unfold isReady, pairState. by rewrite lookup_setState, Hi.
    + intros j Hj. by apply lookup_setState_ne.
Qed.

Lemma isReady_heap w w' j : w_heap w' !! j = w_heap w !! j -> isReady w' j = isReady w j.
Proof. unfold isReady, pairState. by intros ->. Qed.

Lemma promoteToHead_spec w j :
  j ∈ w_pairs w ->
  w_primary (promoteToHead j w) = Some j /\ w_heap (promoteToHead j w) = w_heap w
  /\ w_pairs (promoteToHead j w) = j :: removeFirst j (w_pairs w).
Proof. intros Hj. unfold promoteToHead. by rewrite bool_decide_true. Qed.

(** [replaceHeadWithCandidate] with the candidate in the queue. *)
Lemma replaceHead_spec w i h :
  i ∈ w_pairs w -> h <> Some i ->
  let w' := replaceHeadWithCandidate i h w in
  w_primary w' = Some i /\ w_heap w' = w_heap w
  /\ w_pairs w' = i :: match h with
                       | Some h => if isReady w h then h :: removeFirst h (removeFirst i (w_pairs w))
                                   else removeFirst i (w_pairs w)
                       | None => removeFirst i (w_pairs w)
                       end.
Proof.
  intros Hi Hne. cbn. unfold replaceHeadWithCandidate. rewrite bool_decide_true by done.
  destruct h as [h|]; [|done]. rewrite (bool_decide_true (h <> i)) by congruence. cbn [andb].
  replace (isReady (w <| w_pairs ::= removeFirst i |>) h) with (isReady w h) by done.
  by destruct (isReady w h).
Qed.
End Rematch.

(** What step 2 of the refresh guarantees for the candidate [i] with the pair [p]. *)
Record rematched {P} `{!WarmerPool P} (w w' : Warmer P) (i : pid) (p : HotChannelPair) (k : pid) : Prop := {
  rm_primary : w_primary w' = Some k;
  rm_channels : exists q, w_heap w' !! k = Some q /\ hc_state q = PairStateReady
                          /\ pairChannelsEqual p q = true;
  rm_stays : forall h, w_primary w = Some h -> rivals w i p h -> k = h;
  rm_candidate : k <> i -> isReady w' i = false;
  rm_new : k = i -> forall j, rivals w i p j -> False;
  rm_others : forall j, j <> i ->
    w_heap w' !! j = w_heap w !! j /\ ((j ∈ w_pairs w') <-> (j ∈ w_pairs w));
  rm_order : forall h, w_primary w = Some h -> isReady w h = true -> k <> h ->
    w_pairs w' !! 0%nat = Some k /\ (k = i -> w_pairs w' !! 1%nat = Some h) }.

Section Decision.
Context {P : Type} `{!WarmerPool P}.
Implicit Types (w : Warmer P) (i : pid).

Lemma elem_discarded w w' i j :
  w_pairs w' = w_pairs w \/ w_pairs w' = filter (fun j => j <> i) (w_pairs w) -> j <> i ->
  (j ∈ w_pairs w') <-> (j ∈ w_pairs w).
Proof. intros [->| ->] Hne; [done|]. rewrite elem_filter_ne. tauto. Qed.

Lemma rematched_head w i p h :
  warmerInv w -> w_heap w !! i = Some p -> hc_state p = PairStateReady ->
  w_primary w = Some h -> rivals w i p h -> rematched w (discardCandidatePair i w) i p h.
Proof.
  intros Hw Hi Hs Hp Hr. destruct Hr as (Hne & q & Hq & Hqs & Hqe) eqn:E.
  assert (isReady w h = true) as Hh by (apply isReady_true; eauto).
  assert (isReady w i = true) as Hri by (apply isReady_true; eauto).
  destruct (discard_spec w i h Hw Hne Hri Hh Hp) as (H1 & H2 & H3 & H4).
  split; [done| | |done|done| |].
  - exists q. rewrite H3 by done. auto.
  - congruence.
  - intros j Hj. split; [by apply H3|]. by apply (elem_discarded _ _ i).
  - congruence.
Qed.

Lemma rematched_spare w i p j :
  warmerInv w -> w_heap w !! i = Some p -> hc_state p = PairStateReady ->
  (forall h, w_primary w = Some h -> rivals w i p h -> False) -> rivals w i p j ->
  rematched w (discardCandidatePair i (promoteToHead j w)) i p j.
Proof.
  intros Hw Hi Hs Hn (Hne & q & Hq & Hqs & Hqe).
  pose proof (ready_listed w j q (wi_pairs _ Hw) Hq Hqs) as Hj.
  destruct (promoteToHead_spec w j Hj) as (P1 & P2 & P3).
  pose proof (promoteToHead_inv j w Hw) as Hw1. set (w1 := promoteToHead j w) in *.
  assert (isReady w1 j = true) as Hh by (apply isReady_true; rewrite P2; eauto).
  assert (isReady w1 i = true) as Hri by (apply isReady_true; rewrite P2; eauto).
  destruct (discard_spec w1 i j Hw1 Hne Hri Hh P1) as (H1 & H2 & H3 & H4).
  split; [done| |naive_solver|done|done| |].
  - exists q. rewrite H3, P2 by done. auto.
  - intros k Hk. split; [by rewrite H3, P2|]. rewrite (elem_discarded _ _ i k H4 Hk), P3.
    by rewrite <- (removeFirst_perm j _ Hj).
  - intros h _ _ _. split; [|done]. destruct H4 as [->| ->]; rewrite P3; [done|].
    by rewrite filter_cons_True.
Qed.

Lemma assignPairSlot_same i w :
  w_pairs (assignPairSlot i w) = w_pairs w /\ w_primary (assignPairSlot i w) = w_primary w
  /\ (forall j, j <> i -> w_heap (assignPairSlot i w) !! j = w_heap w !! j)
  /\ (forall p, w_heap w !! i = Some p -> exists q, w_heap (assignPairSlot i w) !! i = Some q
        /\ hc_state q = hc_state p /\ pairChannelsEqual p q = true).
Proof.
  unfold assignPairSlot. split; [done|]. split; [done|]. split.
  - intros j Hj. by apply onlyAt_alter.
  - intros p Hi. rewrite lookup_updPair, Hi. eexists. split; [done|]. split; [done|].
    unfold pairChannelsEqual. cbn. by rewrite !Z.eqb_refl.
Qed.

Lemma rematched_new w i p :
  warmerInv w -> w_heap w !! i = Some p -> hc_state p = PairStateReady ->
  (forall j, rivals w i p j -> False) ->
  rematched w (if bool_decide (w_primary w = Some i) then assignPairSlot i w
               else replaceHeadWithCandidate i (w_primary w) (assignPairSlot i w)) i p i.
Proof.
  intros Hw Hi Hs Hn. destruct (assignPairSlot_same i w) as (Al & Ap & Ah & Ai).
  destruct (Ai p Hi) as (q & Hq & Hqs & Hqe). rewrite Hs in Hqs.
  pose proof (ready_listed w i p (wi_pairs _ Hw) Hi Hs) as Hl.
  case_bool_decide as Hp.
  - split; [by rewrite Ap|by exists q|intros h _ Hr; by destruct (Hn h Hr)|done|done| |congruence].
    intros j Hj. rewrite Al. auto.
  - destruct (replaceHead_spec (assignPairSlot i w) i (w_primary w)) as (R1 & R2 & R3);
      [by rewrite Al|done|]. rewrite Al in R3.
    split; [done|rewrite R2; by exists q|intros h _ Hr; by destruct (Hn h Hr)|done|done| |].
    + intros j Hj. rewrite R2. split; [by apply Ah|]. rewrite R3.
      destruct (w_primary w) as [h|] eqn:Eh; [destruct (isReady _ h) eqn:Er|].
      * assert (h ∈ removeFirst i (w_pairs w)) as Hin.
        { apply removeFirst_elem; [congruence|]. by apply (pi_primary _ _ _ (wi_pairs _ Hw)). }
        by rewrite <- (removeFirst_perm h _ Hin), <- (removeFirst_perm i _ Hl).
      * by rewrite <- (removeFirst_perm i _ Hl).
      * by rewrite <- (removeFirst_perm i _ Hl).
    + intros h Hh Hr Hne. rewrite R3, Hh. split; [done|]. intros _.
      rewrite (isReady_heap w _ h) by (by apply Ah). by rewrite Hr.
Qed.
End Decision.

(** C34: after the rematch the head is a Ready pair with the channels that won the
    race: the old head if it has them, otherwise another queued pair that has them,
    and only otherwise the candidate, which is else discarded. No other pair is
    changed or lost; a new head is first in the queue, and an old healthy head that
    the candidate replaced is second. *)
Theorem refreshDecision_spec {P} `{!WarmerPool P} (w : Warmer P) i p :
  warmerInv w -> w_heap w !! i = Some p -> hc_state p = PairStateReady ->
  exists k, rematched w (refreshDecision i w) i p k.
Proof.
  intros Hw Hi Hs. unfold refreshDecision.
  destruct (findReady_cases w i p Hw Hi) as [(h & -> & Hp & Hr)|[Hn [(j & -> & Hr)|[-> Hr]]]].
  - exists h. by apply rematched_head.
  - exists j. by apply rematched_spare.
  - exists i. by apply rematched_new.
Qed.

(** A third pair wins the race. *)
Definition demo4 : Warmer demoPool := (completePair (mkPrebindResult (lit "c") 3 1 false) demo2).1.

Lemma refreshDecision_spec_witness :
  w_pairs (refreshDecision 3%positive demo4) = [3; 1; 2]%positive
  /\ exists k, rematched demo4 (refreshDecision 3%positive demo4) 3%positive
                 (newPair (lit "c") 3 1) k.
Proof.
  split; [vm_compute; reflexivity|].
  apply (refreshDecision_spec demo4 3%positive (newPair (lit "c") 3 1));
    [apply completePair_inv, demo2_inv|vm_compute; reflexivity|reflexivity].
Defined.
