(* ===== verification/PairWarmerQueue.v ===== *)
(** Upkeep of the warmer's queue: deduplication, trimming, the answer a new pair
    is built from, and the notification that makes the server know it. *)

From S2P Require Import Prelude Protocol HotPairTable PairWarmer PairWarmerInv PairWarmerSpecs.

(** ** Deduplication *)
Section Dedup.
Context {P : Type} `{!WarmerPool P}.
Implicit Types (w : Warmer P) (i : pid).

Definition readyKey (h : gmap pid HotChannelPair) i : option (Z * Z) :=
  match h !! i with
  | Some p => if hc_state p =? PairStateReady then Some (dedupKey p) else None
  | None => None
  end.

(** A Ready pair is kept exactly if no Ready pair before it has its channels. *)
Lemma dedupAct_keep h l : forall seen n i key,
  NoDup l -> l !! n = Some i -> readyKey h i = Some key ->
  dedupAct seen h l i = Keep
  <-> key ∉ seen /\ forall m k, (m < n)%nat -> l !! m = Some k -> readyKey h k <> Some key.
Proof.
  induction l as [|j l IH]; intros seen n i key Hnd Hn Hk; [done|].
  apply NoDup_cons in Hnd as [Hj Hnd]. destruct n as [|n]; cbn in Hn.
  - injection Hn as ->. cbn [dedupAct]. rewrite bool_decide_true by done.
    unfold readyKey in Hk. destruct (h !! i) as [p|]; [|done].
    unfold dedupAct1. destruct (hc_state p =? PairStateReady); [|done]. injection Hk as <-.
    cbn [andb]. case_bool_decide as Hs.
    + split; [|tauto]. by destruct (0 <? hc_refs p).
    + split; [|done]. intros _. split; [done|]. lia.
  - assert (i <> j) as Hne by (intros ->; by apply Hj, list_elem_of_lookup_2 with n).
    assert (dedupAct seen h (j :: l) i
            = dedupAct (match readyKey h j with Some k => {[k]} ∪ seen | None => seen end) h l i) as ->.
    { cbn [dedupAct]. rewrite bool_decide_false by done. unfold readyKey, dedupSeen.
      destruct (h !! j) as [p|]; [|done]. by destruct (hc_state p =? PairStateReady). }
    rewrite (IH _ n i key Hnd Hn Hk). split.
    + intros [H1 H2]. split; [destruct (readyKey h j); set_solver|].
      intros [|m] k Hm Hl Hr; cbn in Hl; [|by apply (H2 m k); [lia|..]].
      injection Hl as ->. rewrite Hr in H1. set_solver.
    + intros [H1 H2]. assert (readyKey h j <> Some key) as Hj' by (apply (H2 0%nat j); [lia|done]).
      split; [destruct (readyKey h j); set_solver|].
      intros m k Hm Hl. apply (H2 (S m) k); [lia|done].
Qed.

(** The first Ready pair with the channels of a Ready pair is kept. *)
Lemma dedupAct_first h l : NoDup l -> forall n i key,
  l !! n = Some i -> readyKey h i = Some key ->
  exists m k, (m <= n)%nat /\ l !! m = Some k /\ readyKey h k = Some key
    /\ dedupAct ∅ h l k = Keep.
Proof.
  intros Hnd. induction n as [n IH] using lt_wf_ind. intros i key Hn Hk.
  destruct (decide (dedupAct ∅ h l i = Keep)) as [Ha|Ha]; [exists n, i; auto|].
  assert (Exists (fun k => readyKey h k = Some key) (take n l)) as He.
  { apply dec_stable. intros Hne. apply Ha. apply (dedupAct_keep h l ∅ n i key Hnd Hn Hk).
    split; [set_solver|]. intros m k Hm Hl Hr. apply Hne. apply list.Exists_exists.
    exists k. split; [|done]. apply list_elem_of_lookup. exists m. by rewrite lookup_take_lt. }
  apply list.Exists_exists in He as (k & (m & Hm)%list_elem_of_lookup & Hr).
  apply lookup_take_Some in Hm as [Hl Hm].
  destruct (IH m Hm k key Hl Hr) as (m' & k' & ? & ? & ? & ?).
  exists m', k'. split; [lia|]. auto.
Qed.

Lemma readyKey_swept act w w' k j p :
  inv3 w -> swept act (w_pairs w) w w' k -> w_heap w !! j = Some p -> hc_state p = PairStateReady ->
  readyKey (w_heap w') j = (if decide (act j = Keep) then Some (dedupKey p) else None).
Proof.
  intros Hw Hs Hj Hp. unfold readyKey.
  rewrite (sw_in _ _ _ _ _ Hs), Hj by (by apply (ready_listed w j p)).
  cbn. destruct (act j); cbn; by rewrite ?Hp.
Qed.

Lemma readyKey_mono act w w' k j key :
  swept act (w_pairs w) w w' k -> readyKey (w_heap w') j = Some key -> readyKey (w_heap w) j = Some key.
Proof.
  intros Hs. unfold readyKey. destruct (decide (j ∈ w_pairs w)) as [Hj|Hj].
  - rewrite (sw_in _ _ _ _ _ Hs) by done. destruct (w_heap w !! j) as [p|]; [|done].
    by destruct (act j).
  - by rewrite (sw_out _ _ _ _ _ Hs).
Qed.

Lemma readyKey_some w j key :
  readyKey (w_heap w) j = Some key
  <-> exists p, w_heap w !! j = Some p /\ hc_state p = PairStateReady /\ dedupKey p = key.
Proof.
  unfold readyKey. destruct (w_heap w !! j) as [p|]; [|naive_solver].
  destruct (Z.eqb_spec (hc_state p) PairStateReady); naive_solver.
Qed.

Lemma readyKey_listed w j key : inv3 w -> readyKey (w_heap w) j = Some key -> j ∈ w_pairs w.
Proof. intros Hw (p & Hj & Hs & _)%readyKey_some. by apply (ready_listed w j p). Qed.
End Dedup.

(** deduplication leaves no two Ready pairs with the same channels, and for
    every Ready pair there remains one with its channels that is not behind it in
    the queue. *)
Theorem deduplicatePairs_spec {P} `{!WarmerPool P} (w : Warmer P) :
  warmerInv w ->
  let w' := deduplicatePairs w in
  (forall i j key, readyKey (w_heap w') i = Some key -> readyKey (w_heap w') j = Some key -> i = j)
  /\ (forall n i key, w_pairs w !! n = Some i -> readyKey (w_heap w) i = Some key ->
        exists m k, (m <= n)%nat /\ w_pairs w !! m = Some k
          /\ readyKey (w_heap w') k = Some key).
Proof.
  intros [Hw _]. cbn. unfold deduplicatePairs.
  pose proof (pi_nodup _ _ _ Hw) as Hnd.
  pose proof (dedupLoop_swept (w_pairs w) ∅ w (w_heap w) Hnd (fun _ _ => eq_refl)) as Hs.
  destruct (dedupLoop ∅ (w_pairs w) w) as [w' k].
  destruct (ensurePrimaryLocked_same (w' <| w_pairs := k |>)) as [-> _]. cbn.
  assert (forall i key, readyKey (w_heap w') i = Some key ->
    readyKey (w_heap w) i = Some key /\ dedupAct ∅ (w_heap w) (w_pairs w) i = Keep) as Hkeep.
  { intros i key Hi. pose proof (readyKey_mono _ _ _ _ _ _ Hs Hi) as H0. split; [done|].
    apply readyKey_some in H0 as (p & Hp & Hps & Hpk).
    rewrite (readyKey_swept _ _ _ _ _ _ Hw Hs Hp Hps) in Hi. by case_decide. }
  split.
  - intros i j key [Hi Ai]%Hkeep [Hj Aj]%Hkeep.
    pose proof (readyKey_listed w i key Hw Hi) as [n Hn]%list_elem_of_lookup.
    pose proof (readyKey_listed w j key Hw Hj) as [m Hm]%list_elem_of_lookup.
    apply (dedupAct_keep _ _ _ n i key Hnd Hn Hi) in Ai as [_ Ai].
    apply (dedupAct_keep _ _ _ m j key Hnd Hm Hj) in Aj as [_ Aj].
    destruct (Nat.lt_total n m) as [Hlt|[->|Hlt]].
    + by destruct (Aj n i Hlt Hn Hi).
    + congruence.
    + by destruct (Ai m j Hlt Hm Hj).
  - intros n i key Hn Hk. destruct (dedupAct_first _ _ Hnd n i key Hn Hk) as (m & j & ? & ? & Hj & Aj).
    exists m, j. split; [done|]. split; [done|].
    apply readyKey_some in Hj as (p & Hp & Hps & <-).
    rewrite (readyKey_swept _ _ _ _ _ _ Hw Hs Hp Hps). by rewrite decide_True.
Qed.

(** A pair with the channels of the first one was built meanwhile. *)
Definition demo5 : Warmer demoPool := (completePair (mkPrebindResult (lit "d") 1 2 false) demo2).1.

Lemma deduplicatePairs_spec_witness :
  w_pairs demo5 = [1; 2; 3]%positive /\ w_pairs (deduplicatePairs demo5) = [1; 2]%positive
  /\ exists m k, (m <= 2)%nat /\ w_pairs demo5 !! m = Some k
       /\ readyKey (w_heap (deduplicatePairs demo5)) k = Some (1, 2).
Proof.
  assert (warmerInv demo5) as Hw by apply completePair_inv, demo2_inv.
  split; [vm_compute; reflexivity|]. split; [vm_compute; reflexivity|].
  apply (deduplicatePairs_spec demo5 Hw) with (i := 3%positive); vm_compute; reflexivity.
Defined.

(** ** Trimming *)
Section Trim.
Context {P : Type} `{!WarmerPool P}.
Implicit Types (w : Warmer P) (i : pid).

Definition readies w : list pid := filter (fun i => isReady w i = true) (w_pairs w).

Lemma filter_filter_ne w w' i :
  (w_pairs w' = w_pairs w \/ w_pairs w' = filter (fun j => j <> i) (w_pairs w)) ->
  isReady w' i = false -> (forall j, j <> i -> isReady w' j = isReady w j) ->
  readies w' = filter (fun j => j <> i) (readies w).
Proof.
  intros Hl Hi Hj. unfold readies. rewrite list_filter_filter.
  destruct Hl as [->| ->]; [|rewrite list_filter_filter]; apply filter_ext_in; intros j _;
    (destruct (decide (j = i)) as [->|Hne]; [rewrite Hi|rewrite Hj by done]); intuition congruence.
Qed.

(** The Ready pairs without the last one. *)
Lemma readies_last w w' rs i :
  inv3 w -> readies w = rs ++ [i] ->
  (w_pairs w' = w_pairs w \/ w_pairs w' = filter (fun j => j <> i) (w_pairs w)) ->
  isReady w' i = false -> (forall j, j <> i -> isReady w' j = isReady w j) ->
  readies w' = rs.
Proof.
  intros Hw E Hl Hi Hj. rewrite (filter_filter_ne w w' i), E by done.
  assert (NoDup (rs ++ [i])) as Hnd by (rewrite <- E; apply NoDup_filter, Hw).
  rewrite (filter_ne_mid i rs []) by done. apply app_nil_r.
Qed.

Lemma isReady_setState w i s j :
  isReady (setState i s w) j = if decide (j = i) then
    match w_heap w !! i with Some _ => s =? PairStateReady | None => false end else isReady w j.
Proof.
  unfold isReady, pairState. destruct (decide (j = i)) as [->|Hne].
  - rewrite lookup_setState. by destruct (w_heap w !! i).
  - by rewrite lookup_setState_ne.
Qed.

Lemma refsOf_removePair i j w : refsOf (removePair i w) j = refsOf w j.
Proof. unfold refsOf. by destruct (removePair_same i w) as (-> & _). Qed.

Lemma refsOf_setState i s j w : refsOf (setState i s w) j = refsOf w j.
Proof.
  unfold refsOf. destruct (decide (j = i)) as [->|Hne]; [|by rewrite lookup_setState_ne].
  rewrite lookup_setState. by destruct (w_heap w !! i).
Qed.

Lemma isReady_removePair i j w : isReady (removePair i w) j = isReady w j.
Proof. unfold isReady. by rewrite pairState_removePair. Qed.

Lemma readyCount_readies w : readyCount w = len (readies w).
Proof. done. Qed.

Lemma removePair_count i w : w_PairCount (removePair i w) = w_PairCount w.
Proof. unfold removePair, clearPrimary. by case_bool_decide. Qed.

(** One idle pair is trimmed. *)
Lemma trim_close w i rs :
  inv3 w -> readies w = rs ++ [i] -> refsOf w i <= 0 ->
  let w1 := removePair i (setState i PairStateClosed (setState i PairStateDraining w)) in
  inv3 w1 /\ readies w1 = rs /\ w_PairCount w1 = w_PairCount w
  /\ forall j, refsOf w1 j = refsOf w j.
Proof.
  intros Hw El Hr. split; [|split; [|split]].
  - by apply (closeOut_inv i w); [|apply touched_setState, touched_refl|].
  - apply (readies_last w _ rs i Hw El).
    + right. by destruct (removePair_same i
        (setState i PairStateClosed (setState i PairStateDraining w))) as (_ & -> & _).
    + rewrite isReady_removePair, isReady_setState, decide_True by done.
      by destruct (w_heap (setState i PairStateDraining w) !! i).
    + intros j Hj. by rewrite isReady_removePair, !isReady_setState, !decide_False.
  - by rewrite removePair_count.
  - intros j. by rewrite refsOf_removePair, !refsOf_setState.
Qed.

Lemma trimLoop_spec fuel : forall w,
  inv3 w -> 0 <= w_PairCount w -> (length (readies w) < fuel)%nat ->
  exists m, readies (trimLoop fuel w) = take m (readies w)
    /\ Z.min (w_PairCount w) (len (readies w)) <= len (readies (trimLoop fuel w))
    /\ (len (readies (trimLoop fuel w)) <= w_PairCount w
        \/ exists i, readies w !! m = Some i /\ 0 < refsOf w i).
Proof.
  induction fuel as [|fuel IH]; intros w Hw Hc Hf; [lia|]. cbn [trimLoop].
  rewrite readyCount_readies. fold (readies w).
  destruct (Z.leb_spec (len (readies w)) (w_PairCount w)) as [Hle|Hgt].
  { exists (length (readies w)). rewrite firstn_all. split; [done|]. split; [lia|]. by left. }
  destruct (last (readies w)) as [i|] eqn:El.
  2:{ apply last_None in El. rewrite El in Hgt. unfold len in Hgt. cbn in Hgt. lia. }
  apply last_Some in El as [rs El]. rewrite El in *.
  assert (len (rs ++ [i]) = len rs + 1) as Elen by (unfold len; rewrite length_app; cbn; lia).
  rewrite Elen in *. rewrite refsOf_setState.
  destruct (Z.ltb_spec 0 (refsOf w i)) as [Hr|Hr].
  - rewrite (readies_last w (setState i PairStateDraining w) rs i Hw El).
    + exists (length rs). rewrite take_app_length. split; [done|]. split; [lia|]. right. exists i.
      split; [|done]. apply list_lookup_middle. done.
    + by left.
    + rewrite isReady_setState, decide_True by done. by destruct (w_heap w !! i).
    + intros j Hj. by rewrite isReady_setState, decide_False.
  - destruct (trim_close w i rs Hw El Hr) as (Hw1 & E1 & Ec & Er).
    set (w1 := removePair _ _) in *.
    destruct (IH w1) as (m & H1 & H2 & H3); [done|lia| |].
    { rewrite length_app in Hf. cbn in Hf. rewrite E1. lia. }
    rewrite E1, Ec in *. exists (m `min` length rs)%nat.
    split; [by rewrite H1, <- take_take, take_app_length|].
    split; [lia|]. destruct H3 as [H3|(j & Hj & Hr')]; [by left|right].
    exists j. pose proof (lookup_lt_Some _ _ _ Hj). rewrite Nat.min_l by lia.
    split; [by rewrite lookup_app_l|]. by rewrite <- Er.
Qed.
End Trim.

(** trimming keeps the first Ready pairs of the queue, never fewer than
    [PairCount] if there were as many, and at most [PairCount] unless it met a pair
    in use, where it stops. *)
Theorem trimExcessPairs_spec {P} `{!WarmerPool P} (w : Warmer P) :
  warmerInv w -> 0 < w_PairCount w ->
  exists m, readies (trimExcessPairs w) = take m (readies w)
    /\ Z.min (w_PairCount w) (len (readies w)) <= len (readies (trimExcessPairs w))
    /\ (len (readies (trimExcessPairs w)) <= w_PairCount w
        \/ exists i, readies w !! m = Some i /\ 0 < refsOf w i).
Proof.
  intros [Hw _] Hc. unfold trimExcessPairs. destruct (Z.leb_spec (w_PairCount w) 0); [lia|].
  set (w1 := trimLoop _ w).
  assert (readies (ensurePrimaryLocked w1) = readies w1) as ->.
  { unfold readies, isReady, pairState. by destruct (ensurePrimaryLocked_same w1) as [-> ->]. }
  apply trimLoop_spec; [done|lia|].
  unfold readies. apply le_n_S, length_filter.
Qed.

Lemma trimExcessPairs_spec_witness :
  readies (trimExcessPairs demo4) = [1; 2]%positive
  /\ exists m, readies (trimExcessPairs demo4) = take m (readies demo4)
    /\ Z.min (w_PairCount demo4) (len (readies demo4)) <= len (readies (trimExcessPairs demo4))
    /\ (len (readies (trimExcessPairs demo4)) <= w_PairCount demo4
        \/ exists i, readies demo4 !! m = Some i /\ 0 < refsOf demo4 i).
Proof.
  split; [vm_compute; reflexivity|].
  apply (trimExcessPairs_spec demo4); [apply completePair_inv, demo2_inv|vm_compute; reflexivity].
Defined.

(** Two pairs too many, the last one in use: it is drained, and the other one
    stays until the next refresh. *)
Definition demoTrim : Warmer demoPool :=
  (updPair 3%positive (fun p => p <| hc_refs := 1 |>) demo4) <| w_PairCount := 1 |>.

Lemma trim_stops_early :
  readies demoTrim = [1; 2; 3]%positive /\ readies (trimExcessPairs demoTrim) = [1; 2]%positive
  /\ w_PairCount (trimExcessPairs demoTrim) = 1 /\ refsOf demoTrim 2%positive = 0.
Proof. vm_compute. auto. Qed.

(** ** The answer a pair is built from *)
Section Build.
Context {P : Type} `{!WarmerPool P}.
Implicit Types (w : Warmer P) (i : pid).

Lemma results_ensure w : w_results (ensurePrimaryLocked w) = w_results w.
Proof. unfold ensurePrimaryLocked. destruct (w_primary w); [by destruct (isReady _ _)|done]. Qed.

Lemma results_clear i w : w_results (clearPrimary i w) = w_results w.
Proof. unfold clearPrimary. by case_bool_decide. Qed.

Lemma results_remove i w : w_results (removePair i w) = w_results w.
Proof. unfold removePair. by rewrite results_clear. Qed.

Lemma results_invalidateLoop chID l : forall w,
  w_results (invalidateLoop chID l w).1 = w_results w.
Proof.
  induction l as [|i l IH]; intros w; [done|]. cbn [invalidateLoop].
  destruct (w_heap w !! i) as [p|]; [destruct (hc_state p =? PairStateClosed);
    [|destruct (usesCh chID p); [destruct (refsOf _ i <=? 0)|]]|].
  2:{ rewrite IH, results_clear. cbn. by case_match. }
  2:{ specialize (IH (if negb (hc_state p =? PairStateDraining) then setState i PairStateDraining w else w)).
      destruct (invalidateLoop chID l _) as [w' k]. cbn in *. rewrite IH. by case_match. }
  all: specialize (IH w); destruct (invalidateLoop chID l w) as [w' k]; exact IH.
Qed.

Lemma results_event e w res :
  res ∈ w_results (applyEvent e w) -> res ∈ w_results w \/ e = EvResult res.
Proof.
  destruct e as [|i|chID|res'| | |pool]; cbn [applyEvent].
  - destruct (AcquirePrimary_cases w) as [(-> & _)|(i & _ & -> & _)]; by left.
  - unfold ReleasePair. destruct (0 <? _); [|by left].
    destruct (_ && _); [rewrite results_ensure, results_remove|]; by left.
  - unfold InvalidateChannel. pose proof (results_invalidateLoop chID (w_pairs w) w) as H.
    destruct (invalidateLoop _ _ w) as [w' k]. rewrite results_ensure. cbn in *. rewrite H. by left.
  - unfold HandlePrebindResult. destruct (_ <? _); [|by left]. cbn.
    intros [H|H%list_elem_of_singleton]%elem_of_app; [by left|right]. by subst.
  - unfold flushHotPairNotify. destruct (w_notifyTimer w); [|by left].
    case_bool_decide; [by left|]. case_bool_decide; [by left|].
    destruct (firstWrite _ _ _) as [pool []]; by left.
  - by left.
  - by left.
Qed.

Lemma completePair_result res w w' i :
  completePair res w = (w', Some i) ->
  pr_err res = false /\ w_heap w !! i = None
  /\ w_heap w' !! i = Some (newPair (pr_connID res) (pr_uplinkChID res) (pr_downlinkChID res))
  /\ w_pairs w' = w_pairs w ++ [i].
Proof.
  unfold completePair. destruct (pr_err res); [done|]. destruct (w_done w); [done|].
  match goal with |- (deletePrebindState _ (queueHotPairNotify ?j ?w1), _) = _ -> _ =>
    destruct (queueHotPairNotify_same j w1) as (Eh & El & _) end.
  intros [= <- <-]. cbn. split; [done|].
  split; [apply not_elem_of_dom, is_fresh|]. cbn in Eh, El. rewrite Eh, El.
  by rewrite lookup_insert_eq.
Qed.

Lemma buildWait_result c evs : forall w w' i,
  buildWait c evs w = (w', Some i) ->
  exists res, pr_connID res = c /\ pr_err res = false
    /\ (res ∈ w_results w \/ WOther (EvResult res) ∈ evs)
    /\ w_heap w' !! i = Some (newPair c (pr_uplinkChID res) (pr_downlinkChID res))
    /\ last (w_pairs w') = Some i.
Proof.
  induction evs as [|ev evs IH]; intros w w' i; cbn [buildWait]; [done|].
  destruct ev as [e| | |].
  - intros (res & H1 & H2 & H3 & H4)%IH. exists res. split; [done|]. split; [done|].
    split; [|done]. destruct H3 as [H3|H3]; [|right; by right].
    destruct (results_event e w res H3) as [?| ->]; [by left|right; left].
  - destruct (w_results w) as [|r rest] eqn:Er.
    + intros (res & H1 & H2 & H3 & H4)%IH. exists res. split; [done|]. split; [done|].
      split; [|done]. rewrite Er in H3. destruct H3 as [H3|H3]; [by left|right; by right].
    + case_bool_decide as Hc.
      * intros (H1 & _ & H3 & H4)%completePair_result. rewrite Hc in H3. exists r.
        split; [done|]. split; [done|]. split; [left; left|]. split; [done|].
        rewrite H4. by rewrite last_snoc.
      * intros (res & H1 & H2 & H3 & H4)%IH. exists res. split; [done|]. split; [done|].
        split; [|done]. cbn in H3. destruct H3 as [H3|H3]; [left; by right|right; by right].
  - done.
  - destruct (w_done w); [done|]. intros (res & H1 & H2 & H3 & H4)%IH. exists res.
    split; [done|]. split; [done|]. split; [|done]. destruct H3; [by left|right; by right].
Qed.
End Build.

(** a pair that [BuildPair] returns carries the channels of an answer that was
    given for this very request, and no error; it is the last one of the queue. *)
Theorem BuildPair_answer {P} `{!WarmerPool P} (w w' : Warmer P) r av i :
  BuildPair r av w = (w', Some i) ->
  exists res, pr_connID res = hotPairKeyPrefix ++ br_uuid r /\ pr_err res = false
    /\ (res ∈ w_results w \/ WOther (EvResult res) ∈ br_events r)
    /\ w_heap w' !! i = Some (newPair (pr_connID res) (pr_uplinkChID res) (pr_downlinkChID res))
    /\ last (w_pairs w') = Some i.
Proof.
  unfold BuildPair. destruct (buildBegin (br_uuid r) av w) as [w1 [c|]] eqn:Eb; [|done].
  intros (res & H1 & H2 & H3 & H4)%buildWait_result. subst c. exists res.
  unfold buildBegin in Eb. destruct (w_done w); [done|]. destruct (_ <? 2); [done|].
  destruct (writeEach av _ _) as [p1 s1]. destruct (writeEach av _ p1) as [p2 s2].
  destruct (s2 =? 0); [done|]. injection Eb as <- Ec. rewrite <- Ec in *.
  cbn in H3. split_and!; try done; apply H4.
Qed.

(** Another request's answer is in the channel; it is skipped. *)
Lemma BuildPair_answer_witness :
  let w := HandlePrebindResult (mkPrebindResult (lit "other") 9 9 false) demo0 in
  let r := mkBuildRun (lit "a") (WReceive :: br_events (demoRace "a" 1 2)) in
  exists res, pr_connID res = hotPairKeyPrefix ++ lit "a" /\ pr_err res = false
    /\ (res ∈ w_results w \/ WOther (EvResult res) ∈ br_events r)
    /\ w_heap (BuildPair r [1; 2; 3] w).1 !! 1%positive
       = Some (newPair (pr_connID res) (pr_uplinkChID res) (pr_downlinkChID res))
    /\ last (w_pairs (BuildPair r [1; 2; 3] w).1) = Some 1%positive.
Proof.
  apply (BuildPair_answer (HandlePrebindResult (mkPrebindResult (lit "other") 9 9 false) demo0)
    _ (mkBuildRun (lit "a") (WReceive :: br_events (demoRace "a" 1 2))) [1; 2; 3] 1%positive).
  vm_compute. reflexivity.
Defined.

(** ** Notifications *)

(** An entry as the warmer queues it: under its key, with channel numbers that the
    wire can carry. *)
Definition notifiable (key : bytes) (e : HotPairInfo) : Prop :=
  hp_Key e = key /\ 0 < len key <= 255
  /\ 0 < hp_ChA e < 2 ^ 32 /\ 0 < hp_ChB e < 2 ^ 32.

(** The check, for concrete maps. *)
Definition notifiableb (ke : bytes * HotPairInfo) : bool :=
  let '(key, e) := ke in
  bool_decide (hp_Key e = key) && (0 <? len key) && (len key <=? 255)
  && (0 <? hp_ChA e) && (hp_ChA e <? 2 ^ 32) && (0 <? hp_ChB e) && (hp_ChB e <? 2 ^ 32).

Lemma notifiable_check m :
  forallb notifiableb (map_to_list m) = true ->
  forall key e, m !! key = Some e -> notifiable key e.
Proof.
  rewrite forallb_forall. intros H key e He.
  apply elem_of_map_to_list, list_elem_of_In, H in He. unfold notifiableb in He.
  rewrite !andb_true_iff, bool_decide_eq_true in He.
  destruct He as ((((((Hk & ?) & ?) & ?) & ?) & ?) & ?). split; [exact Hk|]. lia.
Qed.

Lemma notifiable_wire key e :
  notifiable key e -> hotPairEncodable e = true /\ wireHotPair e = e /\ storable e = true.
Proof.
  intros (<- & Hk & Ha & Hb). split; [unfold hotPairEncodable; lia|]. split.
  - unfold wireHotPair, uint32. rewrite !Z.mod_small by lia. by destruct e.
  - unfold storable. rewrite bool_decide_false by (intros E; rewrite E in Hk; unfold len in Hk; cbn in Hk; lia).
    cbn [orb]. lia.
Qed.

Lemma decodeNotify_encode es :
  Forall (fun e => hotPairEncodable e = true /\ wireHotPair e = e /\ storable e = true) es ->
  decodeNotify (EncodeHotPairNotify es) = es.
Proof.
  intros Hes. assert (Forall (fun e => hotPairEncodable e = true) es) as He
    by (eapply list.Forall_impl; [exact Hes|]; by intros e (? & _)).
  pose proof (length_EncodeHotPairNotify es He).
  unfold decodeNotify, DecodeHotPairNotify.
  pose proof (decodeHotPairLoop_EncodeHotPairNotify es He
    (S (length (EncodeHotPairNotify es))) [] [] []) as Hd.
  rewrite app_nil_r in Hd. cbn [app] in Hd. change (len (@nil byte)) with 0 in Hd.
  rewrite Hd; [|lia|by left]. change (wireHotPair <$> es = es).
  clear -Hes. induction Hes as [|e es (_ & Hw & _) _ IH]; [done|]. by rewrite fmap_cons, Hw, IH.
Qed.

Lemma lastNotified_unique es e :
  NoDup (map hp_Key es) -> e ∈ es -> storable e = true -> lastNotified es (hp_Key e) = Some e.
Proof.
  intros Hnd He Hs. unfold lastNotified.
  assert (filter (fun x => storable x = true /\ hp_Key x = hp_Key e) es = [e]) as ->; [|done].
  induction es as [|x es IH]; [by apply not_elem_of_nil in He|].
  cbn in Hnd. apply NoDup_cons in Hnd as [Hx Hnd]. rewrite filter_cons.
  apply elem_of_cons in He as [->|He].
  - rewrite decide_True by done. f_equal. apply elem_of_nil_inv. intros y [[_ E] Hy]%list_elem_of_filter.
    apply Hx. rewrite <- E. by apply list_elem_of_In, in_map, list_elem_of_In.
  - rewrite decide_False; [by apply IH|]. intros [_ E]. apply Hx. rewrite E.
    by apply list_elem_of_In, in_map, list_elem_of_In.
Qed.

Section Notify.
Context {P : Type} `{!WarmerPool P}.
Implicit Types (w : Warmer P) (i : pid).

Lemma lookupReady_some w key :
  (exists i p, (i ∈ w_pairs w) /\ w_heap w !! i = Some p /\ hc_PrebindID p = key
     /\ hc_state p = PairStateReady) -> is_Some (lookupReady key w).
Proof.
  intros (i & p & Hl & Hi & Hk & Hs). unfold lookupReady.
  apply fmap_is_Some. apply (list_find_elem_of _ _ i Hl). rewrite Hi. split; [done|].
  apply isReady_true. eauto.
Qed.

Definition notes w : list HotPairInfo := map snd (map_to_list (readyPending w)).

Lemma elem_of_notes w e :
  e ∈ notes w <-> exists key, w_notifyPending w !! key = Some e /\ is_Some (lookupReady key w).
Proof.
  unfold notes. rewrite list_elem_of_In, in_map_iff. split.
  - intros ([key e'] & <- & He). apply list_elem_of_In, elem_of_map_to_list in He.
    exists key. by apply map_lookup_filter_Some in He.
  - intros (key & He & Hr). exists (key, e). split; [done|].
    by apply list_elem_of_In, elem_of_map_to_list, map_lookup_filter_Some.
Qed.

Lemma notes_notifiable w :
  (forall key e, w_notifyPending w !! key = Some e -> notifiable key e) ->
  Forall (fun e => hotPairEncodable e = true /\ wireHotPair e = e /\ storable e = true) (notes w)
  /\ NoDup (map hp_Key (notes w)).
Proof.
  intros Hn. split.
  - apply list.Forall_forall. intros e (key & He & _)%elem_of_notes.
    by apply (notifiable_wire key), Hn.
  - assert (map hp_Key (notes w) = (map_to_list (readyPending w)).*1) as ->.
    { unfold notes. rewrite map_map. apply map_ext_in. intros [key e] He.
      apply list_elem_of_In, elem_of_map_to_list, map_lookup_filter_Some in He as [He _].
      cbn. by destruct (Hn key e He). }
    apply NoDup_fst_map_to_list.
Qed.

Lemma flush_pool w :
  w_pool (flushHotPairNotify w)
  = if bool_decide (notes w = []) then w_pool w
    else (firstWrite (wp_available (w_pool w)) (notifyMessage (notes w)) (w_pool w)).1.
Proof.
  unfold flushHotPairNotify. cbn. fold (notes w).
  change (map snd (map_to_list (readyPending _))) with (notes w).
  case_bool_decide as He.
  - assert (notes w = []) as ->; [|done]. apply elem_of_nil_inv. intros e (key & Hk & _)%elem_of_notes.
    by rewrite He, lookup_empty in Hk.
  - case_bool_decide; [done|]. destruct (firstWrite _ _ _) as [pool []]; done.
Qed.
End Notify.

(** C37: the frame that a flush writes is a hot-pair notification, and once the
    server has handled its payload, a lookup of a notified Ready pair yields its
    channels, for that client; the flush writes nothing else. *)
Theorem notification_reaches_table {P} `{!WarmerPool P} (w : Warmer P) now c t :
  (forall key e, w_notifyPending w !! key = Some e -> notifiable key e) ->
  let payload := EncodeHotPairNotify (notes w) in
  len payload < 2 ^ 32 ->
  DecodeMessage (notifyMessage (notes w)) = Some (inr (mkFrame MsgHotPairNotify [] [] payload))
  /\ (forall i p, w_heap w !! i = Some p -> hc_state p = PairStateReady -> i ∈ w_pairs w ->
        w_notifyPending w !! hc_PrebindID p = Some (pairInfo p) ->
        view (HandleNotify now c payload t) now c (hc_PrebindID p)
        = Some (mkHotPairEntry (hc_PrebindID p) (hc_UplinkChID p) (hc_DownlinkChID p) now))
  /\ w_pool (flushHotPairNotify w)
     = (if bool_decide (notes w = []) then w_pool w
        else (firstWrite (wp_available (w_pool w)) (notifyMessage (notes w)) (w_pool w)).1).
Proof.
  intros Hn payload Hlen. destruct (notes_notifiable w Hn) as [Hes Hnd].
  split; [|split; [|apply flush_pool]].
  - unfold notifyMessage. fold payload. rewrite DecodeMessage_EncodeMessage_gen.
    + by destruct (wire_exact [] payload) as [-> ->].
    + unfold headerLen, maxInt, len in *. cbn. lia.
  - intros i p Hi Hp Hl He.
    assert (pairInfo p ∈ notes w) as Hin.
    { apply elem_of_notes. exists (hc_PrebindID p). split; [done|].
      apply lookupReady_some. exists i, p. auto. }
    assert (storable (pairInfo p) = true) as Hs by (by apply (notifiable_wire (hc_PrebindID p)), Hn).
    unfold view. rewrite stored_HandleNotify. unfold payload.
    rewrite (decodeNotify_encode (notes w) Hes), decide_True
      by (split; [done|intros E; rewrite E in Hin; by apply not_elem_of_nil in Hin]).
    pose proof (lastNotified_unique (notes w) (pairInfo p) Hnd Hin Hs) as Hu.
    change (hp_Key (pairInfo p)) with (hc_PrebindID p) in Hu. rewrite Hu.
    cbn. unfold expired. cbn. by rewrite Z.sub_diag.
Qed.

(** The two pairs of [demo2] are pending; the frame goes to channel 1. *)
Lemma notification_reaches_table_witness :
  view (HandleNotify 5 (lit "me") (EncodeHotPairNotify (notes demo2)) NewHotPairTable) 5 (lit "me")
    (hotPairKeyPrefix ++ lit "b")
  = Some (mkHotPairEntry (hotPairKeyPrefix ++ lit "b") 2 3 5)
  /\ w_pool (flushHotPairNotify demo2)
     = (firstWrite [1; 2; 3] (notifyMessage (notes demo2)) (w_pool demo2)).1.
Proof.
  pose proof (notifiable_check (w_notifyPending demo2) ltac:(vm_compute; reflexivity)) as Hn.
  destruct (notification_reaches_table demo2 5 (lit "me") NewHotPairTable Hn) as (_ & H2 & H3);
    [vm_compute; reflexivity|]. split.
  - apply (H2 2%positive (mkHotChannelPair (slotID 2) (hotPairKeyPrefix ++ lit "b") 2 3 0 0));
      [vm_compute; reflexivity|reflexivity| |vm_compute; reflexivity].
    apply list_elem_of_lookup. exists 1%nat. vm_compute. reflexivity.
  - rewrite H3. vm_compute. reflexivity.
Defined.

(** ** A loop that would skip

    [pruneIdleDrainingPairs] ranges over the slice that [removePair] shifts. In a
    queue with two idle Draining pairs in front, the second one is skipped. No run
    has such a queue ([pruneIdleDrainingPairs_noop]). *)
Definition demoPrune : Warmer demoPool :=
  demo4 <| w_heap ::= alter (fun p => p <| hc_state := PairStateDraining |>) 1%positive |>
        <| w_heap ::= alter (fun p => p <| hc_state := PairStateDraining |>) 2%positive |>.

Lemma prune_skips :
  w_pairs (pruneIdleDrainingPairs demoPrune) = [2; 3]%positive
  /\ pairState (pruneIdleDrainingPairs demoPrune) 2%positive = PairStateDraining
  /\ refsOf (pruneIdleDrainingPairs demoPrune) 2%positive = 0.
Proof. vm_compute. auto. Qed.
