(* ===== verification/ClientState.v ===== *)
(** The state of the client's connection pool ([clientPool], [pool.go]) and its
    critical sections: the table of connections with their channels, UDP channels,
    reverse connections and listeners, and the hot-pair warmer around it.

    The pool is the state of the warmer's interface [WarmerPool]; the whole client
    is a warmer over a pool ([Client]). [pairWarmer] is nil unless hot pairs are
    enabled. What only log lines read (the client's address, the fields of
    [clientConnState] that nothing sets) is left out. *)

From S2P Require Import Prelude Outcome Protocol Config Channels PairWarmer ClientNet.
Import Config.Client.

Abbreviation sigid := positive.
Abbreviation tcpid := positive.
Abbreviation udpid := positive.
Abbreviation revid := positive.
Abbreviation streamid := positive.

(** ** Data *)

(** A [net.Conn] the pool was given or has dialled: what was written to it. *)
Record clientTCP := mkClientTCP { ct_written : bytes; ct_closed : bool }.
#[export] Instance clientTCP_eta : Eta clientTCP := fun c => mkClientTCP (ct_written c) (ct_closed c).

Record clientConnState := mkClientConnState {
  st_target : bytes;
  st_connected : option sigid;           (* chan bool, capacity 1 *)
  st_reqType : bytes;
  st_tcpConn : option tcpid;
  st_udpSink : option udpid;
  st_uplink : Z;
  st_downlink : Z;                       (* int32 *)
  st_lastCh : Z;
  st_start : option Z;
  st_closed : bool;
  st_pair : option pid }.
#[export] Instance clientConnState_eta : Eta clientConnState := fun st =>
  mkClientConnState (st_target st) (st_connected st) (st_reqType st) (st_tcpConn st) (st_udpSink st)
    (st_uplink st) (st_downlink st) (st_lastCh st) (st_start st) (st_closed st) (st_pair st).

(** [&clientConnState{}] *)
Definition newConnState : clientConnState :=
  mkClientConnState [] None [] None None 0 0 0 None false None.

(** [sync.Once]: a second call returns when the first is over, and waits for it
    before. *)
Inductive onceState := OnceNew | OnceRunning | OnceDone.

Record poolUDPChannel := mkPoolUDPChannel {
  uc_connID : bytes;
  uc_blocked : list Z;
  uc_down : list (bytes * bytes);        (* capacity 256 *)
  uc_done : bool;
  uc_once : onceState;
  uc_raceOn : bool }.
#[export] Instance poolUDPChannel_eta : Eta poolUDPChannel := fun c =>
  mkPoolUDPChannel (uc_connID c) (uc_blocked c) (uc_down c) (uc_done c) (uc_once c) (uc_raceOn c).

(** The stream that a dial returns: [source] is its end of the pipe. *)
Record pipeStream := mkPipeStream {
  ps_connID : bytes; ps_source : tcpid; ps_once : onceState }.
#[export] Instance pipeStream_eta : Eta pipeStream := fun s =>
  mkPipeStream (ps_connID s) (ps_source s) (ps_once s).

Record reverseConn := mkReverseConn {
  rc_id : bytes;
  rc_target : bytes;
  rc_resolved : bytes;
  rc_recvCh : Z;
  rc_sendCh : Z;                         (* int32 *)
  rc_conn : option tcpid;
  rc_closeOnce : bool }.                 (* done; its function never blocks *)
#[export] Instance reverseConn_eta : Eta reverseConn := fun rc =>
  mkReverseConn (rc_id rc) (rc_target rc) (rc_resolved rc) (rc_recvCh rc) (rc_sendCh rc) (rc_conn rc)
    (rc_closeOnce rc).

Record reverseListenerState := mkReverseListenerState {
  rl_spec : bytes; rl_listenerID : bytes; rl_ok : bool; rl_reason : bytes; rl_responded : bool }.
#[export] Instance reverseListenerState_eta : Eta reverseListenerState := fun r =>
  mkReverseListenerState (rl_spec r) (rl_listenerID r) (rl_ok r) (rl_reason r) (rl_responded r).

(** [prebindRacer] with its timer: the channels, logged or not. *)
Record prebindRacer := mkPrebindRacer { pr_chs : list Z; pr_logged : bool }.

(** The goroutines of a reverse connection. *)
Inductive clientGo :=
| GoDialReverse (rc : revid) (connID : bytes)           (* in [net.DialTimeout] *)
| GoReversePump (rc : revid) (connID : bytes) (c : tcpid).
#[export] Instance clientGo_eq_dec : EqDecision clientGo.
Proof. solve_decision. Defined.

Record ClientPool := mkClientPool {
  cp_config : Config;
  cp_net : ClientNet;
  cp_conns : gmap bytes clientConnState;
  cp_signals : gmap sigid bool;
  cp_tcps : gmap tcpid clientTCP;
  cp_udps : gmap udpid poolUDPChannel;
  cp_streams : gmap streamid pipeStream;
  cp_prebindRacers : gmap bytes prebindRacer;
  cp_revs : gmap revid reverseConn;                      (* all that were made *)
  cp_reverseConns : gmap bytes revid;
  cp_reverseListenerMap : gmap bytes bytes;
  cp_reverseListenerState : gmap bytes reverseListenerState;
  cp_reverseRegOnceDone : bool;
  cp_regTimer : bool;                                    (* [checkReverseRegFatal] is due *)
  cp_go : list clientGo }.
#[export] Instance ClientPool_eta : Eta ClientPool := fun p =>
  mkClientPool (cp_config p) (cp_net p) (cp_conns p) (cp_signals p) (cp_tcps p) (cp_udps p)
    (cp_streams p) (cp_prebindRacers p) (cp_revs p) (cp_reverseConns p) (cp_reverseListenerMap p)
    (cp_reverseListenerState p) (cp_reverseRegOnceDone p) (cp_regTimer p) (cp_go p).

(** ** The pool as the warmer uses it *)

Definition newSignal (p : ClientPool) : ClientPool * sigid :=
  let g := fresh (dom (cp_signals p)) in (p <| cp_signals ::= <[g := false]> |>, g).

(** The temporary state that [BuildPair] registers. *)
Definition addPrebindState (connID : bytes) (p : ClientPool) : ClientPool :=
  let '(p, g) := newSignal p in
  let st := newConnState <| st_target := PrebindTarget |> <| st_start := Some (cn_now (cp_net p)) |>
              <| st_connected := Some g |> in
  p <| cp_conns ::= <[connID := st]> |>.

(** A write that does not return leaves the warmer's goroutine where it is; here it
    fails, so that the model has these runs and some that go on. *)
Definition poolWrite (chID : Z) (data : bytes) (p : ClientPool) : ClientPool * bool :=
  let '(s, o) := asyncWriteDirect (cp_config p) chID BinaryMessage data (cp_net p) in
  let p := p <| cp_net := s |> in
  match o with
  | Ret None => (p, true)
  | _ => (p, false)
  end.

#[export] Instance ClientPool_WarmerPool : WarmerPool ClientPool := {|
  wp_available p := availableChannels (cp_net p);
  wp_write := poolWrite;
  wp_addPrebind := addPrebindState;
  wp_delPrebind connID p := p <| cp_conns ::= delete connID |>;
  wp_strategy p := IPStrategy (cp_config p) |}.

Definition Client : Type := Warmer ClientPool.

(** [newClientPool]. *)
Definition newClientPool (cfg : Config) (schedule : list (list netEvent)) : ClientPool :=
  mkClientPool cfg (newClientNet cfg schedule) ∅ ∅ ∅ ∅ ∅ ∅ ∅ ∅ ∅ ∅ false false [].
Definition newClient (cfg : Config) (schedule : list (list netEvent)) : Client :=
  NewPairWarmer (newClientPool cfg schedule) (HotPairCount cfg).

(** ** Access *)
Section Access.
Implicit Types (w : Client) (connID : bytes) (chID : Z).

Definition config w : Config := cp_config (w_pool w).
Definition conns w : gmap bytes clientConnState := cp_conns (w_pool w).
Definition hasWarmer w : bool := EnableHotPair (config w).

Definition updP (f : ClientPool -> ClientPool) w : Client := w <| w_pool ::= f |>.
Definition updConn connID (f : clientConnState -> clientConnState) w : Client :=
  updP (fun p => p <| cp_conns ::= alter f connID |>) w.

(** A computation of the channel layer. *)
Definition net {A} (m : M ClientNet A) : M Client A :=
  zoom (fun w : Client => cp_net (w_pool w))
       (fun s (w : Client) => updP (fun p => p <| cp_net := s |>) w) m.

(** [p.asyncWriteDirect] and [p.broadcastWrite] of a binary message. *)
Definition writeTo chID (data : bytes) : M Client (option writeError) := fun w =>
  net (asyncWriteDirect (config w) chID BinaryMessage data) w.
Definition broadcast (data : bytes) : M Client Z := fun w =>
  net (broadcastWrite (config w) BinaryMessage data) w.

(** ** Critical sections of the table *)
Definition noteUplink connID chID w : Client :=
  updConn connID (fun st => if st_uplink st =? 0 then st <| st_uplink := chID |> else st) w.

Definition noteLastChannel connID chID w : Client :=
  updConn connID (fun st => st <| st_lastCh := chID |>) w.

Definition GetUplinkChannel connID w : option Z :=
  match conns w !! connID with
  | None => None
  | Some st => if st_uplink st =? 0 then None else Some (st_uplink st)
  end.

Definition getDownlink connID w : option Z :=
  match conns w !! connID with
  | None => None
  | Some st => if 0 <? st_downlink st then Some (st_downlink st) else None
  end.

(** [atomic.CompareAndSwapInt32(&st.downlink, 0, int32(chID))]: what the variables
    [chosen] and [selected] become. *)
Definition casDownlink connID chID (st : clientConnState) w : Client * (bool * Z) :=
  if st_downlink st =? 0
  then (updConn connID (fun st => st <| st_downlink := int32 chID |>) w, (true, chID))
  else (w, (false, st_downlink st)).

(** [selectDownlink]: (selected, chosen); the other results go to the log. *)
Definition selectDownlink connID chID w : Client * (bool * Z) :=
  match conns w !! connID with
  | None => (w, (false, 0))
  | Some st =>
      if bool_decide (st_target st = []) then (w, (false, 0)) else
      let classic :=
        if 0 <? st_downlink st then (w, (false, st_downlink st))
        else if bool_decide (st_target st = PrebindTarget) && (0 <? st_uplink st)
                && (chID =? st_uplink st)
        then (w, (false, st_downlink st))
        else casDownlink connID chID st w in
      match st_pair st with
      | None => classic
      | Some i =>
          match w_heap w !! i with
          | None => classic
          | Some p => if 0 <? hc_DownlinkChID p then casDownlink connID (hc_DownlinkChID p) st w
                      else classic
          end
      end
  end.

Definition signalConnected connID w : Client :=
  match conns w !! connID ≫= st_connected with
  | Some g => updP (fun p => p <| cp_signals ::= <[g := true]> |>) w
  | None => w
  end.

(** The first section of [registerAndBroadcastTCPWithPair]. *)
Definition registerTCP connID (target : bytes) (tcp : option tcpid) (reqType : bytes) w : Client :=
  let st := default newConnState (conns w !! connID) in
  let '(p, g) := newSignal (w_pool w) in
  let st := st <| st_tcpConn := tcp |> <| st_target := target |> <| st_connected := Some g |>
               <| st_start := Some (cn_now (cp_net p)) |> in
  let st := if bool_decide (reqType = []) then st else st <| st_reqType := reqType |> in
  let st := st <| st_uplink := 0 |> <| st_downlink := 0 |> <| st_lastCh := 0 |> <| st_closed := false |> in
  w <| w_pool := p <| cp_conns ::= <[connID := st]> |> |>.

(** The pair of a hot dial is noted in the connection, or taken away again. *)
Definition presetPair connID (i : pid) w : Client :=
  updConn connID (fun st => st <| st_pair := Some i |>
    <| st_uplink := match w_heap w !! i with Some p => hc_UplinkChID p | None => 0 end |>) w.
Definition clearPreset connID w : Client :=
  updConn connID (fun st => st <| st_pair := None |> <| st_uplink := 0 |>) w.

Definition socks5UDP : bytes := lit "SOCKS5 UDP".

Definition RegisterUDP connID (sink : udpid) w : Client :=
  let st := default newConnState (conns w !! connID) in
  let '(p, st) :=
    match st_connected st with
    | None => let '(p, g) := newSignal (w_pool w) in (p, st <| st_connected := Some g |>)
    | Some _ => (w_pool w, st)
    end in
  let st := st <| st_udpSink := Some sink |> in
  let st := if bool_decide (st_reqType st = []) then st <| st_reqType := socks5UDP |> else st in
  w <| w_pool := p <| cp_conns ::= <[connID := st]> |> |>.

Definition registerRace connID (target : bytes) w : Client :=
  let st := default newConnState (conns w !! connID) in
  let st := st <| st_target := target |> <| st_start := Some (cn_now (cp_net (w_pool w))) |>
               <| st_reqType := socks5UDP |> <| st_uplink := 0 |> <| st_downlink := 0 |>
               <| st_lastCh := 0 |> in
  updP (fun p => p <| cp_conns ::= <[connID := st]> |>) w.

Definition connectMeta (target : bytes) w : bytes :=
  byte_of_Z (IPStrategy (config w)) :: target.

(** ** [net.Conn]s *)
Definition updTCP (c : tcpid) (f : clientTCP -> clientTCP) w : Client :=
  updP (fun p => p <| cp_tcps ::= alter f c |>) w.
Definition closeTCP (c : tcpid) w : Client := updTCP c (fun t => t <| ct_closed := true |>) w.
Definition closeTCPopt (c : option tcpid) w : Client :=
  match c with Some c => closeTCP c w | None => w end.

(** [c.Write]: it fails on a closed connection, and when [werr] says so. *)
Definition writeTCP (c : tcpid) (data : bytes) (werr : bool) w : Client * bool :=
  match cp_tcps (w_pool w) !! c with
  | None => (w, false)
  | Some t => if ct_closed t || werr then (w, false)
              else (updTCP c (fun t => t <| ct_written ::= fun b => b ++ data |>) w, true)
  end.

Definition openTCP w : Client * tcpid :=
  let c := fresh (dom (cp_tcps (w_pool w))) in
  (updP (fun p => p <| cp_tcps ::= <[c := mkClientTCP [] false]> |>) w, c).

(** ** The warmer, when there is one *)
Definition releasePair (i : option pid) w : Client :=
  match i with
  | Some i => if hasWarmer w then ReleasePair i w else w
  | None => w
  end.
Definition invalidateChannel chID w : Client :=
  if hasWarmer w then InvalidateChannel chID w else w.
End Access.
