(* ===== verification/ClientPool.v ===== *)
(** The operations of the client's connection pool ([pool.go]): sending, the end of
    a connection with its UDP channel and its hot pair, dial requests, the loss of a
    channel, statistics.

    Ending a connection closes its UDP channel, and closing a UDP channel ends its
    connection ([poolUDPChannel.stop], [proxy_dialer.go]); the recursion takes an
    entry out of the table at every level, so the size of the table is fuel
    enough ([Unregister_unfold] in [ClientSpecs]). *)

From S2P Require Import Prelude Outcome Protocol Config Channels PairWarmer ClientNet ClientState.
Import Config.Client.

Section ClientPool.
Implicit Types (w : Client) (connID target : bytes) (chID : Z).

(** ** Sending *)
Definition SendDataDirect chID connID (b : bytes) : M Client (option writeError) :=
  writeTo chID (EncodeMessage MsgTCPData connID [] b).
Definition SendCloseDirect chID connID : M Client (option writeError) :=
  writeTo chID (EncodeMessage MsgTCPClose connID [] []).
Definition SendUDPDataDirect chID connID (data : bytes) : M Client (option writeError) :=
  writeTo chID (EncodeMessage MsgUDPData connID [] data).

(** ** The end of a connection *)

(** The critical section of [Unregister]: what is left to close, or [None] when
    there is nothing to do. *)
Definition unregisterTake connID w
    : Client * option (option tcpid * option udpid * option pid) :=
  match conns w !! connID with
  | None => (w, None)
  | Some st =>
      if st_closed st then (w, None) else
      let w := updP (fun p => p <| cp_conns ::= delete connID |>) w in
      if bool_decide (st_target st = PrebindTarget) then (w, None)
      else (w, Some (st_tcpConn st, st_udpSink st, st_pair st))
  end.

Definition updUDP (u : udpid) (f : poolUDPChannel -> poolUDPChannel) w : Client :=
  updP (fun p => p <| cp_udps ::= alter f u |>) w.
Definition udpChannel (u : udpid) w : option poolUDPChannel := cp_udps (w_pool w) !! u.

(** [poolUDPChannel.stop], with [Unregister] as an argument. *)
Definition stopWith (unregister : bytes -> M Client unit) (u : udpid) : M Client unit :=
  let! c := get (udpChannel u) in
  match c with
  | None => done_
  | Some c =>
      match uc_once c with
      | OnceDone => done_
      | OnceRunning => block
      | OnceNew =>
          let connID := uc_connID c in
          do! modify (updUDP u (fun c => c <| uc_once := OnceRunning |> <| uc_done := true |>)) in
          let! uplink := get (GetUplinkChannel connID) in
          do! (match uplink with
               | Some chID =>
                   do! writeTo chID (EncodeMessage MsgUDPClose connID [] []) in
                   unregister connID
               | None => done_
               end) in
          do! unregister connID in
          modify (updUDP u (fun c => c <| uc_once := OnceDone |>))
      end
  end.

(** The body of [Unregister]. *)
Definition unregisterWith (unregister : bytes -> M Client unit) connID : M Client unit :=
  let! r := (fun w => let '(w, r) := unregisterTake connID w in (w, Ret r)) in
  match r with
  | None => done_
  | Some (tcpConn, udpSink, hotPair) =>
      do! modify (closeTCPopt tcpConn) in
      do! (match udpSink with Some u => stopWith unregister u | None => done_ end) in
      modify (releasePair hotPair)
  end.

Fixpoint unregisterF (fuel : nat) connID : M Client unit :=
  match fuel with
  | O => block
  | S fuel => unregisterWith (unregisterF fuel) connID
  end.

Definition Unregister connID : M Client unit := fun w =>
  unregisterF (S (size (conns w))) connID w.

(** [closeSink], [Close] of a UDP channel. *)
Definition closeSink (u : udpid) : M Client unit := stopWith Unregister u.

Definition SendUDPCloseDirect chID connID : M Client unit :=
  do! writeTo chID (EncodeMessage MsgUDPClose connID [] []) in Unregister connID.

(** ** Dial requests *)
Definition broadcastRequest connID (msg : bytes) : M Client unit :=
  let! sent := broadcast msg in
  if sent =? 0 then Unregister connID else done_.

Definition pairUplink (i : pid) w : Z :=
  match w_heap w !! i with Some p => hc_UplinkChID p | None => 0 end.

(** After a hot dial could not be sent: the pair is given back and its channel is
    declared lost. *)
Definition hotFallback connID (i : pid) (w : Client) : Client :=
  let w := clearPreset connID w in
  let w := releasePair (Some i) w in
  invalidateChannel (pairUplink i w) w.

Definition registerAndBroadcastTCPWithPair connID target (first : bytes) (tcpConn : option tcpid)
    (reqType : bytes) (pair : option pid) : M Client unit :=
  do! modify (registerTCP connID target tcpConn reqType) in
  let! meta := get (connectMeta target) in
  let msg := EncodeMessage MsgTCPConnect connID meta first in
  match pair with
  | None => broadcastRequest connID msg
  | Some i =>
      do! modify (presetPair connID i) in
      let! uplink := get (pairUplink i) in
      let! err := writeTo uplink msg in
      match err with
      | None => done_
      | Some _ => do! modify (hotFallback connID i) in broadcastRequest connID msg
      end
  end.

Definition RegisterAndBroadcastTCP connID target first tcpConn reqType : M Client unit :=
  registerAndBroadcastTCPWithPair connID target first tcpConn reqType None.

Definition StartUDPRace connID target : M Client unit :=
  do! modify (registerRace connID target) in
  let! meta := get (connectMeta target) in
  broadcastRequest connID (EncodeMessage MsgUDPConnect connID meta []).

(** ** The loss of a channel *)

(** [closeOnce.Do] of a reverse connection. *)
Definition updRev (r : revid) (f : reverseConn -> reverseConn) w : Client :=
  updP (fun p => p <| cp_revs ::= alter f r |>) w.
Definition closeReverse (r : revid) w : Client :=
  match cp_revs (w_pool w) !! r with
  | None => w
  | Some rc =>
      if rc_closeOnce rc then w
      else closeTCPopt (rc_conn rc) (updRev r (fun rc => rc <| rc_closeOnce := true |>) w)
  end.

Definition reverseUses chID (rc : reverseConn) : bool :=
  (rc_recvCh rc =? chID) || (rc_sendCh rc =? chID).

Definition reverseCleanupChannel chID w : Client :=
  foldl (fun w '(id, r) =>
    match cp_revs (w_pool w) !! r with
    | None => w
    | Some rc => if reverseUses chID rc
                 then updP (fun p => p <| cp_reverseConns ::= delete id |>) (closeReverse r w)
                 else w
    end) w (map_to_list (cp_reverseConns (w_pool w))).

Definition connUses chID (st : clientConnState) : bool :=
  (st_uplink st =? chID) || (st_downlink st =? chID).

(** The order of [map_to_list] stands for the order of Go's [range]. *)
Definition connsUsing chID w : list bytes :=
  map fst (filter (fun '(_, st) => connUses chID st = true) (map_to_list (conns w))).

Definition cleanupConn connID : M Client unit :=
  let! st := get (fun w => conns w !! connID) in
  match st with
  | None => done_
  | Some st =>
      do! modify (closeTCPopt (st_tcpConn st)) in
      do! (match st_udpSink st with Some u => closeSink u | None => done_ end) in
      Unregister connID
  end.

Definition cleanupChannel chID : M Client unit :=
  do! modify (reverseCleanupChannel chID) in
  let! toClose := get (connsUsing chID) in
  forEach toClose cleanupConn.

(** ** Statistics *)
Record Stats := mkStats {
  s_Connections : Z; s_ActiveChannels : Z; s_BytesSent : Z; s_BytesReceived : Z }.

(** Without the number of relay nodes. *)
Definition poolStats w : Stats :=
  let s := cp_net (w_pool w) in
  mkStats (Z.of_nat (size (conns w))) (activeChannels s) (cn_bytesSent s) (cn_bytesReceived s).
End ClientPool.
