(* ===== verification/ClientReverse.v ===== *)
(** The client side of reverse mode ([reverse.go]): the server asks the client to
    dial a target, through a hot pair or with a choice of channels; the client
    registers its listeners on every channel.

    [dialReverseTarget] is cut where it waits: [reverseDialed] when the dial is over,
    [reversePump] for each read of its pump. The resolver, fresh identifiers and the
    outcome of the network are arguments. *)

From S2P Require Import Prelude Outcome Protocol Config Channels PairWarmer ClientNet ClientState ClientPool.
Import Config.Client.

Section Reverse.
Implicit Types (w : Client) (connID target : bytes) (chID : Z).

(** ** The table *)
Definition reverseConns w : gmap bytes revid := cp_reverseConns (w_pool w).
Definition reverseAt (r : revid) w : option reverseConn := cp_revs (w_pool w) !! r.
Definition getReverseConn connID w : option revid := reverseConns w !! connID.
Definition hasReverseConn connID w : bool := isSome (getReverseConn connID w).

Definition addReverseConn connID target (resolved : bytes) (recvCh : Z) w : Client * option revid :=
  match reverseConns w !! connID with
  | Some _ => (w, None)
  | None =>
      let r := fresh (dom (cp_revs (w_pool w))) in
      let rc := mkReverseConn connID target resolved recvCh 0 None false in
      (updP (fun p => p <| cp_revs ::= <[r := rc]> |> <| cp_reverseConns ::= <[connID := r]> |>) w, Some r)
  end.

Definition removeReverseConn connID w : Client :=
  updP (fun p => p <| cp_reverseConns ::= delete connID |>) w.

Definition goReverse (g : clientGo) w : Client := updP (fun p => p <| cp_go ::= cons g |>) w.
Definition goDone (g : clientGo) w : Client :=
  updP (fun p => p <| cp_go ::= filter (fun h => h <> g) |>) w.

(** ** Requests of the server *)

(** The hot path: the identifier carries the key of a Ready pair whose downlink is
    the arrival channel. *)
Definition reverseHotPair chID connID w : option pid :=
  if hasWarmer w then
    match SplitHotPairConnID connID with
    | None => None
    | Some (key, _) =>
        match LookupReady key w with
        | Some i => if chID =? (match w_heap w !! i with Some p => hc_DownlinkChID p | None => 0 end)
                    then Some i else None
        | None => None
        end
    end
  else None.

Definition addAndDial connID target (resolved : bytes) chID (sendCh : Z) w : Client * bool :=
  match addReverseConn connID target resolved chID w with
  | (w, None) => (w, false)
  | (w, Some r) =>
      (goReverse (GoDialReverse r connID) (updRev r (fun rc => rc <| rc_sendCh := sendCh |>) w), true)
  end.

(** On the classic path the goroutine starts after the broadcast. *)
Definition reverseClassic chID connID target (resolved : bytes) : M Client unit :=
  let! r := (fun w => let '(w, r) := addReverseConn connID target resolved chID w in (w, Ret r)) in
  match r with
  | None => done_
  | Some r =>
      do! broadcast (EncodeMessage MsgSelectUplink connID (PutUint32 (uint32 chID)) []) in
      modify (goReverse (GoDialReverse r connID))
  end.

Definition handleReverseTCPConnect (resolve : bytes -> Z -> bytes) chID connID (meta : bytes)
    : M Client unit := fun w =>
  if negb (EnableReverse (config w)) then (w, Ret tt) else
  match meta with
  | [] => (w, Ret tt)
  | _ :: target =>
      let strategy := IPStrategy (config w) in
      let resolved := if strategy =? 0 then target else resolve target strategy in
      match reverseHotPair chID connID w with
      | Some i =>
          match addAndDial connID target resolved chID (int32 (pairUplink i w)) w with
          | (w, true) => (w, Ret tt)
          | (w, false) => reverseClassic chID connID target resolved w
          end
      | None => reverseClassic chID connID target resolved w
      end
  end.

(** ** [dialReverseTarget] *)

(** To the channel chosen for sending, or to all. *)
Definition reverseSend (r : revid) (msg : bytes) : M Client unit :=
  let! rc := get (reverseAt r) in
  match rc with
  | None => done_
  | Some rc => if 0 <? rc_sendCh rc
               then do! writeTo (rc_sendCh rc) msg in done_
               else do! broadcast msg in done_
  end.

Definition sendReverseClose (r : revid) connID : M Client unit :=
  do! modify (closeReverse r) in
  do! reverseSend r (EncodeMessage MsgTCPClose connID [] []) in
  modify (removeReverseConn connID).

(** After [net.DialTimeout]. *)
Definition reverseDialed (r : revid) connID (ok : bool) : M Client unit :=
  let g := GoDialReverse r connID in
  if ok then
    let! c := (fun w => let '(w, c) := openTCP w in (w, Ret c)) in
    do! modify (updRev r (fun rc => rc <| rc_conn := Some c |>)) in
    do! broadcast (EncodeMessage MsgConnStatus connID [byte_of_Z StatusOK] []) in
    modify (fun w => goReverse (GoReversePump r connID c) (goDone g w))
  else
    do! broadcast (EncodeMessage MsgConnStatus connID [byte_of_Z StatusERR] []) in
    modify (fun w => removeReverseConn connID (goDone g w)).

(** One read of the pump: at most 64 KB, or the error that ends it. *)
Definition reverseBufSize : Z := 64 * 1024.

Definition reversePump (r : revid) connID (c : tcpid) (read : option bytes) : M Client unit :=
  match read with
  | Some data => reverseSend r (EncodeMessage MsgTCPData connID [] (take (Z.to_nat reverseBufSize) data))
  | None => do! sendReverseClose r connID in modify (goDone (GoReversePump r connID c))
  end.

(** ** Messages for a reverse connection *)
Definition handleReverseServerMsg chID (mtype : Z) connID (meta payload : bytes) (werr : bool)
    : M Client unit :=
  let! r := get (getReverseConn connID) in
  match r with
  | None => done_
  | Some r =>
      let! rc := get (reverseAt r) in
      match rc with
      | None => done_
      | Some rc =>
          if mtype =? MsgSelectDownlink then
            if negb (rc_recvCh rc =? chID) then done_
            else if 4 <=? len meta then
              modify (updRev r (fun rc => if rc_sendCh rc =? 0
                                          then rc <| rc_sendCh := int32 (Uint32 meta) |> else rc))
            else done_
          else if mtype =? MsgTCPData then
            if negb (rc_recvCh rc =? chID) then done_ else
            match rc_conn rc with
            | None => done_
            | Some c =>
                let! ok := (fun w => let '(w, ok) := writeTCP c payload werr w in (w, Ret ok)) in
                if ok : bool then done_ else sendReverseClose r connID
            end
          else if mtype =? MsgTCPClose then sendReverseClose r connID
          else done_
      end
  end.

(** ** Listeners *)
Definition getOrCreateListenerID (newID : bytes -> bytes) (spec : bytes) w : Client * bytes :=
  match cp_reverseListenerMap (w_pool w) !! spec with
  | Some id => (w, id)
  | None =>
      let id := newID spec in
      let w := updP (fun p => p <| cp_reverseListenerMap ::= <[spec := id]> |>) w in
      match cp_reverseListenerState (w_pool w) !! id with
      | Some _ => (w, id)
      | None => (updP (fun p => p <| cp_reverseListenerState ::=
                   <[id := mkReverseListenerState spec id false [] false]> |>) w, id)
      end
  end.

(** The specifications without repetitions, in order. *)
Fixpoint dedupSpecs (seen : list bytes) (l : list bytes) : list bytes :=
  match l with
  | [] => []
  | s :: l => if bool_decide (s ∈ seen) then dedupSpecs seen l else s :: dedupSpecs (seen ++ [s]) l
  end.

Definition regTimeout (c : Config) : Z :=
  let timeout := 2 * ConnectTimeout c in
  if timeout <? 10 * Second then 10 * Second else timeout.

Definition registerListener (newID : bytes -> bytes) chID (spec : bytes) : M Client unit :=
  let! listenerID := (fun w => let '(w, id) := getOrCreateListenerID newID spec w in (w, Ret id)) in
  do! writeTo chID (EncodeMessage MsgReverseListen listenerID spec []) in done_.

Definition reverseOnChannelReady (newID : bytes -> bytes) chID : M Client unit := fun w =>
  if negb (EnableReverse (config w)) || bool_decide (ReverseListeners (config w) = []) then (w, Ret tt)
  else
    let w := if cp_reverseRegOnceDone (w_pool w) then w
             else updP (fun p => p <| cp_reverseRegOnceDone := true |> <| cp_regTimer := true |>) w in
    forEach (dedupSpecs [] (ReverseListeners (config w))) (registerListener newID chID) w.

Definition handleReverseListenResult connID (meta : bytes) w : Client :=
  match meta with
  | [] => w
  | b :: reason =>
      updP (fun p => p <| cp_reverseListenerState ::=
        alter (fun st => st <| rl_ok := Z_of_byte b =? StatusOK |> <| rl_reason := reason |>
                            <| rl_responded := true |>) connID |>) w
  end.

(** What [checkReverseRegFatal] reports, if anything. *)
Inductive regFailure := FailReason (reason : bytes) | FailNoResponse | FailNoReason.
Inductive regFatal := RegSilent | RegFailed (failures : list (bytes * regFailure)).

Definition regFailureOf (st : reverseListenerState) : bytes * regFailure :=
  (rl_spec st, if bool_decide (rl_reason st = []) then
                 if rl_responded st then FailNoReason else FailNoResponse
               else FailReason (rl_reason st)).

Definition checkReverseRegFatal w : option regFatal :=
  let states := map snd (map_to_list (cp_reverseListenerState (w_pool w))) in
  if existsb rl_ok states then None
  else if bool_decide (states = []) then Some RegSilent
  else Some (RegFailed (map regFailureOf states)).
End Reverse.
