(* ===== verification/ClientHandler.v ===== *)
(** The messages the client receives ([clientPool.handleChannel], [pool.go]), the
    rounds of a channel's session and the hand-over to reverse mode. *)

From S2P Require Import Prelude Outcome Protocol GoStrings Config Channels PairWarmer ClientNet ClientState ClientPool ClientReverse.
Import Config.Client.

(** What the world decides while a message is handled. *)
Record handlerInput := mkHandlerInput {
  hi_resolve : bytes -> Z -> bytes;     (* ResolveWithStrategy *)
  hi_werr : bool;                       (* a write to the local connection fails *)
  hi_pickDone : bool }.                 (* [select] takes the closed channel *)

Section Handler.
Implicit Types (w : Client) (connID meta payload : bytes) (chID : Z).

(** ** Prebinding *)

(** The key of a warm-up, without the suffix of a dial. *)
Definition isPrebind connID : bool :=
  HasPrefix connID (lit "prebind-") && negb (ContainsByte connID hotPairConnIDSep).

Definition countRacer connID chID w : Client :=
  updP (fun p =>
    let pr := default (mkPrebindRacer [] false) (cp_prebindRacers p !! connID) in
    let chs := if bool_decide (chID ∈ pr_chs pr) then pr_chs pr else pr_chs pr ++ [chID] in
    p <| cp_prebindRacers ::= <[connID := mkPrebindRacer chs (pr_logged pr)]> |>) w.

(** The timer of an entry. *)
Definition prebindTimer connID w : Client :=
  match cp_prebindRacers (w_pool w) !! connID with
  | None => w
  | Some pr => if pr_logged pr then w
               else updP (fun p => p <| cp_prebindRacers ::= delete connID |>) w
  end.

Definition select connID chID : M Client (bool * Z) := fun w =>
  let '(w, r) := selectDownlink connID chID w in (w, Ret r).

Definition handleSelectUplink chID connID meta : M Client unit :=
  let uplinkChID := if 4 <=? len meta then Uint32 meta else chID in
  do! modify (noteUplink connID uplinkChID) in
  do! modify (fun w => if isPrebind connID then countRacer connID chID w else w) in
  let! (selected, chosen) := select connID chID in
  if selected : bool then
    do! writeTo uplinkChID (EncodeMessage MsgSelectDownlink connID (PutUint32 (uint32 chosen)) []) in
    modify (fun w => if hasWarmer w && isPrebind connID
                     then HandlePrebindResult (mkPrebindResult connID uplinkChID chosen false) w
                     else w)
  else done_.

(** ** TCP *)
Definition handleConnStatus connID meta : M Client unit :=
  match meta with
  | [] => done_
  | b :: _ => if Z_of_byte b =? StatusOK then modify (signalConnected connID) else Unregister connID
  end.

(** The downlink of the connection, chosen now if it was open: (selected, chosen). *)
Definition downlinkFor connID chID : M Client (bool * Z) :=
  let! chosen := get (getDownlink connID) in
  match chosen with
  | Some chosen => ret (false, chosen)
  | None => select connID chID
  end.

Definition tcpOf connID w : option tcpid := conns w !! connID ≫= st_tcpConn.
Definition sinkOf connID w : option udpid := conns w !! connID ≫= st_udpSink.

Definition handleTCPData chID connID payload (werr : bool) : M Client unit :=
  let! (_, chosen) := downlinkFor connID chID in
  if negb (chosen =? chID) then done_ else
  let! c := get (tcpOf connID) in
  match c with
  | Some c =>
      let! ok := (fun w => let '(w, ok) := writeTCP c payload werr w in (w, Ret ok)) in
      if ok : bool then done_ else
      do! SendCloseDirect chID connID in
      do! modify (closeTCP c) in
      Unregister connID
  | None => do! SendCloseDirect chID connID in Unregister connID
  end.

Definition handleTCPClose chID connID : M Client unit :=
  do! modify (noteUplink connID chID) in
  let! c := get (tcpOf connID) in
  do! modify (closeTCPopt c) in
  Unregister connID.

(** ** UDP *)

(** [poolUDPChannel.handleUDPResponse]: a full queue drops the datagram. *)
Definition handleUDPResponse (u : udpid) (addr data : bytes) (pickDone : bool) w : Client :=
  updUDP u (fun c =>
    if (uc_done c && pickDone) || (256 <=? len (uc_down c)) then c
    else c <| uc_down ::= fun l => l ++ [(addr, data)] |>) w.

Definition handleUDPData chID connID meta payload (pickDone : bool) : M Client unit :=
  let! (selected, chosen) := downlinkFor connID chID in
  if negb (chosen =? chID) then done_ else
  do! (if selected : bool
       then do! writeTo chID (EncodeMessage MsgSelectDownlink connID (PutUint32 (uint32 chID)) []) in done_
       else done_) in
  modify (fun w => match sinkOf connID w with
                   | Some u => handleUDPResponse u meta payload pickDone w
                   | None => w
                   end).

Definition handleUDPClose chID connID : M Client unit :=
  do! modify (noteUplink connID chID) in
  let! u := get (sinkOf connID) in
  match u with
  | Some u => closeSink u
  | None => Unregister connID
  end.

(** ** Notices *)
Definition handleChannelReset meta w : Client :=
  if 4 <=? len meta then
    let resetChID := Uint32 meta in
    invalidateChannel resetChID
      (updP (fun p => p <| cp_net ::= fun s => s <| cn_chInvalidCh ::= pushCap notifyChCap resetChID |> |>) w)
  else w.

Definition handleBackpressureMsg meta w : Client :=
  match meta with
  | [] => w
  | b :: _ => updP (fun p => p <| cp_net ::= handleBackpressure (Z_of_byte b) |>) w
  end.

(** ** Dispatch *)
Definition handleForward (hi : handlerInput) chID (mtype : Z) connID meta payload : M Client unit :=
  if mtype =? MsgTCPConnect then handleReverseTCPConnect (hi_resolve hi) chID connID meta
  else if mtype =? MsgReverseListenResult then modify (handleReverseListenResult connID meta)
  else if mtype =? MsgSelectUplink then handleSelectUplink chID connID meta
  else if mtype =? MsgConnStatus then handleConnStatus connID meta
  else if mtype =? MsgTCPData then handleTCPData chID connID payload (hi_werr hi)
  else if mtype =? MsgTCPClose then handleTCPClose chID connID
  else if mtype =? MsgUDPData then handleUDPData chID connID meta payload (hi_pickDone hi)
  else if mtype =? MsgUDPClose then handleUDPClose chID connID
  else if mtype =? MsgBackpressure then modify (handleBackpressureMsg meta)
  else if mtype =? MsgChannelReset then modify (handleChannelReset meta)
  else done_.

(** One round of [handleChannel]: a message of the socket, any error of which ends
    the loop. *)
Definition handleMessage (hi : handlerInput) chID (msgType : Z) (msg : bytes) : M Client unit :=
  if negb (msgType =? BinaryMessage) then done_ else
  do! modify (updP (fun p => p <| cp_net ::= caddReceivedBytes (len msg) |>)) in
  match DecodeMessage msg with
  | Some (inr f) =>
      let connID := f_connID f in
      do! modify (noteLastChannel connID chID) in
      let! reverse := get (hasReverseConn connID) in
      if reverse : bool
      then handleReverseServerMsg chID (f_type f) connID (f_meta f) (f_payload f) (hi_werr hi)
      else handleForward hi chID (f_type f) connID (f_meta f) (f_payload f)
  | _ => done_
  end.

(** ** A session ([dialAndServe]) *)

(** From the successful dial to the reader. *)
Definition beginSession (newID : bytes -> bytes) (idx : nat) : M Client unit :=
  do! modify (updP (fun p => p <| cp_net ::= sessionOpen idx |>)) in
  reverseOnChannelReady newID (Z.of_nat idx + 1).

(** After the reader returned. *)
Definition endSession (idx : nat) : M Client unit :=
  let chID := Z.of_nat idx + 1 in
  do! modify (updP (fun p => p <| cp_net ::= sessionClose idx |>)) in
  do! modify (invalidateChannel chID) in
  cleanupChannel chID.
End Handler.
