(* ===== verification/ClientDialer.v ===== *)
(** Dialling through the pool ([proxy_dialer.go]): the streams and UDP channels that
    the proxy servers work with.

    A dial is cut where it waits for the connection: [dialBegin] is its first part,
    [dialEnd] what follows one of the three events of its [select]. The pipe between
    pool and stream is the library's; its two ends are [net.Conn]s. *)

From S2P Require Import Prelude Outcome Protocol GoStrings GoNet Config Channels IPStrategy PairWarmer ClientNet ClientState ClientPool.
Import Config.Client.

Section Dialer.
Implicit Types (w : Client) (connID target : bytes).

(** ** Streams *)
Record pendingDial := mkPendingDial {
  pd_connID : bytes; pd_connected : option sigid; pd_source : tcpid }.

Definition socks5 : bytes := lit "SOCKS5".

Definition acquireForDial w : Client * option pid :=
  if hasWarmer w then AcquirePrimary w else (w, None).

Definition dialConnID (uuid : bytes) (hotPair : option pid) w : bytes :=
  match hotPair ≫= (fun i => w_heap w !! i) with
  | Some p => HotPairConnID (hc_PrebindID p) uuid
  | None => uuid
  end.

(** [DialStream] up to its wait. *)
Definition dialBegin (uuid target : bytes) : M Client pendingDial :=
  let! i := (fun w => let '(w, i) := acquireForDial w in (w, Ret i)) in
  let! connID := get (dialConnID uuid i) in
  let! sink := (fun w => let '(w, c) := openTCP w in (w, Ret c)) in
  let! source := (fun w => let '(w, c) := openTCP w in (w, Ret c)) in
  do! registerAndBroadcastTCPWithPair connID target [] (Some sink) socks5 i in
  let! connected := get (fun w => conns w !! connID ≫= st_connected) in
  ret (mkPendingDial connID connected source).

Inductive dialEvent := DialConnected | DialTimedOut | DialCancelled.
Inductive dialError := ErrDialTimeout | ErrDialCancelled.

Definition openStream connID (source : tcpid) : M Client streamid := fun w =>
  let i := fresh (dom (cp_streams (w_pool w))) in
  (updP (fun p => p <| cp_streams ::= <[i := mkPipeStream connID source OnceNew]> |>) w, Ret i).

(** The signal is taken from the channel; without one the case is not ready. *)
Definition dialEnd (d : pendingDial) (ev : dialEvent) : M Client (dialError + streamid) :=
  let stream := let! i := openStream (pd_connID d) (pd_source d) in ret (inr i) in
  match pd_connected d with
  | None => stream
  | Some g =>
      match ev with
      | DialConnected =>
          let! signalled := get (fun w => default false (cp_signals (w_pool w) !! g)) in
          if signalled : bool then
            do! modify (updP (fun p => p <| cp_signals ::= <[g := false]> |>)) in stream
          else block
      | DialTimedOut => do! Unregister (pd_connID d) in ret (inl ErrDialTimeout)
      | DialCancelled => do! Unregister (pd_connID d) in ret (inl ErrDialCancelled)
      end
  end.

(** The message goes to the uplink, or to all while there is none; only an error of
    the uplink shows. *)
Definition sendUp connID (t : Z) (data : bytes) : M Client (option writeError) :=
  let! uplink := get (GetUplinkChannel connID) in
  match uplink with
  | Some chID => writeTo chID (EncodeMessage t connID [] data)
  | None => do! broadcast (EncodeMessage t connID [] data) in ret None
  end.

Definition streamAt (i : streamid) w : option pipeStream := cp_streams (w_pool w) !! i.
Definition updStream (i : streamid) (f : pipeStream -> pipeStream) w : Client :=
  updP (fun p => p <| cp_streams ::= alter f i |>) w.

(** [pipeStream.Write]: an error, or the number of bytes. *)
Definition streamWrite (i : streamid) (data : bytes) : M Client (writeError + Z) :=
  let! s := get (streamAt i) in
  match s with
  | None => block
  | Some s =>
      let! err := sendUp (ps_connID s) MsgTCPData data in
      match err with
      | Some e => ret (inl e)
      | None => ret (inr (len data))
      end
  end.

Definition streamCloseWrite (i : streamid) : M Client unit :=
  let! s := get (streamAt i) in
  match s with
  | None => block
  | Some s => do! sendUp (ps_connID s) MsgTCPClose [] in done_
  end.

Definition streamClose (i : streamid) : M Client unit :=
  let! s := get (streamAt i) in
  match s with
  | None => block
  | Some s =>
      match ps_once s with
      | OnceDone => done_
      | OnceRunning => block
      | OnceNew =>
          do! modify (updStream i (fun s => s <| ps_once := OnceRunning |>)) in
          do! sendUp (ps_connID s) MsgTCPClose [] in
          do! modify (closeTCP (ps_source s)) in
          do! Unregister (ps_connID s) in
          modify (updStream i (fun s => s <| ps_once := OnceDone |>))
      end
  end.

(** ** UDP channels *)
Definition DialUDP (uuid : bytes) (blockedPorts : list Z) : M Client udpid := fun w =>
  let u := fresh (dom (cp_udps (w_pool w))) in
  let w := updP (fun p => p <| cp_udps ::=
             <[u := mkPoolUDPChannel uuid blockedPorts [] false OnceNew false]> |>) w in
  (RegisterUDP uuid u w, Ret u).

Inductive sendError := SendClosed | SendBadTarget | SendWrite (e : writeError).

(** A datagram the client drops: a blocked port, or an address of a family that the
    strategy excludes. *)
Definition udpDropped (strategy : Z) (blocked : list Z) (host port : bytes) : bool :=
  match Atoi port with Some p => bool_decide (p ∈ blocked) | None => false end
  || match ParseIP host with
     | Some ip => ((strategy =? IPStrategyIPv4Only) && negb (isIPv4 ip))
                  || ((strategy =? IPStrategyIPv6Only) && isIPv4 ip)
     | None => false
     end.

Definition startRace (u : udpid) connID target : M Client unit :=
  let! on := get (fun w => match udpChannel u w with Some c => uc_raceOn c | None => true end) in
  if on : bool then done_ else
  do! modify (updUDP u (fun c => c <| uc_raceOn := true |>)) in
  StartUDPRace connID target.

(** [poolUDPChannel.Send] *)
Definition udpSend (u : udpid) target (data : bytes) : M Client (option sendError) :=
  let! c := get (udpChannel u) in
  match c with
  | None => block
  | Some c =>
      if uc_done c then ret (Some SendClosed) else
      match SplitHostPort target with
      | None => ret (Some SendBadTarget)
      | Some (host, port) =>
          let! strategy := get (fun w => IPStrategy (config w)) in
          if udpDropped strategy (uc_blocked c) host port then ret None else
          do! startRace u (uc_connID c) target in
          let! uplink := get (GetUplinkChannel (uc_connID c)) in
          match uplink with
          | Some chID =>
              let! err := SendUDPDataDirect chID (uc_connID c) data in
              ret (SendWrite <$> err)
          | None =>
              do! broadcast (EncodeMessage MsgUDPData (uc_connID c) [] data) in ret None
          end
      end
  end.

(** [ReadFrom]; [None] when the channel is closed. *)
Definition udpReadFrom (u : udpid) (pickDone : bool) : M Client (option (bytes * bytes)) :=
  let! c := get (udpChannel u) in
  match c with
  | None => block
  | Some c =>
      match uc_down c with
      | dg :: rest =>
          if uc_done c && pickDone then ret None
          else do! modify (updUDP u (fun c => c <| uc_down := rest |>)) in ret (Some dg)
      | [] => if uc_done c then ret None else block
      end
  end.

(** [Close] of a UDP channel is [closeSink]. *)
Definition udpClose (u : udpid) : M Client unit := closeSink u.
End Dialer.
