(* ===== verification/ClientInv.v ===== *)
(** The invariant that joins the connection table with the hot-pair warmer: every
    pair has as many references as connections hold it. It is kept by every operation
    of the pool, whatever the outcome of its writes. *)

From S2P Require Import Prelude Outcome Protocol GoStrings Config Channels PairWarmer PairWarmerInv PairWarmerSpecs PairWarmerQueue ClientNet ClientNetInv ClientState ClientPool.
Import Config.Client.

(** ** Regions of the warmer that leave references, identifiers and pool alone *)
Section Quiet.
Context {P : Type} `{!WarmerPool P}.
Implicit Types (w : Warmer P) (i : pid).

Record quiet w w' : Prop := {
  qt_refs : forall i, refsOf w' i = refsOf w i;
  qt_pool : w_pool w' = w_pool w;
  qt_ids : forall i p, w_heap w' !! i = Some p ->
    exists q, w_heap w !! i = Some q /\ hc_PrebindID p = hc_PrebindID q }.

#[global] Instance quiet_preorder : PreOrder quiet.
Proof.
  split; [intros w; split; [done|done|by eauto]|].
  intros w1 w2 w3 [H1 P1 I1] [H2 P2 I2]. split; [intros i; by rewrite H2, H1|congruence|].
  intros i p (q & Hq & ->)%I2. apply I1 in Hq as (q' & ? & ->). by exists q'.
Qed.

Lemma quiet_heap w w' : w_heap w' = w_heap w -> w_pool w' = w_pool w -> quiet w w'.
Proof. intros E Ep. split; [intros i; unfold refsOf; by rewrite E|done|]. rewrite E. by eauto. Qed.

Lemma quiet_updPair i f w :
  (forall p, hc_refs (f p) = hc_refs p /\ hc_PrebindID (f p) = hc_PrebindID p) -> quiet w (updPair i f w).
Proof.
  intros Hf. split; [|done|].
  - intros j. unfold refsOf, updPair. cbn. destruct (decide (j = i)) as [->|].
    + rewrite lookup_alter_eq. destruct (w_heap w !! i) as [p|]; [|done]. apply (Hf p).
    + by rewrite lookup_alter_ne.
  - intros j p. unfold updPair. cbn. destruct (decide (j = i)) as [->|].
    + rewrite lookup_alter_eq. intros (q & Hq & ->)%fmap_Some. exists q. split; [done|apply (Hf q)].
    + rewrite lookup_alter_ne by done. by eauto.
Qed.

Lemma quiet_ensure w : quiet w (ensurePrimaryLocked w).
Proof.
  apply quiet_heap; [apply ensurePrimaryLocked_same|]. unfold ensurePrimaryLocked. repeat case_match; done.
Qed.

Lemma quiet_remove i w : quiet w (removePair i w).
Proof. unfold removePair, clearPrimary. case_bool_decide; by apply quiet_heap. Qed.

Lemma quiet_setState i s w : quiet w (setState i s w).
Proof. by apply quiet_updPair. Qed.

Lemma quiet_closeOut i w : quiet w (ensurePrimaryLocked (removePair i (setState i PairStateClosed w))).
Proof. etrans; [apply quiet_setState|]. etrans; [apply quiet_remove|apply quiet_ensure]. Qed.

(** A sweep that ends in an election. *)
Lemma quiet_swept act l w w' k :
  swept act l w w' k -> quiet w (ensurePrimaryLocked (w' <| w_pairs := k |>)).
Proof.
  intros H. transitivity w'; [|etrans; [|apply quiet_ensure]; by apply quiet_heap].
  assert (forall i, w_heap w' !! i = actOn (if bool_decide (i ∈ l) then act i else Keep) <$> w_heap w !! i)
    as Hh.
  { intros i. case_bool_decide as Hi; [by apply (sw_in _ _ _ _ _ H)|].
    rewrite (sw_out _ _ _ _ _ H) by done. by destruct (w_heap w !! i). }
  split; [|apply (sw_rest _ _ _ _ _ H)|]; intros i; unfold refsOf; rewrite (Hh i).
  - destruct (w_heap w !! i); [|done]. cbn. by destruct (if bool_decide (i ∈ l) then act i else Keep).
  - intros p (q & Hq & ->)%fmap_Some. exists q. split; [done|].
    by destruct (if bool_decide (i ∈ l) then act i else Keep).
Qed.

Lemma quiet_invalidate chID w : NoDup (w_pairs w) -> quiet w (InvalidateChannel chID w).
Proof.
  intros Hw. unfold InvalidateChannel.
  pose proof (invalidateLoop_swept chID (w_pairs w) w (w_heap w) Hw (fun _ _ => eq_refl)) as H.
  destruct (invalidateLoop chID (w_pairs w) w) as [w' k]. by eapply quiet_swept.
Qed.

Lemma quiet_dedup w : warmerInv w -> quiet w (deduplicatePairs w).
Proof.
  intros Hw. unfold deduplicatePairs.
  pose proof (dedupLoop_swept (w_pairs w) ∅ w (w_heap w) (pi_nodup _ _ _ (wi_pairs _ Hw))
    (fun _ _ => eq_refl)) as H.
  destruct (dedupLoop ∅ (w_pairs w) w) as [w' k]. by eapply quiet_swept.
Qed.

Lemma quiet_trimLoop fuel : forall w, quiet w (trimLoop fuel w).
Proof.
  induction fuel as [|fuel IH]; intros w; [done|]. cbn [trimLoop]. destruct (_ <=? _); [done|].
  destruct (last _) as [i|]; [|done]. destruct (0 <? _); [apply quiet_setState|].
  etrans; [apply quiet_setState|]. etrans; [apply quiet_setState|].
  etrans; [apply quiet_remove|apply IH].
Qed.
End Quiet.

(** ** The invariant *)
Definition holdsPair (i : pid) (st : clientConnState) : Z :=
  if bool_decide (st_pair st = Some i) then 1 else 0.

Section Client.
Implicit Types (w : Client) (i : pid) (connID : bytes).

(** The number of connections that hold a pair. *)
Definition holders i w : Z := mapSum (holdsPair i) (conns w).

(** A connection with a pair is a hot dial: an identifier with a key, no UDP
    channel, an ordinary target. *)
Definition hotConn w connID (st : clientConnState) : Prop :=
  st_pair st <> None ->
  hasWarmer w = true /\ hotPairConnIDSep ∈ connID /\ st_udpSink st = None
  /\ st_target st <> PrebindTarget.

(** [x]: a pair that a dial in progress has acquired and not yet noted. *)
Record clientInv (x : option pid) w : Prop := {
  ci_warmer : warmerInv w;
  ci_refs : forall i, refsOf w i = holders i w + (if bool_decide (x = Some i) then 1 else 0);
  ci_hot : forall id st, conns w !! id = Some st -> hotConn w id st;
  ci_keys : forall i p, w_heap w !! i = Some p ->
    hc_PrebindID p <> [] /\ (hotPairConnIDSep ∉ hc_PrebindID p);
  ci_udp : forall u c, cp_udps (w_pool w) !! u = Some c -> hotPairConnIDSep ∉ uc_connID c }.

Lemma holders_nonneg i w : 0 <= holders i w.
Proof. apply mapSum_nonneg. intros id st _. unfold holdsPair. by case_bool_decide. Qed.

(** What the invariant looks at. *)
Definition udpIDs w : gmap udpid bytes := uc_connID <$> cp_udps (w_pool w).

Record sameCore w w' : Prop := {
  sc_heap : w_heap w' = w_heap w;
  sc_pairs : w_pairs w' = w_pairs w;
  sc_primary : w_primary w' = w_primary w;
  sc_config : config w' = config w;
  sc_conns : conns w' = conns w;
  sc_udps : udpIDs w' = udpIDs w }.

#[global] Instance sameCore_preorder : PreOrder sameCore.
Proof.
  split; [by split|]. intros w1 w2 w3 [] []. split; congruence.
Qed.

Lemma udpIDs_lookup w u : udpIDs w !! u = uc_connID <$> cp_udps (w_pool w) !! u.
Proof. apply lookup_fmap. Qed.

Lemma inv_core x w w' : sameCore w w' -> clientInv x w -> clientInv x w'.
Proof.
  intros [Eh El Ep Ec Es Eu] [Hw Hr Hh Hk Hu]. split.
  - by apply (warmerInv_same w).
  - intros i. unfold refsOf, holders in *. by rewrite Eh, Es.
  - intros id st Hi. rewrite Es in Hi. specialize (Hh id st Hi). unfold hotConn, hasWarmer in *.
    by rewrite Ec.
  - intros i p. rewrite Eh. apply Hk.
  - intros u c Hc. pose proof (udpIDs_lookup w' u) as E. rewrite Eu, udpIDs_lookup, Hc in E.
    destruct (cp_udps (w_pool w) !! u) as [c'|] eqn:Ec'; [|done]. injection E as <-. by apply (Hu u).
Qed.

(** Regions of the warmer. *)
Lemma inv_quiet x w w' : warmerInv w' -> quiet w w' -> clientInv x w -> clientInv x w'.
Proof.
  intros Hw' [Hs Ep Hid] [Hw Hr Hh Hk Hu]. split; [done|..].
  - intros i. rewrite (Hs i), (Hr i). unfold holders, conns. by rewrite Ep.
  - intros id st. unfold conns, hotConn, hasWarmer, config. rewrite Ep. apply Hh.
  - intros i p (q & Hq & ->)%Hid. by apply (Hk i).
  - rewrite Ep. apply Hu.
Qed.

(** ** Changes of the table *)
Definition setConns (f : gmap bytes clientConnState -> gmap bytes clientConnState) w : Client :=
  updP (fun p => p <| cp_conns ::= f |>) w.

Lemma conns_setConns f w : conns (setConns f w) = f (conns w).
Proof. done. Qed.

Lemma inv_delete x connID st w :
  clientInv x w -> conns w !! connID = Some st -> st_pair st = None ->
  clientInv x (setConns (delete connID) w).
Proof.
  intros [Hw Hr Hh Hk Hu] Hc Hp. split; try done.
  - by apply (warmerInv_same w).
  - intros i. change (refsOf (setConns (delete connID) w) i) with (refsOf w i). rewrite (Hr i).
    unfold holders. rewrite conns_setConns.
    rewrite (mapSum_delete _ (conns w) connID st Hc). unfold holdsPair at 1. by rewrite Hp.
  - intros id st'. rewrite conns_setConns. intros [_ Hid]%lookup_delete_Some. by apply (Hh id).
Qed.

Lemma inv_delete_pair i connID st w :
  clientInv None w -> conns w !! connID = Some st -> st_pair st = Some i ->
  clientInv (Some i) (setConns (delete connID) w).
Proof.
  intros [Hw Hr Hh Hk Hu] Hc Hp. split; try done.
  - by apply (warmerInv_same w).
  - intros j. change (refsOf (setConns (delete connID) w) j) with (refsOf w j). rewrite (Hr j).
    unfold holders. rewrite conns_setConns.
    rewrite (mapSum_delete _ (conns w) connID st Hc). unfold holdsPair at 1. rewrite Hp.
    rewrite (bool_decide_false (None = Some j)) by done. lia.
  - intros id st'. rewrite conns_setConns. intros [_ Hid]%lookup_delete_Some. by apply (Hh id).
Qed.

(** An entry is written that holds what the old one held. *)
Lemma inv_insert x connID st w :
  clientInv x w -> st_pair st = (conns w !! connID ≫= st_pair) -> hotConn w connID st ->
  clientInv x (setConns <[connID := st]> w).
Proof.
  intros [Hw Hr Hh Hk Hu] Hp Hhot. split; try done.
  - by apply (warmerInv_same w).
  - intros i. change (refsOf (setConns <[connID:=st]> w) i) with (refsOf w i). rewrite (Hr i).
    unfold holders. rewrite conns_setConns.
    destruct (conns w !! connID) as [st0|] eqn:E; cbn in Hp.
    + rewrite (mapSum_replace _ _ _ st0 st E). unfold holdsPair at 3 4. rewrite Hp. lia.
    + rewrite mapSum_insert by done. unfold holdsPair at 2. by rewrite Hp.
  - intros id st'. rewrite conns_setConns. intros [[<- <-]|[_ Hid]]%lookup_insert_Some; [done|]. by apply (Hh id).
Qed.

Lemma setConns_ext f g w : f (conns w) = g (conns w) -> setConns f w = setConns g w.
Proof. unfold setConns, updP, conns. intros E. cbn. by rewrite E. Qed.

Lemma alter_insert f connID w :
  updConn connID f w = match conns w !! connID with
                       | Some st => setConns <[connID := f st]> w
                       | None => setConns id w
                       end.
Proof.
  change (updConn connID f w) with (setConns (alter f connID) w).
  destruct (conns w !! connID) as [st|] eqn:E; apply setConns_ext.
  - apply map_eq. intros j. destruct (decide (j = connID)) as [->|].
    + by rewrite lookup_alter_eq, lookup_insert_eq, E.
    + by rewrite lookup_alter_ne, lookup_insert_ne.
  - by apply alter_none.
Qed.

Lemma inv_updConn x connID f w :
  (forall st, st_pair (f st) = st_pair st /\ st_udpSink (f st) = st_udpSink st
     /\ st_target (f st) = st_target st) ->
  clientInv x w -> clientInv x (updConn connID f w).
Proof.
  intros Hf Hw. rewrite alter_insert. destruct (conns w !! connID) as [st|] eqn:E.
  - destruct (Hf st) as (H1 & H2 & H3). apply inv_insert; [done|by rewrite E, H1|].
    unfold hotConn. rewrite H1, H2, H3. by apply (ci_hot _ _ Hw).
  - by apply (inv_core x w).
Qed.

(** ** References change hands *)
Lemma inv_acquire w w' o :
  clientInv None w -> AcquirePrimary w = (w', o) -> clientInv o w' /\ conns w' = conns w
  /\ w_pool w' = w_pool w /\ (o = None -> w' = w)
  /\ forall i, o = Some i -> exists p, w_heap w' !! i = Some p.
Proof.
  intros Hw E. pose proof (AcquirePrimary_inv w (ci_warmer _ _ Hw)) as Hw'.
  destruct (AcquirePrimary_cases w) as [(Ea & _)|(i & Hr & Ea & _)]; rewrite Ea in E, Hw'; injection E as <- <-.
  - split; [done|]. split; [done|]. by repeat split.
  - apply isReady_true in Hr as (p & Hi & _). destruct Hw as [Hw Hrf Hh Hk Hu].
    split; [|split; [done|split; [done|split; [done|]]]].
    + split; try done.
      * intros j. specialize (Hrf j). rewrite (bool_decide_false (None = Some j)) in Hrf by done.
        change (holders j (updPair i _ w)) with (holders j w).
        destruct (decide (i = j)) as [->|Hne].
        -- rewrite bool_decide_true by done. rewrite (refsOf_updPair _ _ _ _ Hi).
           unfold refsOf in Hrf. rewrite Hi in Hrf. cbn. lia.
        -- rewrite bool_decide_false by congruence. rewrite <- Hrf. unfold refsOf, updPair. cbn.
           by rewrite lookup_alter_ne.
      * intros j q Hq. unfold updPair in Hq. cbn in Hq. destruct (decide (i = j)) as [->|Hne].
        -- rewrite lookup_alter_eq, Hi in Hq. injection Hq as <-. exact (Hk j p Hi).
        -- rewrite lookup_alter_ne in Hq by done. by apply (Hk j).
    + intros j [= <-]. unfold updPair. cbn. rewrite lookup_alter_eq, Hi. by eexists.
Qed.

Lemma ReleasePair_quiet i w :
  quiet (updPair i (fun p => p <| hc_refs ::= fun r => r - 1 |>) w) (ReleasePair i w).
Proof. unfold ReleasePair. destruct (_ && _); [apply quiet_closeOut|done]. Qed.

Lemma inv_release i w : clientInv (Some i) w -> clientInv None (ReleasePair i w).
Proof.
  intros [Hw Hr Hh Hk Hu]. pose proof (holders_nonneg i w) as Hn.
  pose proof (Hr i) as Hri. rewrite bool_decide_true in Hri by done.
  assert (warmerInv (ReleasePair i w)) as Hw' by (apply ReleasePair_inv; [done|lia]).
  destruct (ReleasePair_quiet i w) as [Hs Ep Hid]. cbn in Ep. split; [done|..].
  - intros j. rewrite (Hs j), (bool_decide_false (None = Some j)) by done.
    assert (holders j (ReleasePair i w) = holders j w) as -> by (unfold holders, conns; by rewrite Ep).
    specialize (Hr j). unfold refsOf, updPair in *. cbn. destruct (decide (j = i)) as [->|Hne].
    + rewrite lookup_alter_eq. destruct (w_heap w !! i); [cbn|]; lia.
    + rewrite lookup_alter_ne by done. rewrite Hr, bool_decide_false by congruence. done.
  - intros id st. unfold conns, hotConn, hasWarmer, config. rewrite Ep. apply Hh.
  - intros j p (q & Hq & ->)%Hid. unfold updPair in Hq. cbn in Hq. destruct (decide (j = i)) as [->|].
    + rewrite lookup_alter_eq in Hq. apply fmap_Some in Hq as (q' & Hq' & ->). by apply (Hk i q').
    + rewrite lookup_alter_ne in Hq by done. by apply (Hk j).
  - rewrite Ep. apply Hu.
Qed.

(** ** Computations *)
Lemma keeps_core {A} x (m : M Client A) : (forall w, sameCore w (m w).1) -> keeps (clientInv x) m.
Proof.
  intros Hm w Hw. specialize (Hm w). destruct (m w) as [w' []]; [by apply (inv_core x w)..|done].
Qed.

Lemma keeps_core_modify x f : (forall w, sameCore w (f w)) -> keeps (clientInv x) (modify f).
Proof. intros Hf. by apply keeps_core. Qed.

Lemma net_core {A} (m : M ClientNet A) w : sameCore w (net m w).1.
Proof. unfold net, zoom. destruct (m _). by split. Qed.

Lemma keeps_writeTo x chID data : keeps (clientInv x) (writeTo chID data).
Proof. apply keeps_core. intros w. apply net_core. Qed.

Lemma keeps_broadcast x data : keeps (clientInv x) (broadcast data).
Proof. apply keeps_core. intros w. apply net_core. Qed.

Lemma closeTCPopt_core c w : sameCore w (closeTCPopt c w).
Proof. destruct c; by split. Qed.

Lemma updUDP_core u f w : (forall c, uc_connID (f c) = uc_connID c) -> sameCore w (updUDP u f w).
Proof.
  intros Hf. split; try done. apply map_eq. intros j. rewrite !udpIDs_lookup. unfold updUDP, updP. cbn.
  destruct (decide (j = u)) as [->|].
  - rewrite lookup_alter_eq. destruct (cp_udps (w_pool w) !! u); [|done]. cbn. by rewrite Hf.
  - by rewrite lookup_alter_ne.
Qed.

Lemma keeps_updUDP x u f : (forall c, uc_connID (f c) = uc_connID c) ->
  keeps (clientInv x) (modify (updUDP u f)).
Proof. intros Hf. apply keeps_core_modify. intros w. by apply updUDP_core. Qed.

Lemma keeps_stopWith (U : bytes -> M Client unit) u :
  (forall id, keeps (clientInv None) (U id)) -> keeps (clientInv None) (stopWith U u).
Proof.
  intros HU. apply keeps_bind; [apply keeps_get|]. intros [c|]; [|apply keeps_ret].
  destruct (uc_once c); [|apply keeps_block|apply keeps_ret].
  apply keeps_bind; [by apply keeps_updUDP|]. intros _. apply keeps_bind; [apply keeps_get|].
  intros up. apply keeps_bind.
  - destruct up; [|apply keeps_ret]. apply keeps_bind; [apply keeps_writeTo|intros _; apply HU].
  - intros _. apply keeps_bind; [apply HU|]. intros _. by apply keeps_updUDP.
Qed.

Lemma unregisterTake_eq connID w :
  unregisterTake connID w =
  match conns w !! connID with
  | None => (w, None)
  | Some st =>
      if st_closed st then (w, None) else
      (setConns (delete connID) w,
       if bool_decide (st_target st = PrebindTarget) then None
       else Some (st_tcpConn st, st_udpSink st, st_pair st))
  end.
Proof.
  unfold unregisterTake. destruct (conns w !! connID); [|done]. destruct (st_closed _); [done|].
  by case_bool_decide.
Qed.

Lemma keeps_unregisterWith (U : bytes -> M Client unit) connID :
  (forall id, keeps (clientInv None) (U id)) -> keeps (clientInv None) (unregisterWith U connID).
Proof.
  intros HU w Hw. unfold unregisterWith, bind at 1. rewrite unregisterTake_eq.
  destruct (conns w !! connID) as [st|] eqn:Hc; [|done]. destruct (st_closed st); [done|].
  pose proof (ci_hot _ _ Hw _ _ Hc) as Hot. unfold hotConn in Hot.
  destruct (st_pair st) as [i|] eqn:Hp.
  - destruct Hot as (Hon & _ & Hs & Ht); [done|]. rewrite bool_decide_false, Hs by done.
    unfold bind, modify, done_, ret, releasePair.
    assert (sameCore (setConns (delete connID) w) (closeTCPopt (st_tcpConn st) (setConns (delete connID) w)))
      as Hcore by apply closeTCPopt_core.
    assert (hasWarmer (closeTCPopt (st_tcpConn st) (setConns (delete connID) w)) = true) as ->.
    { unfold hasWarmer. by rewrite (sc_config _ _ Hcore). }
    apply inv_release, (inv_core _ _ _ Hcore). by apply inv_delete_pair with st.
  - pose proof (inv_delete None _ _ _ Hw Hc Hp) as Hd. case_bool_decide; [done|].
    apply (keeps_bind (clientInv None)); [| |exact Hd].
    + apply keeps_core_modify. intros w1. apply closeTCPopt_core.
    + intros _. apply keeps_bind; [|intros _; by apply keeps_modify].
      destruct (st_udpSink st); [by apply keeps_stopWith|apply keeps_ret].
Qed.

Lemma keeps_unregisterF n : forall connID, keeps (clientInv None) (unregisterF n connID).
Proof.
  induction n as [|n IH]; intros connID; [apply keeps_block|]. by apply keeps_unregisterWith.
Qed.

Lemma keeps_Unregister connID : keeps (clientInv None) (Unregister connID).
Proof. intros w Hw. by apply keeps_unregisterF. Qed.

Lemma keeps_closeSink u : keeps (clientInv None) (closeSink u).
Proof. apply keeps_stopWith. apply keeps_Unregister. Qed.

Lemma keeps_cleanupConn connID : keeps (clientInv None) (cleanupConn connID).
Proof.
  apply keeps_bind; [apply keeps_get|]. intros [st|]; [|apply keeps_ret].
  apply keeps_bind; [apply keeps_core_modify; intros w; apply closeTCPopt_core|]. intros _.
  apply keeps_bind; [|intros _; apply keeps_Unregister].
  destruct (st_udpSink st); [apply keeps_closeSink|apply keeps_ret].
Qed.

Lemma closeReverse_core r w : sameCore w (closeReverse r w).
Proof.
  unfold closeReverse. destruct (cp_revs (w_pool w) !! r) as [rc|]; [|done].
  destruct (rc_closeOnce rc); [done|]. etrans; [|apply closeTCPopt_core]. by split.
Qed.

Lemma foldl_core {A} (f : Client -> A -> Client) l : forall w,
  (forall w x, sameCore w (f w x)) -> sameCore w (foldl f w l).
Proof. induction l as [|x l IH]; intros w Hf; [done|]. cbn. etrans; [apply Hf|by apply IH]. Qed.

Lemma reverseCleanup_core chID w : sameCore w (reverseCleanupChannel chID w).
Proof.
  unfold reverseCleanupChannel. apply foldl_core. intros w1 [id r].
  destruct (cp_revs (w_pool w1) !! r) as [rc|]; [|done]. destruct (reverseUses chID rc); [|done].
  etrans; [apply (closeReverse_core r)|]. by split.
Qed.

Lemma keeps_cleanupChannel chID : keeps (clientInv None) (cleanupChannel chID).
Proof.
  apply keeps_bind; [apply keeps_core_modify, reverseCleanup_core|]. intros _.
  apply keeps_bind; [apply keeps_get|]. intros l. apply keeps_forEach. intros id _. apply keeps_cleanupConn.
Qed.

(** ** Dial requests *)
Lemma keeps_broadcastRequest connID msg : keeps (clientInv None) (broadcastRequest connID msg).
Proof.
  apply keeps_bind; [apply keeps_broadcast|]. intros n.
  destruct (n =? 0); [apply keeps_Unregister|apply keeps_ret].
Qed.

Lemma inv_invalidate x chID w : clientInv x w -> clientInv x (InvalidateChannel chID w).
Proof.
  intros Hw. pose proof (ci_warmer _ _ Hw) as Hwi.
  apply (inv_quiet x w); [by apply InvalidateChannel_inv|apply quiet_invalidate, Hwi|done].
Qed.

Lemma inv_invalidateChannel x chID w : clientInv x w -> clientInv x (invalidateChannel chID w).
Proof. unfold invalidateChannel. destruct (hasWarmer w); [apply inv_invalidate|done]. Qed.

(** The connection that is being dialled holds the pair when the dial is sent. *)
Lemma inv_preset i connID st w :
  clientInv (Some i) w -> conns w !! connID = Some st -> st_pair st = None -> hasWarmer w = true ->
  hotPairConnIDSep ∈ connID -> st_udpSink st = None -> st_target st <> PrebindTarget ->
  clientInv None (presetPair connID i w).
Proof.
  intros [Hw Hr Hh Hk Hu] Hc Hp Hon Hdot Hs Ht. unfold presetPair. rewrite alter_insert, Hc.
  set (st' := st <| st_pair := Some i |> <| st_uplink := _ |>). split; try done.
  - by apply (warmerInv_same w).
  - intros j. change (refsOf (setConns <[connID:=st']> w) j) with (refsOf w j). rewrite (Hr j).
    unfold holders. rewrite conns_setConns, (mapSum_replace _ _ _ st st' Hc).
    unfold holdsPair at 3 4. rewrite Hp. cbn. rewrite (bool_decide_false (None = Some j)) by done. lia.
  - intros id st1. rewrite conns_setConns. intros [[<- <-]|[_ Hid]]%lookup_insert_Some; [|by apply (Hh id)].
    intros _. by repeat split.
Qed.

Lemma inv_fallback i connID w :
  clientInv None w -> (st_pair <$> conns w !! connID) = Some (Some i) ->
  clientInv None (hotFallback connID i w).
Proof.
  intros Hw Hc. unfold hotFallback. apply inv_invalidateChannel.
  destruct (conns w !! connID) as [st|] eqn:E; [|done]. injection Hc as Hp.
  destruct (ci_hot _ _ Hw _ _ E) as (Hon & _); [by rewrite Hp|].
  unfold releasePair. change (hasWarmer (clearPreset connID w)) with (hasWarmer w). rewrite Hon.
  apply inv_release. unfold clearPreset. rewrite alter_insert, E.
  set (st' := st <| st_pair := None |> <| st_uplink := 0 |>).
  destruct Hw as [Hw Hr Hh Hk Hu]. split; try done.
  - by apply (warmerInv_same w).
  - intros j. change (refsOf (setConns <[connID:=st']> w) j) with (refsOf w j). rewrite (Hr j).
    unfold holders. rewrite conns_setConns, (mapSum_replace _ _ _ st st' E).
    unfold holdsPair at 3 4. rewrite Hp. cbn. rewrite (bool_decide_false (None = Some j)) by done. lia.
  - intros id st1. rewrite conns_setConns. intros [[<- <-]|[_ Hid]]%lookup_insert_Some; [|by apply (Hh id)].
    by intros H.
Qed.
End Client.
