(* ===== verification/ClientSystem.v ===== *)
(** The client as a whole: its operations in any order, each with the outcome its
    writes happen to have, together with the locked regions of the warmer. The
    invariant of [ClientInv] holds in every reachable state. *)

From S2P Require Import Prelude Outcome Protocol GoStrings GoNet IPStrategy Config Channels PairWarmer PairWarmerInv PairWarmerSpecs PairWarmerQueue ClientNet ClientNetInv ClientState ClientPool ClientInv ClientReverse ClientHandler ClientDialer.
Import Config.Client.

(** ** Operations *)

(** The locked regions of the warmer's turns ([PairWarmerInv.warmerStep]) that are
    not operations of the pool. *)
Inductive warmerOp :=
| WoReceive | WoComplete (res : prebindResult) | WoSlot (i : pid) | WoQueue (i : pid) | WoEnsure
| WoPrune | WoDiscard (i : pid) | WoInvalidate (chID : Z) | WoInvalidatePair (i : pid)
| WoPromote (i : pid) | WoReplace (i : pid) (h : option pid) | WoDedup | WoTrim | WoFlush | WoCancel
| WoBegin (uuid : bytes) (available : list Z) | WoDelete (connID : bytes).

Definition runWarmerOp (o : warmerOp) (w : Client) : Client :=
  match o with
  | WoReceive => w <| w_results ::= tail |>
  | WoComplete res => (completePair res w).1
  | WoSlot i => assignPairSlot i w
  | WoQueue i => queueHotPairNotify i w
  | WoEnsure => ensurePrimaryLocked w
  | WoPrune => pruneIdleDrainingPairs w
  | WoDiscard i => discardCandidatePair i w
  | WoInvalidate chID => InvalidateChannel chID w
  | WoInvalidatePair i => invalidatePair i w
  | WoPromote i => promoteToHead i w
  | WoReplace i h => replaceHeadWithCandidate i h w
  | WoDedup => deduplicatePairs w
  | WoTrim => trimExcessPairs w
  | WoFlush => applyEvent EvFlush w
  | WoCancel => w <| w_done := true |>
  | WoBegin uuid av => (buildBegin uuid av w).1
  | WoDelete connID => deletePrebindState connID w
  end.

Inductive clientOp :=
| OpNet (e : netEvent)
| OpMessage (hi : handlerInput) (chID msgType : Z) (msg : bytes)
| OpBeginSession (newID : bytes -> bytes) (idx : nat)
| OpEndSession (idx : nat)
| OpDialBegin (uuid target : bytes)
| OpDialEnd (d : pendingDial) (ev : dialEvent)
| OpStreamWrite (i : streamid) (data : bytes)
| OpStreamCloseWrite (i : streamid)
| OpStreamClose (i : streamid)
| OpDialUDP (uuid : bytes) (blocked : list Z)
| OpUDPSend (u : udpid) (target data : bytes)
| OpUDPRead (u : udpid) (pickDone : bool)
| OpUDPClose (u : udpid)
| OpReverseDialed (r : revid) (connID : bytes) (ok : bool)
| OpReversePump (r : revid) (connID : bytes) (c : tcpid) (read : option bytes)
| OpPrebindTimer (connID : bytes)
| OpWarmer (o : warmerOp).

Definition discard {A} (m : M Client A) : M Client unit := let! _ := m in done_.

Definition runOp (o : clientOp) : M Client unit :=
  match o with
  | OpNet e => fun w => (updP (fun p => p <| cp_net ::= netApply (config w) e |>) w, Ret tt)
  | OpMessage hi chID msgType msg => handleMessage hi chID msgType msg
  | OpBeginSession newID idx => beginSession newID idx
  | OpEndSession idx => endSession idx
  | OpDialBegin uuid target => discard (dialBegin uuid target)
  | OpDialEnd d ev => discard (dialEnd d ev)
  | OpStreamWrite i data => discard (streamWrite i data)
  | OpStreamCloseWrite i => streamCloseWrite i
  | OpStreamClose i => streamClose i
  | OpDialUDP uuid blocked => discard (DialUDP uuid blocked)
  | OpUDPSend u target data => discard (udpSend u target data)
  | OpUDPRead u pickDone => discard (udpReadFrom u pickDone)
  | OpUDPClose u => udpClose u
  | OpReverseDialed r connID ok => reverseDialed r connID ok
  | OpReversePump r connID c read => reversePump r connID c read
  | OpPrebindTimer connID => modify (prebindTimer connID)
  | OpWarmer o => modify (runWarmerOp o)
  end.

(** An identifier of [uuid.NewString]: without a dot, and new to the table, also
    behind a key. *)
Definition freshID (uuid : bytes) (w : Client) : Prop :=
  uuid <> [] /\ (hotPairConnIDSep ∉ uuid) /\ conns w !! uuid = None
  /\ forall key, conns w !! HotPairConnID key uuid = None.

(** What the environment respects: identifiers are fresh, and no address is the name
    reserved for warm-ups. *)
Definition opOK (o : clientOp) (w : Client) : Prop :=
  match o with
  | OpDialBegin uuid target => freshID uuid w /\ target <> PrebindTarget
  | OpDialUDP uuid _ => freshID uuid w
  | OpWarmer (WoComplete res) => pr_connID res <> [] /\ (hotPairConnIDSep ∉ pr_connID res)
  | OpWarmer (WoBegin uuid _) => hotPairConnIDSep ∉ uuid
  | OpWarmer (WoDelete connID) => hotPairConnIDSep ∉ connID
  | _ => True
  end.

Definition clientStep (w w' : Client) : Prop :=
  exists o, opOK o w /\ (runOp o w).1 = w' /\ (runOp o w).2 <> Panicked.

Section System.
Implicit Types (w : Client) (connID target : bytes) (chID : Z).

(** ** The table *)
Lemma keeps_updConn x connID f :
  (forall st, st_pair (f st) = st_pair st /\ st_udpSink (f st) = st_udpSink st
     /\ st_target (f st) = st_target st) ->
  keeps (clientInv x) (modify (updConn connID f)).
Proof. intros Hf. apply keeps_modify. intros w. by apply inv_updConn. Qed.

Lemma keeps_noteUplink x connID chID : keeps (clientInv x) (modify (noteUplink connID chID)).
Proof. apply keeps_updConn. intros st. by case_match. Qed.

Lemma inv_casDownlink x connID chID st w :
  clientInv x w -> clientInv x (casDownlink connID chID st w).1.
Proof.
  intros Hw. unfold casDownlink. destruct (_ =? 0); [|done]. by apply inv_updConn.
Qed.

Lemma inv_selectDownlink x connID chID w :
  clientInv x w -> clientInv x (selectDownlink connID chID w).1.
Proof.
  intros Hw. unfold selectDownlink. destruct (conns w !! connID) as [st|]; [|done].
  case_bool_decide; [done|].
  set (classic := if 0 <? st_downlink st then _ else _).
  assert (clientInv x classic.1) as Hc.
  { unfold classic. destruct (0 <? st_downlink st); [done|]. destruct (_ && _); [done|].
    by apply inv_casDownlink. }
  destruct (st_pair st) as [i|]; [|done]. destruct (w_heap w !! i) as [h|]; [|done].
  clearbody classic. destruct (0 <? hc_DownlinkChID h); [by apply inv_casDownlink|done].
Qed.

Lemma keeps_select x connID chID : keeps (clientInv x) (select connID chID).
Proof.
  intros w Hw. unfold select. pose proof (inv_selectDownlink x connID chID w Hw).
  by destruct (selectDownlink connID chID w).
Qed.

Lemma keeps_downlinkFor x connID chID : keeps (clientInv x) (downlinkFor connID chID).
Proof.
  apply keeps_bind; [apply keeps_get|]. intros []; [apply keeps_ret|apply keeps_select].
Qed.

Lemma signalConnected_core connID w : sameCore w (signalConnected connID w).
Proof. unfold signalConnected. destruct (_ ≫= st_connected); by split. Qed.

Lemma writeTCP_core c data werr w : sameCore w (writeTCP c data werr w).1.
Proof.
  unfold writeTCP. destruct (cp_tcps (w_pool w) !! c); [|done]. destruct (_ || _); [done|by split].
Qed.

Lemma keeps_writeTCP x c data werr :
  keeps (clientInv x) (fun w => let '(w, ok) := writeTCP c data werr w in (w, Ret ok)).
Proof.
  apply keeps_core. intros w. pose proof (writeTCP_core c data werr w).
  by destruct (writeTCP c data werr w).
Qed.

Lemma openTCP_core w : sameCore w (openTCP w).1.
Proof. by split. Qed.

Lemma keeps_openTCP x : keeps (clientInv x) (fun w => let '(w, c) := openTCP w in (w, Ret c)).
Proof. apply keeps_core. intros w. by split. Qed.

(** ** Registrations *)
Lemma default_pair connID w : st_pair (default newConnState (conns w !! connID)) = conns w !! connID ≫= st_pair.
Proof. by destruct (conns w !! connID). Qed.

Lemma inv_registerTCP x connID target tcp rt w :
  clientInv x w -> target <> PrebindTarget -> clientInv x (registerTCP connID target tcp rt w).
Proof.
  intros Hw Ht. unfold registerTCP, newSignal.
  set (g := fresh _). set (st0 := default newConnState (conns w !! connID)).
  match goal with |- clientInv x (w <| w_pool := _ <| cp_conns ::= <[connID := ?st]> |> |>) =>
    set (st1 := st) end.
  assert (st_pair st1 = st_pair st0 /\ st_udpSink st1 = st_udpSink st0 /\ st_target st1 = target)
    as (E1 & E2 & E3) by (unfold st1; by case_bool_decide).
  apply (inv_core x (setConns <[connID := st1]> w)); [by split|].
  apply inv_insert; [done|by rewrite E1; apply default_pair|].
  unfold hotConn. rewrite E1, E2, E3. intros Hp. unfold st0 in *.
  destruct (conns w !! connID) as [st|] eqn:E; [|done].
  destruct (ci_hot _ _ Hw _ _ E Hp) as (? & ? & ? & _). by repeat split.
Qed.

(** Without a dot in its name a connection has no pair. *)
Lemma cold_pair x connID w :
  clientInv x w -> hotPairConnIDSep ∉ connID -> st_pair (default newConnState (conns w !! connID)) = None.
Proof.
  intros Hw Hd. destruct (conns w !! connID) as [st|] eqn:E; [|done]. cbn.
  destruct (st_pair st) as [i|] eqn:Hp; [|done].
  destruct (ci_hot _ _ Hw _ _ E) as (_ & ? & _); [by rewrite Hp|done].
Qed.

Lemma inv_insert_cold x connID st w :
  clientInv x w -> hotPairConnIDSep ∉ connID -> st_pair st = None ->
  clientInv x (setConns <[connID := st]> w).
Proof.
  intros Hw Hd Hp. apply inv_insert; [done| |by intros H].
  by rewrite Hp, <- default_pair, (cold_pair x).
Qed.

Lemma inv_delete_cold x connID w :
  clientInv x w -> hotPairConnIDSep ∉ connID -> clientInv x (setConns (delete connID) w).
Proof.
  intros Hw Hd. pose proof (cold_pair x connID w Hw Hd) as Hp.
  destruct (conns w !! connID) as [st|] eqn:E; [by apply inv_delete with st|].
  apply (inv_core x w); [|done]. split; try done. rewrite conns_setConns. by apply delete_id.
Qed.

Lemma inv_RegisterUDP x connID u w :
  clientInv x w -> hotPairConnIDSep ∉ connID -> clientInv x (RegisterUDP connID u w).
Proof.
  intros Hw Hd. pose proof (cold_pair x connID w Hw Hd) as Hp. unfold RegisterUDP, newSignal.
  set (st0 := default newConnState (conns w !! connID)) in *.
  destruct (st_connected st0); case_bool_decide;
    match goal with |- clientInv x (w <| w_pool := _ <| cp_conns ::= <[connID := ?st]> |> |>) =>
      apply (inv_core x (setConns <[connID := st]> w)); [by split|]; by apply inv_insert_cold end.
Qed.

Lemma inv_registerRace x connID target w :
  clientInv x w -> hotPairConnIDSep ∉ connID -> clientInv x (registerRace connID target w).
Proof.
  intros Hw Hd. unfold registerRace.
  match goal with |- clientInv x (updP (fun p => p <| cp_conns ::= <[connID := ?st]> |>) w) =>
    apply (inv_insert_cold x connID st w) end; [done|done|]. by apply (cold_pair x).
Qed.

(** ** Dials *)
Definition okAfter {A} (I : Client -> Prop) (r : Client * outcome A) : Prop :=
  match r with (_, Panicked) => True | (w, _) => I w end.

Lemma keeps_okAfter {A} I (m : M Client A) w : keeps I m -> I w -> okAfter I (m w).
Proof. intros Hm Hw. exact (Hm w Hw). Qed.

Lemma registerTCP_lookup connID target tcp rt w :
  conns w !! connID = None -> exists st, conns (registerTCP connID target tcp rt w) !! connID = Some st
    /\ st_pair st = None /\ st_udpSink st = None /\ st_target st = target.
Proof.
  intros E. unfold registerTCP, newSignal. rewrite E. cbn [default].
  eexists. split; [apply lookup_insert_eq|]. by case_bool_decide.
Qed.

Lemma registerAndBroadcast_inv connID target first tcp rt hp w :
  clientInv hp w -> target <> PrebindTarget -> conns w !! connID = None ->
  (forall i, hp = Some i -> hasWarmer w = true /\ hotPairConnIDSep ∈ connID) ->
  okAfter (clientInv None) (registerAndBroadcastTCPWithPair connID target first tcp rt hp w).
Proof.
  intros Hw Ht Hc Hhot. unfold registerAndBroadcastTCPWithPair, bind at 1, modify at 1, bind at 1, get at 1.
  destruct (registerTCP_lookup connID target tcp rt w Hc) as (st & Est & Ep & Es & Et).
  apply (inv_registerTCP hp connID target tcp rt) in Hw; [|done].
  set (w1 := registerTCP connID target tcp rt w) in *. set (msg := EncodeMessage _ _ _ _).
  destruct hp as [i|]; [|by apply keeps_broadcastRequest].
  destruct (Hhot i eq_refl) as [Hon Hdot]. unfold bind at 1, modify at 1, bind at 1, get at 1.
  assert (clientInv None (presetPair connID i w1)) as H2.
  { apply (inv_preset i connID st); try done. congruence. }
  assert ((st_pair <$> conns (presetPair connID i w1) !! connID) = Some (Some i)) as Hp.
  { unfold presetPair. rewrite alter_insert, Est, conns_setConns, lookup_insert_eq. done. }
  set (w2 := presetPair connID i w1) in *. clearbody w2. unfold bind at 1.
  pose proof (net_core (asyncWriteDirect (config w2) (pairUplink i w2) BinaryMessage msg) w2) as Hs.
  unfold writeTo. destruct (net _ w2) as [w3 [[e|]| |]]; cbn in Hs; [|by apply (inv_core _ w2)..|done].
  unfold bind at 1, modify at 1. apply keeps_broadcastRequest, inv_fallback; [by apply (inv_core _ w2)|].
  by rewrite (sc_conns _ _ Hs).
Qed.

Lemma HotPairConnID_dot key uuid :
  key <> [] -> uuid <> [] -> hotPairConnIDSep ∈ HotPairConnID key uuid.
Proof.
  intros Hk Hu. unfold HotPairConnID. rewrite !bool_decide_false by done. cbn [orb]. set_solver.
Qed.

Lemma acquireForDial_inv w w' hp :
  clientInv None w -> acquireForDial w = (w', hp) ->
  clientInv hp w' /\ conns w' = conns w /\ w_pool w' = w_pool w
  /\ forall i, hp = Some i -> hasWarmer w = true /\ exists p, w_heap w' !! i = Some p.
Proof.
  intros Hw. unfold acquireForDial. destruct (hasWarmer w) eqn:Hon.
  - intros E. destruct (inv_acquire w w' hp Hw E) as (H1 & H2 & H3 & _ & H5).
    split; [done|]. split; [done|]. split; [done|]. intros i Hi. split; [done|by apply H5].
  - intros [= <- <-]. split; [done|]. by repeat split.
Qed.

Lemma dialBegin_inv uuid target w :
  clientInv None w -> freshID uuid w -> target <> PrebindTarget ->
  okAfter (clientInv None) (dialBegin uuid target w).
Proof.
  intros Hw (Hu & Hd & Hfu & Hfk) Ht. unfold dialBegin, bind at 1.
  destruct (acquireForDial w) as [w1 hp] eqn:Ea.
  destruct (acquireForDial_inv w w1 hp Hw Ea) as (H1 & Ec & Epool & Hp).
  unfold bind at 1, get at 1. set (connID := dialConnID uuid hp w1).
  assert (conns w1 !! connID = None /\ (forall i, hp = Some i -> hotPairConnIDSep ∈ connID)) as [Hnone Hdot].
  { rewrite Ec. unfold connID, dialConnID. destruct hp as [i|]; [|done].
    destruct (Hp i eq_refl) as (_ & p & Hi). cbn [mbind option_bind]. rewrite Hi. split; [apply Hfk|]. intros _ _.
    apply HotPairConnID_dot; [|done]. by destruct (ci_keys _ _ H1 i p Hi). }
  do 2 (unfold bind at 1, openTCP at 1). set (w2 := updP _ w1). set (w3 := updP _ w2).
  assert (okAfter (clientInv None) (registerAndBroadcastTCPWithPair connID target []
    (Some (fresh (dom (cp_tcps (w_pool w1))))) socks5 hp w3)) as Hreg.
  { apply registerAndBroadcast_inv; [|done|exact Hnone|].
    - apply (inv_core _ w1); [by split|done].
    - intros i Hi. split; [|by apply (Hdot i)]. destruct (Hp i Hi) as [Hon _].
      change (hasWarmer w3) with (hasWarmer w1). unfold hasWarmer, config in *. by rewrite Epool. }
  unfold okAfter, bind in *. destruct (registerAndBroadcastTCPWithPair _ _ _ _ _ _ w3) as [w4 [[]| |]]; done.
Qed.

(** ** Streams and UDP channels *)
Abbreviation keepsI := (keeps (clientInv None)).

Lemma keeps_sendUp connID t data : keepsI (sendUp connID t data).
Proof.
  apply keeps_bind; [apply keeps_get|]. intros []; [apply keeps_writeTo|].
  apply keeps_bind; [apply keeps_broadcast|intros _; apply keeps_ret].
Qed.

Lemma keeps_dialEnd d ev : keepsI (dialEnd d ev).
Proof.
  assert (keepsI (let! i := openStream (pd_connID d) (pd_source d) in ret (inr i : dialError + streamid))).
  { apply keeps_bind; [|intros; apply keeps_ret]. apply keeps_core. intros w. by split. }
  unfold dialEnd. destruct (pd_connected d) as [g|]; [|done]. destruct ev.
  - apply keeps_bind; [apply keeps_get|]. intros []; [|apply keeps_block].
    apply keeps_bind; [|done]. apply keeps_core_modify. intros w. by split.
  - apply keeps_bind; [apply keeps_Unregister|intros _; apply keeps_ret].
  - apply keeps_bind; [apply keeps_Unregister|intros _; apply keeps_ret].
Qed.

Lemma keeps_streamWrite i data : keepsI (streamWrite i data).
Proof.
  apply keeps_bind; [apply keeps_get|]. intros [s|]; [|apply keeps_block].
  apply keeps_bind; [apply keeps_sendUp|]. intros []; apply keeps_ret.
Qed.

Lemma keeps_streamCloseWrite i : keepsI (streamCloseWrite i).
Proof.
  apply keeps_bind; [apply keeps_get|]. intros [s|]; [|apply keeps_block].
  apply keeps_bind; [apply keeps_sendUp|intros _; apply keeps_ret].
Qed.

Lemma keeps_updStream i f : keepsI (modify (updStream i f)).
Proof. apply keeps_core_modify. intros w. by split. Qed.

Lemma keeps_streamClose i : keepsI (streamClose i).
Proof.
  apply keeps_bind; [apply keeps_get|]. intros [s|]; [|apply keeps_block].
  destruct (ps_once s); [|apply keeps_block|apply keeps_ret].
  apply keeps_bind; [apply keeps_updStream|]. intros _.
  apply keeps_bind; [apply keeps_sendUp|]. intros _.
  apply keeps_bind; [apply keeps_core_modify; intros w; by split|]. intros _.
  apply keeps_bind; [apply keeps_Unregister|intros _; apply keeps_updStream].
Qed.

Lemma inv_newUDP x u c w :
  clientInv x w -> hotPairConnIDSep ∉ uc_connID c ->
  clientInv x (updP (fun p => p <| cp_udps ::= <[u := c]> |>) w).
Proof.
  intros [Hw Hr Hh Hk Hu] Hd. split; try done; [by apply (warmerInv_same w)|].
  intros u' c'. cbn. intros [[_ <-]|[_ H]]%lookup_insert_Some; [done|by apply (Hu u')].
Qed.

Lemma DialUDP_inv uuid blocked w :
  clientInv None w -> hotPairConnIDSep ∉ uuid -> okAfter (clientInv None) (DialUDP uuid blocked w).
Proof. intros Hw Hd. apply inv_RegisterUDP; [by apply inv_newUDP|done]. Qed.

Lemma keeps_StartUDPRace connID target : hotPairConnIDSep ∉ connID -> keepsI (StartUDPRace connID target).
Proof.
  intros Hd. apply keeps_bind; [apply keeps_modify; intros w Hw; by apply inv_registerRace|]. intros _.
  apply keeps_bind; [apply keeps_get|]. intros meta. apply keeps_broadcastRequest.
Qed.

Lemma keeps_startRace u connID target : hotPairConnIDSep ∉ connID -> keepsI (startRace u connID target).
Proof.
  intros Hd. apply keeps_bind; [apply keeps_get|]. intros []; [apply keeps_ret|].
  apply keeps_bind; [by apply keeps_updUDP|]. intros _. by apply keeps_StartUDPRace.
Qed.

Lemma keeps_udpSend u target data : keepsI (udpSend u target data).
Proof.
  apply keeps_get_bind. intros w Hw. destruct (udpChannel u w) as [c|] eqn:E; [|done].
  pose proof (ci_udp _ _ Hw u c E) as Hd. clear E. revert w Hw. destruct (uc_done c); [apply keeps_ret|].
  destruct (SplitHostPort target) as [[host port]|]; [|apply keeps_ret].
  apply (keeps_bind (clientInv None)); [apply keeps_get|]. intros strategy.
  destruct (udpDropped _ _ _ _); [apply keeps_ret|].
  apply keeps_bind; [by apply keeps_startRace|]. intros _. apply keeps_bind; [apply keeps_get|].
  intros []; (apply keeps_bind; [|intros; apply keeps_ret]); [apply keeps_writeTo|apply keeps_broadcast].
Qed.

Lemma keeps_udpReadFrom u b : keepsI (udpReadFrom u b).
Proof.
  apply keeps_bind; [apply keeps_get|]. intros [c|]; [|apply keeps_block].
  destruct (uc_down c) as [|dg rest].
  - destruct (uc_done c); [apply keeps_ret|apply keeps_block].
  - destruct (_ && _); [apply keeps_ret|].
    apply keeps_bind; [by apply keeps_updUDP|intros _; apply keeps_ret].
Qed.

(** ** Reverse connections *)
Lemma keeps_reverseSend r msg : keepsI (reverseSend r msg).
Proof.
  apply keeps_bind; [apply keeps_get|]. intros [rc|]; [|apply keeps_ret].
  destruct (0 <? _); (apply keeps_bind; [|intros _; apply keeps_ret]);
    [apply keeps_writeTo|apply keeps_broadcast].
Qed.

Lemma keeps_sendReverseClose r connID : keepsI (sendReverseClose r connID).
Proof.
  apply keeps_bind; [apply keeps_core_modify, closeReverse_core|]. intros _.
  apply keeps_bind; [apply keeps_reverseSend|]. intros _.
  apply keeps_core_modify. intros w. by split.
Qed.

Lemma addReverseConn_core connID target resolved ch w : sameCore w (addReverseConn connID target resolved ch w).1.
Proof. unfold addReverseConn. destruct (reverseConns w !! connID); by split. Qed.

Lemma keeps_reverseClassic chID connID target resolved : keepsI (reverseClassic chID connID target resolved).
Proof.
  apply keeps_bind.
  - apply keeps_core. intros w. pose proof (addReverseConn_core connID target resolved chID w).
    by destruct (addReverseConn _ _ _ _ w).
  - intros []; [|apply keeps_ret]. apply keeps_bind; [apply keeps_broadcast|]. intros _.
    apply keeps_core_modify. intros w. by split.
Qed.

Lemma keeps_handleReverseTCPConnect resolve chID connID meta :
  keepsI (handleReverseTCPConnect resolve chID connID meta).
Proof.
  intros w Hw. unfold handleReverseTCPConnect. destruct (negb _); [done|].
  destruct meta as [|b target]; [done|]. set (resolved := if _ =? 0 then _ else _).
  destruct (reverseHotPair chID connID w) as [i|]; [|by apply keeps_reverseClassic].
  unfold addAndDial. pose proof (addReverseConn_core connID target resolved chID w) as Hc.
  destruct (addReverseConn _ _ _ _ w) as [w1 [r|]]; cbn in Hc; apply (inv_core None _ _ Hc) in Hw.
  - apply (inv_core _ w1); [by split|done].
  - by apply keeps_reverseClassic.
Qed.

Lemma keeps_handleReverseServerMsg chID mtype connID meta payload werr :
  keepsI (handleReverseServerMsg chID mtype connID meta payload werr).
Proof.
  apply keeps_bind; [apply keeps_get|]. intros [r|]; [|apply keeps_ret].
  apply keeps_bind; [apply keeps_get|]. intros [rc|]; [|apply keeps_ret].
  destruct (_ =? MsgSelectDownlink).
  { destruct (negb _); [apply keeps_ret|]. destruct (_ <=? _); [|apply keeps_ret].
    apply keeps_core_modify. intros w. by split. }
  destruct (_ =? MsgTCPData).
  - destruct (negb _); [apply keeps_ret|]. destruct (rc_conn rc); [|apply keeps_ret].
    apply keeps_bind; [apply keeps_writeTCP|]. intros []; [apply keeps_ret|apply keeps_sendReverseClose].
  - destruct (_ =? MsgTCPClose); [apply keeps_sendReverseClose|apply keeps_ret].
Qed.

Lemma keeps_reverseDialed r connID ok : keepsI (reverseDialed r connID ok).
Proof.
  unfold reverseDialed. destruct ok.
  - apply keeps_bind; [apply keeps_openTCP|]. intros c.
    apply keeps_bind; [apply keeps_core_modify; intros w; by split|]. intros _.
    apply keeps_bind; [apply keeps_broadcast|]. intros _. apply keeps_core_modify. intros w. by split.
  - apply keeps_bind; [apply keeps_broadcast|]. intros _. apply keeps_core_modify. intros w. by split.
Qed.

Lemma keeps_reversePump r connID c read : keepsI (reversePump r connID c read).
Proof.
  destruct read; [apply keeps_reverseSend|]. apply keeps_bind; [apply keeps_sendReverseClose|].
  intros _. apply keeps_core_modify. intros w. by split.
Qed.

Lemma keeps_reverseOnChannelReady newID chID : keepsI (reverseOnChannelReady newID chID).
Proof.
  intros w Hw. unfold reverseOnChannelReady. destruct (_ || _); [done|].
  apply (keeps_forEach (clientInv None)).
  - intros spec _. apply keeps_bind.
    + apply keeps_core. intros w1. unfold getOrCreateListenerID.
      destruct (cp_reverseListenerMap (w_pool w1) !! spec); [done|]. cbn.
      destruct (cp_reverseListenerState (w_pool w1) !! newID spec); by split.
    + intros id. apply keeps_bind; [apply keeps_writeTo|intros _; apply keeps_ret].
  - destruct (cp_reverseRegOnceDone (w_pool w)); [done|]. apply (inv_core None w); [by split|done].
Qed.

(** ** Messages *)
Lemma keeps_handleSelectUplink chID connID meta : keepsI (handleSelectUplink chID connID meta).
Proof.
  apply keeps_bind; [apply keeps_noteUplink|]. intros _. apply keeps_bind.
  { apply keeps_core_modify. intros w. destruct (isPrebind connID); by split. }
  intros _. apply keeps_bind; [apply keeps_select|]. intros [[] chosen]; [|apply keeps_ret].
  apply keeps_bind; [apply keeps_writeTo|]. intros _. apply keeps_core_modify. intros w.
  destruct (_ && _); [|done]. unfold HandlePrebindResult. destruct (_ <? _); by split.
Qed.

Lemma keeps_handleTCPData chID connID payload werr : keepsI (handleTCPData chID connID payload werr).
Proof.
  apply keeps_bind; [apply keeps_downlinkFor|]. intros [_ chosen]. destruct (negb _); [apply keeps_ret|].
  apply keeps_bind; [apply keeps_get|]. intros [c|].
  - apply keeps_bind; [apply keeps_writeTCP|]. intros []; [apply keeps_ret|].
    apply keeps_bind; [apply keeps_writeTo|]. intros _.
    apply keeps_bind; [apply keeps_core_modify; intros w; by split|intros _; apply keeps_Unregister].
  - apply keeps_bind; [apply keeps_writeTo|intros _; apply keeps_Unregister].
Qed.

Lemma keeps_handleTCPClose chID connID : keepsI (handleTCPClose chID connID).
Proof.
  apply keeps_bind; [apply keeps_noteUplink|]. intros _. apply keeps_bind; [apply keeps_get|]. intros c.
  apply keeps_bind; [apply keeps_core_modify; intros w; apply closeTCPopt_core|].
  intros _. apply keeps_Unregister.
Qed.

Lemma keeps_handleUDPData chID connID meta payload b : keepsI (handleUDPData chID connID meta payload b).
Proof.
  apply keeps_bind; [apply keeps_downlinkFor|]. intros [sel chosen]. destruct (negb _); [apply keeps_ret|].
  apply keeps_bind.
  - destruct sel; [|apply keeps_ret]. apply keeps_bind; [apply keeps_writeTo|intros _; apply keeps_ret].
  - intros _. apply keeps_core_modify. intros w. destruct (sinkOf connID w); [|done].
    apply updUDP_core. intros c. by case_match.
Qed.

Lemma keeps_handleUDPClose chID connID : keepsI (handleUDPClose chID connID).
Proof.
  apply keeps_bind; [apply keeps_noteUplink|]. intros _. apply keeps_bind; [apply keeps_get|].
  intros []; [apply keeps_closeSink|apply keeps_Unregister].
Qed.

Lemma keeps_handleConnStatus connID meta : keepsI (handleConnStatus connID meta).
Proof.
  destruct meta as [|b meta]; [apply keeps_ret|]. cbn. destruct (_ =? _); [|apply keeps_Unregister].
  apply keeps_core_modify. intros w. apply signalConnected_core.
Qed.

Lemma keeps_handleForward hi chID mtype connID meta payload :
  keepsI (handleForward hi chID mtype connID meta payload).
Proof.
  unfold handleForward. destruct (_ =? MsgTCPConnect); [apply keeps_handleReverseTCPConnect|].
  destruct (_ =? MsgReverseListenResult).
  { apply keeps_core_modify. intros w. destruct meta; by split. }
  destruct (_ =? MsgSelectUplink); [apply keeps_handleSelectUplink|].
  destruct (_ =? MsgConnStatus); [apply keeps_handleConnStatus|].
  destruct (_ =? MsgTCPData); [apply keeps_handleTCPData|].
  destruct (_ =? MsgTCPClose); [apply keeps_handleTCPClose|].
  destruct (_ =? MsgUDPData); [apply keeps_handleUDPData|].
  destruct (_ =? MsgUDPClose); [apply keeps_handleUDPClose|].
  destruct (_ =? MsgBackpressure).
  { apply keeps_core_modify. intros w. destruct meta; by split. }
  destruct (_ =? MsgChannelReset); [|apply keeps_ret].
  apply keeps_modify. intros w Hw. unfold handleChannelReset. destruct (_ <=? _); [|done].
  apply inv_invalidateChannel, (inv_core _ w); [by split|done].
Qed.

Lemma keeps_handleMessage hi chID msgType msg : keepsI (handleMessage hi chID msgType msg).
Proof.
  unfold handleMessage. destruct (negb _); [apply keeps_ret|].
  apply keeps_bind; [apply keeps_core_modify; intros w; by split|]. intros _.
  destruct (DecodeMessage msg) as [[e|f]|]; [apply keeps_ret| |apply keeps_ret].
  apply keeps_bind; [by apply keeps_updConn|]. intros _. apply keeps_bind; [apply keeps_get|].
  intros []; [apply keeps_handleReverseServerMsg|apply keeps_handleForward].
Qed.

Lemma keeps_endSession idx : keepsI (endSession idx).
Proof.
  apply keeps_bind; [apply keeps_core_modify; intros w; by split|]. intros _.
  apply keeps_bind; [apply keeps_modify; intros w; apply inv_invalidateChannel|].
  intros _. apply keeps_cleanupChannel.
Qed.

Lemma keeps_beginSession newID idx : keepsI (beginSession newID idx).
Proof.
  apply keeps_bind; [apply keeps_core_modify; intros w; by split|].
  intros _. apply keeps_reverseOnChannelReady.
Qed.

(** ** Regions of the warmer *)

(** The writes of the warmer reach the network only. *)
Definition samePool (p p' : ClientPool) : Prop :=
  cp_conns p' = cp_conns p /\ cp_config p' = cp_config p /\ cp_udps p' = cp_udps p.

Lemma poolWrite_same chID data p : samePool p (poolWrite chID data p).1.
Proof. unfold poolWrite. by destruct (asyncWriteDirect _ _ _ _ _) as [s [[]| |]]. Qed.

Lemma firstWrite_same chs msg : forall p, samePool p (firstWrite chs msg p).1.
Proof.
  induction chs as [|ch chs IH]; intros p; [done|]. cbn. pose proof (poolWrite_same ch msg p) as H.
  destruct (poolWrite ch msg p) as [p1 []]; [done|]. cbn in H. destruct H as (H1 & H2 & H3).
  destruct (IH p1) as (? & ? & ?). repeat split; congruence.
Qed.

Lemma writeEach_same chs msg p : samePool p (writeEach chs msg p).1.
Proof.
  unfold writeEach. generalize 0. revert p. induction chs as [|ch chs IH]; intros p n; [done|]. cbn.
  pose proof (poolWrite_same ch msg p) as (H1 & H2 & H3).
  destruct (poolWrite ch msg p) as [p1 ok]. cbn in *.
  destruct (IH p1 (if ok then n + 1 else n)) as (? & ? & ?). repeat split; congruence.
Qed.

Lemma pool_core p w : samePool (w_pool w) p -> sameCore w (w <| w_pool := p |>).
Proof.
  intros (H1 & H2 & H3). split; try done; unfold config, conns, udpIDs; cbn; congruence.
Qed.

Lemma flush_core w : sameCore w (flushHotPairNotify w).
Proof.
  unfold flushHotPairNotify. case_bool_decide; [by split|]. case_bool_decide; [by split|].
  match goal with |- context [firstWrite ?l ?m ?p] => pose proof (firstWrite_same l m p) as Hp;
    destruct (firstWrite l m p) as [p1 ok] end.
  cbn in Hp. destruct Hp as (H1 & H2 & H3).
  destruct ok; split; try done; unfold config, conns, udpIDs; cbn; congruence.
Qed.

Lemma buildBegin_inv uuid av w :
  clientInv None w -> hotPairConnIDSep ∉ uuid -> clientInv None (buildBegin uuid av w).1.
Proof.
  intros Hw Hd. unfold buildBegin. destruct (w_done w); [done|]. destruct (_ <? 2); [done|].
  set (connID := hotPairKeyPrefix ++ uuid).
  assert (hotPairConnIDSep ∉ connID) as Hdc.
  { unfold connID. intros [H|H]%elem_of_app; [|done]. revert H.
    apply (bool_decide_eq_true_1 (hotPairConnIDSep ∉ hotPairKeyPrefix)). vm_compute. reflexivity. }
  set (msg := EncodeMessage _ _ (_ :: _) _). set (w1 := w <| w_pool ::= addPrebindState connID |>).
  assert (clientInv None w1) as H1.
  { apply (inv_core _ (setConns <[connID := newConnState <| st_target := PrebindTarget |>
      <| st_start := Some (cn_now (cp_net (w_pool w))) |>
      <| st_connected := Some (fresh (dom (cp_signals (w_pool w)))) |>]> w)); [by split|].
    by apply inv_insert_cold. }
  change (wp_addPrebind connID (w_pool w)) with (w_pool w1).
  match goal with |- context [writeEach ?l ?m (w_pool w1)] => pose proof (writeEach_same l m (w_pool w1)) as Hp1;
    destruct (writeEach l m (w_pool w1)) as [p1 n1] end.
  match goal with |- context [writeEach ?l ?m p1] => pose proof (writeEach_same l m p1) as Hp2;
    destruct (writeEach l m p1) as [p2 n2] end.
  cbn [fst] in Hp1, Hp2. assert (samePool (w_pool w1) p2) as Hp.
  { destruct Hp1 as (? & ? & ?), Hp2 as (? & ? & ?). repeat split; congruence. }
  assert (clientInv None (w <| w_pool := p2 |>)) as H2
    by (by apply (inv_core _ w1); [apply (pool_core p2 w1)|]).
  destruct (n2 =? 0); [|done]. by apply (inv_delete_cold None connID (w <| w_pool := p2 |>)).
Qed.

Lemma completePair_client res w :
  clientInv None w -> pr_connID res <> [] -> hotPairConnIDSep ∉ pr_connID res ->
  clientInv None (completePair res w).1.
Proof.
  intros Hw Hne Hd. pose proof (completePair_inv res w (ci_warmer _ _ Hw)) as Hwi.
  assert (forall w1, clientInv None w1 -> clientInv None (deletePrebindState (pr_connID res) w1)) as Hdel
    by (intros w1 H1; exact (inv_delete_cold None (pr_connID res) w1 H1 Hd)).
  revert Hwi. unfold completePair. destruct (pr_err res); [by intros _; apply Hdel|].
  destruct (w_done w); [by intros _; apply Hdel|]. set (i := fresh (dom (w_heap w))). cbn [fst].
  match goal with |- context [queueHotPairNotify i ?x] => set (w1 := x) end.
  intros Hwi. apply Hdel.
  assert (sameCore w1 (queueHotPairNotify i w1)) as Hq.
  { unfold queueHotPairNotify. destruct (w_heap w1 !! i); [|done]. case_bool_decide; by split. }
  apply (inv_core _ _ _ Hq). assert (w_heap w !! i = None) as Hi by apply not_elem_of_dom, is_fresh.
  destruct Hw as [Hw Hr Hh Hk Hu]. split; try done.
  - destruct Hq as [Eh El Ep _ _ _].
    exact (warmerInv_same (deletePrebindState (pr_connID res) (queueHotPairNotify i w1)) w1
      (eq_sym Eh) (eq_sym El) (eq_sym Ep) Hwi).
  - intros j. change (holders j w1) with (holders j w). rewrite <- (Hr j). unfold refsOf. cbn.
    destruct (decide (j = i)) as [->|]; [by rewrite lookup_insert_eq, Hi|by rewrite lookup_insert_ne].
  - intros j p. cbn. intros [[_ <-]|[_ Hj]]%lookup_insert_Some; [done|by apply (Hk j)].
Qed.

Lemma promote_quiet i w : quiet w (promoteToHead i w).
Proof. unfold promoteToHead. case_bool_decide; by apply quiet_heap. Qed.

Lemma replace_quiet i h w : quiet w (replaceHeadWithCandidate i h w).
Proof.
  unfold replaceHeadWithCandidate. case_bool_decide; [|done]. destruct h as [h|]; [|by apply quiet_heap].
  destruct (_ && _); by apply quiet_heap.
Qed.

Lemma discard_quiet i w : quiet w (discardCandidatePair i w).
Proof. unfold discardCandidatePair. destruct (_ <=? 0); [apply quiet_closeOut|apply quiet_setState]. Qed.

Lemma invalidatePair_quiet i w : quiet w (invalidatePair i w).
Proof.
  unfold invalidatePair. destruct (negb _); [done|]. destruct (_ <=? 0); [|apply quiet_setState].
  etrans; [apply quiet_setState|apply quiet_closeOut].
Qed.

Lemma trim_quiet w : quiet w (trimExcessPairs w).
Proof.
  unfold trimExcessPairs. destruct (_ <=? 0); [done|]. etrans; [apply quiet_trimLoop|apply quiet_ensure].
Qed.

Lemma runWarmerOp_inv o w :
  clientInv None w -> opOK (OpWarmer o) w -> clientInv None (runWarmerOp o w).
Proof.
  intros Hw Hok. pose proof (ci_warmer _ _ Hw) as Hwi. destruct o; cbn [runWarmerOp] in *.
  - apply (inv_core _ w); [by split|done].
  - destruct Hok. by apply completePair_client.
  - apply (inv_quiet _ w); [by apply assignPairSlot_inv|by apply quiet_updPair|done].
  - apply (inv_core _ w); [|done]. unfold queueHotPairNotify. destruct (w_heap w !! i); [|done].
    case_bool_decide; by split.
  - apply (inv_quiet _ w); [apply ensurePrimaryLocked_inv, Hwi|apply quiet_ensure|done].
  - by rewrite pruneIdleDrainingPairs_noop.
  - apply (inv_quiet _ w); [by apply discardCandidatePair_inv|apply discard_quiet|done].
  - by apply inv_invalidate.
  - apply (inv_quiet _ w); [by apply invalidatePair_inv|apply invalidatePair_quiet|done].
  - apply (inv_quiet _ w); [by apply promoteToHead_inv|apply promote_quiet|done].
  - apply (inv_quiet _ w); [by apply replaceHeadWithCandidate_inv|apply replace_quiet|done].
  - apply (inv_quiet _ w); [by apply deduplicatePairs_inv|by apply quiet_dedup|done].
  - apply (inv_quiet _ w); [by apply trimExcessPairs_inv|apply trim_quiet|done].
  - cbn. destruct (w_notifyTimer w); [|done]. by apply (inv_core _ w); [apply flush_core|].
  - apply (inv_core _ w); [by split|done].
  - by apply buildBegin_inv.
  - exact (inv_delete_cold None connID w Hw Hok).
Qed.

(** ** Every operation *)
Lemma keeps_discard {A} (m : M Client A) w : okAfter (clientInv None) (m w) ->
  okAfter (clientInv None) (discard m w).
Proof. unfold discard, okAfter, bind. by destruct (m w) as [w' []]. Qed.

Lemma runOp_inv o w : clientInv None w -> opOK o w -> okAfter (clientInv None) (runOp o w).
Proof.
  intros Hw Hok. destruct o; cbn [runOp opOK] in *; try apply keeps_discard.
  - apply (inv_core _ w); [by split|done].
  - by apply keeps_handleMessage.
  - by apply keeps_beginSession.
  - by apply keeps_endSession.
  - destruct Hok. by apply dialBegin_inv.
  - by apply keeps_dialEnd.
  - by apply keeps_streamWrite.
  - by apply keeps_streamCloseWrite.
  - by apply keeps_streamClose.
  - destruct Hok as (_ & ? & _). by apply DialUDP_inv.
  - by apply keeps_udpSend.
  - by apply keeps_udpReadFrom.
  - by apply keeps_closeSink.
  - by apply keeps_reverseDialed.
  - by apply keeps_reversePump.
  - apply (inv_core _ w); [|done]. unfold prebindTimer.
    destruct (cp_prebindRacers (w_pool w) !! connID) as [pr|]; [|done]. destruct (pr_logged pr); by split.
  - by apply runWarmerOp_inv.
Qed.

Lemma clientStep_inv w w' : clientStep w w' -> clientInv None w -> clientInv None w'.
Proof.
  intros (o & Hok & <- & Hp) Hw. pose proof (runOp_inv o w Hw Hok) as H. unfold okAfter in H.
  by destruct (runOp o w) as [w' []].
Qed.

Lemma newClient_inv cfg sched : clientInv None (newClient cfg sched).
Proof.
  split; cbn; [apply NewPairWarmer_inv|..].
  - intros i. unfold refsOf, holders. cbn. rewrite lookup_empty. unfold conns. cbn.
    by rewrite mapSum_empty.
  - intros id st. unfold conns. cbn. by rewrite lookup_empty.
  - intros i p. by rewrite lookup_empty.
  - intros u c. by rewrite lookup_empty.
Qed.

Lemma reachable_inv cfg sched w : rtc clientStep (newClient cfg sched) w -> clientInv None w.
Proof.
  intros Hr. apply (rtc_invariant clientStep (clientInv None)) with (newClient cfg sched);
    [intros ? ? ?; by apply clientStep_inv|done|apply newClient_inv].
Qed.
End System.

(** * Theorems *)


(** Two channels, a pair over them, and a dial that uses it. *)
Definition hotCfg : Config := DefaultConfig <| Connections := 2 |> <| EnableHotPair := true |>.

Definition after (o : clientOp) (w : Client) : Client := (runOp o w).1.
Definition returns (o : clientOp) (w : Client) : bool :=
  match (runOp o w).2 with Panicked => false | _ => true end.

Lemma step_after o w : opOK o w -> returns o w = true -> clientStep w (after o w).
Proof. intros H1 H2. exists o. split; [done|]. split; [done|]. unfold returns in H2. by destruct (runOp o w).2. Qed.

Definition runOps (ops : list clientOp) (w : Client) : Client := foldl (fun w o => after o w) w ops.
Fixpoint opsOK (ops : list clientOp) (w : Client) : Prop :=
  match ops with
  | [] => True
  | o :: ops => opOK o w /\ returns o w = true /\ opsOK ops (after o w)
  end.

Lemma runOps_run ops : forall w, opsOK ops w -> rtc clientStep w (runOps ops w).
Proof.
  induction ops as [|o ops IH]; intros w H; [apply rtc_refl|]. destruct H as (H1 & H2 & H3).
  eapply rtc_l; [by apply step_after|by apply IH].
Qed.

Definition noID (s : bytes) : bytes := lit "listener".

Definition demoOps : list clientOp :=
  [OpBeginSession noID 0; OpBeginSession noID 1;
   OpWarmer (WoComplete (mkPrebindResult (lit "prebind-k") 1 2 false))].
Definition client0 : Client := newClient hotCfg [].
Definition client1 : Client := runOps demoOps client0.
Definition demoDial : clientOp := OpDialBegin (lit "u1") (lit "example.org:443").
Definition client2 : Client := after demoDial client1.

Lemma nodot (s : bytes) : bool_decide (hotPairConnIDSep ∉ s) = true -> hotPairConnIDSep ∉ s.
Proof. apply bool_decide_eq_true_1. Qed.

Lemma client1_run : rtc clientStep client0 client1.
Proof.
  apply runOps_run. split; [exact I|]. split; [vm_compute; reflexivity|].
  split; [exact I|]. split; [vm_compute; reflexivity|].
  split; [split; [discriminate|apply nodot; vm_compute; reflexivity]|].
  split; [vm_compute; reflexivity|exact I].
Qed.

Lemma empty_conns w : (size (conns w) =? 0)%nat = true -> conns w = ∅.
Proof. intros H%Nat.eqb_eq. by apply map_size_empty_iff. Qed.

Lemma client2_run : rtc clientStep client0 client2.
Proof.
  transitivity client1; [apply client1_run|]. apply rtc_once, step_after; [|vm_compute; reflexivity].
  assert (conns client1 = ∅) as E by (apply empty_conns; vm_compute; reflexivity).
  split; [|discriminate]. split; [discriminate|]. split; [apply nodot; vm_compute; reflexivity|].
  rewrite E. split; [done|intros; apply lookup_empty].
Qed.

Definition demoConn : bytes := lit "prebind-k.u1".



