(* ===== verification/ClientSpecs.v ===== *)
(** What the operations of the client's pool achieve: the end of a connection, the
    choice of its downlink, the stream it receives; and what goes wrong when a UDP
    channel is closed, a hot dial comes back late, or no channel is up. *)

From S2P Require Import Prelude Outcome Protocol GoStrings Config Channels PairWarmer PairWarmerInv PairWarmerSpecs PairWarmerQueue ClientNet ClientNetInv ClientState ClientPool ClientInv ClientReverse ClientHandler ClientDialer ClientSystem.
Import Config.Client.

Implicit Types (w : Client) (connID : bytes) (i : pid).

(** ** The end of a connection *)
Section Unregister.

Definition shrinks w w' : Prop := conns w' ⊆ conns w.
#[local] Instance shrinks_preorder : PreOrder shrinks.
Proof. split; [intros w; unfold shrinks; done|]. intros w1 w2 w3 H1 H2. unfold shrinks in *. by etrans. Qed.

Lemma core_shrinks w w' : sameCore w w' -> shrinks w w'.
Proof. intros H. unfold shrinks. by rewrite (sc_conns _ _ H). Qed.

Lemma shrinks_writeTo chID data : moves shrinks (writeTo chID data).
Proof. intros w. apply core_shrinks, net_core. Qed.

Lemma shrinks_updUDP u f : (forall c, uc_connID (f c) = uc_connID c) -> moves shrinks (modify (updUDP u f)).
Proof. intros Hf w. apply core_shrinks. by apply (updUDP_core u f). Qed.

Lemma shrinks_stopWith (U : bytes -> M Client unit) u :
  (forall id, moves shrinks (U id)) -> moves shrinks (stopWith U u).
Proof.
  intros HU. apply moves_bind; [apply _|apply moves_get; apply _|]. intros [c|]; [|apply moves_ret; apply _].
  destruct (uc_once c); [|apply moves_block; apply _|apply moves_ret; apply _].
  apply moves_bind; [apply _|by apply shrinks_updUDP|]. intros _.
  apply moves_bind; [apply _|apply moves_get; apply _|]. intros up.
  apply moves_bind; [apply _| |].
  - destruct up; [|apply moves_ret; apply _].
    apply moves_bind; [apply _|apply shrinks_writeTo|intros _; apply HU].
  - intros _. apply moves_bind; [apply _|apply HU|]. intros _. by apply shrinks_updUDP.
Qed.

(** Two ways to end connections that agree on all smaller tables. *)
Lemma stopWith_ext (U V : bytes -> M Client unit) u w :
  (forall id, moves shrinks (U id)) ->
  (forall id w', conns w' ⊆ conns w -> U id w' = V id w') -> stopWith U u w = stopWith V u w.
Proof.
  intros HU E. unfold stopWith. apply bind_ext; [done|]. intros o w' [= E1 E2]; subst w' o.
  destruct (udpChannel u w) as [c|]; [|done]. destruct (uc_once c); [|done|done].
  set (up := updUDP u _). assert (conns (up w) = conns w) as Eup
    by (apply sc_conns; by apply updUDP_core). clearbody up.
  apply bind_ext; [done|]. intros [] w' [= E1]; subst w'. apply bind_ext; [done|].
  intros o w' [= E1 E2]; subst w' o.
  assert (forall w1, conns w1 ⊆ conns w -> U (uc_connID c) w1 = V (uc_connID c) w1) as HUV by auto.
  apply bind_ext.
  - destruct (GetUplinkChannel _ _); [|done]. apply bind_ext; [done|]. intros e w2 Hw2. apply HUV.
    pose proof (shrinks_writeTo z (EncodeMessage MsgUDPClose (uc_connID c) [] []) (up w)) as Hs.
    unfold exec in Hs. rewrite Hw2 in Hs. cbn in Hs. unfold shrinks in Hs. by rewrite Eup in Hs.
  - intros [] w2 Hw2. apply bind_ext; [|done]. apply HUV. rewrite <- Eup.
    revert Hw2. destruct (GetUplinkChannel _ _); [|by intros [= <-]]. intros Hw2.
    assert (moves shrinks (bind (writeTo z (EncodeMessage MsgUDPClose (uc_connID c) [] []))
      (fun _ => U (uc_connID c)))) as Hs
      by (apply moves_bind; [apply _|apply shrinks_writeTo|intros _; apply HU]).
    specialize (Hs (up w)). unfold exec in Hs. by rewrite Hw2 in Hs.
Qed.

Lemma shrinks_unregisterWith (U : bytes -> M Client unit) connID :
  (forall id, moves shrinks (U id)) -> moves shrinks (unregisterWith U connID).
Proof.
  intros HU. apply moves_bind; [apply _| |].
  - intros w. unfold exec. rewrite unregisterTake_eq. destruct (conns w !! connID) as [st|]; [|done].
    destruct (st_closed st); [done|]. apply delete_subseteq.
  - intros [[[tcp sink] hp]|]; [|apply moves_ret; apply _].
    apply moves_bind; [apply _|intros w; apply core_shrinks, closeTCPopt_core|]. intros _.
    apply moves_bind; [apply _| |].
    + destruct sink; [by apply shrinks_stopWith|apply moves_ret; apply _].
    + intros _ w. unfold exec, modify, releasePair. cbn. destruct hp as [i|]; [|done].
      destruct (hasWarmer w); [|done]. unfold shrinks, conns.
      by rewrite (qt_pool _ _ (ReleasePair_quiet i w)).
Qed.

Lemma shrinks_unregisterF n : forall connID, moves shrinks (unregisterF n connID).
Proof.
  induction n as [|n IH]; intros connID; [apply moves_block; apply _|]. by apply shrinks_unregisterWith.
Qed.

(** One level of the recursion, with whatever comes below. *)
Lemma unregisterWith_ext (U V : bytes -> M Client unit) connID w :
  (forall id, moves shrinks (U id)) ->
  (forall id w', (size (conns w') < size (conns w))%nat -> U id w' = V id w') ->
  unregisterWith U connID w = unregisterWith V connID w.
Proof.
  intros HU E. unfold unregisterWith. apply bind_ext; [done|]. intros r w1. rewrite unregisterTake_eq.
  destruct (conns w !! connID) as [st|] eqn:Hc; [|by intros [= <- <-]].
  destruct (st_closed st); [by intros [= <- <-]|]. intros [= <- <-]. case_bool_decide; [done|].
  apply bind_ext; [done|]. intros [] w2 [= <-]. apply bind_ext; [|done].
  destruct (st_udpSink st) as [u|]; [|done]. apply (stopWith_ext U V); [done|].
  intros id w' Hw'. apply E. rewrite (sc_conns _ _ (closeTCPopt_core _ _)), conns_setConns in Hw'.
  apply map_subseteq_size in Hw'. rewrite map_size_delete_Some in Hw' by eauto.
  assert (size (conns w) <> 0%nat); [|lia]. intros Hz%map_size_empty_inv. by rewrite Hz, lookup_empty in Hc.
Qed.

(** The size of the table is fuel enough. *)
Lemma unregisterF_fuel n : forall m connID w,
  (size (conns w) < n)%nat -> (size (conns w) < m)%nat -> unregisterF n connID w = unregisterF m connID w.
Proof.
  induction n as [|n IH]; intros m connID w Hn Hm; [lia|]. destruct m as [|m]; [lia|]. cbn.
  apply unregisterWith_ext; [apply shrinks_unregisterF|]. intros id w' Hw'. apply IH; lia.
Qed.
End Unregister.

(** The size of the table as fuel gives the recursion of the code. *)
Lemma Unregister_unfold connID w :
  Unregister connID w =
  match conns w !! connID with
  | None => (w, Ret tt)
  | Some st =>
      if st_closed st then (w, Ret tt) else
      let w := setConns (delete connID) w in
      if bool_decide (st_target st = PrebindTarget) then (w, Ret tt) else
      let w := closeTCPopt (st_tcpConn st) w in
      match st_udpSink st with
      | None => (releasePair (st_pair st) w, Ret tt)
      | Some u => (do! closeSink u in modify (releasePair (st_pair st))) w
      end
  end.
Proof.
  unfold Unregister at 1. cbn [unregisterF].
  rewrite (unregisterWith_ext _ Unregister).
  - unfold unregisterWith, bind at 1. rewrite unregisterTake_eq.
    destruct (conns w !! connID) as [st|]; [|done]. destruct (st_closed st); [done|].
    case_bool_decide; [done|]. by destruct (st_udpSink st).
  - apply shrinks_unregisterF.
  - intros id w' Hw'. apply unregisterF_fuel; lia.
Qed.


(** ** Closing a UDP channel *)

(** The channel [u] is open and its connection is in the table. *)
Definition udpOpen (u : udpid) (w : Client) : Prop :=
  exists c st, udpChannel u w = Some c /\ uc_once c = OnceNew
    /\ conns w !! uc_connID c = Some st /\ st_udpSink st = Some u
    /\ st_closed st = false /\ st_target st <> PrebindTarget.

Lemma stop_running U u c w :
  udpChannel u w = Some c -> uc_once c = OnceRunning -> stopWith U u w = (w, Blocked).
Proof. intros Hc Ho. unfold stopWith, bind, get. by rewrite Hc, Ho. Qed.

Lemma udpChannel_updUDP u f w : udpChannel u (updUDP u f w) = f <$> udpChannel u w.
Proof. unfold udpChannel, updUDP, updP. cbn. apply lookup_alter_eq. Qed.

(** While the channel is being closed, its connection cannot be ended. *)
Lemma Unregister_blocks u c st w :
  udpChannel u w = Some c -> uc_once c = OnceRunning -> conns w !! uc_connID c = Some st ->
  st_udpSink st = Some u -> st_closed st = false -> st_target st <> PrebindTarget ->
  (Unregister (uc_connID c) w).2 = Blocked.
Proof.
  intros Hu Ho Hc Hs Hcl Ht. rewrite Unregister_unfold, Hc, Hcl, bool_decide_false, Hs by done. cbv zeta.
  set (w1 := closeTCPopt (st_tcpConn st) (setConns (delete (uc_connID c)) w)). unfold bind, closeSink.
  rewrite (stop_running Unregister u c w1); [done| |done].
  unfold w1, udpChannel. by destruct (st_tcpConn st).
Qed.

(** C23: closing an open UDP channel never returns: closing it ends its connection,
    which closes the channel a second time, inside [sync.Once]. The same happens to the
    reader of a channel that receives [MsgUDPClose] for it. *)
Theorem udp_close_never_returns u w :
  udpOpen u w ->
  (udpClose u w).2 <> Ret tt
  /\ forall chID c, udpChannel u w = Some c -> (handleUDPClose chID (uc_connID c) w).2 <> Ret tt.
Proof.
  assert (forall w, udpOpen u w -> (udpClose u w).2 <> Ret tt) as Hclose.
  { clear w. intros w (c & st & Hu & Ho & Hc & Hs & Hcl & Ht).
    unfold udpClose, closeSink, stopWith, bind at 1, get at 1. rewrite Hu, Ho.
    unfold bind at 1, modify at 1. set (f := fun c => c <| uc_once := OnceRunning |> <| uc_done := true |>).
    set (w1 := updUDP u f w). assert (udpChannel u w1 = Some (f c)) as H1
      by (unfold w1; by rewrite udpChannel_updUDP, Hu).
    assert (forall w2, udpIDs w2 = udpIDs w1 -> udpChannel u w2 = Some (f c) -> conns w2 = conns w ->
      (Unregister (uc_connID c) w2).2 = Blocked) as Hb.
    { intros w2 _ Hu2 Hc2. apply (Unregister_blocks u (f c) st); try done. by rewrite Hc2. }
    assert (conns w1 = conns w) as Ec by (apply sc_conns; by apply updUDP_core).
    unfold bind at 1, get at 1. destruct (GetUplinkChannel (uc_connID c) w1) as [ch|].
    - unfold bind at 1 2. pose proof (net_core (asyncWriteDirect (config w1) ch BinaryMessage
        (EncodeMessage MsgUDPClose (uc_connID c) [] [])) w1) as Hn. unfold writeTo.
      assert (udpChannel u (net (asyncWriteDirect (config w1) ch BinaryMessage
        (EncodeMessage MsgUDPClose (uc_connID c) [] [])) w1).1 = Some (f c)) as Hu2.
      { unfold net, zoom. by destruct (asyncWriteDirect _ _ _ _ _). }
      destruct (net _ w1) as [w2 [e| |]]; cbn in Hn, Hu2; [|done|done].
      specialize (Hb w2 (sc_udps _ _ Hn) Hu2 ltac:(by rewrite (sc_conns _ _ Hn))).
      by destruct (Unregister (uc_connID c) w2) as [w3 [[]| |]].
    - unfold bind at 1, done_, ret. specialize (Hb w1 eq_refl H1 Ec). unfold bind.
      by destruct (Unregister (uc_connID c) w1) as [w3 [[]| |]]. }
  intros Hw. split; [by apply Hclose|]. intros chID c Hu.
  destruct Hw as (c' & st & Hu' & Ho & Hc & Hs & Hcl & Ht). assert (c' = c) as -> by congruence.
  unfold handleUDPClose, bind at 1, modify at 1, bind at 1, get at 1. set (w1 := noteUplink _ _ w).
  assert (exists st1, conns w1 !! uc_connID c = Some st1 /\ st_udpSink st1 = Some u
    /\ st_closed st1 = false /\ st_target st1 <> PrebindTarget) as (st1 & Hc1 & Hs1 & ? & ?).
  { unfold w1, noteUplink. rewrite alter_insert, Hc, conns_setConns, lookup_insert_eq.
    eexists. split; [done|]. by destruct (st_uplink st =? 0). }
  unfold sinkOf. rewrite Hc1. cbn. rewrite Hs1. apply Hclose. exists c, st1. by repeat split.
Qed.

(** A channel that was just dialled. *)
Definition udpClient : Client := after (OpDialUDP (lit "udp-1") []) client1.

Lemma udp_close_never_returns_witness :
  (udpClose 1%positive udpClient).2 <> Ret tt /\ udpChannel 1%positive udpClient <> None.
Proof.
  split; [|vm_compute; discriminate]. apply (udp_close_never_returns 1%positive udpClient).
  eexists _, _. split; [vm_compute; reflexivity|]. split; [reflexivity|]. split; [vm_compute; reflexivity|].
  split; [reflexivity|]. split; [reflexivity|]. discriminate.
Defined.

(** ** A hot dial that comes back late *)

Lemma refsOf_release i w p :
  w_heap w !! i = Some p -> refsOf (ReleasePair i w) i = hc_refs p - 1.
Proof.
  intros Hi. rewrite (qt_refs _ _ (ReleasePair_quiet i w)). by rewrite (refsOf_updPair _ _ _ _ Hi).
Qed.

Lemma ReleasePair_nodup i w : NoDup (w_pairs w) -> NoDup (w_pairs (ReleasePair i w)).
Proof.
  intros Hn. unfold ReleasePair. destruct (_ && _); [|done].
  destruct (ensurePrimaryLocked_same (removePair i (setState i PairStateClosed
    (updPair i (fun p => p <| hc_refs ::= fun r => r - 1 |>) w)))) as [_ ->].
  destruct (removePair_same i (setState i PairStateClosed
    (updPair i (fun p => p <| hc_refs ::= fun r => r - 1 |>) w))) as (_ & -> & _). by apply NoDup_filter.
Qed.

Lemma held_in_heap w connID st i :
  clientInv None w -> conns w !! connID = Some st -> st_pair st = Some i -> is_Some (w_heap w !! i).
Proof.
  intros Hw Hc Hp. pose proof (ci_refs _ _ Hw i) as Hr. rewrite bool_decide_false in Hr by done.
  pose proof (mapSum_le (holdsPair i) (conns w) connID st) as Hle. unfold holdsPair at 2 in Hle.
  rewrite Hp, bool_decide_true in Hle by done. unfold holders, refsOf in Hr.
  destruct (w_heap w !! i); [by eexists|]. exfalso.
  assert (1 <= mapSum (holdsPair i) (conns w)); [|lia]. apply Hle; [|done].
  intros k x _. unfold holdsPair. by case_bool_decide.
Qed.

(** The fallback of a connection that is gone. *)
Lemma late_fallback connID i w :
  conns w !! connID = None -> hasWarmer w = true -> clientInv None w ->
  refsOf (hotFallback connID i w) i = holders i (hotFallback connID i w)
    - (if decide (is_Some (w_heap w !! i)) then 1 else 0).
Proof.
  intros Hc Hon Hw. unfold hotFallback, clearPreset. rewrite alter_insert, Hc.
  apply (inv_core None w (setConns id w)) in Hw; [|by split]. change (w_heap w) with (w_heap (setConns id w)).
  change (hasWarmer (setConns id w) = true) in Hon. set (w1 := setConns id w) in *. clearbody w1.
  unfold releasePair. rewrite Hon. unfold invalidateChannel.
  destruct (ReleasePair_quiet i w1) as [_ Ep _]. cbn in Ep.
  assert (hasWarmer (ReleasePair i w1) = true) as -> by (unfold hasWarmer, config in *; by rewrite Ep).
  assert (NoDup (w_pairs (ReleasePair i w1))) as Hn by apply ReleasePair_nodup, Hw.
  destruct (quiet_invalidate (pairUplink i (ReleasePair i w1)) (ReleasePair i w1) Hn) as [Hrf Epi _].
  rewrite Hrf. unfold holders, conns. rewrite Epi, Ep.
  pose proof (ci_refs _ _ Hw i) as Hri. unfold holders, conns in Hri.
  rewrite bool_decide_false in Hri by done. unfold refsOf in Hri.
  destruct (w_heap w1 !! i) as [p|] eqn:Hi.
  - rewrite decide_True by eauto. rewrite (refsOf_release _ _ _ Hi). lia.
  - rewrite decide_False by (by intros []). rewrite (qt_refs _ _ (ReleasePair_quiet i w1)).
    unfold refsOf, updPair. cbn. rewrite lookup_alter_eq, Hi. cbn. lia.
Qed.

(** a hot dial that waits for room in the queue releases its pair when it
    fails; if the connection was ended meanwhile, which released it already, the pair
    has one reference less than connections hold it. *)
Theorem late_fallback_releases_twice cfg sched w connID st i :
  rtc clientStep (newClient cfg sched) w ->
  conns w !! connID = Some st -> st_pair st = Some i -> st_closed st = false ->
  let w2 := hotFallback connID i (exec (Unregister connID) w) in
  refsOf w2 i = holders i w2 - 1.
Proof.
  intros Hr Hc Hp Hcl. pose proof (reachable_inv cfg sched w Hr) as Hw.
  destruct (ci_hot _ _ Hw _ _ Hc) as (Hon & _ & Hs & Ht); [by rewrite Hp|].
  set (w0 := closeTCPopt (st_tcpConn st) (setConns (delete connID) w)).
  assert (sameCore (setConns (delete connID) w) w0) as H0 by apply closeTCPopt_core.
  assert (exec (Unregister connID) w = ReleasePair i w0) as Eu.
  { unfold exec. rewrite Unregister_unfold, Hc, Hcl, bool_decide_false, Hs, Hp by done.
    change (releasePair (Some i) w0 = ReleasePair i w0). unfold releasePair.
    assert (hasWarmer w0 = true) as -> by (unfold hasWarmer; by rewrite (sc_config _ _ H0)). done. }
  cbn. rewrite Eu. assert (clientInv (Some i) w0) as Hx
    by (apply (inv_core _ _ _ H0); by apply inv_delete_pair with st).
  pose proof (inv_release i w0 Hx) as H1.
  destruct (ReleasePair_quiet i w0) as [_ Ep _]. cbn in Ep.
  assert (conns w0 = delete connID (conns w)) as Ec0 by (by rewrite (sc_conns _ _ H0), conns_setConns).
  assert (config w0 = config w) as Ecf0 by apply (sc_config _ _ H0).
  set (w1 := ReleasePair i w0) in *.
  assert (conns w1 !! connID = None /\ hasWarmer w1 = true) as [Hnone Hon1].
  { unfold hasWarmer, conns, config in *. rewrite Ep, Ec0, Ecf0. split; [apply lookup_delete_eq|done]. }
  rewrite (late_fallback connID i w1 Hnone Hon1 H1), decide_True; [done|].
  destruct (held_in_heap w connID st i Hw Hc Hp) as [p Hi].
  change (w_heap (setConns (delete connID) w) !! i = Some p) in Hi. rewrite <- (sc_heap _ _ H0) in Hi.
  apply (pairsLe_release i w0) in Hi as (q & Hq & _); [by eauto|].
  apply (wi_pairs _ (ci_warmer _ _ Hx)).
Qed.

Lemma late_fallback_releases_twice_witness :
  let w := hotFallback demoConn 1%positive (exec (Unregister demoConn) client2) in
  refsOf w 1%positive = holders 1%positive w - 1 /\ refsOf w 1%positive = -1.
Proof.
  split; [|vm_compute; reflexivity].
  destruct (conns client2 !! demoConn) as [st|] eqn:E; [|vm_compute in E; discriminate E].
  apply (late_fallback_releases_twice hotCfg [] client2 demoConn st 1%positive client2_run E);
    vm_compute in E; injection E as <-; reflexivity.
Defined.

(** ** The downlink *)

(** A channel number, as an [int32]. *)
Definition chOK (ch : Z) : Prop := 0 < ch < 2 ^ 31.

Definition pairDownlink w (st : clientConnState) : Z :=
  match st_pair st ≫= (fun i => w_heap w !! i) with Some p => hc_DownlinkChID p | None => 0 end.

(** The channel that a frame on [ch] makes the downlink, unless there is one: the
    pair's, or else [ch] itself. *)
Definition electedDownlink w (st : clientConnState) (ch : Z) : Z :=
  if 0 <? st_downlink st then st_downlink st
  else if 0 <? pairDownlink w st then pairDownlink w st else ch.

Definition setDownlink connID (d : Z) w : Client := updConn connID (fun st => st <| st_downlink := d |>) w.

Lemma select_spec connID st ch w :
  conns w !! connID = Some st -> st_target st <> [] -> st_target st <> PrebindTarget ->
  0 <= st_downlink st ->
  selectDownlink connID ch w =
    (if 0 <? st_downlink st then w else setDownlink connID (int32 (electedDownlink w st ch)) w,
     (negb (0 <? st_downlink st), electedDownlink w st ch)).
Proof.
  intros Hc Ht Hp Hd. unfold selectDownlink, electedDownlink, pairDownlink. rewrite Hc.
  rewrite !bool_decide_false by done. cbn [andb].
  assert (forall d, casDownlink connID d st w =
    (if 0 <? st_downlink st then w else setDownlink connID (int32 d) w,
     (negb (0 <? st_downlink st), if 0 <? st_downlink st then st_downlink st else d))) as Hcas.
  { intros d. unfold casDownlink. destruct (Z.ltb_spec 0 (st_downlink st)).
    - rewrite (proj2 (Z.eqb_neq _ _)) by lia. done.
    - by rewrite (proj2 (Z.eqb_eq _ _)) by lia. }
  cbv zeta. rewrite !Hcas. destruct (st_pair st) as [i|]; [cbn [mbind option_bind]; destruct (w_heap w !! i) as [p|]|];
    cbn; rewrite ?Hcas; repeat match goal with |- context [if ?b then _ else _] => destruct b eqn:? end; done.
Qed.

(** A connection with a target, an open local end, what it has received, and its
    downlink. *)
Record receiving w connID (st : clientConnState) (c : tcpid) (b : bytes) : Prop := {
  rv_conn : conns w !! connID = Some st;
  rv_target : st_target st <> [] /\ st_target st <> PrebindTarget;
  rv_tcp : st_tcpConn st = Some c;
  rv_open : cp_tcps (w_pool w) !! c = Some (mkClientTCP b false);
  rv_downlink : 0 <= st_downlink st < 2 ^ 31;
  rv_pair : 0 <= pairDownlink w st < 2 ^ 31 }.

Lemma receiving_downlink w connID st c b ch :
  receiving w connID st c b -> chOK ch ->
  exists w' sel, downlinkFor connID ch w = (w', Ret (sel, electedDownlink w st ch))
    /\ receiving w' connID (st <| st_downlink := electedDownlink w st ch |>) c b
    /\ w_heap w' = w_heap w.
Proof.
  intros [Hc [Ht Hp] Hk Ho Hd Hpd] Hch. unfold downlinkFor, bind, get, getDownlink. rewrite Hc.
  assert (0 <= electedDownlink w st ch < 2 ^ 31) as He.
  { unfold electedDownlink, chOK in *. repeat case_match; lia. }
  destruct (Z.ltb_spec 0 (st_downlink st)) as [Hpos|Hz].
  - exists w, false. assert (electedDownlink w st ch = st_downlink st) as Ee
      by (unfold electedDownlink; by rewrite (proj2 (Z.ltb_lt _ _))).
    rewrite Ee. split; [done|]. split; [|done].
    assert (st <| st_downlink := st_downlink st |> = st) as -> by (by destruct st). by split.
  - unfold select. rewrite (select_spec connID st ch w Hc Ht Hp) by lia.
    rewrite (proj2 (Z.ltb_ge _ _)) by lia. rewrite int32_id by lia.
    eexists _, _. split; [done|]. split; [|done]. split; try done.
    unfold setDownlink. by rewrite alter_insert, Hc, conns_setConns, lookup_insert_eq.
Qed.

Lemma receiving_write w connID st c b data :
  receiving w connID st c b ->
  exists w', writeTCP c data false w = (w', true) /\ receiving w' connID st c (b ++ data)
    /\ w_heap w' = w_heap w.
Proof.
  intros [Hc Ht Hk Ho Hd Hp]. unfold writeTCP. rewrite Ho. cbn. eexists. split; [done|].
  split; [|done]. split; try done. cbn. by rewrite lookup_alter_eq, Ho.
Qed.

(** One frame. *)
Lemma receiving_frame w connID st c b ch data :
  receiving w connID st c b -> chOK ch ->
  exists w', handleTCPData ch connID data false w = (w', Ret tt)
    /\ receiving w' connID (st <| st_downlink := electedDownlink w st ch |>) c
         (b ++ if electedDownlink w st ch =? ch then data else [])
    /\ w_heap w' = w_heap w.
Proof.
  intros Hw Hch. unfold handleTCPData, bind at 1.
  destruct (receiving_downlink w connID st c b ch Hw Hch) as (w1 & sel & -> & H1 & Eh).
  cbv beta iota. destruct (electedDownlink w st ch =? ch); cbn [negb]; [|exists w1; by rewrite app_nil_r].
  assert (tcpOf connID w1 = Some c) as Et
    by (unfold tcpOf; rewrite (rv_conn _ _ _ _ _ H1); apply (rv_tcp _ _ _ _ _ Hw)).
  unfold bind at 1, get. rewrite Et.
  destruct (receiving_write w1 connID _ c b data H1) as (w2 & Ew & H2 & Eh2). unfold bind. rewrite Ew.
  exists w2. split; [done|]. split; [exact H2|]. congruence.
Qed.

Definition receiveAll connID (frames : list (Z * bytes)) : M Client unit :=
  forEach frames (fun f => handleTCPData (fst f) connID (snd f) false).

Lemma receiving_chosen frames : forall w connID st c b,
  receiving w connID st c b -> 0 < st_downlink st -> Forall (fun f => chOK (fst f)) frames ->
  exists w', receiveAll connID frames w = (w', Ret tt)
    /\ receiving w' connID st c (b ++ concat (map snd (filter (fun f => fst f = st_downlink st) frames))).
Proof.
  induction frames as [|[ch data] frames IH]; intros w connID st c b Hw Hd Hf.
  - exists w. split; [done|]. cbn. by rewrite app_nil_r.
  - apply Forall_cons in Hf as [Hch Hf]. unfold receiveAll. cbn [forEach fst snd].
    destruct (receiving_frame w connID st c b ch data Hw Hch) as (w1 & E & H1 & Eh).
    assert (electedDownlink w st ch = st_downlink st) as Ee
      by (unfold electedDownlink; by rewrite (proj2 (Z.ltb_lt _ _))).
    rewrite Ee in H1. assert (st <| st_downlink := st_downlink st |> = st) as Est by (by destruct st).
    rewrite Est in H1. destruct (IH w1 connID st c _ H1 Hd Hf) as (w2 & E2 & H2).
    exists w2. unfold bind. rewrite E. split; [exact E2|]. rewrite filter_cons. cbn [fst].
    destruct (Z.eqb_spec (st_downlink st) ch) as [->|Hne].
    + rewrite decide_True by done. cbn [map concat]. by rewrite app_assoc.
    + rewrite decide_False by congruence. by rewrite app_nil_r in H2.
Qed.

Definition streamChannel w (st : clientConnState) (frames : list (Z * bytes)) : Z :=
  match frames with
  | (ch, _) :: _ => electedDownlink w st ch
  | [] => st_downlink st
  end.

(** C15: of the copies of its data that race over the channels, a connection receives
    those of one channel, in order: its downlink if it has one, else its pair's, else
    the channel of the first frame. *)
Theorem client_receives_one_downlink w connID st c b frames :
  receiving w connID st c b -> Forall (fun f => chOK (fst f)) frames ->
  exists w', receiveAll connID frames w = (w', Ret tt)
    /\ cp_tcps (w_pool w') !! c
       = Some (mkClientTCP (b ++ concat (map snd
           (filter (fun f => fst f = streamChannel w st frames) frames))) false).
Proof.
  intros Hw Hf. destruct frames as [|[ch data] frames].
  - exists w. split; [done|]. cbn. rewrite app_nil_r. apply (rv_open _ _ _ _ _ Hw).
  - apply Forall_cons in Hf as [Hch Hf]. cbn [streamChannel].
    destruct (receiving_frame w connID st c b ch data Hw Hch) as (w1 & E & H1 & Eh).
    set (d := electedDownlink w st ch) in *. assert (0 < d) as Hd.
    { unfold d, electedDownlink, chOK in *. cbn in Hch. repeat case_match; lia. }
    destruct (receiving_chosen frames w1 connID (st <| st_downlink := d |>) c _ H1 Hd Hf) as (w2 & E2 & H2).
    exists w2. unfold receiveAll. cbn [forEach fst snd]. unfold bind. rewrite E. split; [exact E2|].
    rewrite (rv_open _ _ _ _ _ H2), filter_cons. cbn [fst].
    change (st_downlink (st <| st_downlink := d |>)) with d.
    destruct (Z.eqb_spec d ch) as [Eq|Hne].
    + rewrite decide_True by done. cbn [map concat]. by rewrite app_assoc.
    + rewrite decide_False by congruence. by rewrite app_nil_r.
Qed.

(** The connection of [demoDial], before any data; the pair's downlink is channel 2. *)
Definition demoFrames : list (Z * bytes) :=
  [(1, lit "x"); (2, lit "he"); (1, lit "he"); (2, lit "llo")].

Definition connAt connID w : clientConnState := default newConnState (conns w !! connID).
Lemma connAt_some connID w : isSome (conns w !! connID) = true -> conns w !! connID = Some (connAt connID w).
Proof. unfold connAt. by destruct (conns w !! connID). Qed.

Lemma client_receives_one_downlink_witness :
  receiving client2 demoConn (connAt demoConn client2) 1%positive []
  /\ exists w', receiveAll demoConn demoFrames client2 = (w', Ret tt)
       /\ cp_tcps (w_pool w') !! 1%positive = Some (mkClientTCP (lit "hello") false).
Proof.
  assert (receiving client2 demoConn (connAt demoConn client2) 1%positive []) as Hr.
  { split; [apply connAt_some; vm_compute; reflexivity|split; vm_compute; discriminate
      |vm_compute; reflexivity|vm_compute; reflexivity|vm_compute; split; congruence
      |vm_compute; split; congruence]. }
  split; [exact Hr|].
  destruct (client_receives_one_downlink client2 demoConn (connAt demoConn client2) 1%positive [] demoFrames Hr)
    as (w' & E & Hb).
  - repeat constructor; vm_compute; congruence.
  - exists w'. split; [exact E|]. rewrite Hb. vm_compute. reflexivity.
Defined.
