(* ===== verification/ClientDials.v ===== *)
(** Dials of the client: the choice of channels of a warm-up, a dial without
    channels, and reverse dials. *)

From S2P Require Import Prelude Outcome Protocol GoStrings Config Channels PairWarmer PairWarmerInv ClientNet ClientState ClientPool ClientInv ClientReverse ClientHandler ClientDialer ClientSystem ClientSpecs.
Import Config.Client.

Implicit Types (w : Client) (connID : bytes) (r : revid).

(** ** Warm-ups *)


(** ** A dial without channels *)

(** a dial for which no channel is up is no error: the connection is dropped from
    the table and a stream without one is returned at once, whatever happens. *)
Theorem dial_without_channels uuid target w :
  hasWarmer w = false -> liveIdxs (cp_net (w_pool w)) = [] -> conns w !! uuid = None ->
  target <> PrebindTarget ->
  exists w' d, dialBegin uuid target w = (w', Ret d)
    /\ conns w' !! pd_connID d = None
    /\ forall ev, exists w'' i, dialEnd d ev w' = (w'', Ret (inr i)).
Proof.
  intros Hw Hl Hc Ht. unfold dialBegin, bind at 1, acquireForDial. rewrite Hw.
  unfold bind at 1, get at 1. cbn [dialConnID mbind option_bind].
  unfold bind at 1, openTCP at 1, bind at 1, openTCP at 1. set (w1 := updP _ (updP _ w)).
  unfold bind at 1, registerAndBroadcastTCPWithPair, bind at 1, modify at 1, bind at 1, get at 1.
  set (c := fresh (dom (cp_tcps (w_pool w)))). set (w2 := registerTCP uuid target (Some c) socks5 w1).
  assert (conns w1 = conns w) as Ec1 by done.
  destruct (registerTCP_lookup uuid target (Some c) socks5 w1) as (st & Est & Ep & Es & Et);
    [by rewrite Ec1|]. fold w2 in Est. set (msg := EncodeMessage _ _ _ _).
  assert (broadcast msg w2 = (w2, Ret 0)) as Eb.
  { unfold broadcast, net, zoom, broadcastWrite, bind, get. change (cp_net (w_pool w2)) with (cp_net (w_pool w)).
    rewrite Hl. cbn. unfold updP. change (cp_net (w_pool w)) with (cp_net (w_pool w2)).
    clearbody w2. destruct w2 as [p]. cbn. by destruct p. }
  unfold broadcastRequest, bind at 1. rewrite Eb. cbn [Z.eqb].
  rewrite Unregister_unfold, Est. destruct (st_closed st) eqn:Hcl.
  { exfalso. revert Est. unfold w2, registerTCP, newSignal. rewrite Ec1, Hc. cbn [default].
    unfold conns. cbn. rewrite lookup_insert_eq. intros [= <-]. discriminate Hcl. }
  rewrite bool_decide_false, Es, Ep by (by rewrite Et). cbn [releasePair].
  set (w3 := closeTCPopt _ _). assert (conns w3 !! uuid = None) as Hn.
  { unfold w3. rewrite (sc_conns _ _ (closeTCPopt_core _ _)), conns_setConns. apply lookup_delete_eq. }
  unfold bind, get, ret. rewrite Hn. cbn.
  eexists _, _. split; [done|]. split; [exact Hn|]. intros ev. eexists _, _. done.
Qed.

Definition idleClient : Client := newClient DefaultConfig [].

Lemma dial_without_channels_witness :
  exists w' d, dialBegin (lit "u1") (lit "example.org:443") idleClient = (w', Ret d)
    /\ conns w' !! pd_connID d = None
    /\ forall ev, exists w'' i, dialEnd d ev w' = (w'', Ret (inr i)).
Proof.
  apply (dial_without_channels (lit "u1") (lit "example.org:443") idleClient);
    [vm_compute; reflexivity|vm_compute; reflexivity|apply lookup_empty|discriminate].
Defined.

(** The notices of the two channels for the warm-up "k"; channel 1 is its uplink. *)
Definition racing : Client :=
  exec (handleSelectUplink 1 (lit "prebind-k") (PutUint32 1)) (after (OpWarmer (WoBegin (lit "k") [1; 2])) client1).
Definition raced : Client := exec (handleSelectUplink 2 (lit "prebind-k") (PutUint32 1)) racing.


(** ** Reverse dials *)

(** Computations that leave the sockets and the reverse connections alone. *)
Definition sameSocks w w' : Prop :=
  cp_tcps (w_pool w') = cp_tcps (w_pool w) /\ cp_revs (w_pool w') = cp_revs (w_pool w).
#[local] Instance sameSocks_preorder : PreOrder sameSocks.
Proof. split; [by split|]. intros ? ? ? [? ?] [? ?]. split; congruence. Qed.

Lemma sameSocks_net {A} (m : M ClientNet A) : moves sameSocks (net m).
Proof. intros w. unfold exec, net, zoom. by destruct (m _). Qed.

Lemma sameSocks_reverseSend r msg : moves sameSocks (reverseSend r msg).
Proof.
  apply moves_bind; [apply _|apply moves_get; apply _|]. intros [rc|]; [|apply moves_ret; apply _].
  destruct (0 <? _); (apply moves_bind; [apply _| |intros _; apply moves_ret; apply _]);
    intros w; apply sameSocks_net.
Qed.

Lemma sameSocks_sendClose r connID w rc :
  reverseAt r w = Some rc -> rc_conn rc = None \/ rc_closeOnce rc = true ->
  cp_tcps (w_pool (exec (sendReverseClose r connID) w)) = cp_tcps (w_pool w)
  /\ reverseAt r (exec (sendReverseClose r connID) w) = Some (rc <| rc_closeOnce := true |>).
Proof.
  intros Hr Hc. set (w1 := closeReverse r w).
  assert (cp_tcps (w_pool w1) = cp_tcps (w_pool w) /\ reverseAt r w1 = Some (rc <| rc_closeOnce := true |>))
    as [E1 E2].
  { unfold w1, closeReverse. unfold reverseAt in Hr |- *. rewrite Hr. destruct (rc_closeOnce rc) eqn:Eo.
    - split; [done|]. rewrite Hr. f_equal. by destruct rc; cbn in *; subst.
    - destruct Hc as [->|]; [|done]. cbn. split; [done|]. by rewrite lookup_alter_eq, Hr. }
  assert (moves sameSocks (do! reverseSend r (EncodeMessage MsgTCPClose connID [] []) in
    modify (removeReverseConn connID))) as Hm.
  { apply moves_bind; [apply _|apply sameSocks_reverseSend|]. intros _ w2. by split. }
  change (exec (sendReverseClose r connID) w) with (exec (do! reverseSend r (EncodeMessage MsgTCPClose connID [] [])
    in modify (removeReverseConn connID)) w1).
  destruct (Hm w1) as [Et Er]. unfold reverseAt in *. rewrite Et, Er. by split.
Qed.

(** a close that arrives while the target of a reverse connection is dialled is
    lost on the target: the connection dialled afterwards is open, and no later close
    closes it. *)
Theorem reverse_close_during_dial w r rc connID :
  reverseAt r w = Some rc -> rc_conn rc = None ->
  let w1 := exec (sendReverseClose r connID) w in
  let w2 := exec (reverseDialed r connID true) w1 in
  let w3 := exec (sendReverseClose r connID) w2 in
  exists c, (rc_conn <$> reverseAt r w3) = Some (Some c)
    /\ cp_tcps (w_pool w) !! c = None /\ cp_tcps (w_pool w3) !! c = Some (mkClientTCP [] false).
Proof.
  intros Hr Hc w1 w2 w3. destruct (sameSocks_sendClose r connID w rc Hr (or_introl Hc)) as [Et1 Er1].
  fold w1 in Et1, Er1. set (c := fresh (dom (cp_tcps (w_pool w1)))).
  assert (cp_tcps (w_pool w2) = <[c := mkClientTCP [] false]> (cp_tcps (w_pool w1))
    /\ reverseAt r w2 = Some (rc <| rc_closeOnce := true |> <| rc_conn := Some c |>)) as [Et2 Er2].
  { set (w1' := updRev r (fun rc => rc <| rc_conn := Some c |>) (openTCP w1).1).
    set (m := do! broadcast (EncodeMessage MsgConnStatus connID [byte_of_Z StatusOK] []) in
      modify (fun w => goReverse (GoReversePump r connID c) (goDone (GoDialReverse r connID) w))).
    assert (moves sameSocks m) as Hm
      by (apply moves_bind; [apply _|intros w0; apply sameSocks_net|intros _ w0; by split]).
    change w2 with (exec m w1'). destruct (Hm w1') as [Et Er]. rewrite Et. split; [done|].
    unfold reverseAt in *. rewrite Er. unfold w1'. cbn. by rewrite lookup_alter_eq, Er1. }
  destruct (sameSocks_sendClose r connID w2 _ Er2 (or_intror eq_refl)) as [Et3 Er3]. fold w3 in Et3, Er3.
  exists c. rewrite Er3. split; [done|]. rewrite Et3, Et2, lookup_insert_eq. split; [|done].
  rewrite <- Et1. apply not_elem_of_dom, is_fresh.
Qed.

(** A request of the server on the classic path. *)
Definition revCfg : Config := DefaultConfig <| EnableReverse := true |>.
Definition revClient : Client :=
  exec (handleReverseTCPConnect (fun t _ => t) 1 (lit "r1") (byte_of_Z 0 :: lit "10.0.0.1:80"))
    (newClient revCfg []).

Lemma reverse_close_during_dial_witness :
  let w1 := exec (sendReverseClose 1%positive (lit "r1")) revClient in
  let w2 := exec (reverseDialed 1%positive (lit "r1") true) w1 in
  let w3 := exec (sendReverseClose 1%positive (lit "r1")) w2 in
  exists c, (rc_conn <$> reverseAt 1%positive w3) = Some (Some c)
    /\ cp_tcps (w_pool revClient) !! c = None /\ cp_tcps (w_pool w3) !! c = Some (mkClientTCP [] false).
Proof.
  apply (reverse_close_during_dial revClient 1%positive
    (default (mkReverseConn [] [] [] 0 0 None false) (reverseAt 1%positive revClient)));
    vm_compute; reflexivity.
Defined.
