(* ===== verification/ClientSession.v ===== *)
(** The loop that keeps a channel of the client alive ([dialAndServe], [pool.go]):
    when it dials again, how long it waits before, which relay node it takes; and when
    the warmer is started.

    A round of the loop is [dialHead], the dial, and then [dialFailed] or
    [dialSucceeded]; the session itself is [ClientHandler.beginSession] to
    [endSession]. The clock, the jitter and the relay manager's answers are arguments. *)

From S2P Require Import Prelude Protocol GoNet Config Relay RelaySpecs.
Import Config.Client.

Definition dialAndServeMaxRetries : Z := 20.
Definition dialAndServeBaseDelay : Z := 3 * Second.
Definition dialAndServeMaxDelay : Z := 60 * Second.

(** ** Fast retries *)
Record fastRetryState := mkFastRetryState {
  fr_consecutiveFailures : Z; fr_lastFailure : option Z }.     (* None: the zero time *)

Definition OnFailure (now : Z) (f : fastRetryState) : fastRetryState :=
  mkFastRetryState (fr_consecutiveFailures f + 1) (Some now).
Definition OnSuccess (f : fastRetryState) : fastRetryState := mkFastRetryState 0 None.
Definition ShouldFastRetry (maxConsecutive : Z) (f : fastRetryState) : bool :=
  fr_consecutiveFailures f <? maxConsecutive.
Definition ShouldFastRetryWithinWindow (maxConsecutive window now : Z) (f : fastRetryState) : bool :=
  if maxConsecutive <=? fr_consecutiveFailures f then false else
  match fr_lastFailure f with
  | None => false
  | Some t => now - t <=? window
  end.

(** ** The loop *)
Record dialLoop := mkDialLoop {
  dl_retryCount : Z; dl_slowRetryMode : bool; dl_frs : fastRetryState; dl_fastRetryCount : Z;
  dl_currentDelay : Z; dl_ip : bytes; dl_lastIP : bytes; dl_firstAttempt : bool }.
#[export] Instance dialLoop_eta : Eta dialLoop := fun l =>
  mkDialLoop (dl_retryCount l) (dl_slowRetryMode l) (dl_frs l) (dl_fastRetryCount l)
    (dl_currentDelay l) (dl_ip l) (dl_lastIP l) (dl_firstAttempt l).

Definition newDialLoop (ip : bytes) : dialLoop :=
  mkDialLoop 0 false (mkFastRetryState 0 None) 0 dialAndServeBaseDelay ip [] true.

Definition excludeIPs (l : dialLoop) : list bytes :=
  (if bool_decide (dl_lastIP l = []) then [] else [dl_lastIP l])
  ++ (if bool_decide (dl_ip l = []) || bool_decide (dl_ip l = dl_lastIP l) then [] else [dl_ip l]).

(** Before the dial: slow mode, another relay node. [select] is
    [SelectNodeExcluding]. *)
Definition dialHead (relayCount : Z) (select : list bytes -> option bytes) (l : dialLoop) : dialLoop :=
  let l := if (dialAndServeMaxRetries <=? dl_retryCount l) && negb (dl_slowRetryMode l)
           then l <| dl_slowRetryMode := true |> <| dl_retryCount := 0 |>
                  <| dl_currentDelay := dialAndServeMaxDelay |>
           else l in
  let l := if (0 <? relayCount) && negb (dl_firstAttempt l) then
             match select (excludeIPs l) with
             | Some ip => l <| dl_ip := ip |>
             | None => l
             end
           else l in
  l <| dl_firstAttempt := false |>.

(** What the world supplies when a dial fails: the time of the failure, the time when
    the window is looked at, and [rand.Intn(300)]. *)
Record dialInput := mkDialInput { di_now : Z; di_later : Z; di_jitter : Z }.

(** [time.Duration(float64(d) * 1.5)], exact for the delays that occur. *)
Definition backoff (d : Z) : Z :=
  if d <? dialAndServeMaxDelay then
    let d := d * 3 / 2 in
    if dialAndServeMaxDelay <? d then dialAndServeMaxDelay else d
  else d.

(** The new state and the time to wait. *)
Definition dialFailed (cfg : Config) (i : dialInput) (l : dialLoop) : dialLoop * Z :=
  let l := l <| dl_frs ::= OnFailure (di_now i) |> <| dl_retryCount ::= Z.add 1 |> in
  if negb (dl_slowRetryMode l)
     && ShouldFastRetryWithinWindow (MaxFastRetryConsecutive cfg) (FastRetryWindow cfg) (di_later i) (dl_frs l)
     && (dl_fastRetryCount l <? FastRetryAttempts cfg)
  then (l <| dl_fastRetryCount ::= Z.add 1 |>, 100 * Millisecond + di_jitter i * Millisecond)
  else
    let l := l <| dl_fastRetryCount := 0 |> <| dl_currentDelay ::= backoff |> in
    (l, dl_currentDelay l).

Definition dialSucceeded (l : dialLoop) : dialLoop :=
  let l := l <| dl_retryCount := 0 |> <| dl_slowRetryMode := false |> <| dl_fastRetryCount := 0 |>
             <| dl_currentDelay := dialAndServeBaseDelay |> <| dl_frs ::= OnSuccess |> in
  if bool_decide (dl_ip l = []) then l else l <| dl_lastIP := dl_ip l |>.

(** ** [delayedStartPairWarmer] *)
Inductive startEvent := StartDone | StartTimeout | StartTick.
Inductive startDecision := StartRun | StartGiveUp | StartWait.

Definition delayedStart (expectedCount : Z) (ready : Z) (ev : startEvent) : startDecision :=
  match ev with
  | StartDone => StartGiveUp
  | StartTimeout => if 0 <? ready then StartRun else StartGiveUp
  | StartTick => if expectedCount <=? ready then StartRun else StartWait
  end.

(** * Theorems *)

(** Consecutive failures: each round fails. The waits, in order. *)
Fixpoint failRun (cfg : Config) (relayCount : Z) (select : list bytes -> option bytes)
    (inputs : list dialInput) (l : dialLoop) : dialLoop * list Z :=
  match inputs with
  | [] => (l, [])
  | i :: inputs =>
      let '(l, d) := dialFailed cfg i (dialHead relayCount select l) in
      let '(l, ds) := failRun cfg relayCount select inputs l in (l, d :: ds)
  end.

Record loopInv (l : dialLoop) : Prop := {
  li_delay : dialAndServeBaseDelay <= dl_currentDelay l <= dialAndServeMaxDelay;
  li_slow : dl_slowRetryMode l = true -> dl_currentDelay l = dialAndServeMaxDelay;
  li_count : 0 <= fr_consecutiveFailures (dl_frs l) }.

Lemma dialHead_inv relayCount select l :
  loopInv l -> loopInv (dialHead relayCount select l)
    /\ dl_frs (dialHead relayCount select l) = dl_frs l
    /\ (dl_slowRetryMode l = true -> dl_slowRetryMode (dialHead relayCount select l) = true)
    /\ dl_currentDelay l <= dl_currentDelay (dialHead relayCount select l).
Proof.
  intros [H1 H2 H3]. unfold dialHead. set (l1 := if _ && _ then _ else l).
  assert (loopInv l1 /\ dl_frs l1 = dl_frs l /\ (dl_slowRetryMode l = true -> dl_slowRetryMode l1 = true)
    /\ dl_currentDelay l <= dl_currentDelay l1) as ([D1 D2 D3] & Ef & Hs & Hle).
  { unfold l1. destruct (_ && _); [|repeat split; try done; lia].
    split; [split; cbn; [split; by vm_compute|done|done]|]. split; [done|]. split; [done|].
    cbn. lia. }
  clearbody l1. destruct (_ && _); [destruct (select _)|]; (split; [by split|by repeat split]).
Qed.

Lemma backoff_bounds d :
  dialAndServeBaseDelay <= d <= dialAndServeMaxDelay ->
  dialAndServeBaseDelay <= backoff d <= dialAndServeMaxDelay /\ d <= backoff d
  /\ (d = dialAndServeMaxDelay -> backoff d = dialAndServeMaxDelay)
  /\ dialAndServeMaxDelay `min` (d + 3 * Second / 2) <= backoff d.
Proof.
  unfold backoff, dialAndServeBaseDelay, dialAndServeMaxDelay, Second, Millisecond. intros H.
  destruct (Z.ltb_spec d (60 * (1000 * 1000000))); [|repeat split; lia].
  pose proof (Z.div_mod (d * 3) 2 ltac:(lia)). pose proof (Z.mod_pos_bound (d * 3) 2 ltac:(lia)).
  change (3 * (1000 * 1000000) / 2) with 1500000000.
  destruct (Z.ltb_spec (60 * (1000 * 1000000)) (d * 3 / 2)); repeat split; lia.
Qed.

Definition afterBackoffs (n : nat) : Z := Nat.iter n backoff dialAndServeBaseDelay.

Lemma afterBackoffs_bounds n : dialAndServeBaseDelay <= afterBackoffs n <= dialAndServeMaxDelay.
Proof.
  induction n as [|n IH]; [by vm_compute|]. by apply backoff_bounds.
Qed.

Lemma backoff_mono d d' :
  dialAndServeBaseDelay <= d <= d' -> d' <= dialAndServeMaxDelay -> backoff d <= backoff d'.
Proof.
  unfold backoff, dialAndServeBaseDelay, dialAndServeMaxDelay. set (m := 60 * Second). intros H1 H2.
  assert (d * 3 / 2 <= d' * 3 / 2) by (apply Z.div_le_mono; lia).
  destruct (Z.ltb_spec d m), (Z.ltb_spec d' m);
    try destruct (Z.ltb_spec m (d * 3 / 2)); try destruct (Z.ltb_spec m (d' * 3 / 2)); lia.
Qed.

(** A fast retry needs fewer than [maxConsecutive] failures so far. *)
Definition settled (cfg : Config) (c : Z) : nat := Z.to_nat (c + 1 - MaxFastRetryConsecutive cfg).

Lemma dialFailed_step cfg i l l' d :
  loopInv l -> afterBackoffs (settled cfg (fr_consecutiveFailures (dl_frs l))) <= dl_currentDelay l ->
  0 <= di_jitter i < 300 -> dialFailed cfg i l = (l', d) ->
  loopInv l' /\ fr_consecutiveFailures (dl_frs l') = fr_consecutiveFailures (dl_frs l) + 1
  /\ afterBackoffs (settled cfg (fr_consecutiveFailures (dl_frs l'))) <= dl_currentDelay l'
  /\ 100 * Millisecond <= d <= dialAndServeMaxDelay
  /\ (MaxFastRetryConsecutive cfg <= fr_consecutiveFailures (dl_frs l') -> d = dl_currentDelay l').
Proof.
  intros [H1 H2 H3] Hd Hj. unfold dialFailed. set (c := fr_consecutiveFailures (dl_frs l)) in *.
  cbn [dl_slowRetryMode dl_frs dl_fastRetryCount upd setter dialLoop_eta].
  unfold ShouldFastRetryWithinWindow, OnFailure. cbn [fr_consecutiveFailures fr_lastFailure]. fold c.
  destruct (Z.leb_spec (MaxFastRetryConsecutive cfg) (c + 1)) as [Hm|Hm].
  - rewrite andb_false_r. intros [= <- <-]. cbn. fold c.
    destruct (backoff_bounds _ H1) as (B1 & B2 & B3 & _).
    split; [split; cbn; [exact B1|intros Hs; by apply B3, H2|fold c; lia]|]. split; [lia|]. split.
    + unfold settled. replace (Z.to_nat (c + 1 + 1 - MaxFastRetryConsecutive cfg))
        with (S (settled cfg c)) by (unfold settled; lia).
      cbn. apply backoff_mono; [|lia]. split; [apply afterBackoffs_bounds|done].
    + split; [|done]. split; [|apply B1]. transitivity dialAndServeBaseDelay; [by vm_compute|apply B1].
  - assert (settled cfg (c + 1) = 0%nat) as E0 by (unfold settled; lia).
    match goal with |- (if ?b then _ else _) = _ -> _ => destruct b end; intros [= <- <-]; cbn; fold c; rewrite E0.
    + split; [split; cbn; [exact H1|exact H2|fold c; lia]|]. split; [lia|]. split; [apply H1|]. split; [|lia].
      unfold dialAndServeMaxDelay, Second, Millisecond. lia.
    + destruct (backoff_bounds _ H1) as (B1 & B2 & B3 & _).
      split; [split; cbn; [exact B1|intros Hs; by apply B3, H2|fold c; lia]|]. split; [lia|].
      split; [apply B1|]. split; [|lia]. split; [|apply B1].
      transitivity dialAndServeBaseDelay; [by vm_compute|apply B1].
Qed.

Lemma failRun_waits cfg relayCount select inputs : forall l n d,
  loopInv l -> Forall (fun i => 0 <= di_jitter i < 300) inputs ->
  afterBackoffs (settled cfg (fr_consecutiveFailures (dl_frs l))) <= dl_currentDelay l ->
  (failRun cfg relayCount select inputs l).2 !! n = Some d ->
  100 * Millisecond <= d <= dialAndServeMaxDelay
  /\ (MaxFastRetryConsecutive cfg <= fr_consecutiveFailures (dl_frs l) + Z.of_nat n + 1 ->
      afterBackoffs (settled cfg (fr_consecutiveFailures (dl_frs l) + Z.of_nat n + 1)) <= d).
Proof.
  induction inputs as [|i inputs IH]; intros l n d Hl Hj Hd; cbn [failRun]; [done|].
  apply Forall_cons in Hj as [Hi Hj].
  destruct (dialHead_inv relayCount select l Hl) as (Hl1 & Ef & _ & Hle).
  set (l1 := dialHead relayCount select l) in *. destruct (dialFailed cfg i l1) as [l2 d2] eqn:E.
  rewrite <- Ef in Hd |- *.
  destruct (dialFailed_step cfg i l1 l2 d2 Hl1 ltac:(lia) Hi E) as (Hl2 & Ec & Hd2 & Hb & Hs).
  destruct (failRun cfg relayCount select inputs l2) as [l3 ds] eqn:E2.
  destruct n as [|n]; intros Hn; cbn in Hn.
  - injection Hn as <-. change (Z.of_nat 0) with 0. split; [done|]. rewrite Z.add_0_r. intros Hm. rewrite Ec in Hd2, Hs.
    rewrite (Hs Hm). exact Hd2.
  - specialize (IH l2 n d Hl2 Hj Hd2). rewrite E2 in IH. destruct (IH Hn) as [B1 B2].
    split; [done|]. rewrite Ec in B2.
    replace (Z.of_nat (S n)) with (1 + Z.of_nat n) by lia.
    replace (fr_consecutiveFailures (dl_frs l1) + (1 + Z.of_nat n) + 1)
      with (fr_consecutiveFailures (dl_frs l1) + 1 + Z.of_nat n + 1) by lia. exact B2.
Qed.

Lemma afterBackoffs_cap k : afterBackoffs (8 + k) = dialAndServeMaxDelay.
Proof.
  induction k as [|k IH]; [by vm_compute|]. rewrite Nat.add_succ_r.
  change (afterBackoffs (S (8 + k))) with (backoff (afterBackoffs (8 + k))). rewrite IH. by vm_compute.
Qed.


Definition demoInputs : list dialInput := repeat (mkDialInput 7 7 120) 12.
Lemma newDialLoop_inv ip : loopInv (newDialLoop ip).
Proof. split; cbn; [split; by vm_compute|done|lia]. Qed.


(** [FastRetryWindow] has no effect: the window is measured from the failure that was
    recorded just before, so that any window of at least the time between the two
    statements gives the same round. *)
Theorem fast_retry_window_unused cfg w1 w2 i l :
  di_later i - di_now i <= w1 -> di_later i - di_now i <= w2 ->
  dialFailed (cfg <| FastRetryWindow := w1 |>) i l = dialFailed (cfg <| FastRetryWindow := w2 |>) i l.
Proof.
  intros H1 H2. unfold dialFailed, ShouldFastRetryWithinWindow, OnFailure. cbn.
  by rewrite (proj2 (Z.leb_le _ _) H1), (proj2 (Z.leb_le _ _) H2).
Qed.
Lemma fast_retry_window_unused_witness :
  dialFailed (DefaultConfig <| FastRetryWindow := 1 |>) (mkDialInput 7 8 0) (newDialLoop [])
  = dialFailed (DefaultConfig <| FastRetryWindow := 30 * Second |>) (mkDialInput 7 8 0) (newDialLoop []).
Proof. apply fast_retry_window_unused; vm_compute; discriminate. Defined.

(** ** Another relay node *)
Definition askRelay {srt : SliceSort} (lookup : bytes -> option (list IP)) (now later : Z)
    (random : Float64.float64) (m : RelayNodeManager) (ex : list bytes) : option bytes :=
  sn_ip <$> (SelectNodeExcluding lookup now later random ex m).2.

Lemma excludeIPs_elem l a :
  a ∈ excludeIPs l <-> (a = dl_lastIP l \/ a = dl_ip l) /\ a <> [].
Proof.
  unfold excludeIPs. rewrite elem_of_app.
  destruct (decide (dl_lastIP l = [])) as [E1|E1]; [rewrite bool_decide_true by done|rewrite bool_decide_false by done];
    destruct (decide (dl_ip l = [])) as [E2|E2]; [rewrite (bool_decide_true (dl_ip l = [])) by done|
      rewrite (bool_decide_false (dl_ip l = [])) by done|rewrite (bool_decide_true (dl_ip l = [])) by done|
      rewrite (bool_decide_false (dl_ip l = [])) by done]; cbn [orb].
  - set_solver.
  - rewrite bool_decide_false by congruence. set_solver.
  - set_solver.
  - case_bool_decide; set_solver.
Qed.


Definition demoLoop : dialLoop := (newDialLoop fastNode) <| dl_firstAttempt := false |> <| dl_lastIP := fastNode |>.
