(* ===== verification/WSDialer.v ===== *)
(** Dialling a channel ([dialer.go]): the request that opens it, the relay in between,
    and the attempts.

    Parsing the server's URL, TLS with ECH, and the WebSocket handshake are library
    code: what they answer in an attempt is its input. *)

From S2P Require Import Prelude GoStrings GoNet Config Channels ChannelRegistry.
Import Config.Client.

(** ** The request *)
Definition lowerByte (b : byte) : byte :=
  if (65 <=? Z_of_byte b) && (Z_of_byte b <=? 90) then byte_of_Z (Z_of_byte b + 32) else b.
(** [strings.EqualFold] of ASCII strings, which a URL scheme is. *)
Definition EqualFold (s t : bytes) : bool := bool_decide (map lowerByte s = map lowerByte t).

(** What the server sees of it: token, client, channel. *)
Definition dialRequest (cfg : Config) (clientID : bytes) (chID : Z) : httpRequest :=
  mkHttpRequest (if bool_decide (Token cfg = []) then [] else [Token cfg]) clientID (SprintfD chID).

(** [net.JoinHostPort] *)
Definition JoinHostPort (host port : bytes) : bytes :=
  if ContainsByte host chColon then chLBracket :: host ++ chRBracket :: chColon :: port
  else host ++ chColon :: port.

(** The address that [NetDial] connects to; [address] is the server's. *)
Definition netDialAddress (relayIP address : bytes) : bytes :=
  if bool_decide (relayIP = []) then address else
  let port := match SplitHostPort address with Some (_, port) => port | None => [] end in
  match SplitHostPort relayIP with
  | Some _ => relayIP
  | None => JoinHostPort relayIP port
  end.

(** ** The attempts *)
Inductive wsAnswer :=
| WsOK
| WsUnauthorized                     (* HTTP status 401 *)
| WsErr (mentionsECH : bool).        (* another error; its text contains "ECH" or "ech" *)

Record wsAttempt := mkWsAttempt {
  at_cancelled : bool;               (* the context is done before it *)
  at_tlsOK : bool;                   (* [GetTlsConfig] *)
  at_answer : wsAnswer;              (* the handshake, if it comes to it *)
  at_stopped : bool }.               (* the context ends the delay before the next *)

Inductive wsError :=
| ErrURL | ErrScheme | ErrCtx | ErrTLS | ErrAuth | ErrDial | ErrConnectFailed.

(** What an attempt does to the outside. *)
Inductive wsEffect := EfDial (address : bytes) (r : httpRequest) | EfRefresh | EfDelay.

Definition maxRetries : Z := 3.

Section Dial.
Context (cfg : Config) (address : bytes) (r : httpRequest) (attempts : Z -> wsAttempt).

(** The attempts [i], ..., [maxRetries]; [n] is their number. *)
Fixpoint dialAttempts (n : nat) (i : Z) : list wsEffect * (wsError + unit) :=
  match n with
  | O => ([], inl ErrConnectFailed)
  | S n =>
      let a := attempts i in
      let again :=
        if at_stopped a then ([EfRefresh; EfDelay], inl ErrCtx)
        else let '(ef, res) := dialAttempts n (i + 1) in (EfRefresh :: EfDelay :: ef, res) in
      if at_cancelled a then ([], inl ErrCtx) else
      if negb (at_tlsOK a) then
        if (i <? maxRetries) && EnableECH cfg then again else ([], inl ErrTLS)
      else
        let '(ef, res) :=
          match at_answer a with
          | WsOK => ([], inr tt)
          | WsUnauthorized => ([], inl ErrAuth)
          | WsErr ech => if EnableECH cfg && ech && (i <? maxRetries) then again else ([], inl ErrDial)
          end in
        (EfDial address r :: ef, res)
  end.
End Dial.

(** [url] is the parsed server address: scheme and host with port. *)
Definition dialWebSocket (cfg : Config) (clientID : bytes) (chID : Z) (relayIP : bytes)
    (url : option (bytes * bytes)) (attempts : Z -> wsAttempt) : list wsEffect * (wsError + unit) :=
  match url with
  | None => ([], inl ErrURL)
  | Some (scheme, address) =>
      if negb (EqualFold scheme (lit "wss")) then ([], inl ErrScheme) else
      dialAttempts cfg (netDialAddress relayIP address) (dialRequest cfg clientID chID) attempts
        (Z.to_nat maxRetries) 1
  end.

(** * Theorems *)

Definition isDial (e : wsEffect) : bool := match e with EfDial _ _ => true | _ => false end.
Definition isRefresh (e : wsEffect) : bool := match e with EfRefresh => true | _ => false end.
Definition countBy (f : wsEffect -> bool) (l : list wsEffect) : Z := len (filter (fun e => f e = true) l).

Lemma countBy_cons f e l : countBy f (e :: l) = (if f e then 1 else 0) + countBy f l.
Proof.
  unfold countBy. rewrite filter_cons. destruct (f e).
  - rewrite decide_True by done. rewrite len_cons. lia.
  - rewrite decide_False by done. lia.
Qed.
Lemma countBy_nil f : countBy f [] = 0.
Proof. done. Qed.

(** What [n] attempts do and answer. *)
Record attemptsOK (cfg : Config) (address : bytes) (r : httpRequest) (n : nat)
    (o : list wsEffect * (wsError + unit)) : Prop := {
  ao_dials : countBy isDial o.1 <= Z.of_nat n;
  ao_refreshes : 0 < Z.of_nat n -> countBy isRefresh o.1 <= Z.of_nat n - 1;
  ao_same : forall a q, EfDial a q ∈ o.1 -> a = address /\ q = r;
  ao_noECH : EnableECH cfg = false -> countBy isRefresh o.1 = 0 /\ countBy isDial o.1 <= 1;
  ao_ends : 0 < Z.of_nat n -> o.2 <> inl ErrConnectFailed;
  ao_success : o.2 = inr tt -> last o.1 = Some (EfDial address r) }.

Lemma last_cons_some {A} (x y : A) l : last l = Some y -> last (x :: l) = Some y.
Proof. by destruct l. Qed.

Lemma attemptsOK_none cfg address r n e : e <> ErrConnectFailed -> attemptsOK cfg address r n ([], inl e).
Proof.
  intros He. split; cbn [fst snd]; rewrite ?countBy_nil; try done; try lia.
  - intros a q []%not_elem_of_nil.
  - congruence.
Qed.

(** What follows a failed attempt, with [n] attempts left. *)
Definition againOK (address : bytes) (r : httpRequest) (n : nat) (o : list wsEffect * (wsError + unit)) : Prop :=
  countBy isDial o.1 <= Z.of_nat n /\ countBy isRefresh o.1 <= Z.of_nat n
  /\ (forall a q, EfDial a q ∈ o.1 -> a = address /\ q = r)
  /\ o.2 <> inl ErrConnectFailed /\ (o.2 = inr tt -> last o.1 = Some (EfDial address r)).

Lemma attemptsOK_dial cfg address r n ef res :
  (ef = [] /\ res <> inl ErrConnectFailed) \/ (EnableECH cfg = true /\ againOK address r n (ef, res)) ->
  attemptsOK cfg address r (S n) (EfDial address r :: ef, res).
Proof.
  intros [[-> Hres]|(He & H1 & H2 & H3 & H5 & H6)]; cbn [fst snd] in *.
  - split; cbn [fst snd]; rewrite ?countBy_cons, ?countBy_nil; cbn [isDial isRefresh]; try done; try lia.
    intros a q [= -> ->]%list_elem_of_singleton. done.
  - split; cbn [fst snd]; rewrite ?countBy_cons; cbn [isDial isRefresh]; try done; try lia; [|congruence|].
    + intros a q [[= -> ->]|Hin]%elem_of_cons; [done|auto].
    + intros E. apply last_cons_some. auto.
Qed.

Lemma attemptsOK_again address r n cfg (stopped : bool) o :
  (0 < n)%nat -> attemptsOK cfg address r n o ->
  againOK address r n (if stopped then ([EfRefresh; EfDelay], inl ErrCtx)
                       else let '(ef, res) := o in (EfRefresh :: EfDelay :: ef, res)).
Proof.
  intros Hn [H1 H2 H3 _ H5 H6]. unfold againOK. destruct stopped.
  - cbn [fst snd]. rewrite !countBy_cons, !countBy_nil. cbn [isDial isRefresh].
    split; [lia|]. split; [lia|]. split; [set_solver|done].
  - destruct o as [ef res]. cbn [fst snd] in *.
    rewrite !countBy_cons. cbn [isDial isRefresh]. specialize (H2 ltac:(lia)). specialize (H5 ltac:(lia)).
    split; [lia|]. split; [lia|]. split; [set_solver|]. split; [done|]. intros E.
    by do 2 apply last_cons_some; auto.
Qed.

Lemma dialAttempts_ok cfg address r attempts n : forall i,
  Z.of_nat n = maxRetries + 1 - i -> attemptsOK cfg address r n (dialAttempts cfg address r attempts n i).
Proof.
  induction n as [|n IH]; intros i Hi; cbn [dialAttempts].
  { split; cbn [fst snd]; rewrite ?countBy_nil; try done; try lia. intros a q []%not_elem_of_nil. }
  set (again := if at_stopped (attempts i) then _ else _).
  assert (i < maxRetries -> againOK address r n again) as Hagain
    by (intros Hlt; apply (attemptsOK_again _ _ _ cfg); [lia|apply IH; lia]).
  clearbody again. destruct (at_cancelled _); [by apply attemptsOK_none|].
  destruct (at_tlsOK _); cbn [negb].
  - destruct (at_answer _) as [| |ech]; [apply attemptsOK_dial; by left..|].
    destruct (EnableECH cfg && ech && (i <? maxRetries)) eqn:E; [|apply attemptsOK_dial; by left].
    apply andb_true_iff in E as [[E1 _]%andb_true_iff E2%Z.ltb_lt].
    destruct again as [ef res]. apply attemptsOK_dial. right. auto.
  - destruct ((i <? maxRetries) && EnableECH cfg) eqn:E; [|by apply attemptsOK_none].
    apply andb_true_iff in E as [E1%Z.ltb_lt E2]. destruct (Hagain E1) as (H1 & H2 & H3 & H5 & H6).
    split; try done; try lia; congruence.
Qed.

(** C31: opening a channel takes at most three dials and two refreshes of the ECH
    configuration, and without ECH one dial and no refresh; every dial goes to the relay
    (or the server) with the token, the client and the channel; the call always ends with
    a definite cause, and after success the last thing done is the dial. *)
Theorem dialWebSocket_spec cfg clientID chID relayIP scheme address attempts :
  let o := dialWebSocket cfg clientID chID relayIP (Some (scheme, address)) attempts in
  attemptsOK cfg (netDialAddress relayIP address) (dialRequest cfg clientID chID) 3 o
  /\ (EqualFold scheme (lit "wss") = false -> o = ([], inl ErrScheme)).
Proof.
  cbv zeta. cbn [dialWebSocket]. destruct (EqualFold scheme (lit "wss")); cbn [negb].
  - split; [|done]. by apply dialAttempts_ok.
  - split; [|done]. split; cbn [fst snd]; rewrite ?countBy_nil; try done. intros a q []%not_elem_of_nil.
Qed.


Definition demoClient : Config := DefaultConfig <| Token := lit "secret" |>.

(** A first handshake that fails because of ECH, a second one that succeeds. *)
Example demo_dial :
  (dialWebSocket demoClient (lit "alice") 7 (lit "192.0.2.1") (Some (lit "WSS", lit "example.org:443"))
    (fun i => mkWsAttempt false true (if i =? 1 then WsErr true else WsOK) false)).1
  = [EfDial (lit "192.0.2.1:443") (dialRequest demoClient (lit "alice") 7); EfRefresh; EfDelay;
     EfDial (lit "192.0.2.1:443") (dialRequest demoClient (lit "alice") 7)].
Proof. vm_compute. reflexivity. Qed.
