(* ===== verification/Facade.v ===== *)
(** The outer objects ([client.go], [server.go]) and the start of the client's pool
    ([clientPool.Start], [pool.go]): which channels are dialled through which relay
    nodes, and the life of client and server from [New...] over [Start] to
    [Shutdown].

    Goroutines that are started are listed ([xc_dials], [xc_delayed]); their bodies are
    [ClientSession] and [PairWarmer]. Certificates and listening are arguments. The
    theorems are in [FacadeSpecs] and [ServerLife]. *)

From S2P Require Import Prelude Outcome GoNet Config Channels ServerState ServerPool PairWarmer ClientNet ClientState ClientPool ClientSession Relay RelaySpecs.
Import Config.Client.

(** ** The client *)
Record XClient := mkXClient {
  xc_config : Config;
  xc_client : Client;                    (* the pool, with its warmer *)
  xc_relay : RelayNodeManager;
  xc_relayCount : Z;
  xc_dials : list (nat * bytes);         (* the [dialAndServe] goroutines: index, node *)
  xc_delayed : list Z;                   (* the [delayedStartPairWarmer] goroutines *)
  xc_shutdownOnce : bool;
  xc_started : bool }.
#[export] Instance XClient_eta : Eta XClient := fun x =>
  mkXClient (xc_config x) (xc_client x) (xc_relay x) (xc_relayCount x) (xc_dials x) (xc_delayed x)
    (xc_shutdownOnce x) (xc_started x).

Definition NewClient (cfg : Config) (uuid : bytes) (schedule : list (list netEvent))
    : ConfigError + XClient :=
  match Validate cfg with
  | Some e => inl e
  | None =>
      let cfg := if bool_decide (ClientID cfg = []) then cfg <| ClientID := uuid |> else cfg in
      inr (mkXClient cfg (newClient cfg schedule) NewRelayNodeManager 0 [] [] false false)
  end.

Definition updNet (f : ClientNet -> ClientNet) (x : XClient) : XClient :=
  x <| xc_client ::= updP (fun p => p <| cp_net ::= f |>) |>.
Definition xnet (x : XClient) : ClientNet := cp_net (w_pool (xc_client x)).

(** ** [clientPool.Start] *)

(** [make(chan writeJob, writeQueueSize)], [n] times. *)
Fixpoint makeQueues (n : nat) (queues : gmap qid jobQueue) : gmap qid jobQueue * list (option qid) :=
  match n with
  | O => (queues, [])
  | S n =>
      let q := fresh (dom queues) in
      let '(queues, l) := makeQueues n (<[q := mkJobQueue [] false]> queues) in (queues, Some q :: l)
  end.

Definition resizeChannels (total : nat) (s : ClientNet) : ClientNet :=
  let '(queues, l) := makeQueues total (cn_queues s) in
  s <| cn_wsConns := replicate total None |> <| cn_queues := queues |> <| cn_writeQueues := l |>.

(** [connections] channels for each node, in order. *)
Fixpoint relayDials (connections : nat) (nodeIdx : nat) (ips : list bytes) : list (nat * bytes) :=
  match ips with
  | [] => []
  | ip :: ips =>
      map (fun j => ((nodeIdx * connections + j)%nat, ip)) (seq 0 connections)
      ++ relayDials connections (S nodeIdx) ips
  end.
Definition directDials (connections : nat) : list (nat * bytes) :=
  map (fun i => (i, [])) (seq 0 connections).

Definition addRelays (lookup : bytes -> option (list IP)) (nodes : list bytes) (m : RelayNodeManager)
    : RelayNodeManager := foldl (fun m a => (AddNode lookup a (lit "443") m).1) m nodes.

Section Start.
Context {srt : SliceSort}.

Definition poolStart (lookup lookup' : bytes -> option (list IP)) (test : nat -> probe)
    (relayNodes : list bytes) (x : XClient) : XClient :=
  let cfg := xc_config x in
  let connections := Z.to_nat (Connections cfg) in
  let m := updateHealthScore (testAllNodes lookup' test (addRelays lookup relayNodes (xc_relay x))) in
  let relayCount := length relayNodes in
  let x := x <| xc_relay := m |> <| xc_relayCount := Z.of_nat relayCount |> in
  let warm total x := if EnableHotPair cfg then x <| xc_delayed ::= cons (Z.of_nat total) |> else x in
  match (if (0 <? relayCount)%nat then SelectBestNodes relayCount m else []) with
  | [] => warm connections (x <| xc_dials ::= fun l => l ++ directDials connections |>)
  | best =>
      let total := (length best * connections)%nat in
      let x := updNet (resizeChannels total) x in
      warm total (x <| xc_dials ::= fun l => l ++ relayDials connections 0 (map sn_ip best) |>)
  end.

(** [false]: the error "already started". *)
Definition Start (lookup lookup' : bytes -> option (list IP)) (test : nat -> probe) (x : XClient)
    : XClient * bool :=
  if xc_started x then (x, false)
  else ((poolStart lookup lookup' test (RelayNodes (xc_config x)) x) <| xc_started := true |>, true).
End Start.

(** [Reconnect], [Shutdown], [Stats] of the client. *)
Definition xReconnect (x : XClient) : XClient := updNet Reconnect x.

Definition poolShutdown (x : XClient) : XClient :=
  if xc_shutdownOnce x then x else (updNet shutdown x) <| xc_shutdownOnce := true |>.

Definition xShutdown (x : XClient) : XClient :=
  if negb (xc_started x) then x else
  let x := updNet (fun s => s <| cn_done := true |>) x in
  (poolShutdown x) <| xc_started := false |>.

Definition xStats (x : XClient) : ClientPool.Stats * Z := (poolStats (xc_client x), NodeCount (xc_relay x)).

(** How a goroutine [dialAndServe] begins; [None]: it returns at once. *)
Definition dialEntry (x : XClient) (d : nat * bytes) : option dialLoop :=
  if cn_done (xnet x) then None else Some (newDialLoop d.2).

(** [RegisterTCP] *)
Definition RegisterTCP (connID target : bytes) (x : XClient) : XClient :=
  x <| xc_client ::= updP (fun p =>
    let '(p, g) := newSignal p in
    p <| cp_conns ::= <[connID := newConnState <| st_target := target |> <| st_connected := Some g |>]> |>) |>.

(** ** The server *)
Record Server := mkServer {
  sv_config : Server.ServerConfig; sv_pool : serverPool; sv_hasCert : bool;
  sv_serving : bool;                   (* the HTTP server listens *)
  sv_started : bool }.
#[export] Instance Server_eta : Eta Server := fun s =>
  mkServer (sv_config s) (sv_pool s) (sv_hasCert s) (sv_serving s) (sv_started s).

Inductive serverError := ErrServerConfig (e : Server.ConfigError) | ErrLoadCert | ErrGenerateCert.

(** [pool] is the fresh pool; [load], [generate]: whether the certificate could be had. *)
Definition NewServer (cfg : Server.ServerConfig) (pool : serverPool) (load generate : bool)
    : serverError + Server :=
  match Server.Validate cfg with
  | Some e => inl (ErrServerConfig e)
  | None =>
      let server cert := mkServer cfg pool cert false false in
      if negb (bool_decide (Server.CertFile cfg = [])) && negb (bool_decide (Server.KeyFile cfg = []))
      then if load then inr (server true) else inl ErrLoadCert
      else if Server.AutoCert cfg
      then if generate then inr (server true) else inl ErrGenerateCert
      else inr (server false)
  end.

Inductive startError := ErrStarted | ErrListen.
Definition serverStart (listens : bool) (s : Server) : Server * option startError :=
  if sv_started s then (s, Some ErrStarted)
  else if listens then (s <| sv_serving := true |> <| sv_started := true |>, None)
  else (s, Some ErrListen).

Definition serverShutdown (s : Server) : Server :=
  if negb (sv_started s) then s
  else s <| sv_serving := false |> <| sv_pool ::= Shutdown |> <| sv_started := false |>.
