(* ===== verification/FacadeSpecs.v ===== *)
(** Theorems about the life of the client: what a start sets up, and what a shutdown
    leaves behind. *)

From S2P Require Import Prelude Protocol Outcome GoNet Config Channels ServerState ServerPool PairWarmer ClientNet ClientNetInv ClientNetSpecs ClientNetWaits ClientState ClientPool ClientSession Relay RelaySpecs Facade.
Import Config.Client.

(** ** The channels of a started client *)

(** Each of the channels has an open, empty queue of its own and no socket. *)
Definition channelsReady (total : nat) (s : ClientNet) : Prop :=
  cn_wsConns s = replicate total None /\ NoDup (cn_writeQueues s)
  /\ length (cn_writeQueues s) = total
  /\ forall i, (i < total)%nat -> exists q,
       cn_writeQueues s !! i = Some (Some q) /\ cn_queues s !! q = Some (mkJobQueue [] false).

Lemma makeQueues_spec n : forall queues queues' l, makeQueues n queues = (queues', l) ->
  queues ⊆ queues' /\ length l = n /\ NoDup l
  /\ (forall e, e ∈ l -> exists q, e = Some q /\ queues !! q = None /\ queues' !! q = Some (mkJobQueue [] false)).
Proof.
  induction n as [|n IH]; intros queues queues' l; cbn [makeQueues].
  { intros [= <- <-]. split; [done|]. split; [done|]. split; [constructor|]. intros e []%not_elem_of_nil. }
  set (q := fresh (dom queues)). pose proof (fresh_none queues) as Hq. fold q in Hq.
  destruct (makeQueues n _) as [queues1 l1] eqn:E. intros [= <- <-].
  destruct (IH _ _ _ E) as (Hsub & Hlen & Hnd & Hel).
  assert (queues1 !! q = Some (mkJobQueue [] false)) as Hq1
    by (apply (lookup_weaken _ _ _ _ (lookup_insert_eq queues q _) Hsub)).
  assert (queues ⊆ <[q:=mkJobQueue [] false]> queues) as Hins by by apply insert_subseteq.
  split; [by transitivity (<[q:=mkJobQueue [] false]> queues)|]. split; [cbn; by rewrite Hlen|].
  split.
  - constructor; [|done]. intros (q' & [= <-] & Hn & _)%Hel. by rewrite lookup_insert_eq in Hn.
  - intros e [->|(q' & -> & Hn & Hy)%Hel]%elem_of_cons; [by exists q|]. exists q'. split; [done|]. split; [|done].
    destruct (decide (q = q')) as [->|Hne]; [by rewrite lookup_insert_eq in Hn|by rewrite lookup_insert_ne in Hn].
Qed.

Lemma resizeChannels_ready total s : channelsReady total (resizeChannels total s).
Proof.
  unfold resizeChannels. destruct (makeQueues total (cn_queues s)) as [queues l] eqn:E.
  destruct (makeQueues_spec _ _ _ _ E) as (_ & Hlen & Hnd & Hel).
  split; [done|]. split; [done|]. split; [done|]. cbn. intros i Hi.
  destruct (lookup_lt_is_Some_2 l i ltac:(lia)) as [e He].
  destruct (Hel e (list_elem_of_lookup_2 _ _ _ He)) as (q & -> & _ & Hq). by exists q.
Qed.

Lemma newClientNet_ready cfg sched : channelsReady (Z.to_nat (Connections cfg)) (newClientNet cfg sched).
Proof.
  unfold newClientNet. set (n := Z.to_nat (Connections cfg)). split; [done|]. cbn. split.
  - apply NoDup_fmap_2; [|apply NoDup_seq]. intros x y. cbn. intros [= H]. lia.
  - split; [by rewrite length_map, length_seq|]. intros i Hi. exists (Pos.of_succ_nat i). split.
    + rewrite list_lookup_fmap, lookup_seq_lt by done. done.
    + destruct (initialQueues_some n i Hi) as [jq Hjq]. by rewrite Hjq, (initialQueues_lookup _ _ _ Hjq).
Qed.

Lemma relayDials_channels c ips : forall k,
  map fst (relayDials c k ips) = seq (k * c) (length ips * c).
Proof.
  induction ips as [|ip ips IH]; intros k; [done|]. cbn [relayDials length]. rewrite map_app, IH, map_map.
  replace (S (length ips) * c)%nat with (c + length ips * c)%nat by lia. rewrite seq_app.
  replace (S k * c)%nat with (k * c + c)%nat by lia. f_equal.
  rewrite <- (Nat.add_0_r (k * c)). by rewrite <- (fmap_add_seq (k * c) 0 c), Nat.add_0_r.
Qed.

Lemma relayDials_nodes c ips : forall k i ip,
  (i, ip) ∈ relayDials c k ips -> exists j, (i / c)%nat = (k + j)%nat /\ ips !! j = Some ip.
Proof.
  induction ips as [|a ips IH]; intros k i ip; cbn [relayDials]; [by intros []%not_elem_of_nil|].
  intros [(j & [= -> ->] & Hj)%list_elem_of_fmap|(j & Hi & Hip)%IH]%elem_of_app.
  - apply elem_of_seq in Hj. exists O. split; [|done].
    rewrite Nat.div_add_l, Nat.div_small by lia. lia.
  - exists (S j). split; [|done]. lia.
Qed.

(** Channel [i] dials through node [i / connections], or all dial the server. *)
Definition dialsVia (connections : nat) (ips : list bytes) (dials : list (nat * bytes)) : Prop :=
  map fst dials = seq 0 ((if decide (ips = []) then 1 else length ips) * connections)
  /\ forall i ip, (i, ip) ∈ dials ->
       if decide (ips = []) then ip = [] else ips !! (i / connections)%nat = Some ip.

Section Started.
Context {srt : SliceSort}.

Lemma SelectBestNodes_length n m : length (SelectBestNodes n m) = min n (length (rnm_nodes m)).
Proof.
  unfold SelectBestNodes. rewrite length_take. f_equal.
  rewrite (Permutation_length (sortSlice_perm _ betterScore (snapshotNodes m))).
  unfold snapshotNodes. apply length_imap.
Qed.

Lemma directDials_via c : dialsVia c [] (directDials c).
Proof.
  unfold dialsVia, directDials. rewrite !decide_True by done. split; [rewrite map_map, map_id; f_equal; lia|].
  intros i ip (j & [= -> ->] & _)%list_elem_of_fmap. by rewrite decide_True.
Qed.

Lemma relayDials_via c ips : ips <> [] -> dialsVia c ips (relayDials c 0 ips).
Proof.
  intros Hne. unfold dialsVia. rewrite !decide_False by done. split; [apply (relayDials_channels c ips 0)|].
  intros i ip (j & -> & H)%relayDials_nodes. by rewrite decide_False.
Qed.

(** The effect of [poolStart], the two branches brought together. *)
Lemma poolStart_spec lookup lookup' test nodes x :
  let y := poolStart lookup lookup' test nodes x in
  let c := Z.to_nat (Connections (xc_config x)) in
  let ips := map sn_ip (SelectBestNodes (length nodes) (xc_relay y)) in
  exists dials,
  dialsVia c ips dials /\ xc_dials y = xc_dials x ++ dials
  /\ xnet y = (if decide (ips = []) then xnet x else resizeChannels (length dials) (xnet x))
  /\ xc_delayed y = (if EnableHotPair (xc_config x) then [Z.of_nat (length dials)] else []) ++ xc_delayed x
  /\ xc_relay y = updateHealthScore (testAllNodes lookup' test (addRelays lookup nodes (xc_relay x))).
Proof.
  cbv zeta. unfold poolStart. set (m := updateHealthScore _). set (c := Z.to_nat _).
  assert ((if (0 <? length nodes)%nat then SelectBestNodes (length nodes) m else [])
    = SelectBestNodes (length nodes) m) as -> by (by destruct nodes).
  destruct (SelectBestNodes (length nodes) m) as [|s best] eqn:E.
  - exists (directDials c).
    assert (length (directDials c) = c) as -> by (unfold directDials; by rewrite length_map, length_seq).
    destruct (EnableHotPair (xc_config x)); cbn; rewrite E; cbn; repeat split; try done;
      (eapply directDials_via || apply directDials_via).
  - exists (relayDials c 0 (map sn_ip (s :: best))).
    assert (length (relayDials c 0 (map sn_ip (s :: best))) = (length (s :: best) * c)%nat) as ->.
    { rewrite <- (length_map fst), relayDials_channels, length_seq, length_map. done. }
    destruct (EnableHotPair (xc_config x)); cbn [xc_relay upd setter XClient_eta updNet xc_dials xc_delayed];
      rewrite E; (split; [by apply relayDials_via|]); repeat split; by rewrite decide_False.
Qed.

Lemma NewClient_fresh cfg uuid sched x :
  NewClient cfg uuid sched = inr x ->
  Connections (xc_config x) = Connections cfg /\ RelayNodes (xc_config x) = RelayNodes cfg
  /\ EnableHotPair (xc_config x) = EnableHotPair cfg /\ xc_dials x = [] /\ xc_delayed x = []
  /\ xc_relay x = NewRelayNodeManager /\ xnet x = newClientNet cfg sched.
Proof.
  unfold NewClient. destruct (Validate cfg); [done|]. intros [= <-]. by case_bool_decide.
Qed.

(** C28: a started client dials every channel of its pool exactly once, and each channel
    is ready to be served. With [k] chosen nodes there are [k] times [Connections]
    channels, [Connections] of them through each node, best node first; the server is
    dialled directly exactly if no relay node is known. *)
Theorem client_start_channels cfg uuid sched lookup lookup' test x x' :
  NewClient cfg uuid sched = inr x -> Start lookup lookup' test x = (x', true) ->
  let c := Z.to_nat (Connections cfg) in
  let ips := map sn_ip (SelectBestNodes (length (RelayNodes cfg)) (xc_relay x')) in
  dialsVia c ips (xc_dials x')
  /\ channelsReady (length (xc_dials x')) (xnet x')
  /\ (ips = [] <-> rnm_nodes (xc_relay x') = [])
  /\ xc_delayed x' = if EnableHotPair cfg then [Z.of_nat (length (xc_dials x'))] else [].
Proof.
  intros Hnew Hst. cbv zeta. unfold Start in Hst. destruct (xc_started x); [done|]. injection Hst as <-.
  destruct (NewClient_fresh _ _ _ _ Hnew) as (Ec & En & Eh & Ed & Ew & Em & Es).
  destruct (poolStart_spec lookup lookup' test (RelayNodes (xc_config x)) x) as (dials & Hv & H1 & H2 & H3 & H4).
  set (y := poolStart _ _ _ _ _) in *.
  cbn [xc_dials xc_relay xc_delayed upd setter XClient_eta].
  match goal with |- context [xnet ?z] => change (xnet z) with (xnet y) end.
  rewrite Ec, En, Eh, Ed, Ew, Es in *. cbn [app] in H1. rewrite app_nil_r in H3. rewrite H1, H2, H3. clear H1 H2 H3.
  set (ips := map sn_ip _) in *. split; [done|]. split; [|split; [|done]].
  - destruct (decide (ips = [])) as [E|_]; [|apply resizeChannels_ready].
    destruct Hv as [Hv _]. rewrite decide_True in Hv by done. apply (f_equal length) in Hv.
    rewrite length_map, length_seq in Hv. rewrite Hv, Nat.mul_1_l. apply newClientNet_ready.
  - assert (ips = [] <-> length ips = O) as -> by (by destruct ips).
    unfold ips. rewrite length_map, SelectBestNodes_length.
    destruct (RelayNodes cfg) as [|a nodes]; [by rewrite H4, Em|].
    destruct (rnm_nodes (xc_relay y)); by cbn.
Qed.
End Started.

Definition demoConfig : Config :=
  DefaultConfig <| ServerAddr := lit "wss://example.org:443/ws" |>
    <| Connections := 2 |> <| RelayNodes := [lit "192.0.2.1"; slowNode] |>.
Definition demoNew : ConfigError + XClient := NewClient demoConfig (lit "u-1") [].
Definition demoX : XClient :=
  match demoNew with inr x => x | inl _ => mkXClient demoConfig (newClient demoConfig []) NewRelayNodeManager 0 [] [] false false end.
Definition demoStarted : XClient := (Start noDNS noDNS demoProbe demoX).1.

Lemma client_start_channels_witness :
  xc_dials demoStarted = [(0%nat, fastNode); (1%nat, fastNode); (2%nat, slowNode); (3%nat, slowNode)]
  /\ channelsReady 4 (xnet demoStarted).
Proof.
  split; [vm_compute; reflexivity|].
  assert (channelsReady (length (xc_dials demoStarted)) (xnet demoStarted)) as H.
  { exact (proj1 (proj2 (client_start_channels demoConfig (lit "u-1") [] noDNS noDNS demoProbe demoX demoStarted
      ltac:(vm_compute; reflexivity) ltac:(vm_compute; reflexivity)))). }
  replace 4%nat with (length (xc_dials demoStarted)) by (vm_compute; reflexivity). exact H.
Defined.

(** ** After a shutdown *)

(** What callers and goroutines do with a client; the shutdown of the pool only through
    [Shutdown]. *)
Inductive xop :=
| XoStart (lookup lookup' : bytes -> option (list IP)) (test : nat -> probe)
| XoShutdown
| XoReconnect
| XoRegister (connID target : bytes)
| XoNet (e : netEvent).

Definition runXop {srt : SliceSort} (cfg : Config) (o : xop) (x : XClient) : XClient :=
  match o with
  | XoStart lookup lookup' test => (Start lookup lookup' test x).1
  | XoShutdown => xShutdown x
  | XoReconnect => xReconnect x
  | XoRegister connID target => RegisterTCP connID target x
  | XoNet e => updNet (netApply cfg e) x
  end.
Definition xStep {srt : SliceSort} (cfg : Config) (P : xop -> Prop) (x x' : XClient) : Prop :=
  exists o, P o /\ x' = runXop cfg o x.

Definition finished (x : XClient) : Prop := cn_done (xnet x) = true /\ xc_shutdownOnce x = true.

Lemma netApply_done cfg e s : cn_done s = true -> cn_done (netApply cfg e s) = true.
Proof.
  intros Hd.
  assert ((forall st, e <> NeBackpressure st) -> e <> NeCancel -> e <> NeShutdown ->
    cn_done (netApply cfg e s) = true) as Hsame
    by (intros H1 H2 H3; by destruct (signals_eq _ _ _ _ (netApply_signals cfg e s H1 H2 H3)) as (_ & _ & ->)).
  destruct e as [| st | | | | | |]; try (by apply Hsame); [|done|].
  - cbn. unfold handleBackpressure. by repeat destruct (_ =? _).
  - by destruct (signals_eq _ _ _ _ (shutdown_signals s)) as (_ & _ & E).
Qed.

Lemma xShutdown_finished x : xc_started x = true -> finished (xShutdown x).
Proof.
  intros Hs. unfold xShutdown. rewrite Hs. cbn [negb]. unfold poolShutdown.
  match goal with |- context [if ?b then _ else _] => destruct b eqn:E end; [by split|]. split; [|done].
  match goal with |- cn_done (xnet ?z) = true => change (xnet z) with (shutdown ((xnet x) <| cn_done := true |>)) end.
  by destruct (signals_eq _ _ _ _ (shutdown_signals ((xnet x) <| cn_done := true |>))) as (_ & _ & ->).
Qed.

Section Life.
Context {srt : SliceSort} (cfg : Config).

(** What a start does to the network. *)
Lemma Start_net lookup lookup' test x :
  xnet (Start lookup lookup' test x).1 = xnet x
  \/ exists total, xnet (Start lookup lookup' test x).1 = resizeChannels total (xnet x).
Proof.
  unfold Start. destruct (xc_started x); [by left|].
  destruct (poolStart_spec lookup lookup' test (RelayNodes (xc_config x)) x) as (dials & _ & _ & H & _).
  set (y := poolStart _ _ _ _ _) in *.
  match goal with |- context [xnet ?z] => change (xnet z) with (xnet y) end. rewrite H.
  destruct (decide _); [by left|right; by eexists].
Qed.

Lemma resizeChannels_done total s : cn_done (resizeChannels total s) = cn_done s.
Proof. unfold resizeChannels. by destruct (makeQueues _ _). Qed.

Lemma Start_once lookup lookup' test x : xc_shutdownOnce (Start lookup lookup' test x).1 = xc_shutdownOnce x.
Proof.
  unfold Start, poolStart. destruct (xc_started x); [done|].
  destruct (if (0 <? _)%nat then _ else _); by destruct (EnableHotPair _).
Qed.

Lemma runXop_finished o x : finished x -> finished (runXop cfg o x).
Proof.
  intros [Hd Ho]. destruct o as [lookup lookup' test| | |connID target|e]; cbn [runXop].
  - split; [|by rewrite Start_once].
    destruct (Start_net lookup lookup' test x) as [->|[total ->]]; [done|by rewrite resizeChannels_done].
  - unfold xShutdown. destruct (xc_started x); [|by split]. cbn [negb]. unfold poolShutdown.
    match goal with |- context [if ?b then _ else _] => change b with (xc_shutdownOnce x) end. rewrite Ho. by split.
  - by split.
  - unfold RegisterTCP, newSignal. by split.
  - split; [|done]. apply (netApply_done cfg e _ Hd).
Qed.

(** C30: a client that was shut down once stays shut down: a later [Start] reports no error
    and lists its dials, but every dialling goroutine returns at once, and a later
    [Shutdown] does nothing to the channels. *)
Theorem restarted_client_is_dead x x' :
  xc_started x = true -> rtc (xStep cfg (fun _ => True)) (xShutdown x) x' ->
  (forall d, dialEntry x' d = None) /\ xnet (xShutdown x') = xnet x'
  /\ forall lookup lookup' test, xc_started x' = false ->
       let '(y, ok) := Start lookup lookup' test x' in
       ok = true /\ (forall d, dialEntry y d = None) /\ xnet (xShutdown y) = xnet y.
Proof.
  intros Hs Hr.
  assert (finished x') as Hf.
  { apply (rtc_invariant (xStep cfg (fun _ => True)) finished) with (xShutdown x); [|done|by apply xShutdown_finished].
    intros y z (o & _ & ->). by apply runXop_finished. }
  assert (forall y, finished y -> (forall d, dialEntry y d = None) /\ xnet (xShutdown y) = xnet y) as Hdead.
  { intros y [Hd Ho]. split; [intros d; unfold dialEntry; by rewrite Hd|].
    unfold xShutdown. destruct (xc_started y); [|done]. cbn [negb]. unfold poolShutdown.
    match goal with |- context [if ?b then _ else _] => change b with (xc_shutdownOnce y) end. rewrite Ho.
    change ((xnet y) <| cn_done := true |> = xnet y). revert Hd. destruct (xnet y). cbn. by intros ->. }
  split; [by apply Hdead|]. split; [by apply Hdead|]. intros lookup lookup' test Hst.
  pose proof (runXop_finished (XoStart lookup lookup' test) x' Hf) as Hy. cbn [runXop] in Hy.
  unfold Start in *. rewrite Hst in *. split; [done|]. by apply Hdead.
Qed.
End Life.

Definition demoAfter : XClient := (Start noDNS noDNS demoProbe (xShutdown demoStarted)).1.

Lemma demoAfter_run : rtc (xStep demoConfig (fun _ => True)) (xShutdown demoStarted) demoAfter.
Proof. apply rtc_once. by exists (XoStart noDNS noDNS demoProbe). Qed.

Lemma restarted_client_is_dead_witness :
  xc_started demoStarted = true /\ xc_started demoAfter = true
  /\ dialEntry demoStarted (0%nat, fastNode) = Some (newDialLoop fastNode)
  /\ dialEntry demoAfter (0%nat, fastNode) = None.
Proof.
  split; [vm_compute; reflexivity|]. split; [vm_compute; reflexivity|]. split; [vm_compute; reflexivity|].
  apply (proj1 (restarted_client_is_dead demoConfig demoStarted demoAfter ltac:(vm_compute; reflexivity) demoAfter_run)).
Defined.

(** ** A dial that is under way during the shutdown *)
Definition stillOpen (c : sockid) (s : ClientNet) : Prop :=
  exists k, cn_socks s !! c = Some k /\ cs_closed k = false.

(** Everything but: a reader that ends, a write that fails, a reconnect that is taken. *)
Definition undisturbed (o : xop) : Prop :=
  match o with
  | XoNet (NeClose _ | NeReconnect | NeShutdown | NeWorker _ _ true) => False
  | _ => True
  end.

Section Late.
Context {srt : SliceSort} (cfg : Config) (c : sockid).

Lemma open_same s s' : cn_socks s' = cn_socks s -> stillOpen c s -> stillOpen c s'.
Proof. unfold stillOpen. by intros ->. Qed.

Lemma release_socks size s : cn_socks (releaseQueueBytes size s) = cn_socks s.
Proof. unfold releaseQueueBytes. by destruct (_ <=? _). Qed.

Lemma drainJobs_socks jobs : forall s, cn_socks (drainJobs jobs s) = cn_socks s.
Proof. induction jobs as [|j jobs IH]; intros s; [done|]. cbn. by rewrite IH, release_socks. Qed.

Lemma open_workerExit k w s : stillOpen c s -> stillOpen c (workerExit k w s).
Proof. apply open_same. apply drainJobs_socks. Qed.

(** A write that is not made to fail closes its socket only if that is closed already. *)
Lemma open_sockWrite c' mt d s : stillOpen c s ->
  match sockWrite c' mt d false s with
  | (s', true) => stillOpen c s'
  | (s', false) => stillOpen c (sockClose c' s')
  end.
Proof.
  intros (k & Hk & Ho). unfold sockWrite. destruct (cn_socks s !! c') as [k'|] eqn:E.
  - destruct (decide (c' = c)) as [->|Hne].
    + assert (k' = k) as -> by congruence. rewrite Ho. exists (k <| cs_wire ::= fun l => l ++ [(mt, d)] |>).
      split; [|done]. unfold updSock. cbn. by rewrite lookup_alter_eq, Hk.
    + destruct (cs_closed k' || false); exists k; (split; [|done]); unfold sockClose, updSock; cbn;
        by rewrite lookup_alter_ne.
  - exists k. split; [|done]. unfold sockClose, updSock. cbn. rewrite lookup_alter_ne; congruence.
Qed.

Lemma open_workerWrite k w mt d s : stillOpen c s -> stillOpen c (workerWrite k w mt d false s).
Proof.
  intros Hs. unfold workerWrite. pose proof (open_sockWrite (wk_conn w) mt d s Hs) as H.
  destruct (sockWrite _ _ _ _ s) as [s1 []]; [|by apply open_workerExit].
  revert H. apply open_same. unfold caddSentBytes. by destruct (0 <? len d).
Qed.

Lemma open_workerJob k w job s : stillOpen c s -> stillOpen c (workerJob cfg k w job false s).
Proof.
  intros Hs. unfold workerJob. destruct (negb _); [by apply open_workerWrite|].
  destruct (DecodeMessage _) as [[|]|]; [by apply open_workerWrite| |by apply open_workerWrite].
  destruct (negb _); [by apply open_workerWrite|]. destruct (aggLoop _ _ _ _) as [[parts pending] rest].
  apply open_workerWrite. revert Hs. apply open_same. cbn. apply drainJobs_socks.
Qed.

Lemma open_workerTurn k ev s : stillOpen c s -> stillOpen c (workerTurn cfg k ev false s).
Proof.
  intros Hs. unfold workerTurn. destruct (cn_workers s !! k) as [w|]; [|done].
  destruct (wk_pending w); [by apply open_workerJob|]. destruct ev.
  - unfold queueRecv. destruct (cn_queues s !! wk_queue w) as [[[|j jobs] cl]|]; [|..|done].
    + destruct cl; [by apply open_workerExit|done].
    + apply open_workerJob. revert Hs. apply open_same. by rewrite release_socks.
  - pose proof (open_sockWrite (wk_conn w) PingMessage [] s Hs) as H.
    destruct (sockWrite _ _ _ _ s) as [s1 []]; [done|by apply open_workerExit].
  - destruct (cn_done s); [by apply open_workerExit|done].
Qed.

Lemma open_sessionOpen idx s : stillOpen c s -> stillOpen c (sessionOpen idx s).
Proof.
  intros (k & Hk & Ho). unfold sessionOpen. case_bool_decide; [|by exists k]. exists k. split; [|done]. cbn.
  rewrite lookup_insert_ne; [done|]. intros E. pose proof (fresh_none (cn_socks s)) as Hn. congruence.
Qed.

Lemma open_runXop o x :
  undisturbed o -> finished x -> stillOpen c (xnet x) -> stillOpen c (xnet (runXop cfg o x)).
Proof.
  intros Hq [_ Ho] Hs. destruct o as [lookup lookup' test| | |connID target|e]; cbn [runXop].
  - destruct (Start_net lookup lookup' test x) as [->|[total ->]]; [done|]. revert Hs. apply open_same.
    unfold resizeChannels. by destruct (makeQueues _ _).
  - unfold xShutdown. destruct (xc_started x); [|done]. cbn [negb]. unfold poolShutdown.
    match goal with |- context [if ?b then _ else _] => change b with (xc_shutdownOnce x) end. by rewrite Ho.
  - done.
  - unfold RegisterTCP, newSignal. done.
  - change (stillOpen c (netApply cfg e (xnet x))). destruct e as [k ev []|st|d|idx|idx| | |]; cbn in Hq; try done;
      cbn [netApply].
    + by apply open_workerTurn.
    + revert Hs. apply open_same. unfold handleBackpressure. by repeat destruct (_ =? _).
    + by apply open_sessionOpen.
Qed.
End Late.


Definition demoLate : XClient := updNet (sessionOpen 0) (xShutdown demoStarted).
Lemma demoLate_run : rtc (xStep demoConfig undisturbed) demoLate (xShutdown (Start noDNS noDNS demoProbe demoLate).1).
Proof.
  eapply rtc_l; [exists (XoStart noDNS noDNS demoProbe); split; [done|reflexivity]|].
  apply rtc_once. by exists XoShutdown.
Qed.

