(* ===== verification/ServerLife.v ===== *)
(** Theorems about the life of the server: starting, stopping, starting again. *)

From S2P Require Import Prelude Config Channels ChannelQueue ChannelRegistry ReverseListener ServerState ServerPool Handlers ServerSystem Facade.

(** The connection is known, and closed if [closed]. *)
Definition wsAt (closed : bool) (w : wsid) (s : Net) : Prop :=
  exists c, n_heap s !! w = Some c /\ (closed = true -> ws_closed c = true).

Lemma wsAt_inactive w s : wsAt true w s -> isActive s w = false.
Proof. intros (c & Hc & Hcl). unfold isActive. by rewrite Hc, Hcl. Qed.

Lemma netStep_wsAt cfg b w s s' : netStep cfg s s' -> wsAt b w s -> wsAt b w s'.
Proof.
  intros [[_ _ H]|[(cl & ch & a & ->)|(cl & ch & ->)]]%netStep_ids (c & Hc & Hcl).
  - specialize (H w). rewrite Hc in H. inversion H as [x c' (_ & _ & Hk) E1 E2|]; subst. exists c'.
    split; [by symmetry|auto].
  - exists c. split; [|done]. pose proof (registerChannel_cases cfg cl ch a s) as Hs.
    destruct (registerChannel cfg cl ch a s) as [s' []]; cbn [fst]; [|by destruct Hs as [-> _]..].
    destruct Hs as (_ & -> & _). by rewrite registered_heap_ne by by eexists.
  - exists c. split; [|done]. unfold forgetChannel. destruct (n_clientChConns s !! cl) as [m|]; [|done].
    by destruct (m !! ch).
Qed.

Lemma poolLe_wsAt b w p p' : poolLe p p' -> wsAt b w (p_net p) -> wsAt b w (p_net p').
Proof.
  intros H. generalize (pl_net _ _ H). generalize (p_net p), (p_net p'). intros s s' Hr Hc.
  apply (rtc_invariant (netStep (p_config p)) (wsAt b w)) with s; [|done|done].
  intros x y. apply netStep_wsAt.
Qed.

Lemma closeWS_closes w p : wsAt false w (p_net p) -> wsAt true w (p_net (closeWS w p)).
Proof.
  intros (c & Hc & _). unfold closeWS. rewrite Hc. destruct (ws_closed c) eqn:E; [by exists c|].
  apply (poolLe_wsAt _ _ _ _ (cleanupChannel_le _ _ _)). cbn. unfold wsAt, markClosed.
  rewrite updWS_lookup. rewrite decide_True, Hc by done. by eexists.
Qed.

Lemma foldl_closeWS_closes l : forall p w,
  w ∈ l -> wsAt false w (p_net p) -> wsAt true w (p_net (foldl (fun p w => closeWS w p) p l)).
Proof.
  induction l as [|v l IH]; intros p w Hin Hw; [by apply not_elem_of_nil in Hin|]. cbn [foldl].
  destruct (decide (v = w)) as [->|Hne].
  - apply (poolLe_wsAt _ _ (closeWS w p)); [|by apply closeWS_closes].
    apply foldl_le. intros q x. apply closeWS_le.
  - apply elem_of_cons in Hin as [->|Hin]; [done|]. apply IH; [done|].
    by apply (poolLe_wsAt _ _ p); [apply closeWS_le|].
Qed.

(** stopping a running server closes every channel that is registered; a stopped
    server can be started again, a running one cannot, and a port that is
    taken leaves it stopped. *)
Theorem server_start_stop token cfg now s :
  rtc poolStep (newServerPool token cfg now) (sv_pool s) -> sv_started s = true ->
  let s' := serverShutdown s in
  (forall i w, n_wsConns (p_net (sv_pool s)) !! i = Some (Some w) ->
     isActive (p_net (sv_pool s')) w = false)
  /\ sv_serving s' = false
  /\ serverStart true s = (s, Some ErrStarted)
  /\ serverStart false s' = (s', Some ErrListen)
  /\ (serverStart true s').2 = None /\ sv_started (serverStart true s').1 = true
  /\ serverShutdown s' = s'.
Proof.
  intros Hr Hs. cbv zeta. unfold serverShutdown, serverStart. rewrite Hs. cbn. split; [|done].
  intros i w Hi. apply wsAt_inactive. unfold Shutdown. apply foldl_closeWS_closes.
  - cbn. apply list_elem_of_omap. exists (Some w). split; [|done]. by apply (list_elem_of_lookup_2 _ i).
  - cbn. pose proof (pl_net _ _ (poolSteps_le _ _ Hr)) as Hn.
    apply (reachable_regInv cfg now) in Hn as [Hsl _ _ _].
    destruct (Hsl w) as [c Hc]; [by apply (list_elem_of_lookup_2 _ i)|]. by exists c.
Qed.

Definition demoServer : Server := mkServer Server.DefaultServerConfig run4 true true true.
Lemma server_start_stop_witness :
  isActive (p_net run4) 1 = true /\ isActive (p_net (sv_pool (serverShutdown demoServer))) 1 = false.
Proof.
  split; [vm_compute; reflexivity|].
  apply (proj1 (server_start_stop (lit "t") Server.DefaultServerConfig 0 demoServer run4_steps eq_refl) 0%nat).
  vm_compute. reflexivity.
Defined.
